(** * The evaluation engine of larry618/eval

    A shallow embedding of the two historical variants of the engine:
    - [Boxed]: [src/engine.go], per-node data in boxed node records;
    - [Flat]:  [src/unnamed/part_000], per-node data in a flat [int16] bytecode.

    Both variants share the value model, the error values and [unifyType]. *)

From stdpp Require Import base numbers list strings.

Open Scope Z_scope.

(** ** Machine integers

    Go's fixed-width signed integers are integers modulo [2^bits], read in
    two's complement.  A conversion [intN(x)] and every arithmetic operation
    on [intN] wraps around. *)

Definition wrap (bits : Z) (z : Z) : Z :=
  (z + 2 ^ (bits - 1)) `mod` 2 ^ bits - 2 ^ (bits - 1).

Definition int8 (z : Z) : Z := wrap 8 z.
Definition int16 (z : Z) : Z := wrap 16 z.
Definition int64 (z : Z) : Z := wrap 64 z.
(** The platform [int]: 64 bits wide. *)
Definition int (z : Z) : Z := wrap 64 z.

Definition in_signed (bits : Z) (z : Z) : Prop := - 2 ^ (bits - 1) <= z < 2 ^ (bits - 1).
Definition in_unsigned (bits : Z) (z : Z) : Prop := 0 <= z < 2 ^ bits.

(** ** Values

    [Value] is Go's [interface{}]: a dynamically typed value.  The kinds the
    engine distinguishes each have a constructor; every other dynamic type is
    [VOther].  [VTime sec nsec] is a [time.Time] whose [Unix()] is [sec] and
    whose sub-second part is [nsec] nanoseconds; [VDuration ns] is a
    [time.Duration], a count of nanoseconds. *)

Inductive Value : Type :=
| VNil
| VBool (b : bool)
| VString (s : string)
| VInt64 (z : Z)
| VInt64s (l : list Z)
| VStrings (l : list string)
| VInt (z : Z)
| VInt32 (z : Z)
| VInt16 (z : Z)
| VInt8 (z : Z)
| VUint64 (z : Z)
| VUint32 (z : Z)
| VUint16 (z : Z)
| VUint8 (z : Z)
| VTime (sec nsec : Z)
| VDuration (ns : Z)
| VInts (l : list Z)
| VOther (tag : nat).

(** [time.Second], in nanoseconds. *)
Definition Second : Z := 1000000000.

(** [unifyType], the same function in both variants.  Go's [/] on integers
    truncates toward zero: [Z.quot]. *)
Definition unifyType (val : Value) : Value :=
  match val with
  | VInt v => VInt64 (int64 v)
  | VTime sec _ => VInt64 sec
  | VDuration v => VInt64 (int64 (Z.quot v Second))
  | VInts v => VInt64s (map int64 v)
  | VInt32 v => VInt64 (int64 v)
  | VInt16 v => VInt64 (int64 v)
  | VInt8 v => VInt64 (int64 v)
  | VUint64 v => VInt64 (int64 v)
  | VUint32 v => VInt64 (int64 v)
  | VUint16 v => VInt64 (int64 v)
  | VUint8 v => VInt64 (int64 v)
  | _ => val
  end.

(** The type switch [case bool, string, int64, []int64, []string] of
    [getSelectorValue]. *)
Definition canonical (res : Value) : bool :=
  match res with
  | VBool _ | VString _ | VInt64 _ | VInt64s _ | VStrings _ => true
  | _ => false
  end.

(** A value is well typed when its payload lies in the range of its Go type. *)
Definition well_typed (v : Value) : Prop :=
  match v with
  | VInt64 z | VInt z | VDuration z => in_signed 64 z
  | VInt32 z => in_signed 32 z
  | VInt16 z => in_signed 16 z
  | VInt8 z => in_signed 8 z
  | VUint64 z => in_unsigned 64 z
  | VUint32 z => in_unsigned 32 z
  | VUint16 z => in_unsigned 16 z
  | VUint8 z => in_unsigned 8 z
  | VTime sec nsec => in_signed 64 sec /\ 0 <= nsec < Second
  | VInt64s l | VInts l => Forall (in_signed 64) l
  | _ => True
  end.

(** The number an integer-kind value denotes. *)
Definition number (v : Value) : option Z :=
  match v with
  | VInt64 z | VInt z | VInt32 z | VInt16 z | VInt8 z
  | VUint64 z | VUint32 z | VUint16 z | VUint8 z => Some z
  | _ => None
  end.

(** The integer kinds [unifyType] converts to [int64]. *)
Definition narrow_int (v : Value) : bool :=
  match v with
  | VInt _ | VInt32 _ | VInt16 _ | VInt8 _
  | VUint64 _ | VUint32 _ | VUint16 _ | VUint8 _ => true
  | _ => false
  end.

(** ** Errors

    Go [error] values.  [ErrNew] is an error made outside the engine (by the
    context or by an operator); the other two are built by [Eval] with
    [fmt.Errorf].  Only the operator error uses the [%w] verb, so only it
    wraps another error. *)

Inductive error : Type :=
| ErrNew (msg : string)
| ErrOperatorExec (operator : Value) (err : error)
| ErrCondType (got : Value).

(** [errors.Unwrap]. *)
Definition Unwrap (e : error) : option error :=
  match e with
  | ErrOperatorExec _ err => Some err
  | _ => None
  end.

(** ** Slices indexed by machine integers

    An index out of range panics: [None]. *)

Definition load {A} (a : list A) (i : Z) : option A :=
  if decide (0 <= i) then a !! Z.to_nat i else None.

Definition store {A} (a : list A) (i : Z) (x : A) : option (list A) :=
  if decide (0 <= i < Z.of_nat (length a)) then Some (<[Z.to_nat i := x]> a) else None.

(** [make([]T, n)] panics on a negative length. *)
Definition make {A} (zero : A) (n : Z) : option (list A) :=
  if decide (0 <= n) then Some (replicate (Z.to_nat n) zero) else None.

(** ** Node types and short-circuit flags (the same bits in both variants) *)

Definition nodeTypeMask : Z := 7.
Definition constant : Z := 1.
Definition selector : Z := 2.
Definition operator : Z := 3.
Definition fastOperator : Z := 4.
Definition cond : Z := 5.
Definition end_ : Z := 6.
Definition debug : Z := 7.

Definition scMask : Z := 24.
Definition scIfFalse : Z := 8.
Definition scIfTrue : Z := 16.

(** The condition of the short-circuit loop:
    [(!b && flag&scIfFalse == scIfFalse) || (b && flag&scIfTrue == scIfTrue)]. *)
Definition fires (flag : Z) (b : bool) : bool :=
  (negb b && bool_decide (Z.land flag scIfFalse = scIfFalse))
  || (b && bool_decide (Z.land flag scIfTrue = scIfTrue)).

(** ** The outside world

    The context and the operators are external code that may have effects.
    [W] is the state they act on; [IO] pairs it with the log of the calls the
    engine made so far. *)

Definition SelectorKey : Type := Z.

Inductive call : Type :=
| CallGet (key : SelectorKey) (name : string)
| CallOp (node : Z) (params : list Value).

Record IO (W : Type) : Type := mkIO { world : W; calls : list call }.
Arguments mkIO {W} _ _.
Arguments world {W} _.
Arguments calls {W} _.

(** [Ctx]: the embedded [Selector] with its [Get] method, and the
    [context.Context], of which only the cancellation state matters. *)
Record Ctx (W : Type) : Type := mkCtx {
  Get : SelectorKey -> string -> W -> (Value * option error) * W;
  Cancelled : bool
}.
Arguments mkCtx {W} _ _.
Arguments Get {W} _ _ _ _.
Arguments Cancelled {W} _.

Definition Operator (W : Type) : Type :=
  Ctx W -> list Value -> W -> (Value * option error) * W.

(** What a call of [Eval] comes to. *)
Inductive result (W : Type) : Type :=
| Returns (res : Value) (err : option error) (io : IO W)
| Panics
| OutOfFuel.
Arguments Returns {W} _ _ _.
Arguments Panics {W}.
Arguments OutOfFuel {W}.

(** * The node-record variant ([src/engine.go]) *)

Module Boxed.
Section Engine.
Context {W : Type}.

(** [node].  [flag] is a [uint8], [childCnt] an [int8], [scIdx] and
    [childIdx] are [int16].  [op] is the field [operator] ([None] is the nil
    function); the node-type constant already has that name.  The slice
    [nodes []*node] is a list of records: no entry is a nil pointer. *)
Record node : Type := mkNode {
  flag : Z;
  childCnt : Z;
  scIdx : Z;
  childIdx : Z;
  selKey : SelectorKey;
  value : Value;
  op : option (Operator W)
}.

(** [Expr].  [exprScIdx] is the field [scIdx] of [Expr]; [Eval] reads the
    node's own [scIdx] instead.  All four tables hold [int16]. *)
Record Expr : Type := mkExpr {
  maxStackSize : Z;
  nodes : list node;
  parentIdx : list Z;
  exprScIdx : list Z;
  sfSize : list Z;
  osSize : list Z
}.

Definition getNodeType (n : node) : Z := Z.land (flag n) nodeTypeMask.

(** [getSelectorValue]: the type assertion [n.value.(string)] panics on a
    value that holds no string. *)
Definition getSelectorValue (ctx : Ctx W) (n : node) (io : IO W)
  : option ((Value * option error) * IO W) :=
  match value n with
  | VString name =>
      let '(r, w') := Get ctx (selKey n) name (world io) in
      let io' := mkIO w' (calls io ++ [CallGet (selKey n) name]) in
      match r with
      | (res, Some err) => Some ((res, Some err), io')
      | (res, None) =>
          if canonical res then Some ((res, None), io')
          else Some ((unifyType res, None), io')
      end
  | _ => None
  end.

Definition getNodeValue (ctx : Ctx W) (n : node) (io : IO W)
  : option ((Value * option error) * IO W) :=
  if decide (Z.land (flag n) nodeTypeMask = constant)
  then Some ((value n, None), io)
  else getSelectorValue ctx n io.

(** The working state of [Eval]: the loop's variables.  [sf] and [os] are
    the whole backing arrays; the live parts are [sf[0..sfTop]] and
    [os[0..osTop]]. *)
Record vm : Type := mkVM {
  maxIdx : Z;
  sf : list Z;
  sfTop : Z;
  os : list Value;
  osTop : Z;
  scTriggered : bool;
  io : IO W
}.

(** Two control points: the head of the dispatch loop, and the head of the
    short-circuit loop (with its variables [curt] and [res]). *)
Inductive config : Type :=
| AtLoop (s : vm)
| AtShortCircuit (s : vm) (curt : node) (res : Value).

Inductive outcome : Type :=
| Next (c : config)
| Done (res : Value) (err : option error) (io : IO W)
| Panicked.

Definition orPanic {A} (m : option A) (k : A -> outcome) : outcome :=
  match m with Some a => k a | None => Panicked end.

Notation "x <~ y ; z" := (orPanic y (fun x => z))
  (at level 20, y at level 100, z at level 200, only parsing).
Notation "' x <~ y ; z" := (orPanic y (fun x => z))
  (at level 20, x pattern, y at level 100, z at level 200, only parsing).

(** [sf[sfTop+1], sfTop = x, sfTop+1]. *)
Definition push {A} (a : list A) (top : Z) (x : A) : option (list A * Z) :=
  a' ← store a (int16 (top + 1)) x; Some (a', int16 (top + 1)).

(** [for i := int16(0); i < cnt; i++ { sf[sfTop-i] = childIdx + i }],
    [n] iterations left. *)
Fixpoint pushChildren (n : nat) (i : Z) (sf : list Z) (sfTop childIdx : Z)
  : option (list Z) :=
  match n with
  | O => Some sf
  | S n' =>
      sf' ← store sf (int16 (sfTop - i)) (int16 (childIdx + i));
      pushChildren n' (int16 (i + 1)) sf' sfTop childIdx
  end.

Section WithExpr.
Variable e : Expr.
Variable ctx : Ctx W.

(** The loop filling [param] of a [fastOperator] whose arity is not 2;
    [inr err] is the early [return nil, err]. *)
Fixpoint fastParams (n : nat) (i : Z) (childIdx : Z) (param : list Value) (io : IO W)
  : option ((list Value + error) * IO W) :=
  match n with
  | O => Some (inl param, io)
  | S n' =>
      child ← load (nodes e) (int16 (childIdx + i));
      '(r, io') ← getNodeValue ctx child io;
      match r with
      | (_, Some err) => Some (inr err, io')
      | (v, None) =>
          param' ← store param i v;
          fastParams n' (int16 (i + 1)) childIdx param' io'
      end
  end.

(** The parameters of a [fastOperator]. *)
Definition fastOperatorParams (cnt childIdx : Z) (io : IO W)
  : option ((list Value + error) * IO W) :=
  if decide (cnt = 2) then
    c0 ← load (nodes e) childIdx;
    '(r0, io0) ← getNodeValue ctx c0 io;
    match r0 with
    | (_, Some err) => Some (inr err, io0)
    | (p0, None) =>
        c1 ← load (nodes e) (int16 (childIdx + 1));
        '(r1, io1) ← getNodeValue ctx c1 io0;
        match r1 with
        | (_, Some err) => Some (inr err, io1)
        | (p1, None) => Some (inl [p0; p1], io1)
        end
    end
  else
    param ← make VNil cnt;
    fastParams (Z.to_nat cnt) 0 childIdx param io.

(** [copy(param, os[osTop+1:])] into a fresh [param] of length [cnt]: the
    slice expression panics unless [0 <= osTop+1 <= len(os)]; elements of
    [param] beyond the copied ones stay nil. *)
Definition copyParams (cnt : Z) (os : list Value) (osTop : Z) : option (list Value) :=
  param ← make VNil cnt;
  let low := int16 (osTop + 1) in
  if decide (0 <= low <= Z.of_nat (length os)) then
    let src := take (Z.to_nat cnt) (drop (Z.to_nat low) os) in
    Some (src ++ drop (length src) param)
  else None.

(** The parameters of an [operator] on its second visit; [osTop] is already
    lowered by [cnt]. *)
Definition operatorParams (cnt : Z) (os : list Value) (osTop : Z) : option (list Value) :=
  if decide (cnt = 2) then
    p0 ← load os (int16 (osTop + 1));
    p1 ← load os (int16 (osTop + 2));
    Some [p0; p1]
  else copyParams cnt os osTop.

(** [curt.operator(ctx, param)]: calling the nil function panics. *)
Definition invoke (curtIdx : Z) (curt : node) (param : list Value) (io : IO W)
  : option ((Value * option error) * IO W) :=
  f ← op curt;
  let '(r, w') := f ctx param (world io) in
  Some (r, mkIO w' (calls io ++ [CallOp curtIdx param])).

(** [debugStackFrame]: every entry below [sfTop] that is at least [offset]
    is lowered by [offset]. *)
Definition debugStackFrame (sf : list Z) (sfTop offset : Z) : list Z :=
  let n := Z.to_nat sfTop in
  ((fun x => if decide (offset <= x) then int16 (x - offset) else x) <$> take n sf)
  ++ drop n sf.

(** [printStacks] only reads and prints; what matters here is whether its
    indexing panics: [e.nodes[sf[i]]] for [i = sfTop .. 0] and [os[i]] for
    [i = osTop .. 0]. *)
Definition printStacks (os : list Value) (osTop : Z) (sf : list Z) (sfTop : Z) : option unit :=
  if decide (sfTop < Z.of_nat (length sf)
             /\ Forall (fun x => is_Some (load (nodes e) x)) (take (Z.to_nat (sfTop + 1)) sf)
             /\ osTop < Z.of_nat (length os))
  then Some tt else None.

(** One iteration of [for sfTop != -1 { ... }] up to the short-circuit
    block, or the final [return os[0], nil]. *)
Definition dispatch (s : vm) : outcome :=
  if decide (sfTop s = -1) then
    r <~ load (os s) 0; Done r None (io s)
  else
    curtIdx <~ load (sf s) (sfTop s);
    let sfTop := int16 (sfTop s - 1) in
    curt <~ load (nodes e) curtIdx;
    let ty := Z.land (flag curt) nodeTypeMask in
    if decide (ty = fastOperator) then
      let cnt := int16 (childCnt curt) in
      '(ps, io1) <~ fastOperatorParams cnt (childIdx curt) (io s);
      match ps with
      | inr err => Done VNil (Some err) io1
      | inl param =>
          '(r, io2) <~ invoke curtIdx curt param io1;
          match r with
          | (_, Some err) => Done VNil (Some (ErrOperatorExec (value curt) err)) io2
          | (res, None) =>
              Next (AtShortCircuit
                      (mkVM (maxIdx s) (sf s) sfTop (os s) (osTop s) (scTriggered s) io2)
                      curt res)
          end
      end
    else if decide (ty = operator) then
      let cnt := int16 (childCnt curt) in
      if decide (curtIdx > maxIdx s) then
        '(sf1, sfTop1) <~ push (sf s) sfTop curtIdx;
        if decide (cnt = 2) then
          '(sf2, sfTop2) <~ push sf1 sfTop1 (int16 (childIdx curt + 1));
          '(sf3, sfTop3) <~ push sf2 sfTop2 (childIdx curt);
          Next (AtLoop (mkVM curtIdx sf3 sfTop3 (os s) (osTop s) (scTriggered s) (io s)))
        else
          let sfTop2 := int16 (sfTop1 + cnt) in
          sf2 <~ pushChildren (Z.to_nat cnt) 0 sf1 sfTop2 (childIdx curt);
          Next (AtLoop (mkVM curtIdx sf2 sfTop2 (os s) (osTop s) (scTriggered s) (io s)))
      else
        let osTop := int16 (osTop s - cnt) in
        param <~ operatorParams cnt (os s) osTop;
        '(r, io1) <~ invoke curtIdx curt param (io s);
        match r with
        | (_, Some err) => Done VNil (Some (ErrOperatorExec (value curt) err)) io1
        | (res, None) =>
            Next (AtShortCircuit
                    (mkVM curtIdx (sf s) sfTop (os s) osTop (scTriggered s) io1)
                    curt res)
        end
    else if decide (ty = selector) then
      '(r, io1) <~ getSelectorValue ctx curt (io s);
      match r with
      | (_, Some err) => Done VNil (Some err) io1
      | (res, None) =>
          Next (AtShortCircuit
                  (mkVM (maxIdx s) (sf s) sfTop (os s) (osTop s) (scTriggered s) io1)
                  curt res)
      end
    else if decide (ty = constant) then
      Next (AtShortCircuit
              (mkVM (maxIdx s) (sf s) sfTop (os s) (osTop s) (scTriggered s) (io s))
              curt (value curt))
    else if decide (ty = cond) then
      if decide (curtIdx > maxIdx s) then
        let cnt := int16 (childCnt curt) in
        '(sf1, sfTop1) <~ push (sf s) sfTop (int16 (int16 (childIdx curt + cnt) - 1));
        '(sf2, sfTop2) <~ push sf1 sfTop1 curtIdx;
        '(sf3, sfTop3) <~ push sf2 sfTop2 (childIdx curt);
        Next (AtLoop (mkVM curtIdx sf3 sfTop3 (os s) (osTop s) (scTriggered s) (io s)))
      else
        res <~ load (os s) (osTop s);
        let osTop := int16 (osTop s - 1) in
        match res with
        | VBool condRes =>
            '(sf1, sfTop1) <~ push (sf s) sfTop
               (if condRes then int16 (childIdx curt + 1) else int16 (childIdx curt + 2));
            Next (AtLoop (mkVM (maxIdx s) sf1 sfTop1 (os s) osTop (scTriggered s) (io s)))
        | _ => Done VNil (Some (ErrCondType res)) (io s)
        end
    else if decide (ty = end_) then
      maxIdx <~ load (parentIdx e) curtIdx;
      res <~ load (os s) (osTop s);
      let osTop := int16 (osTop s - 1) in
      Next (AtShortCircuit
              (mkVM maxIdx (sf s) sfTop (os s) osTop (scTriggered s) (io s))
              curt res)
    else
      let offset := Z.quot (int16 (Z.of_nat (length (nodes e)))) 2 in
      let sf0 := debugStackFrame (sf s) sfTop offset in
      '(sf1, sfTop1) <~ push sf0 sfTop (int16 (curtIdx + offset));
      _ <~ printStacks (os s) (osTop s) sf1 sfTop1;
      Next (AtLoop (mkVM (maxIdx s) sf1 sfTop1 (os s) (osTop s) false (io s))).

(** The short-circuit block: one test of the loop condition, then either
    one hop to the short-circuit target or the push of [res] on [os]. *)
Definition shortCircuit (s : vm) (curt : node) (res : Value) : outcome :=
  let pushRes :=
    '(os1, osTop1) <~ push (os s) (osTop s) res;
    Next (AtLoop (mkVM (maxIdx s) (sf s) (sfTop s) os1 osTop1 (scTriggered s) (io s))) in
  match res with
  | VBool b =>
      if fires (flag curt) b then
        let curtIdx := scIdx curt in
        if decide (curtIdx = 0) then Done res None (io s)
        else
          sfSz <~ load (sfSize e) curtIdx;
          osSz <~ load (osSize e) curtIdx;
          curt' <~ load (nodes e) curtIdx;
          Next (AtShortCircuit
                  (mkVM curtIdx (sf s) (int16 (sfSz - 2)) (os s) (int16 (osSz - 1)) true (io s))
                  curt' res)
      else pushRes
  | _ => pushRes
  end.

Definition step (c : config) : outcome :=
  match c with
  | AtLoop s => dispatch s
  | AtShortCircuit s curt res => shortCircuit s curt res
  end.

Fixpoint run (fuel : nat) (c : config) : result W :=
  match fuel with
  | O => OutOfFuel
  | S fuel' =>
      match step c with
      | Next c' => run fuel' c'
      | Done res err io => Returns res err io
      | Panicked => Panics
      end
  end.

End WithExpr.

(** The stacks [Eval] allocates: 8, 16 or [size] slots. *)
Definition stackSize (size : Z) : Z :=
  if decide (size <= 8) then 8 else if decide (size <= 16) then 16 else size.

(** The state in which [Eval] enters its loop: zeroed stacks, and the root
    pushed by [sfTop = 0] alone. *)
Definition init (e : Expr) (w : W) : vm :=
  let n := Z.to_nat (stackSize (maxStackSize e)) in
  mkVM (-1) (replicate n 0) 0 (replicate n VNil) (-1) false (mkIO w []).

(** [Expr.Eval], with [fuel] bounding the number of loop iterations. *)
Definition Eval (fuel : nat) (e : Expr) (ctx : Ctx W) (w : W) : result W :=
  run e ctx fuel (AtLoop (init e w)).

End Engine.
Arguments node : clear implicits.
Arguments Expr : clear implicits.
Arguments vm : clear implicits.
Arguments config : clear implicits.
Arguments outcome : clear implicits.
End Boxed.

(** * The flat-bytecode variant ([src/unnamed/part_000]) *)

Module Flat.
Section Engine.
Context {W : Type}.

(** [node]: kept by this variant for debug printing only.  [flag] is an
    [int16]; [idx], [childCnt] and [childIdx] are [int]. *)
Record node : Type := mkNode {
  flag : Z;
  idx : Z;
  childCnt : Z;
  childIdx : Z;
  selKey : SelectorKey;
  value : Value;
  op : option (Operator W)
}.

(** [Expr].  Node [i] occupies [bytecode[4i .. 4i+3]]: the flag word (type
    and short-circuit bits below, child count in the high byte), the index
    of the first child, the index of the constant or operator, the selector
    key.  [bytecode] holds [int16]; the four tables hold [int]. *)
Record Expr : Type := mkExpr {
  maxStackSize : Z;
  bytecode : list Z;
  constants : list Value;
  operators : list (option (Operator W));
  scIdx : list Z;
  sfSize : list Z;
  osSize : list Z;
  parentIdx : list Z;
  nodes : list node
}.

Record vm : Type := mkVM {
  maxIdx : Z;
  sf : list Z;
  sfTop : Z;
  os : list Value;
  osTop : Z;
  scTriggered : bool;
  io : IO W
}.

(** The head of the dispatch loop, and the head of the short-circuit loop
    with its variables [curt], [flag] and [res]. *)
Inductive config : Type :=
| AtLoop (s : vm)
| AtShortCircuit (s : vm) (curt : Z) (flag : Z) (res : Value).

Inductive outcome : Type :=
| Next (c : config)
| Done (res : Value) (err : option error) (io : IO W)
| Panicked.

Definition orPanic {A} (m : option A) (k : A -> outcome) : outcome :=
  match m with Some a => k a | None => Panicked end.

Notation "x <~ y ; z" := (orPanic y (fun x => z))
  (at level 20, y at level 100, z at level 200, only parsing).
Notation "' x <~ y ; z" := (orPanic y (fun x => z))
  (at level 20, x pattern, y at level 100, z at level 200, only parsing).

(** [sf[sfTop+1], sfTop = x, sfTop+1]. *)
Definition push {A} (a : list A) (top : Z) (x : A) : option (list A * Z) :=
  a' ← store a (int (top + 1)) x; Some (a', int (top + 1)).

(** [for i := 0; i < cnt; i++ { sf[sfTop-i] = childIdx + i }]. *)
Fixpoint pushChildren (n : nat) (i : Z) (sf : list Z) (sfTop childIdx : Z)
  : option (list Z) :=
  match n with
  | O => Some sf
  | S n' =>
      sf' ← store sf (int (sfTop - i)) (int (childIdx + i));
      pushChildren n' (int (i + 1)) sf' sfTop childIdx
  end.

Section WithExpr.
Variable e : Expr.
Variable ctx : Ctx W.

(** The method [(e *Expr) getNodeValue]: no name is passed to the context
    and the value it returns is used as it is. *)
Definition getNodeValue (i : Z) (io : IO W) : option ((Value * option error) * IO W) :=
  let i := int (i * 4) in
  b0 ← load (bytecode e) i;
  if decide (Z.land b0 nodeTypeMask = constant) then
    k ← load (bytecode e) (int (i + 2));
    res ← load (constants e) k;
    Some ((res, None), io)
  else
    key ← load (bytecode e) (int (i + 3));
    let '(r, w') := Get ctx key "" (world io) in
    Some (r, mkIO w' (calls io ++ [CallGet key ""])).

Fixpoint fastParams (n : nat) (i : Z) (childIdx : Z) (param : list Value) (io : IO W)
  : option ((list Value + error) * IO W) :=
  match n with
  | O => Some (inl param, io)
  | S n' =>
      '(r, io') ← getNodeValue (int (childIdx + i)) io;
      match r with
      | (_, Some err) => Some (inr err, io')
      | (v, None) =>
          param' ← store param i v;
          fastParams n' (int (i + 1)) childIdx param' io'
      end
  end.

Definition fastOperatorParams (cnt childIdx : Z) (io : IO W)
  : option ((list Value + error) * IO W) :=
  if decide (cnt = 2) then
    '(r0, io0) ← getNodeValue childIdx io;
    match r0 with
    | (_, Some err) => Some (inr err, io0)
    | (p0, None) =>
        '(r1, io1) ← getNodeValue (int (childIdx + 1)) io0;
        match r1 with
        | (_, Some err) => Some (inr err, io1)
        | (p1, None) => Some (inl [p0; p1], io1)
        end
    end
  else
    param ← make VNil cnt;
    fastParams (Z.to_nat cnt) 0 childIdx param io.

Definition copyParams (cnt : Z) (os : list Value) (osTop : Z) : option (list Value) :=
  param ← make VNil cnt;
  let low := int (osTop + 1) in
  if decide (0 <= low <= Z.of_nat (length os)) then
    let src := take (Z.to_nat cnt) (drop (Z.to_nat low) os) in
    Some (src ++ drop (length src) param)
  else None.

Definition operatorParams (cnt : Z) (os : list Value) (osTop : Z) : option (list Value) :=
  if decide (cnt = 2) then
    p0 ← load os (int (osTop + 1));
    p1 ← load os (int (osTop + 2));
    Some [p0; p1]
  else copyParams cnt os osTop.

(** [operators[int(bytecode[curtIdx+2])](ctx, param)]. *)
Definition invoke (curt curtIdx : Z) (param : list Value) (io : IO W)
  : option ((Value * option error) * IO W) :=
  k ← load (bytecode e) (int (curtIdx + 2));
  f ← load (operators e) k ≫= id;
  let '(r, w') := f ctx param (world io) in
  Some (r, mkIO w' (calls io ++ [CallOp curt param])).

Definition debugStackFrame (sf : list Z) (sfTop offset : Z) : list Z :=
  let n := Z.to_nat sfTop in
  ((fun x => if decide (offset <= x) then int (x - offset) else x) <$> take n sf)
  ++ drop n sf.

Definition printStacks (os : list Value) (osTop : Z) (sf : list Z) (sfTop : Z) : option unit :=
  if decide (sfTop < Z.of_nat (length sf)
             /\ Forall (fun x => is_Some (load (nodes e) x)) (take (Z.to_nat (sfTop + 1)) sf)
             /\ osTop < Z.of_nat (length os))
  then Some tt else None.

(** One iteration of the loop up to the short-circuit block.  [flag] of the
    short-circuit loop is [bytecode[curtIdx] & scMask]. *)
Definition dispatch (s : vm) : outcome :=
  if decide (sfTop s = -1) then
    r <~ load (os s) 0; Done r None (io s)
  else
    curt <~ load (sf s) (sfTop s);
    let sfTop := int (sfTop s - 1) in
    let curtIdx := int (curt * 4) in
    b0 <~ load (bytecode e) curtIdx;
    let ty := Z.land b0 nodeTypeMask in
    let flag := Z.land b0 scMask in
    if decide (ty = fastOperator) then
      let cnt := Z.shiftr b0 8 in
      childIdx <~ load (bytecode e) (int (curtIdx + 1));
      '(ps, io1) <~ fastOperatorParams cnt childIdx (io s);
      match ps with
      | inr err => Done VNil (Some err) io1
      | inl param =>
          '(r, io2) <~ invoke curt curtIdx param io1;
          match r with
          | (_, Some err) => Done VNil (Some (ErrOperatorExec (VInt curt) err)) io2
          | (res, None) =>
              Next (AtShortCircuit
                      (mkVM (maxIdx s) (sf s) sfTop (os s) (osTop s) (scTriggered s) io2)
                      curt flag res)
          end
      end
    else if decide (ty = operator) then
      let cnt := Z.shiftr b0 8 in
      if decide (curt > maxIdx s) then
        '(sf1, sfTop1) <~ push (sf s) sfTop curt;
        childIdx <~ load (bytecode e) (int (curtIdx + 1));
        if decide (cnt = 2) then
          '(sf2, sfTop2) <~ push sf1 sfTop1 (int (childIdx + 1));
          '(sf3, sfTop3) <~ push sf2 sfTop2 childIdx;
          Next (AtLoop (mkVM curt sf3 sfTop3 (os s) (osTop s) (scTriggered s) (io s)))
        else
          let sfTop2 := int (sfTop1 + cnt) in
          sf2 <~ pushChildren (Z.to_nat cnt) 0 sf1 sfTop2 childIdx;
          Next (AtLoop (mkVM curt sf2 sfTop2 (os s) (osTop s) (scTriggered s) (io s)))
      else
        let osTop := int (osTop s - cnt) in
        param <~ operatorParams cnt (os s) osTop;
        '(r, io1) <~ invoke curt curtIdx param (io s);
        match r with
        | (_, Some err) => Done VNil (Some (ErrOperatorExec (VInt curt) err)) io1
        | (res, None) =>
            Next (AtShortCircuit
                    (mkVM curt (sf s) sfTop (os s) osTop (scTriggered s) io1)
                    curt flag res)
        end
    else if decide (ty = selector) then
      key <~ load (bytecode e) (int (curtIdx + 3));
      let '(r, w') := Get ctx key "" (world (io s)) in
      let io1 := mkIO w' (calls (io s) ++ [CallGet key ""]) in
      match r with
      | (_, Some err) => Done VNil (Some err) io1
      | (res, None) =>
          Next (AtShortCircuit
                  (mkVM (maxIdx s) (sf s) sfTop (os s) (osTop s) (scTriggered s) io1)
                  curt flag res)
      end
    else if decide (ty = constant) then
      k <~ load (bytecode e) (int (curtIdx + 2));
      res <~ load (constants e) k;
      Next (AtShortCircuit
              (mkVM (maxIdx s) (sf s) sfTop (os s) (osTop s) (scTriggered s) (io s))
              curt flag res)
    else if decide (ty = cond) then
      childIdx <~ load (bytecode e) (int (curtIdx + 1));
      if decide (curt > maxIdx s) then
        let cnt := Z.shiftr b0 8 in
        '(sf1, sfTop1) <~ push (sf s) sfTop (int (int (childIdx + cnt) - 1));
        '(sf2, sfTop2) <~ push sf1 sfTop1 curt;
        '(sf3, sfTop3) <~ push sf2 sfTop2 childIdx;
        Next (AtLoop (mkVM curt sf3 sfTop3 (os s) (osTop s) (scTriggered s) (io s)))
      else
        res <~ load (os s) (osTop s);
        let osTop := int (osTop s - 1) in
        match res with
        | VBool condRes =>
            '(sf1, sfTop1) <~ push (sf s) sfTop
               (if condRes then int (childIdx + 1) else int (childIdx + 2));
            Next (AtLoop (mkVM (maxIdx s) sf1 sfTop1 (os s) osTop (scTriggered s) (io s)))
        | _ => Done VNil (Some (ErrCondType res)) (io s)
        end
    else if decide (ty = end_) then
      maxIdx <~ load (parentIdx e) curt;
      res <~ load (os s) (osTop s);
      let osTop := int (osTop s - 1) in
      Next (AtShortCircuit
              (mkVM maxIdx (sf s) sfTop (os s) osTop (scTriggered s) (io s))
              curt flag res)
    else
      let offset := Z.quot (Z.of_nat (length (nodes e))) 2 in
      let sf0 := debugStackFrame (sf s) sfTop offset in
      '(sf1, sfTop1) <~ push sf0 sfTop (int (curt + offset));
      _ <~ printStacks (os s) (osTop s) sf1 sfTop1;
      Next (AtLoop (mkVM (maxIdx s) sf1 sfTop1 (os s) (osTop s) false (io s))).

(** The short-circuit block: one test of the loop condition, then one hop
    or the push of [res]. *)
Definition shortCircuit (s : vm) (curt flag : Z) (res : Value) : outcome :=
  let pushRes :=
    '(os1, osTop1) <~ push (os s) (osTop s) res;
    Next (AtLoop (mkVM (maxIdx s) (sf s) (sfTop s) os1 osTop1 (scTriggered s) (io s))) in
  match res with
  | VBool b =>
      if fires flag b then
        curt' <~ load (scIdx e) curt;
        if decide (curt' = 0) then Done res None (io s)
        else
          sfSz <~ load (sfSize e) curt';
          osSz <~ load (osSize e) curt';
          b0 <~ load (bytecode e) (int (curt' * 4));
          Next (AtShortCircuit
                  (mkVM curt' (sf s) (int (sfSz - 2)) (os s) (int (osSz - 1)) true (io s))
                  curt' (Z.land b0 scMask) res)
      else pushRes
  | _ => pushRes
  end.

Definition step (c : config) : outcome :=
  match c with
  | AtLoop s => dispatch s
  | AtShortCircuit s curt flag res => shortCircuit s curt flag res
  end.

Fixpoint run (fuel : nat) (c : config) : result W :=
  match fuel with
  | O => OutOfFuel
  | S fuel' =>
      match step c with
      | Next c' => run fuel' c'
      | Done res err io => Returns res err io
      | Panicked => Panics
      end
  end.

End WithExpr.

(** The stacks [Eval] allocates: 4, 8, 16 or [size] slots. *)
Definition stackSize (size : Z) : Z :=
  if decide (size <= 4) then 4
  else if decide (size <= 8) then 8
  else if decide (size <= 16) then 16 else size.

(** The state in which [Eval] enters its loop: the root is pushed by
    [sf[sfTop+1], sfTop = 0, sfTop+1] on stacks of at least four slots. *)
Definition init (e : Expr) (w : W) : vm :=
  let n := Z.to_nat (stackSize (maxStackSize e)) in
  mkVM (-1) (<[0%nat := 0]> (replicate n 0)) 0 (replicate n VNil) (-1) false (mkIO w []).

(** [Expr.Eval], with [fuel] bounding the number of loop iterations. *)
Definition Eval (fuel : nat) (e : Expr) (ctx : Ctx W) (w : W) : result W :=
  run e ctx fuel (AtLoop (init e w)).

End Engine.
Arguments node : clear implicits.
Arguments Expr : clear implicits.
Arguments vm : clear implicits.
Arguments config : clear implicits.
Arguments outcome : clear implicits.
End Flat.

(** * The two encodings side by side *)

(** The flat encoding of a boxed expression, as the layout of [Flat.Expr]
    prescribes it: four words per node, the child count in the high byte of
    the flag word; here the constant and the operator of node [i] are entry
    [i] of their tables. *)
Definition encodeNode {W} (i : nat) (n : Boxed.node W) : list Z :=
  [Boxed.childCnt n * 256 + Boxed.flag n; Boxed.childIdx n; Z.of_nat i; Boxed.selKey n].

Definition flatNode {W} (i : nat) (n : Boxed.node W) : Flat.node W :=
  Flat.mkNode (Boxed.flag n) (Z.of_nat i) (Boxed.childCnt n) (Boxed.childIdx n)
    (Boxed.selKey n) (Boxed.value n) (Boxed.op n).

Definition encode {W} (a : Boxed.Expr W) : Flat.Expr W :=
  Flat.mkExpr (Boxed.maxStackSize a)
    (concat (imap encodeNode (Boxed.nodes a)))
    (Boxed.value <$> Boxed.nodes a)
    (Boxed.op <$> Boxed.nodes a)
    (Boxed.scIdx <$> Boxed.nodes a)
    (Boxed.sfSize a) (Boxed.osSize a) (Boxed.parentIdx a)
    (imap flatNode (Boxed.nodes a)).

(** A boxed node whose fields lie in the ranges of their Go types. *)
Record node_typed {W} (n : Boxed.node W) : Prop := {
  flag_typed : in_unsigned 8 (Boxed.flag n);
  childCnt_typed : in_signed 8 (Boxed.childCnt n);
  scIdx_typed : in_signed 16 (Boxed.scIdx n);
  childIdx_typed : in_signed 16 (Boxed.childIdx n);
  selKey_typed : in_signed 16 (Boxed.selKey n)
}.

(** A boxed expression whose fields lie in the ranges of their Go types and
    whose nodes can all be addressed by an [int16]. *)
Record expr_typed {W} (a : Boxed.Expr W) : Prop := {
  size_typed : in_signed 16 (Boxed.maxStackSize a);
  nodes_typed : Forall node_typed (Boxed.nodes a);
  nodes_addressable : Z.of_nat (length (Boxed.nodes a)) < 2 ^ 15;
  parentIdx_typed : Forall (in_signed 16) (Boxed.parentIdx a);
  sfSize_typed : Forall (in_signed 16) (Boxed.sfSize a);
  osSize_typed : Forall (in_signed 16) (Boxed.osSize a)
}.

(** [Rep a b]: the boxed expression [a] and the flat expression [b]
    represent the same compiled expression.  Node [i] of [a] is the four
    words at [4i] of [b]: same type and short-circuit bits, same child
    count, same first child and selector key; the third word leads to the
    node's constant or operator; the auxiliary tables agree. *)
Record Rep {W} (a : Boxed.Expr W) (b : Flat.Expr W) : Prop := {
  rep_typed : expr_typed a;
  rep_size : Flat.maxStackSize b = Boxed.maxStackSize a;
  rep_length : length (Flat.bytecode b) = (4 * length (Boxed.nodes a))%nat;
  rep_nodes : length (Flat.nodes b) = length (Boxed.nodes a);
  rep_node : forall (i : nat) (n : Boxed.node W),
    Boxed.nodes a !! i = Some n ->
    exists b0 k,
      Flat.bytecode b !! (4 * i)%nat = Some b0
      /\ Flat.bytecode b !! (4 * i + 1)%nat = Some (Boxed.childIdx n)
      /\ Flat.bytecode b !! (4 * i + 2)%nat = Some k
      /\ Flat.bytecode b !! (4 * i + 3)%nat = Some (Boxed.selKey n)
      /\ in_signed 16 b0
      /\ Z.land b0 nodeTypeMask = Z.land (Boxed.flag n) nodeTypeMask
      /\ Z.land b0 scMask = Z.land (Boxed.flag n) scMask
      /\ Z.shiftr b0 8 = Boxed.childCnt n
      /\ (Z.land (Boxed.flag n) nodeTypeMask = constant ->
            load (Flat.constants b) k = Some (Boxed.value n))
      /\ (Z.land (Boxed.flag n) nodeTypeMask = operator
          \/ Z.land (Boxed.flag n) nodeTypeMask = fastOperator ->
            load (Flat.operators b) k ≫= id = Boxed.op n)
      /\ Flat.scIdx b !! i = Some (Boxed.scIdx n);
  rep_parentIdx : Flat.parentIdx b = Boxed.parentIdx a;
  rep_sfSize : Flat.sfSize b = Boxed.sfSize a;
  rep_osSize : Flat.osSize b = Boxed.osSize a
}.

(** Two errors that differ at most in how the failing operator is named:
    the boxed variant prints the node's value, the flat one its index. *)
Definition same_failure (ea eb : option error) : Prop :=
  match ea, eb with
  | Some (ErrOperatorExec _ ia), Some (ErrOperatorExec _ ib) => ia = ib
  | _, _ => ea = eb
  end.

(** The call log with the display names left out. *)
Definition nameless (c : call) : call :=
  match c with
  | CallGet key _ => CallGet key ""
  | CallOp _ _ => c
  end.

(** * Concrete expressions and contexts *)

(** A context that answers every lookup with [r]. *)
Definition constCtx {W} (r : Value * option error) (cancelled : bool) : Ctx W :=
  mkCtx (fun _ _ w => (r, w)) cancelled.

(** A context over [x = 3], [y = 4] (keys 1 and 2), both [int64]. *)
Definition xyCtx : Ctx unit :=
  mkCtx (fun key _ w =>
           if decide (key = 1) then ((VInt64 3, None), w)
           else if decide (key = 2) then ((VInt64 4, None), w)
           else ((VNil, Some (ErrNew "no such variable")), w)) false.

Definition opAnd {W} : Operator W := fun _ ps w =>
  match ps with
  | [VBool p; VBool q] => ((VBool (p && q), None), w)
  | _ => ((VNil, Some (ErrNew "and: bad operands")), w)
  end.

Definition opOr {W} : Operator W := fun _ ps w =>
  match ps with
  | [VBool p; VBool q] => ((VBool (p || q), None), w)
  | _ => ((VNil, Some (ErrNew "or: bad operands")), w)
  end.

Definition opLt {W} : Operator W := fun _ ps w =>
  match ps with
  | [VInt64 p; VInt64 q] => ((VBool (bool_decide (p < q)), None), w)
  | _ => ((VNil, Some (ErrNew "lt: bad operands")), w)
  end.

(** An operator that fails. *)
Definition opDown {W} : Operator W := fun _ _ w =>
  ((VNil, Some (ErrNew "db down")), w).


(** The expression [x]: one selector node with key 1. *)
Definition exprX {W} : Boxed.Expr W :=
  Boxed.mkExpr 1
    [Boxed.mkNode selector 0 0 0 1 (VString "x") None]
    [-1] [0] [1] [0].

(** The expression [1]: one constant node. *)
Definition exprOne {W} : Boxed.Expr W :=
  Boxed.mkExpr 1
    [Boxed.mkNode constant 0 0 0 0 (VInt64 1) None]
    [-1] [0] [1] [0].


(** [true or v] where the selector node of [v] holds no name. *)
Definition exprTrueOrNameless : Boxed.Expr unit :=
  Boxed.mkExpr 3
    [Boxed.mkNode operator 2 0 1 0 (VString "or") (Some opOr);
     Boxed.mkNode (Z.lor constant scIfTrue) 0 0 0 0 (VBool true) None;
     Boxed.mkNode selector 0 0 0 2 VNil None]
    [-1; 0; 0] [0; 0; 0] [1; 3; 2] [0; 0; 1].

(** [(false and b) or c] with selectors [b] (key 1) and [c] (key 2): the
    constant short-circuits on false to the [and] node 1. *)
Definition exprFalseAndBOrC {W} : Boxed.Expr W :=
  Boxed.mkExpr 5
    [Boxed.mkNode operator 2 0 1 0 (VString "or") (Some opOr);
     Boxed.mkNode operator 2 0 3 0 (VString "and") (Some opAnd);
     Boxed.mkNode selector 0 0 0 2 (VString "c") None;
     Boxed.mkNode (Z.lor constant scIfFalse) 0 1 0 0 (VBool false) None;
     Boxed.mkNode selector 0 0 0 1 (VString "b") None]
    [-1; 0; 0; 1; 1] [0; 0; 0; 1; 0] [1; 3; 2; 5; 4] [0; 0; 1; 0; 1].

(** [if(x < y, "lt", "ge")]: the [cond] node 0 has the predicate, the two
    branches and the [end] node as its children 1 to 4. *)
Definition exprIfLt {W} : Boxed.Expr W :=
  Boxed.mkExpr 4
    [Boxed.mkNode cond 4 0 1 0 (VString "if") None;
     Boxed.mkNode fastOperator 2 0 5 0 (VString "<") (Some opLt);
     Boxed.mkNode constant 0 0 0 0 (VString "lt") None;
     Boxed.mkNode constant 0 0 0 0 (VString "ge") None;
     Boxed.mkNode end_ 0 0 0 0 VNil None;
     Boxed.mkNode selector 0 0 0 1 (VString "x") None;
     Boxed.mkNode selector 0 0 0 2 (VString "y") None]
    [-1; 0; 0; 0; 0; 1; 1] [0; 0; 0; 0; 0; 0; 0] [1; 3; 2; 2; 1; 0; 0] [0; 0; 0; 0; 0; 0; 0].

(** [down()]: one fast operator that fails. *)
Definition exprDown {W} : Boxed.Expr W :=
  Boxed.mkExpr 1
    [Boxed.mkNode fastOperator 0 0 0 0 (VString "down") (Some opDown)]
    [-1] [0] [1] [0].

(** * Vocabulary of the statements *)

(** The same context with its cancellation token in state [b]. *)
Definition withCancelled {W} (b : bool) (ctx : Ctx W) : Ctx W :=
  mkCtx (Get ctx) b.

(** Operators that do not look at the cancellation token. *)
Definition token_blind {W} (f : Operator W) : Prop :=
  forall ctx b ps w, f (withCancelled b ctx) ps w = f ctx ps w.

(** [Boxed.dispatches e s curtIdx curt]: in state [s] the loop goes on, and
    the node it pops and dispatches is [curt], of index [curtIdx]. *)
Definition Boxed_dispatches {W} (e : Boxed.Expr W) (s : Boxed.vm W)
    (curtIdx : Z) (curt : Boxed.node W) : Prop :=
  Boxed.sfTop s <> -1
  /\ load (Boxed.sf s) (Boxed.sfTop s) = Some curtIdx
  /\ load (Boxed.nodes e) curtIdx = Some curt.

(** [Flat_dispatches e s curt b0]: the same for the flat variant; [b0] is
    the flag word [bytecode[curt*4]] of the node. *)
Definition Flat_dispatches {W} (e : Flat.Expr W) (s : Flat.vm W)
    (curt : Z) (b0 : Z) : Prop :=
  Flat.sfTop s <> -1
  /\ load (Flat.sf s) (Flat.sfTop s) = Some curt
  /\ load (Flat.bytecode e) (int (curt * 4)) = Some b0.

(** The state after the pop [curtIdx, sfTop = sf[sfTop], sfTop-1]. *)
Definition Boxed_popped {W} (s : Boxed.vm W) : Boxed.vm W :=
  Boxed.mkVM (Boxed.maxIdx s) (Boxed.sf s) (int16 (Boxed.sfTop s - 1))
    (Boxed.os s) (Boxed.osTop s) (Boxed.scTriggered s) (Boxed.io s).

Definition Flat_popped {W} (s : Flat.vm W) : Flat.vm W :=
  Flat.mkVM (Flat.maxIdx s) (Flat.sf s) (int (Flat.sfTop s - 1))
    (Flat.os s) (Flat.osTop s) (Flat.scTriggered s) (Flat.io s).

Definition Boxed_withIO {W} (s : Boxed.vm W) (io : IO W) : Boxed.vm W :=
  Boxed.mkVM (Boxed.maxIdx s) (Boxed.sf s) (Boxed.sfTop s)
    (Boxed.os s) (Boxed.osTop s) (Boxed.scTriggered s) io.

Definition Flat_withIO {W} (s : Flat.vm W) (io : IO W) : Flat.vm W :=
  Flat.mkVM (Flat.maxIdx s) (Flat.sf s) (Flat.sfTop s)
    (Flat.os s) (Flat.osTop s) (Flat.scTriggered s) io.

(** The log after one more call. *)
Definition logged {W} (io : IO W) (w' : W) (c : call) : IO W :=
  mkIO w' (calls io ++ [c]).

(** A single selector node that holds no name. *)
Definition exprNameless {W} : Boxed.Expr W :=
  Boxed.mkExpr 1
    [Boxed.mkNode selector 0 0 0 1 VNil None]
    [-1] [0] [1] [0].

(** A selector node holds no name. *)
Definition nameless_node {W} (n : Boxed.node W) : Prop :=
  forall name, Boxed.value n <> VString name.

(** The working state of a configuration. *)
Definition Boxed_state {W} (c : Boxed.config W) : Boxed.vm W :=
  match c with
  | Boxed.AtLoop s => s
  | Boxed.AtShortCircuit s _ _ => s
  end.

Definition Flat_state {W} (c : Flat.config W) : Flat.vm W :=
  match c with
  | Flat.AtLoop s => s
  | Flat.AtShortCircuit s _ _ _ => s
  end.

(** The state of [(false and b) or c] in which the constant [false]
    (node 3) has just been popped, and that node. *)
Definition vmAtFalse : Boxed.vm unit :=
  Boxed.mkVM 1 [0; 2; 1; 4; 3; 0; 0; 0] 3 (replicate 8 VNil) (-1) false (mkIO tt []).

Definition nodeFalse : Boxed.node unit :=
  Boxed.mkNode (Z.lor constant scIfFalse) 0 1 0 0 (VBool false) None.

Definition nodeAnd : Boxed.node unit :=
  Boxed.mkNode operator 2 0 3 0 (VString "and") (Some opAnd).

(** [if(p, 1, 0)]: a conditional whose predicate is the selector [p]
    (key 1); the [end] node is the last of its four children. *)
Definition exprIf {W} : Boxed.Expr W :=
  Boxed.mkExpr 3
    [Boxed.mkNode cond 4 0 1 0 (VString "if") None;
     Boxed.mkNode selector 0 0 0 1 (VString "p") None;
     Boxed.mkNode constant 0 0 0 0 (VInt64 1) None;
     Boxed.mkNode constant 0 0 0 0 (VInt64 0) None;
     Boxed.mkNode end_ 0 0 0 0 VNil None]
    [-1; 0; 0; 0; 0] [0; 0; 0; 0; 0] [1; 3; 2; 2; 1] [0; 0; 0; 0; 0].



(** The live part of the stack frame: the pending frames [sf[0..sfTop]]. *)
Definition Boxed_live {W} (s : Boxed.vm W) : list Z :=
  take (Z.to_nat (Boxed.sfTop s + 1)) (Boxed.sf s).

Definition Flat_live {W} (s : Flat.vm W) : list Z :=
  take (Z.to_nat (Flat.sfTop s + 1)) (Flat.sf s).

(** * The two engines in lock step *)

(** A context that ignores the display name. *)
Definition name_blind {W} (ctx : Ctx W) : Prop :=
  forall key name w, Get ctx key name w = Get ctx key "" w.

(** A context whose values the unifier leaves as they are: values of a
    canonical kind, or of a kind the unifier does not convert. *)
Definition returns_unified {W} (ctx : Ctx W) : Prop :=
  forall key name w v w',
    Get ctx key name w = ((v, None), w') ->
    (if canonical v then v else unifyType v) = v.

(** Two frames denote the same node, unless one of them is negative (then
    the variant that holds it panics when it dispatches the frame): an
    [int16] sum of the boxed variant may have wrapped around where the [int]
    sum of the flat variant did not. *)
Definition entry_rel (ea eb : Z) : Prop := ea = eb \/ ea < 0 \/ eb < 0.

(** The frames the flat variant can hold: sums of an [int16] and a small
    number. *)
Definition frame_bound (x : Z) : Prop := - 2 ^ 16 <= x < 2 ^ 16.

Definition io_rel {W} (ioa iob : IO W) : Prop :=
  world ioa = world iob /\ nameless <$> calls ioa = calls iob.

(** The states of the two variants at the same point of the evaluation.  The
    stacks of the boxed variant may be longer; its extra operand slots are
    still nil. *)
Record Sim {W} (sa : Boxed.vm W) (sb : Flat.vm W) : Prop := {
  sim_maxIdx : Boxed.maxIdx sa = Flat.maxIdx sb;
  sim_sfTop : Boxed.sfTop sa = int16 (Flat.sfTop sb);
  sim_sfTop_bound : - 2 ^ 16 <= Flat.sfTop sb <= 2 ^ 16;
  sim_osTop : Boxed.osTop sa = int16 (Flat.osTop sb);
  sim_osTop_bound : - 2 ^ 16 <= Flat.osTop sb <= 2 ^ 16;
  sim_sf_len : (length (Flat.sf sb) <= length (Boxed.sf sa))%nat;
  sim_sf_max : Z.of_nat (length (Boxed.sf sa)) < 2 ^ 15;
  sim_sf : Forall2 entry_rel (take (length (Flat.sf sb)) (Boxed.sf sa)) (Flat.sf sb);
  sim_sf_bound : Forall frame_bound (Flat.sf sb);
  sim_os_max : Z.of_nat (length (Boxed.os sa)) < 2 ^ 15;
  sim_os : exists d, Boxed.os sa = Flat.os sb ++ replicate d VNil;
  sim_io : io_rel (Boxed.io sa) (Flat.io sb)
}.

(** The configurations of the two variants at the same point: in the
    short-circuit loop both hold the same result, and the node [curt] of the
    boxed variant is the node numbered [curt] in the flat one, whose [flag]
    carries the same short-circuit bits. *)
Definition SimConfig {W} (a : Boxed.Expr W)
    (ca : Boxed.config W) (cb : Flat.config W) : Prop :=
  match ca, cb with
  | Boxed.AtLoop sa, Flat.AtLoop sb => Sim sa sb
  | Boxed.AtShortCircuit sa curta resa, Flat.AtShortCircuit sb curtb flagb resb =>
      Sim sa sb /\ resa = resb
      /\ load (Boxed.nodes a) curtb = Some curta
      /\ Z.land flagb scMask = Z.land (Boxed.flag curta) scMask
  | _, _ => False
  end.

(** Two outcomes of a step agree, unless one of the variants panics. *)
Definition SimOutcome {W} (a : Boxed.Expr W)
    (oa : Boxed.outcome W) (ob : Flat.outcome W) : Prop :=
  match oa, ob with
  | Boxed.Panicked, _ | _, Flat.Panicked => True
  | Boxed.Next ca, Flat.Next cb => SimConfig a ca cb
  | Boxed.Done ra erra ioa, Flat.Done rb errb iob =>
      ra = rb /\ same_failure erra errb /\ io_rel ioa iob
  | _, _ => False
  end.

(** A context that answers by the display name: 1 for "x", 2 otherwise. *)
Definition byNameCtx : Ctx unit :=
  mkCtx (fun _ name w =>
           if decide (name = "x") then ((VInt64 1, None), w)
           else ((VInt64 2, None), w)) false.


(** Two results of [Eval] agree: both return the same, or both are out of
    fuel, unless one of the variants panics. *)
Definition SimResult {W} (ra rb : result W) : Prop :=
  match ra, rb with
  | Panics, _ | _, Panics => True
  | Returns va erra ioa, Returns vb errb iob =>
      va = vb /\ same_failure erra errb
      /\ world ioa = world iob /\ nameless <$> calls ioa = calls iob
  | OutOfFuel, OutOfFuel => True
  | _, _ => False
  end.

(** * The tree behind a node table

    What the evaluation loop does with its stack frame depends only on the
    kind of each node, on where its children are and on the auxiliary
    tables.  [anode] keeps that much of a node, for both variants. *)

Inductive akind : Type := KLeaf | KOp | KCond | KEnd | KDebug.

Record anode : Type := mkANode {
  akind_of : akind;
  afirst : Z;
  acnt : Z;
  atarget : Z;
  aparent : Z;
  adepth : Z
}.

(** The branch of the type switch a flag word leads to: constants,
    selectors and fast operators are leaves of the stack frame. *)
Definition kindOf (flag : Z) : akind :=
  let ty := Z.land flag nodeTypeMask in
  if decide (ty = fastOperator) then KLeaf
  else if decide (ty = operator) then KOp
  else if decide (ty = selector) then KLeaf
  else if decide (ty = constant) then KLeaf
  else if decide (ty = cond) then KCond
  else if decide (ty = end_) then KEnd
  else KDebug.

Definition Boxed_prog {W} (e : Boxed.Expr W) : list anode :=
  imap (fun i n =>
          mkANode (kindOf (Boxed.flag n)) (Boxed.childIdx n) (int16 (Boxed.childCnt n))
            (Boxed.scIdx n)
            (default (-1) (Boxed.parentIdx e !! i))
            (default 0 (Boxed.sfSize e !! i)))
       (Boxed.nodes e).

Definition Flat_prog {W} (e : Flat.Expr W) : list anode :=
  (fun i : nat =>
     let b0 := default 0 (Flat.bytecode e !! (4 * i)%nat) in
     mkANode (kindOf b0)
       (default 0 (Flat.bytecode e !! (4 * i + 1)%nat))
       (Z.shiftr b0 8)
       (default 0 (Flat.scIdx e !! i))
       (default (-1) (Flat.parentIdx e !! i))
       (default 0 (Flat.sfSize e !! i)))
  <$> seq 0 ((length (Flat.bytecode e) + 3) / 4).

(** [anc P t i]: [t] is a proper ancestor of node [i] by the parent table. *)
Inductive anc (P : list anode) : Z -> Z -> Prop :=
| anc_parent i n : load P i = Some n -> anc P (aparent n) i
| anc_up t i n : load P i = Some n -> anc P t (aparent n) -> anc P t i.

(** [sub P t j]: node [j] lies in the subtree of node [t]. *)
Definition sub (P : list anode) (t j : Z) : Prop := j = t \/ anc P t j.

(** Child [c] of node [i]: it follows its parent, the parent table says so,
    and when it has children of its own, the depth table holds the depth [d]
    of the stack frame at which it is popped. *)
Definition child_shaped (P : list anode) (i c d : Z) : Prop :=
  exists nc, load P c = Some nc /\ i < c /\ aparent nc = i
             /\ (akind_of nc = KOp \/ akind_of nc = KCond -> adepth nc = d).

(** The shape of one node: no debug node; a short-circuit target is 0 or a
    proper ancestor; the children of an operator are the [acnt] nodes from
    [afirst] on, pushed so that child [k] is popped at depth
    [adepth + acnt - k]; a conditional has its predicate and two branches at
    [afirst], [afirst + 1] and [afirst + 2] and its End node as last child. *)
Definition node_shaped (P : list anode) (i : Z) (n : anode) : Prop :=
  aparent n < i
  /\ (atarget n = 0 \/ (0 < atarget n /\ anc P (atarget n) i))
  /\ match akind_of n with
     | KLeaf | KEnd => True
     | KDebug => False
     | KOp =>
         0 <= acnt n <= 127
         /\ forall k, 0 <= k < acnt n ->
              child_shaped P i (afirst n + k) (adepth n + acnt n - k)
     | KCond =>
         3 <= acnt n <= 127
         /\ child_shaped P i (afirst n) (adepth n + 2)
         /\ child_shaped P i (afirst n + 1) (adepth n + 1)
         /\ child_shaped P i (afirst n + 2) (adepth n + 1)
         /\ exists ne, load P (afirst n + acnt n - 1) = Some ne
                       /\ akind_of ne = KEnd /\ aparent ne = i
                       /\ i < afirst n + acnt n - 1
     end.

(** A node table that lays out a tree rooted at node 0. *)
Record tree_shaped (P : list anode) : Prop := {
  ts_size : Z.of_nat (length P) < 2 ^ 15;
  ts_root : forall n, load P 0 = Some n -> adepth n = 1;
  ts_node : forall i n, load P i = Some n -> node_shaped P i n
}.

(** ** The stack frame as a list

    The loop seen on the live part of the stack frame alone, top first:
    which frames are popped and pushed, and how [maxIdx] moves.  Values are
    left out, so the machine may take either branch of a conditional and
    may or may not short-circuit. *)

Inductive aconfig : Type :=
| ALoop (stk : list Z) (m : Z)
| ASC (stk : list Z) (m : Z) (i : Z).

(** The lowest [d] frames of a stack given top first. *)
Definition lowest (d : Z) (stk : list Z) : list Z :=
  drop (length stk - Z.to_nat d) stk.

Inductive astep (P : list anode) : aconfig -> aconfig -> Prop :=
| AS_leaf x stk m n :
    load P x = Some n -> akind_of n = KLeaf ->
    astep P (ALoop (x :: stk) m) (ASC stk m x)
| AS_op_first x stk m n :
    load P x = Some n -> akind_of n = KOp -> x > m ->
    astep P (ALoop (x :: stk) m) (ALoop (seqZ (afirst n) (acnt n) ++ x :: stk) x)
| AS_op_second x stk m n :
    load P x = Some n -> akind_of n = KOp -> ~ x > m ->
    astep P (ALoop (x :: stk) m) (ASC stk x x)
| AS_cond_first x stk m n :
    load P x = Some n -> akind_of n = KCond -> x > m ->
    astep P (ALoop (x :: stk) m)
      (ALoop (afirst n :: x :: (afirst n + acnt n - 1) :: stk) x)
| AS_cond_second x stk m n (b : bool) :
    load P x = Some n -> akind_of n = KCond -> ~ x > m ->
    astep P (ALoop (x :: stk) m)
      (ALoop ((if b then afirst n + 1 else afirst n + 2) :: stk) m)
| AS_end x stk m n :
    load P x = Some n -> akind_of n = KEnd ->
    astep P (ALoop (x :: stk) m) (ASC stk (aparent n) x)
| AS_push stk m i :
    astep P (ASC stk m i) (ALoop stk m)
| AS_hop stk m i n nt :
    load P i = Some n -> atarget n <> 0 ->
    load P (atarget n) = Some nt ->
    astep P (ASC stk m i) (ASC (lowest (adepth nt - 1) stk) (atarget n) (atarget n)).

(** The frame on top of the stack is an index that fits an [int16]. *)
Definition head_small (ac : aconfig) : Prop :=
  match ac with
  | ALoop (x :: _) _ => 0 <= x < 2 ^ 15
  | _ => True
  end.

(** A hop is sound when the target's depth lies within the stack. *)
Definition hop_ok (P : list anode) (ac : aconfig) : Prop :=
  match ac with
  | ASC stk m i =>
      forall n nt, load P i = Some n -> atarget n <> 0 ->
                   load P (atarget n) = Some nt ->
                   1 <= adepth nt <= Z.of_nat (length stk) + 1
  | ALoop _ _ => True
  end.

(** ** The stack frame as a path in the tree

    At any time the live stack frame is made of the open ancestors of the
    node being evaluated, each with what it still has pending. *)

Inductive frame : Type :=
| FOp (o : Z) (pend : list Z)
| FPred (c : Z)
| FBranch (c : Z).

Definition owner (f : frame) : Z :=
  match f with FOp o _ => o | FPred c => c | FBranch c => c end.

Definition aend (P : list anode) (c : Z) : Z :=
  match load P c with Some n => afirst n + acnt n - 1 | None => 0 end.

Fixpoint stack_of (P : list anode) (path : list frame) : list Z :=
  match path with
  | [] => []
  | FOp o pend :: rest => pend ++ o :: stack_of P rest
  | FPred c :: rest => c :: aend P c :: stack_of P rest
  | FBranch c :: rest => aend P c :: stack_of P rest
  end.

(** [wf_path P x path]: [path] lists the open ancestors of node [x],
    innermost first. *)
Inductive wf_path (P : list anode) : Z -> list frame -> Prop :=
| wp_root : wf_path P 0 []
| wp_op x o n done pend rest :
    load P o = Some n -> akind_of n = KOp ->
    seqZ (afirst n) (acnt n) = done ++ x :: pend ->
    wf_path P o rest ->
    wf_path P x (FOp o pend :: rest)
| wp_pred x c n rest :
    load P c = Some n -> akind_of n = KCond ->
    x = afirst n ->
    wf_path P c rest ->
    wf_path P x (FPred c :: rest)
| wp_branch x c n rest :
    load P c = Some n -> akind_of n = KCond ->
    x = afirst n + 1 \/ x = afirst n + 2 ->
    wf_path P c rest ->
    wf_path P x (FBranch c :: rest).

Definition akind_at (P : list anode) (x : Z) : option akind :=
  akind_of <$> load P x.

(** [maxIdx] is at least the innermost open node. *)
Definition owner_le (path : list frame) (m : Z) : Prop :=
  match path with [] => True | f :: _ => owner f <= m end.

(** The stack frame read as a path, at each point of the loop. *)
Inductive sconfig : Type :=
| SFresh (x : Z) (path : list frame)
| SOpSecond (o : Z) (rest : list frame)
| SCondSecond (c : Z) (rest : list frame)
| SJoin (c : Z) (rest : list frame)
| SDone
| SAfter (i x : Z) (path : list frame).

Definition good (P : list anode) (sc : sconfig) (m : Z) : Prop :=
  match sc with
  | SFresh x path => wf_path P x path /\ m < x /\ owner_le path m
  | SOpSecond o rest => wf_path P o rest /\ akind_at P o = Some KOp /\ o <= m
  | SCondSecond c rest =>
      wf_path P c rest /\ akind_at P c = Some KCond
      /\ c <= m /\ (forall n, load P c = Some n -> m <= afirst n)
  | SJoin c rest => wf_path P c rest /\ akind_at P c = Some KCond
  | SDone => True
  | SAfter i x path =>
      wf_path P x path /\ owner_le path m /\ m <= x
      /\ (i = x \/ (akind_at P x = Some KCond /\ i = aend P x))
  end.

Definition erase (P : list anode) (sc : sconfig) (m : Z) : aconfig :=
  match sc with
  | SFresh x path => ALoop (x :: stack_of P path) m
  | SOpSecond o rest => ALoop (o :: stack_of P rest) m
  | SCondSecond c rest => ALoop (c :: aend P c :: stack_of P rest) m
  | SJoin c rest => ALoop (aend P c :: stack_of P rest) m
  | SDone => ALoop [] m
  | SAfter i x path => ASC (stack_of P path) m i
  end.

(** The nodes that may still be dispatched. *)
Definition rframe (P : list anode) (f : frame) (j : Z) : Prop :=
  match f with
  | FOp o pend => j = o \/ exists p, p ∈ pend /\ sub P p j
  | FPred c =>
      j = c \/ j = aend P c
      \/ (exists n, load P c = Some n
                    /\ (sub P (afirst n + 1) j \/ sub P (afirst n + 2) j))
  | FBranch c => j = aend P c
  end.

Definition rpath (P : list anode) (path : list frame) (j : Z) : Prop :=
  exists f, f ∈ path /\ rframe P f j.

Definition reach (P : list anode) (sc : sconfig) (j : Z) : Prop :=
  match sc with
  | SFresh x path => sub P x j \/ rpath P path j
  | SOpSecond o rest => j = o \/ rpath P rest j
  | SCondSecond c rest => rframe P (FPred c) j \/ rpath P rest j
  | SJoin c rest => j = aend P c \/ rpath P rest j
  | SDone => False
  | SAfter _ _ path => rpath P path j
  end.

(** ** A bound on the turns of the loop

    [work P x] bounds the turns that the subtree of node [x] takes: two for
    a leaf (its dispatch and the short-circuit block), three more than its
    children for an operator (two dispatches and the short-circuit block),
    five more than its predicate and branches for a conditional. *)

Fixpoint work_fuel (fuel : nat) (P : list anode) (x : Z) : nat :=
  match fuel with
  | O => 2
  | S fuel' =>
      match load P x with
      | Some n =>
          match akind_of n with
          | KOp => 3 + sum_list (work_fuel fuel' P <$> seqZ (afirst n) (acnt n))
          | KCond =>
              5 + work_fuel fuel' P (afirst n)
              + work_fuel fuel' P (afirst n + 1) + work_fuel fuel' P (afirst n + 2)
          | _ => 2
          end
      | None => 2
      end
  end%nat.

Definition work (P : list anode) (x : Z) : nat := work_fuel (length P) P x.

(** The turns still to come for what a frame of the path has pending. *)
Definition fwork (P : list anode) (f : frame) : nat :=
  match f with
  | FOp o pend => 2 + sum_list (work P <$> pend)
  | FPred c =>
      match load P c with
      | Some n => 4 + work P (afirst n + 1) + work P (afirst n + 2)
      | None => 4
      end
  | FBranch c => 3
  end%nat.

Definition pwork (P : list anode) (path : list frame) : nat :=
  sum_list (fwork P <$> path).

Definition cwork (P : list anode) (sc : sconfig) : nat :=
  match sc with
  | SFresh x path => work P x + pwork P path
  | SOpSecond o rest => 2 + pwork P rest
  | SCondSecond c rest => fwork P (FPred c) + pwork P rest
  | SJoin c rest => 3 + pwork P rest
  | SDone => 0
  | SAfter i x path => pwork P path + (if decide (i = x) then 1 else 2)
  end%nat.

(** ** Runs of the two variants, step by step *)

Fixpoint Boxed_steps {W} (e : Boxed.Expr W) (ctx : Ctx W) (n : nat) (c : Boxed.config W)
  : option (Boxed.config W) :=
  match n with
  | O => Some c
  | S n' =>
      match Boxed.step e ctx c with
      | Boxed.Next c' => Boxed_steps e ctx n' c'
      | _ => None
      end
  end.

Fixpoint Flat_steps {W} (e : Flat.Expr W) (ctx : Ctx W) (n : nat) (c : Flat.config W)
  : option (Flat.config W) :=
  match n with
  | O => Some c
  | S n' =>
      match Flat.step e ctx c with
      | Flat.Next c' => Flat_steps e ctx n' c'
      | _ => None
      end
  end.

(** The live stack frame of a state, top first. *)
Definition Boxed_frames {W} (s : Boxed.vm W) : list Z := reverse (Boxed_live s).
Definition Flat_frames {W} (s : Flat.vm W) : list Z := reverse (Flat_live s).

(** A state of a variant seen as a configuration of the list machine. *)
Definition Boxed_abs {W} (e : Boxed.Expr W) (c : Boxed.config W) (ac : aconfig) : Prop :=
  match c, ac with
  | Boxed.AtLoop s, ALoop stk m =>
      stk = Boxed_frames s /\ m = Boxed.maxIdx s
      /\ -1 <= Boxed.sfTop s < Z.of_nat (length (Boxed.sf s))
      /\ Z.of_nat (length (Boxed.sf s)) < 2 ^ 15
  | Boxed.AtShortCircuit s curt _, ASC stk m i =>
      stk = Boxed_frames s /\ m = Boxed.maxIdx s
      /\ -1 <= Boxed.sfTop s < Z.of_nat (length (Boxed.sf s))
      /\ Z.of_nat (length (Boxed.sf s)) < 2 ^ 15
      /\ load (Boxed.nodes e) i = Some curt
  | _, _ => False
  end.

Definition Flat_abs {W} (e : Flat.Expr W) (c : Flat.config W) (ac : aconfig) : Prop :=
  match c, ac with
  | Flat.AtLoop s, ALoop stk m =>
      stk = Flat_frames s /\ m = Flat.maxIdx s
      /\ -1 <= Flat.sfTop s < Z.of_nat (length (Flat.sf s))
      /\ Z.of_nat (length (Flat.sf s)) < 2 ^ 15
  | Flat.AtShortCircuit s curt flag _, ASC stk m i =>
      stk = Flat_frames s /\ m = Flat.maxIdx s
      /\ -1 <= Flat.sfTop s < Z.of_nat (length (Flat.sf s))
      /\ Z.of_nat (length (Flat.sf s)) < 2 ^ 15
      /\ i = curt
      /\ 0 <= curt /\ 4 * curt < Z.of_nat (length (Flat.bytecode e))
  | _, _ => False
  end.

(** * [EvalBool]

    [EvalBool] runs [Eval] and asserts that the result is a [bool].  Its
    error is the error of [Eval], returned as it is, or the error it makes
    itself with [fmt.Errorf("invalid result type: %v", res)]. *)

Inductive boolError : Type :=
| EvalError (err : error)
| InvalidResultType (res : Value).

Inductive resultBool (W : Type) : Type :=
| ReturnsBool (v : bool) (err : option boolError) (io : IO W)
| PanicsBool
| OutOfFuelBool.
Arguments ReturnsBool {W} _ _ _.
Arguments PanicsBool {W}.
Arguments OutOfFuelBool {W}.

(** What [EvalBool] makes of the result of [Eval]. *)
Definition asBool {W} (r : result W) : resultBool W :=
  match r with
  | Returns res (Some err) io => ReturnsBool false (Some (EvalError err)) io
  | Returns res None io =>
      match res with
      | VBool v => ReturnsBool v None io
      | _ => ReturnsBool false (Some (InvalidResultType res)) io
      end
  | Panics => PanicsBool
  | OutOfFuel => OutOfFuelBool
  end.

(** [(e *Expr) EvalBool] of the node-record variant. *)
Definition Boxed_EvalBool {W} (fuel : nat) (e : Boxed.Expr W) (ctx : Ctx W) (w : W)
  : resultBool W :=
  asBool (Boxed.Eval fuel e ctx w).

(** [(e *Expr) EvalBool] of the flat variant. *)
Definition Flat_EvalBool {W} (fuel : nat) (e : Flat.Expr W) (ctx : Ctx W) (w : W)
  : resultBool W :=
  asBool (Flat.Eval fuel e ctx w).

(** * The operand stack

    [obase P osz x]: the number of operands below the result of node [x],
    read off its parent: a child of an operator sits above the results of
    the children before it, the predicate and the branches of a conditional
    sit where the conditional's own result goes.  [osz] is the table
    [osSize]. *)

Definition obase (P : list anode) (osz : list Z) (x : Z) : Z :=
  match load P x with
  | Some n =>
      match load P (aparent n) with
      | Some np =>
          match akind_of np with
          | KOp => default 0 (load osz (aparent n)) + (x - afirst np)
          | KCond => default 0 (load osz (aparent n))
          | _ => 0
          end
      | None => 0
      end
  | None => 0
  end.

(** The operands a frame finds above its base when it is popped: an
    operator met again finds the results of its children, a conditional met
    again its predicate, an End node the result of the branch. *)
Definition bump (P : list anode) (x m : Z) : Z :=
  match load P x with
  | Some n =>
      match akind_of n with
      | KOp => if decide (x > m) then 0 else acnt n
      | KCond => if decide (x > m) then 0 else 1
      | KEnd => 1
      | _ => 0
      end
  | None => 0
  end.

(** The height [osTop + 1] of the operand stack at each point of the loop. *)
Definition oheight (P : list anode) (osz : list Z) (ac : aconfig) : Z :=
  match ac with
  | ALoop [] _ => 1
  | ALoop (x :: _) m => obase P osz x + bump P x m
  | ASC _ _ i => obase P osz i
  end.

(** What the loop needs of the table [osSize] and of the [size] of the two
    stacks: there is a root, and it is no End node; every operator and
    conditional has its own base in [osSize], room for its frames and for
    its operands, and no End node among its operands. *)
Record os_shaped (P : list anode) (osz : list Z) (size : Z) : Prop := {
  os_root : exists n, load P 0 = Some n /\ akind_of n <> KEnd;
  os_size : 1 <= size;
  os_node : forall i n, load P i = Some n ->
    match akind_of n with
    | KOp =>
        load osz i = Some (obase P osz i)
        /\ adepth n + acnt n <= size
        /\ obase P osz i + Z.max (acnt n) 1 <= size
        /\ forall k, 0 <= k < acnt n -> akind_at P (afirst n + k) <> Some KEnd
    | KCond =>
        load osz i = Some (obase P osz i)
        /\ adepth n + 2 <= size
        /\ obase P osz i + 1 <= size
        /\ akind_at P (afirst n) <> Some KEnd
        /\ akind_at P (afirst n + 1) <> Some KEnd
        /\ akind_at P (afirst n + 2) <> Some KEnd
    | _ => True
    end
}.

(** ** What the node-record variant needs of each node

    A node [getNodeValue] can read: a constant, or else a node whose value
    is the name of a selector. *)
Definition Boxed_readable {W} (n : Boxed.node W) : Prop :=
  Z.land (Boxed.flag n) nodeTypeMask = constant
  \/ exists name, Boxed.value n = VString name.

(** Operators have a function, selectors a name, and the operands of a fast
    operator are nodes of the table that [getNodeValue] can read. *)
Definition Boxed_node_ready {W} (e : Boxed.Expr W) (nd : Boxed.node W) : Prop :=
  let ty := Z.land (Boxed.flag nd) nodeTypeMask in
  (ty = fastOperator ->
     0 <= int16 (Boxed.childCnt nd)
     /\ is_Some (Boxed.op nd)
     /\ forall k, 0 <= k < int16 (Boxed.childCnt nd) ->
          exists ch, load (Boxed.nodes e) (Boxed.childIdx nd + k) = Some ch
                     /\ Boxed_readable ch)
  /\ (ty = operator -> is_Some (Boxed.op nd))
  /\ (ty = selector -> exists name, Boxed.value nd = VString name).

Record Boxed_ready {W} (e : Boxed.Expr W) : Prop := {
  br_tree : tree_shaped (Boxed_prog e);
  br_size : Boxed.maxStackSize e < 2 ^ 15;
  br_os : os_shaped (Boxed_prog e) (Boxed.osSize e) (Boxed.stackSize (Boxed.maxStackSize e));
  br_node : forall i nd, load (Boxed.nodes e) i = Some nd -> Boxed_node_ready e nd
}.

(** The operand stack of a state is as high as the frame on top of the
    stack frame says, and both stacks have the size they were made with. *)
Definition Boxed_os_ok {W} (e : Boxed.Expr W) (c : Boxed.config W) (ac : aconfig) : Prop :=
  let s := Boxed_state c in
  Boxed.osTop s + 1 = oheight (Boxed_prog e) (Boxed.osSize e) ac
  /\ Z.of_nat (length (Boxed.sf s)) = Boxed.stackSize (Boxed.maxStackSize e)
  /\ Z.of_nat (length (Boxed.os s)) = Boxed.stackSize (Boxed.maxStackSize e).

(** ** What the flat variant needs of each node

    Node [i] names a constant, or an operator that is not nil, in word
    [4i+2] of the bytecode. *)
Definition Flat_constant_at {W} (e : Flat.Expr W) (i : Z) : Prop :=
  exists k v, load (Flat.bytecode e) (4 * i + 2) = Some k
              /\ load (Flat.constants e) k = Some v.

Definition Flat_operator_at {W} (e : Flat.Expr W) (i : Z) : Prop :=
  exists k f, load (Flat.bytecode e) (4 * i + 2) = Some k
              /\ load (Flat.operators e) k = Some (Some f).

(** A node the method [getNodeValue] can read. *)
Definition Flat_readable {W} (e : Flat.Expr W) (j : Z) : Prop :=
  exists b, load (Flat.bytecode e) (4 * j) = Some b
            /\ (Z.land b nodeTypeMask = constant -> Flat_constant_at e j).

Definition Flat_node_ready {W} (e : Flat.Expr W) (i b0 : Z) : Prop :=
  let ty := Z.land b0 nodeTypeMask in
  (ty = fastOperator ->
     0 <= Z.shiftr b0 8
     /\ Flat_operator_at e i
     /\ forall k, 0 <= k < Z.shiftr b0 8 ->
          Flat_readable e (default 0 (load (Flat.bytecode e) (4 * i + 1)) + k))
  /\ (ty = operator -> Flat_operator_at e i)
  /\ (ty = constant -> Flat_constant_at e i).

(** The bytecode is made of whole nodes, each with an entry in [scIdx]. *)
Record Flat_ready {W} (e : Flat.Expr W) : Prop := {
  fr_tree : tree_shaped (Flat_prog e);
  fr_size : Flat.maxStackSize e < 2 ^ 15;
  fr_os : os_shaped (Flat_prog e) (Flat.osSize e) (Flat.stackSize (Flat.maxStackSize e));
  fr_whole : forall i, 0 <= i -> 4 * i < Z.of_nat (length (Flat.bytecode e)) ->
               4 * i + 3 < Z.of_nat (length (Flat.bytecode e));
  fr_sc : forall i, 0 <= i -> 4 * i < Z.of_nat (length (Flat.bytecode e)) ->
            is_Some (load (Flat.scIdx e) i);
  fr_node : forall i b0, 0 <= i -> load (Flat.bytecode e) (4 * i) = Some b0 ->
              Flat_node_ready e i b0
}.

Definition Flat_os_ok {W} (e : Flat.Expr W) (c : Flat.config W) (ac : aconfig) : Prop :=
  let s := Flat_state c in
  Flat.osTop s + 1 = oheight (Flat_prog e) (Flat.osSize e) ac
  /\ Z.of_nat (length (Flat.sf s)) = Flat.stackSize (Flat.maxStackSize e)
  /\ Z.of_nat (length (Flat.os s)) = Flat.stackSize (Flat.maxStackSize e).

(** The states of [if(x < y, "lt", "ge")] and of its bytecode after three
    turns, with [x] 3 and [y] 4: the predicate is on the operand stack and
    the conditional, node 0, is about to be met again. *)
Definition vmIfLtSecond : Boxed.vm unit :=
  Boxed.mkVM 0 [4; 0; 1; 0; 0; 0; 0; 0] 1 (VBool true :: replicate 7 VNil) 0 false
    (mkIO tt [CallGet 1 "x"; CallGet 2 "y"; CallOp 1 [VInt64 3; VInt64 4]]).

Definition flatVmIfLtSecond : Flat.vm unit :=
  Flat.mkVM 0 [4; 0; 1; 0] 1 [VBool true; VNil; VNil; VNil] 0 false
    (mkIO tt [CallGet 1 ""; CallGet 2 ""; CallOp 1 [VInt64 3; VInt64 4]]).

(** * Reading the operands of a fast operator

    The nodes a fast operator reads: [e.nodes[n.childIdx + i]] for [i] from
    0 to [cnt - 1], the sum being an [int16] in the node-record variant and
    an [int] in the flat one. *)
Definition Boxed_leaves (childIdx cnt : Z) : list Z :=
  (fun i => int16 (childIdx + i)) <$> seqZ 0 cnt.

Definition Flat_leaves (childIdx cnt : Z) : list Z :=
  (fun i => int (childIdx + i)) <$> seqZ 0 cnt.

(** [Boxed_readLeaves e ctx js io]: the nodes of index [js] read one after
    the other with [getNodeValue], from left to right; the first error ends
    the reading and is the result, otherwise the values read, in order. *)
Fixpoint Boxed_readLeaves {W} (e : Boxed.Expr W) (ctx : Ctx W) (js : list Z) (io : IO W)
  : option ((list Value + error) * IO W) :=
  match js with
  | [] => Some (inl [], io)
  | j :: rest =>
      match load (Boxed.nodes e) j with
      | None => None
      | Some ch =>
          match Boxed.getNodeValue ctx ch io with
          | None => None
          | Some ((_, Some err), io1) => Some (inr err, io1)
          | Some ((v, None), io1) =>
              match Boxed_readLeaves e ctx rest io1 with
              | Some (inl vs, io2) => Some (inl (v :: vs), io2)
              | r => r
              end
          end
      end
  end.

(** The same for the flat variant, with the method [getNodeValue]. *)
Fixpoint Flat_readLeaves {W} (e : Flat.Expr W) (ctx : Ctx W) (js : list Z) (io : IO W)
  : option ((list Value + error) * IO W) :=
  match js with
  | [] => Some (inl [], io)
  | j :: rest =>
      match Flat.getNodeValue e ctx j io with
      | None => None
      | Some ((_, Some err), io1) => Some (inr err, io1)
      | Some ((v, None), io1) =>
          match Flat_readLeaves e ctx rest io1 with
          | Some (inl vs, io2) => Some (inl (v :: vs), io2)
          | r => r
          end
      end
  end.

(** [x < y]: a fast operator over the selectors [x] (key 1) and [y]
    (key 2). *)
Definition nodeLt {W} : Boxed.node W :=
  Boxed.mkNode fastOperator 2 0 1 0 (VString "<") (Some opLt).

Definition nodeSelX {W} : Boxed.node W := Boxed.mkNode selector 0 0 0 1 (VString "x") None.
Definition nodeSelY {W} : Boxed.node W := Boxed.mkNode selector 0 0 0 2 (VString "y") None.

Definition exprLt {W} : Boxed.Expr W :=
  Boxed.mkExpr 1 [nodeLt; nodeSelX; nodeSelY] [-1; 0; 0] [0; 0; 0] [1; 0; 0] [0; 0; 0].

(** A context that knows [x] (key 1) as the [int32] 3 and fails every other
    lookup. *)
Definition xOnlyCtx : Ctx unit :=
  mkCtx (fun key _ w =>
           if decide (key = 1) then ((VInt32 3, None), w)
           else ((VNil, Some (ErrNew "no such variable")), w)) false.

(** A context that knows [x] and [y] as the [int32] 3 and 4. *)
Definition xy32Ctx : Ctx unit :=
  mkCtx (fun key _ w =>
           if decide (key = 1) then ((VInt32 3, None), w)
           else ((VInt32 4, None), w)) false.


(** * The type unifier *)

Lemma wrap_small (bits z : Z) :
  0 < bits -> in_signed bits z -> wrap bits z = z.
Proof.
  intros Hb [Hlo Hhi]. unfold wrap.
  assert (E : 2 ^ bits = 2 * 2 ^ (bits - 1)).
  { rewrite <- Z.pow_succ_r by lia. f_equal. lia. }
  rewrite Z.mod_small; lia.
Qed.

Lemma in_signed_mono (a b z : Z) :
  0 < a <= b -> in_signed a z -> in_signed b z.
Proof.
  intros Hab [Hlo Hhi]. unfold in_signed.
  assert (2 ^ (a - 1) <= 2 ^ (b - 1)) by (apply Z.pow_le_mono_r; lia).
  lia.
Qed.

Lemma in_unsigned_signed (a b z : Z) :
  0 <= a < b -> in_unsigned a z -> in_signed b z.
Proof.
  intros Hab [Hlo Hhi]. unfold in_signed.
  assert (2 ^ a <= 2 ^ (b - 1)) by (apply Z.pow_le_mono_r; lia).
  assert (0 < 2 ^ (b - 1)) by (apply Z.pow_pos_nonneg; lia).
  lia.
Qed.

Lemma int64_small (z : Z) : in_signed 64 z -> int64 z = z.
Proof. apply wrap_small. lia. Qed.

Lemma int64_high (z : Z) : 2 ^ 63 <= z < 2 ^ 64 -> int64 z = z - 2 ^ 64.
Proof.
  intros H. unfold int64, wrap.
  change (2 ^ (64 - 1)) with (2 ^ 63) in *.
  assert (E : 2 ^ 64 = 2 * 2 ^ 63) by reflexivity.
  replace (z + 2 ^ 63) with ((z - 2 ^ 63) + 1 * 2 ^ 64) by lia.
  rewrite Z.mod_add by lia. rewrite Z.mod_small; lia.
Qed.

Lemma map_int64_small (l : list Z) : Forall (in_signed 64) l -> map int64 l = l.
Proof.
  induction 1 as [|z l Hz _ IH]; simpl; [reflexivity|].
  rewrite int64_small, IH; auto.
Qed.

Lemma quot_Second_trunc (ns : Z) :
  let q := Z.quot ns Second in
  Z.abs (q * Second) <= Z.abs ns < Z.abs (q * Second) + Second /\ 0 <= q * ns.
Proof.
  unfold Second. cbv zeta.
  pose proof (Z.quot_rem' ns 1000000000) as E.
  pose proof (Z.rem_bound_abs ns 1000000000 ltac:(lia)) as B.
  pose proof (Z.rem_sign_mul ns 1000000000 ltac:(lia)) as Sg.
  set (q := Z.quot ns 1000000000) in *. set (r := Z.rem ns 1000000000) in *.
  clearbody q r. nia.
Qed.

Lemma quot_Second_in_signed (ns : Z) : in_signed 64 ns -> in_signed 64 (Z.quot ns Second).
Proof.
  unfold in_signed. change (2 ^ (64 - 1)) with 9223372036854775808.
  pose proof (quot_Second_trunc ns) as H. cbv zeta in H. unfold Second in *. lia.
Qed.

Lemma unifyType_canonical (v : Value) : canonical v = true -> unifyType v = v.
Proof. destruct v; simpl; intros H; first [reflexivity | discriminate H]. Qed.

Lemma unifyType_fixed (v : Value) : unifyType (unifyType v) = unifyType v.
Proof. destruct v; reflexivity. Qed.

(** C9. The type unifier is idempotent, [unifyType (unifyType v) = unifyType v]
    for every value [v], and it is the identity on every value of a canonical
    kind (bool, string, int64, []int64, []string). *)
Theorem unifyType_idempotent_passthrough :
  (forall v : Value, unifyType (unifyType v) = unifyType v)
  /\ (forall v : Value, canonical v = true -> unifyType v = v).
Proof. split; [exact unifyType_fixed | exact unifyType_canonical]. Qed.

Lemma unifyType_idempotent_passthrough_witness :
  canonical (VInt64s [1; 2]) = true
  /\ unifyType (VInt64s [1; 2]) = VInt64s [1; 2]
  /\ unifyType (unifyType (VInt32 3)) = unifyType (VInt32 3).
Proof.
  split; [reflexivity|]. split.
  - apply (proj2 unifyType_idempotent_passthrough). reflexivity.
  - apply (proj1 unifyType_idempotent_passthrough).
Defined.

(** C8 as stated fails: a [uint64] of [2^63] is well typed, is converted by
    the unifier, and comes out as the negative number [-2^63]. *)
Lemma unifyType_uint64_not_lossless :
  well_typed (VUint64 (2 ^ 63))
  /\ narrow_int (VUint64 (2 ^ 63)) = true
  /\ unifyType (VUint64 (2 ^ 63)) = VInt64 (- 2 ^ 63)
  /\ number (unifyType (VUint64 (2 ^ 63))) <> number (VUint64 (2 ^ 63)).
Proof.
  split; [|split; [|split]].
  - unfold well_typed, in_unsigned. lia.
  - reflexivity.
  - vm_compute. reflexivity.
  - vm_compute. discriminate.
Qed.

(** C8, amended. On well-typed input the unifier keeps the number of every
    integer kind it converts, as long as that number is below [2^63] (which
    only a [uint64] can exceed); a [uint64] of [2^63] or more comes out as
    the number minus [2^64]; a []int is converted elementwise without
    change; a duration becomes its quotient by [Second], truncated toward
    zero; a time becomes its Unix seconds, the sub-second part dropped. *)
Theorem unifyType_widening (v : Value) (Hwt : well_typed v) :
  (forall z, narrow_int v = true -> number v = Some z -> z < 2 ^ 63 ->
     unifyType v = VInt64 z)
  /\ (forall z, v = VUint64 z -> 2 ^ 63 <= z -> unifyType v = VInt64 (z - 2 ^ 64))
  /\ (forall l, v = VInts l -> unifyType v = VInt64s l)
  /\ (forall ns, v = VDuration ns ->
        let q := Z.quot ns Second in
        unifyType v = VInt64 q
        /\ Z.abs (q * Second) <= Z.abs ns < Z.abs (q * Second) + Second
        /\ 0 <= q * ns)
  /\ (forall sec nsec, v = VTime sec nsec -> unifyType v = VInt64 sec).
Proof.
  split; [|split; [|split; [|split]]].
  - intros z Hk Hn Hz.
    assert (S8 : forall x, in_signed 8 x -> in_signed 64 x)
      by (intros x; apply in_signed_mono; lia).
    assert (S16 : forall x, in_signed 16 x -> in_signed 64 x)
      by (intros x; apply in_signed_mono; lia).
    assert (S32 : forall x, in_signed 32 x -> in_signed 64 x)
      by (intros x; apply in_signed_mono; lia).
    assert (U8 : forall x, in_unsigned 8 x -> in_signed 64 x)
      by (intros x; apply in_unsigned_signed; lia).
    assert (U16 : forall x, in_unsigned 16 x -> in_signed 64 x)
      by (intros x; apply in_unsigned_signed; lia).
    assert (U32 : forall x, in_unsigned 32 x -> in_signed 64 x)
      by (intros x; apply in_unsigned_signed; lia).
    destruct v; simpl in *; try discriminate Hk;
      injection Hn as ->; f_equal; apply int64_small; auto.
    destruct Hwt as [Hlo _]. unfold in_signed.
    change (2 ^ (64 - 1)) with (2 ^ 63). lia.
  - intros z -> Hz. simpl in *. f_equal. apply int64_high.
    destruct Hwt. lia.
  - intros l ->. simpl in *. f_equal. apply map_int64_small, Hwt.
  - intros ns ->. simpl in *. split.
    + f_equal. apply int64_small, quot_Second_in_signed, Hwt.
    + apply quot_Second_trunc.
  - intros sec nsec ->. reflexivity.
Qed.

Lemma unifyType_widening_witness :
  well_typed (VUint32 4000000000)
  /\ unifyType (VUint32 4000000000) = VInt64 4000000000.
Proof.
  assert (Hwt : well_typed (VUint32 4000000000))
    by (unfold well_typed, in_unsigned; lia).
  split; [exact Hwt|].
  apply (proj1 (unifyType_widening (VUint32 4000000000) Hwt));
    [reflexivity | reflexivity | lia].
Defined.

(** * Dispatch of single nodes *)

Ltac node_type H :=
  repeat (rewrite decide_False by
            (rewrite H; unfold fastOperator, operator, selector, constant, cond, end_; lia));
  try (rewrite decide_True by exact H).

Section BoxedDispatch.
Context {W : Type}.
Variable e : Boxed.Expr W.
Variable ctx : Ctx W.

Lemma Boxed_dispatch_selector s curtIdx curt :
  Boxed_dispatches e s curtIdx curt ->
  Boxed.getNodeType curt = selector ->
  Boxed.dispatch e ctx s =
    match Boxed.getSelectorValue ctx curt (Boxed.io s) with
    | None => Boxed.Panicked
    | Some ((_, Some err), io1) => Boxed.Done VNil (Some err) io1
    | Some ((res, None), io1) =>
        Boxed.Next (Boxed.AtShortCircuit (Boxed_withIO (Boxed_popped s) io1) curt res)
    end.
Proof.
  intros (Hne & Hpop & Hnode) Hty. unfold Boxed.getNodeType in Hty.
  unfold Boxed.dispatch. rewrite decide_False by exact Hne.
  rewrite Hpop. cbn [Boxed.orPanic]. rewrite Hnode. cbn [Boxed.orPanic].
  node_type Hty.
  destruct (Boxed.getSelectorValue ctx curt (Boxed.io s)) as [[[res [err|]] io1]|];
    reflexivity.
Qed.

Lemma Boxed_getSelectorValue_ok curt name io v w' :
  Boxed.value curt = VString name ->
  Get ctx (Boxed.selKey curt) name (world io) = ((v, None), w') ->
  Boxed.getSelectorValue ctx curt io =
    Some ((if canonical v then v else unifyType v, None),
          logged io w' (CallGet (Boxed.selKey curt) name)).
Proof.
  intros Hname Hget. unfold Boxed.getSelectorValue. rewrite Hname, Hget.
  destruct (canonical v); reflexivity.
Qed.

Lemma Boxed_getSelectorValue_err curt name io v err w' :
  Boxed.value curt = VString name ->
  Get ctx (Boxed.selKey curt) name (world io) = ((v, Some err), w') ->
  Boxed.getSelectorValue ctx curt io =
    Some ((v, Some err), logged io w' (CallGet (Boxed.selKey curt) name)).
Proof.
  intros Hname Hget. unfold Boxed.getSelectorValue. rewrite Hname, Hget.
  reflexivity.
Qed.

Lemma Boxed_getSelectorValue_nameless curt io :
  nameless_node curt ->
  Boxed.getSelectorValue ctx curt io = None.
Proof.
  intros Hname. unfold Boxed.getSelectorValue.
  destruct (Boxed.value curt) as [| |name| | | | | | | | | | | | | | |] eqn:E;
    try reflexivity.
  destruct (Hname name E).
Qed.

Lemma Boxed_getNodeValue_leaf n io :
  Boxed.getNodeType n <> constant ->
  Boxed.getNodeValue ctx n io = Boxed.getSelectorValue ctx n io.
Proof.
  intros Hty. unfold Boxed.getNodeValue. rewrite decide_False by exact Hty.
  reflexivity.
Qed.

Lemma Boxed_run_done fuel c res err io :
  Boxed.step e ctx c = Boxed.Done res err io ->
  Boxed.run e ctx (S fuel) c = Returns res err io.
Proof. intros H. simpl. rewrite H. reflexivity. Qed.

Lemma Boxed_run_panicked fuel c :
  Boxed.step e ctx c = Boxed.Panicked ->
  Boxed.run e ctx (S fuel) c = Panics.
Proof. intros H. simpl. rewrite H. reflexivity. Qed.

Lemma Boxed_run_next fuel c c' :
  Boxed.step e ctx c = Boxed.Next c' ->
  Boxed.run e ctx (S fuel) c = Boxed.run e ctx fuel c'.
Proof. intros H. simpl. rewrite H. reflexivity. Qed.

End BoxedDispatch.

Section BoxedFast.
Context {W : Type}.
Variable e : Boxed.Expr W.
Variable ctx : Ctx W.

Lemma Boxed_dispatch_fastOperator s curtIdx curt :
  Boxed_dispatches e s curtIdx curt ->
  Boxed.getNodeType curt = fastOperator ->
  Boxed.dispatch e ctx s =
    match Boxed.fastOperatorParams e ctx (int16 (Boxed.childCnt curt))
            (Boxed.childIdx curt) (Boxed.io s) with
    | None => Boxed.Panicked
    | Some (inr err, io1) => Boxed.Done VNil (Some err) io1
    | Some (inl param, io1) =>
        match Boxed.invoke ctx curtIdx curt param io1 with
        | None => Boxed.Panicked
        | Some ((_, Some err), io2) =>
            Boxed.Done VNil (Some (ErrOperatorExec (Boxed.value curt) err)) io2
        | Some ((res, None), io2) =>
            Boxed.Next (Boxed.AtShortCircuit (Boxed_withIO (Boxed_popped s) io2) curt res)
        end
    end.
Proof.
  intros (Hne & Hpop & Hnode) Hty. unfold Boxed.getNodeType in Hty.
  unfold Boxed.dispatch. rewrite decide_False by exact Hne.
  rewrite Hpop. cbn [Boxed.orPanic]. rewrite Hnode. cbn [Boxed.orPanic].
  node_type Hty.
  destruct (Boxed.fastOperatorParams e ctx _ _ _) as [[[param|err] io1]|];
    cbn [Boxed.orPanic]; try reflexivity.
Qed.

(** The loop index after [k] rounds. *)
Lemma int16_int16_add (a b : Z) : int16 (int16 a + b) = int16 (a + b).
Proof.
  unfold int16, wrap. change (2 ^ (16 - 1)) with 32768. change (2 ^ 16) with 65536.
  replace ((a + 32768) `mod` 65536 - 32768 + b + 32768)
    with ((a + 32768) `mod` 65536 + b) by lia.
  rewrite Zplus_mod_idemp_l. f_equal. f_equal. lia.
Qed.

Lemma int16_small (z : Z) : in_signed 16 z -> int16 z = z.
Proof. apply wrap_small. lia. Qed.

Lemma int16_range (z : Z) : in_signed 16 (int16 z).
Proof.
  unfold in_signed, int16, wrap. change (2 ^ (16 - 1)) with 32768.
  change (2 ^ 16) with 65536.
  pose proof (Z.mod_pos_bound (z + 32768) 65536 ltac:(lia)). lia.
Qed.

(** Reading [k + m] leaf children is reading [k] and then [m] more. *)
Lemma Boxed_fastParams_split (k m : nat) (i childIdx : Z) param io :
  Boxed.fastParams e ctx (k + m) i childIdx param io =
    match Boxed.fastParams e ctx k i childIdx param io with
    | Some (inl param', io') =>
        Boxed.fastParams e ctx m
          (if decide (k = 0%nat) then i else int16 (i + Z.of_nat k)) childIdx param' io'
    | r => r
    end.
Proof.
  revert i param io. induction k as [|k IH]; intros i param io.
  - reflexivity.
  - cbn [Nat.add Boxed.fastParams].
    destruct (load (Boxed.nodes e) _) as [child|]; [|reflexivity]. cbn [mbind option_bind].
    destruct (Boxed.getNodeValue ctx child io) as [[[v [err|]] io']|];
      cbn [mbind option_bind]; try reflexivity.
    destruct (store param i v) as [param'|]; [|reflexivity]. cbn [mbind option_bind].
    rewrite IH. rewrite (decide_False (P := S k = 0%nat)) by lia.
    destruct (Boxed.fastParams e ctx k _ _ _ _) as [[[p|?] ?]|]; try reflexivity.
    destruct (decide (k = 0%nat)) as [->|Hk].
    + reflexivity.
    + rewrite int16_int16_add.
      replace (i + 1 + Z.of_nat k) with (i + Z.of_nat (S k)) by lia. reflexivity.
Qed.

End BoxedFast.

Section BoxedLeaves.
Context {W : Type}.
Variable e : Boxed.Expr W.
Variable ctx : Ctx W.

(** The unrolled code for arity 2 does what the loop does. *)
Lemma Boxed_fastOperatorParams_loop (cnt childIdx : Z) io :
  in_signed 16 childIdx -> 0 <= cnt ->
  Boxed.fastOperatorParams e ctx cnt childIdx io =
    Boxed.fastParams e ctx (Z.to_nat cnt) 0 childIdx (replicate (Z.to_nat cnt) VNil) io.
Proof.
  intros Hc Hcnt. unfold Boxed.fastOperatorParams.
  destruct (decide (cnt = 2)) as [->|Hne].
  - change (Z.to_nat 2) with 2%nat. cbn [Boxed.fastParams replicate].
    rewrite Z.add_0_r, (int16_small childIdx) by exact Hc.
    destruct (load (Boxed.nodes e) childIdx) as [c0|]; [|reflexivity].
    cbn [mbind option_bind].
    destruct (Boxed.getNodeValue ctx c0 io) as [[[p0 [err|]] io0]|]; reflexivity.
  - unfold make. rewrite decide_True by exact Hcnt. reflexivity.
Qed.

(** A leaf child without a name, read after [k] good reads, makes the
    parameter loop panic. *)
Lemma Boxed_fastParams_nameless (k m : nat) (childIdx : Z) param param' io io' bad :
  Z.of_nat k < 2 ^ 15 ->
  Boxed.fastParams e ctx k 0 childIdx param io = Some (inl param', io') ->
  load (Boxed.nodes e) (int16 (childIdx + Z.of_nat k)) = Some bad ->
  Boxed.getNodeType bad <> constant ->
  nameless_node bad ->
  Boxed.fastParams e ctx (k + S m) 0 childIdx param io = None.
Proof.
  intros Hk Hread Hbad Hty Hname.
  rewrite Boxed_fastParams_split, Hread. cbn [Boxed.fastParams].
  assert (E : int16 (childIdx + (if decide (k = 0%nat) then 0 else int16 (0 + Z.of_nat k)))
              = int16 (childIdx + Z.of_nat k)).
  { destruct (decide (k = 0%nat)) as [->|_]; [reflexivity|].
    rewrite Z.add_comm, int16_int16_add. f_equal. lia. }
  rewrite E, Hbad. cbn [mbind option_bind].
  rewrite Boxed_getNodeValue_leaf, Boxed_getSelectorValue_nameless by assumption.
  reflexivity.
Qed.

End BoxedLeaves.

(** * Errors of the context (C7) *)

(** C7 as stated fails: the context fails the lookup of [x] with the error
    "db down"; [Eval] returns that very error, which wraps nothing. *)
Lemma selector_error_is_not_wrapped :
  Boxed.Eval 5 exprX (constCtx (VNil, Some (ErrNew "db down")) false) tt
  = Returns VNil (Some (ErrNew "db down")) (mkIO tt [CallGet 1 "x"])
  /\ Unwrap (ErrNew "db down") = None.
Proof. split; reflexivity. Qed.

(** The three ways a turn of the loop ends [Eval] with an error of a
    lookup or of a fast operator: a dispatched Selector whose lookup fails,
    the parameter reading of a FastOperator that stops with an error, and a
    FastOperator whose function fails. *)
Lemma selector_error_paths {W} (e : Boxed.Expr W) (ctx : Ctx W)
    (s : Boxed.vm W) (curtIdx : Z) (curt : Boxed.node W) (fuel : nat)
    (Hd : Boxed_dispatches e s curtIdx curt) :
  (forall name v err w',
     Boxed.getNodeType curt = selector ->
     Boxed.value curt = VString name ->
     Get ctx (Boxed.selKey curt) name (world (Boxed.io s)) = ((v, Some err), w') ->
     Boxed.run e ctx (S fuel) (Boxed.AtLoop s)
     = Returns VNil (Some err)
         (logged (Boxed.io s) w' (CallGet (Boxed.selKey curt) name)))
  /\ (forall err io1,
        Boxed.getNodeType curt = fastOperator ->
        Boxed.fastOperatorParams e ctx (int16 (Boxed.childCnt curt))
          (Boxed.childIdx curt) (Boxed.io s) = Some (inr err, io1) ->
        Boxed.run e ctx (S fuel) (Boxed.AtLoop s) = Returns VNil (Some err) io1)
  /\ (forall param io1 v err io2,
        Boxed.getNodeType curt = fastOperator ->
        Boxed.fastOperatorParams e ctx (int16 (Boxed.childCnt curt))
          (Boxed.childIdx curt) (Boxed.io s) = Some (inl param, io1) ->
        Boxed.invoke ctx curtIdx curt param io1 = Some ((v, Some err), io2) ->
        Boxed.run e ctx (S fuel) (Boxed.AtLoop s)
        = Returns VNil (Some (ErrOperatorExec (Boxed.value curt) err)) io2).
Proof.
  split; [|split].
  - intros name v err w' Hty Hname Hget. apply Boxed_run_done.
    cbn [Boxed.step]. rewrite (Boxed_dispatch_selector e ctx s curtIdx curt Hd Hty).
    rewrite (Boxed_getSelectorValue_err ctx curt name _ v err w' Hname Hget).
    reflexivity.
  - intros err io1 Hty Hps. apply Boxed_run_done. cbn [Boxed.step].
    rewrite (Boxed_dispatch_fastOperator e ctx s curtIdx curt Hd Hty), Hps.
    reflexivity.
  - intros param io1 v err io2 Hty Hps Hinv. apply Boxed_run_done. cbn [Boxed.step].
    rewrite (Boxed_dispatch_fastOperator e ctx s curtIdx curt Hd Hty), Hps, Hinv.
    reflexivity.
Qed.


Section FlatDispatch.
Context {W : Type}.
Variable e : Flat.Expr W.
Variable ctx : Ctx W.

Lemma Flat_dispatch_selector s curt b0 :
  Flat_dispatches e s curt b0 ->
  Z.land b0 nodeTypeMask = selector ->
  Flat.dispatch e ctx s =
    match load (Flat.bytecode e) (int (int (curt * 4) + 3)) with
    | None => Flat.Panicked
    | Some key =>
        match Get ctx key "" (world (Flat.io s)) with
        | ((_, Some err), w') =>
            Flat.Done VNil (Some err) (logged (Flat.io s) w' (CallGet key ""))
        | ((res, None), w') =>
            Flat.Next (Flat.AtShortCircuit
                         (Flat_withIO (Flat_popped s)
                            (logged (Flat.io s) w' (CallGet key "")))
                         curt (Z.land b0 scMask) res)
        end
    end.
Proof.
  intros (Hne & Hpop & Hnode) Hty.
  unfold Flat.dispatch. rewrite decide_False by exact Hne.
  rewrite Hpop. cbn [Flat.orPanic]. rewrite Hnode. cbn [Flat.orPanic].
  node_type Hty.
  destruct (load (Flat.bytecode e) _) as [key|]; [|reflexivity].
  cbn [Flat.orPanic].
  destruct (Get ctx key "" (world (Flat.io s))) as [[res [err|]] w']; reflexivity.
Qed.

Lemma Flat_getNodeValue_leaf i io b0 key :
  load (Flat.bytecode e) (int (i * 4)) = Some b0 ->
  Z.land b0 nodeTypeMask <> constant ->
  load (Flat.bytecode e) (int (int (i * 4) + 3)) = Some key ->
  Flat.getNodeValue e ctx i io =
    Some (fst (Get ctx key "" (world io)),
          logged io (snd (Get ctx key "" (world io))) (CallGet key "")).
Proof.
  intros Hb0 Hty Hkey. unfold Flat.getNodeValue.
  rewrite Hb0. cbn [mbind option_bind]. rewrite decide_False by exact Hty.
  rewrite Hkey. cbn [mbind option_bind].
  destruct (Get ctx key "" (world io)) as [r w']. reflexivity.
Qed.

Lemma Flat_run_done fuel c res err io :
  Flat.step e ctx c = Flat.Done res err io ->
  Flat.run e ctx (S fuel) c = Returns res err io.
Proof. intros H. simpl. rewrite H. reflexivity. Qed.

Lemma Flat_run_panicked fuel c :
  Flat.step e ctx c = Flat.Panicked ->
  Flat.run e ctx (S fuel) c = Panics.
Proof. intros H. simpl. rewrite H. reflexivity. Qed.

Lemma Flat_run_next fuel c c' :
  Flat.step e ctx c = Flat.Next c' ->
  Flat.run e ctx (S fuel) c = Flat.run e ctx fuel c'.
Proof. intros H. simpl. rewrite H. reflexivity. Qed.

End FlatDispatch.

(** * Variable lookups (C2) *)

(** C2 as stated fails on the flat variant: the node of [x] carries the
    display name "x", yet the context is called with the empty name, and the
    [int32] it returns, which is not of a canonical kind, is the result as it
    is; the unifier would have turned it into an [int64]. *)
Lemma flat_lookup_without_name_or_unifier :
  Flat.value <$> Flat.nodes (W:=unit) (encode exprX) !! 0%nat = Some (VString "x")
  /\ Flat.Eval 5 (encode exprX) (constCtx (VInt32 3, None) false) tt
     = Returns (VInt32 3) None (mkIO tt [CallGet 1 ""])
  /\ canonical (VInt32 3) = false
  /\ unifyType (VInt32 3) <> VInt32 3.
Proof. repeat split; try reflexivity. discriminate. Qed.

(** How a node is looked up: a dispatched Selector node and a leaf read by
    [getNodeValue], in the node-record variant with the key, the display
    name and the unifier, in the flat variant with the key and the empty
    name and no unifier. *)
Lemma selector_lookup_paths {W} (ctx : Ctx W) :
  (forall (e : Boxed.Expr W) s curtIdx curt name v w',
     Boxed_dispatches e s curtIdx curt ->
     Boxed.getNodeType curt = selector ->
     Boxed.value curt = VString name ->
     Get ctx (Boxed.selKey curt) name (world (Boxed.io s)) = ((v, None), w') ->
     Boxed.step e ctx (Boxed.AtLoop s)
     = Boxed.Next (Boxed.AtShortCircuit
         (Boxed_withIO (Boxed_popped s)
            (logged (Boxed.io s) w' (CallGet (Boxed.selKey curt) name)))
         curt (if canonical v then v else unifyType v)))
  /\ (forall (n : Boxed.node W) io name v w',
        Boxed.getNodeType n <> constant ->
        Boxed.value n = VString name ->
        Get ctx (Boxed.selKey n) name (world io) = ((v, None), w') ->
        Boxed.getNodeValue ctx n io
        = Some ((if canonical v then v else unifyType v, None),
                logged io w' (CallGet (Boxed.selKey n) name)))
  /\ (forall (e : Flat.Expr W) s curt b0 key v w',
        Flat_dispatches e s curt b0 ->
        Z.land b0 nodeTypeMask = selector ->
        load (Flat.bytecode e) (int (int (curt * 4) + 3)) = Some key ->
        Get ctx key "" (world (Flat.io s)) = ((v, None), w') ->
        Flat.step e ctx (Flat.AtLoop s)
        = Flat.Next (Flat.AtShortCircuit
            (Flat_withIO (Flat_popped s) (logged (Flat.io s) w' (CallGet key "")))
            curt (Z.land b0 scMask) v))
  /\ (forall (e : Flat.Expr W) i io b0 key v w',
        load (Flat.bytecode e) (int (i * 4)) = Some b0 ->
        Z.land b0 nodeTypeMask <> constant ->
        load (Flat.bytecode e) (int (int (i * 4) + 3)) = Some key ->
        Get ctx key "" (world io) = ((v, None), w') ->
        Flat.getNodeValue e ctx i io
        = Some ((v, None), logged io w' (CallGet key ""))).
Proof.
  split; [|split; [|split]].
  - intros e s curtIdx curt name v w' Hd Hty Hname Hget. cbn [Boxed.step].
    rewrite (Boxed_dispatch_selector e ctx s curtIdx curt Hd Hty).
    rewrite (Boxed_getSelectorValue_ok ctx curt name _ v w' Hname Hget).
    reflexivity.
  - intros n io name v w' Hty Hname Hget.
    rewrite Boxed_getNodeValue_leaf by exact Hty.
    apply Boxed_getSelectorValue_ok; assumption.
  - intros e s curt b0 key v w' Hd Hty Hkey Hget. cbn [Flat.step].
    rewrite (Flat_dispatch_selector e ctx s curt b0 Hd Hty), Hkey, Hget.
    reflexivity.
  - intros e i io b0 key v w' Hb0 Hty Hkey Hget.
    rewrite (Flat_getNodeValue_leaf e ctx i io b0 key Hb0 Hty Hkey), Hget.
    reflexivity.
Qed.


(** * Selector nodes without a name (C10) *)

(** C10 as stated fails: node 2 of [true or v] is a Selector whose value
    holds no string, yet the evaluation completes normally, because the
    short circuit on [true] ends it before that node is reached. *)
Lemma nameless_selector_not_reached :
  (exists n, Boxed.nodes exprTrueOrNameless !! 2%nat = Some n
             /\ Boxed.getNodeType n = selector /\ nameless_node n)
  /\ Boxed.Eval 5 exprTrueOrNameless xyCtx tt = Returns (VBool true) None (mkIO tt []).
Proof.
  split; [|reflexivity].
  eexists. split; [reflexivity|]. split; [reflexivity|].
  intros name. discriminate.
Qed.

(** C10, amended. In the node-record variant, whenever a Selector node
    whose value field holds no string is evaluated, the evaluation panics
    instead of returning an error: both when the node is dispatched from the
    stack frame, and when a dispatched FastOperator reads it as a leaf child
    (any child that is not a constant) after reading the children before
    it. *)
Theorem nameless_selector_panics {W} (e : Boxed.Expr W) (ctx : Ctx W)
    (s : Boxed.vm W) (curtIdx : Z) (curt : Boxed.node W) (fuel : nat)
    (Hd : Boxed_dispatches e s curtIdx curt) :
  (Boxed.getNodeType curt = selector ->
   nameless_node curt ->
   Boxed.run e ctx (S fuel) (Boxed.AtLoop s) = Panics)
  /\ (forall (k : nat) param io' bad,
        Boxed.getNodeType curt = fastOperator ->
        in_signed 16 (Boxed.childIdx curt) ->
        (k < Z.to_nat (int16 (Boxed.childCnt curt)))%nat ->
        Boxed.fastParams e ctx k 0 (Boxed.childIdx curt)
          (replicate (Z.to_nat (int16 (Boxed.childCnt curt))) VNil) (Boxed.io s)
        = Some (inl param, io') ->
        load (Boxed.nodes e) (int16 (Boxed.childIdx curt + Z.of_nat k)) = Some bad ->
        Boxed.getNodeType bad <> constant ->
        nameless_node bad ->
        Boxed.run e ctx (S fuel) (Boxed.AtLoop s) = Panics).
Proof.
  split.
  - intros Hty Hname. apply Boxed_run_panicked. cbn [Boxed.step].
    rewrite (Boxed_dispatch_selector e ctx s curtIdx curt Hd Hty).
    rewrite Boxed_getSelectorValue_nameless by exact Hname. reflexivity.
  - intros k param io' bad Hty Hc Hk Hread Hbad Hbty Hname.
    apply Boxed_run_panicked. cbn [Boxed.step].
    rewrite (Boxed_dispatch_fastOperator e ctx s curtIdx curt Hd Hty).
    pose proof (int16_range (Boxed.childCnt curt)) as [_ Hhi].
    change (2 ^ (16 - 1)) with (2 ^ 15) in Hhi.
    rewrite Boxed_fastOperatorParams_loop by (exact Hc || lia).
    replace (Z.to_nat (int16 (Boxed.childCnt curt)))
      with (k + S (Z.to_nat (int16 (Boxed.childCnt curt)) - S k))%nat at 1 by lia.
    rewrite (Boxed_fastParams_nameless e ctx k _ _ _ param (Boxed.io s) io' bad);
      [reflexivity | lia | exact Hread | exact Hbad | exact Hbty | exact Hname].
Qed.

Lemma nameless_selector_panics_witness :
  Boxed_dispatches exprNameless (Boxed.init exprNameless tt) 0
    (Boxed.mkNode selector 0 0 0 1 VNil None)
  /\ Boxed.run exprNameless xyCtx 1 (Boxed.AtLoop (Boxed.init exprNameless tt)) = Panics.
Proof.
  assert (Hd : Boxed_dispatches (W:=unit) exprNameless (Boxed.init exprNameless tt) 0
                 (Boxed.mkNode selector 0 0 0 1 VNil None)).
  { repeat split. discriminate. }
  split; [exact Hd|].
  apply (proj1 (nameless_selector_panics exprNameless xyCtx
                  (Boxed.init exprNameless tt) 0 _ 0 Hd)).
  - reflexivity.
  - intros name. discriminate.
Defined.

(** * The cancellation token (C6) *)

Section TokenBlind.
Context {W : Type}.
Variable ctx : Ctx W.
Variable b : bool.

Lemma Boxed_invoke_blind curtIdx (curt : Boxed.node W) param io :
  (forall f, Boxed.op curt = Some f -> token_blind f) ->
  Boxed.invoke (withCancelled b ctx) curtIdx curt param io
  = Boxed.invoke ctx curtIdx curt param io.
Proof.
  intros Hblind. unfold Boxed.invoke.
  destruct (Boxed.op curt) as [f|]; [|reflexivity]. cbn [mbind option_bind].
  rewrite (Hblind f eq_refl ctx b). reflexivity.
Qed.

Lemma load_Forall {A} (P : A -> Prop) (l : list A) (i : Z) (x : A) :
  Forall P l -> load l i = Some x -> P x.
Proof.
  intros Hall Hload. unfold load in Hload.
  destruct (decide (0 <= i)); [|discriminate].
  eapply Forall_lookup_1; eassumption.
Qed.

Lemma Boxed_dispatch_blind (e : Boxed.Expr W) s :
  Forall (fun n => forall f, Boxed.op n = Some f -> token_blind f) (Boxed.nodes e) ->
  Boxed.dispatch e (withCancelled b ctx) s = Boxed.dispatch e ctx s.
Proof.
  intros Hall. unfold Boxed.dispatch.
  destruct (decide (Boxed.sfTop s = -1)); [reflexivity|].
  destruct (load (Boxed.sf s) (Boxed.sfTop s)) as [curtIdx|]; [|reflexivity].
  cbn [Boxed.orPanic].
  destruct (load (Boxed.nodes e) curtIdx) as [curt|] eqn:Hnode; [|reflexivity].
  cbn [Boxed.orPanic].
  pose proof (load_Forall _ _ _ _ Hall Hnode) as Hblind. cbv beta in Hblind.
  change (Boxed.fastOperatorParams e (withCancelled b ctx))
    with (Boxed.fastOperatorParams e ctx).
  change (Boxed.getSelectorValue (withCancelled b ctx))
    with (Boxed.getSelectorValue ctx).
  repeat case_decide; try reflexivity.
  - destruct (Boxed.fastOperatorParams e ctx _ _ _) as [[[param|err] io1]|];
      cbn [Boxed.orPanic]; try reflexivity.
    rewrite Boxed_invoke_blind by exact Hblind. reflexivity.
  - destruct (Boxed.operatorParams _ _ _) as [param|]; cbn [Boxed.orPanic];
      try reflexivity.
    rewrite Boxed_invoke_blind by exact Hblind. reflexivity.
Qed.

Lemma Boxed_run_blind (e : Boxed.Expr W) fuel c :
  Forall (fun n => forall f, Boxed.op n = Some f -> token_blind f) (Boxed.nodes e) ->
  Boxed.run e (withCancelled b ctx) fuel c = Boxed.run e ctx fuel c.
Proof.
  intros Hall. revert c. induction fuel as [|fuel IH]; intros c; [reflexivity|].
  cbn [Boxed.run].
  assert (E : Boxed.step e (withCancelled b ctx) c = Boxed.step e ctx c).
  { destruct c; cbn [Boxed.step]; [apply Boxed_dispatch_blind, Hall | reflexivity]. }
  rewrite E. destruct (Boxed.step e ctx c); auto.
Qed.

Lemma Flat_invoke_blind (e : Flat.Expr W) curt curtIdx param io :
  Forall (fun o => forall f, o = Some f -> token_blind f) (Flat.operators e) ->
  Flat.invoke e (withCancelled b ctx) curt curtIdx param io
  = Flat.invoke e ctx curt curtIdx param io.
Proof.
  intros Hall. unfold Flat.invoke.
  destruct (load (Flat.bytecode e) _) as [k|]; [|reflexivity]. cbn [mbind option_bind].
  destruct (load (Flat.operators e) k) as [o|] eqn:Hop; [|reflexivity].
  pose proof (load_Forall _ _ _ _ Hall Hop) as Hblind. cbv beta in Hblind.
  destruct o as [f|]; [|reflexivity]. cbn [mbind option_bind id].
  rewrite (Hblind f eq_refl ctx b). reflexivity.
Qed.

Lemma Flat_dispatch_blind (e : Flat.Expr W) s :
  Forall (fun o => forall f, o = Some f -> token_blind f) (Flat.operators e) ->
  Flat.dispatch e (withCancelled b ctx) s = Flat.dispatch e ctx s.
Proof.
  intros Hall. unfold Flat.dispatch.
  destruct (decide (Flat.sfTop s = -1)); [reflexivity|].
  destruct (load (Flat.sf s) (Flat.sfTop s)) as [curt|]; [|reflexivity].
  cbn [Flat.orPanic].
  destruct (load (Flat.bytecode e) _) as [b0|]; [|reflexivity].
  cbn [Flat.orPanic].
  change (Flat.fastOperatorParams e (withCancelled b ctx))
    with (Flat.fastOperatorParams e ctx).
  repeat case_decide; try reflexivity.
  - destruct (load (Flat.bytecode e) _) as [childIdx|]; [|reflexivity].
    cbn [Flat.orPanic].
    destruct (Flat.fastOperatorParams e ctx _ _ _) as [[[param|err] io1]|];
      cbn [Flat.orPanic]; try reflexivity.
    rewrite Flat_invoke_blind by exact Hall. reflexivity.
  - destruct (Flat.operatorParams _ _ _) as [param|]; cbn [Flat.orPanic];
      try reflexivity.
    rewrite Flat_invoke_blind by exact Hall. reflexivity.
Qed.

Lemma Flat_run_blind (e : Flat.Expr W) fuel c :
  Forall (fun o => forall f, o = Some f -> token_blind f) (Flat.operators e) ->
  Flat.run e (withCancelled b ctx) fuel c = Flat.run e ctx fuel c.
Proof.
  intros Hall. revert c. induction fuel as [|fuel IH]; intros c; [reflexivity|].
  cbn [Flat.run].
  assert (E : Flat.step e (withCancelled b ctx) c = Flat.step e ctx c).
  { destruct c; cbn [Flat.step]; [apply Flat_dispatch_blind, Hall | reflexivity]. }
  rewrite E. destruct (Flat.step e ctx c); auto.
Qed.

End TokenBlind.

(** C6 as stated fails: with a cancelled token, both variants evaluate the
    expression [1] to the end and return its value without an error. *)
Lemma cancelled_evaluation_completes :
  Cancelled (constCtx (W:=unit) (VNil, None) true) = true
  /\ Boxed.Eval 5 exprOne (constCtx (VNil, None) true) tt
     = Returns (VInt64 1) None (mkIO tt [])
  /\ Flat.Eval 5 (encode exprOne) (constCtx (VNil, None) true) tt
     = Returns (VInt64 1) None (mkIO tt []).
Proof. repeat split. Qed.

(** C6, amended. Neither variant samples the cancellation token: over
    operators that do not consult the token themselves, [Eval] comes to the
    same result, with the same calls, whatever the state of the token; a
    cancelled token never makes [Eval] fail. *)
Theorem cancellation_token_not_sampled {W} (ctx : Ctx W) (b : bool) (w : W) (fuel : nat) :
  (forall e : Boxed.Expr W,
     Forall (fun n => forall f, Boxed.op n = Some f -> token_blind f) (Boxed.nodes e) ->
     Boxed.Eval fuel e (withCancelled b ctx) w = Boxed.Eval fuel e ctx w)
  /\ (forall e : Flat.Expr W,
        Forall (fun o => forall f, o = Some f -> token_blind f) (Flat.operators e) ->
        Flat.Eval fuel e (withCancelled b ctx) w = Flat.Eval fuel e ctx w).
Proof.
  split; intros e Hall; unfold Boxed.Eval, Flat.Eval.
  - apply Boxed_run_blind, Hall.
  - apply Flat_run_blind, Hall.
Qed.

Lemma cancellation_token_not_sampled_witness :
  Boxed.Eval 20 exprFalseAndBOrC
    (withCancelled true (constCtx (W:=unit) (VBool true, None) false)) tt
  = Boxed.Eval 20 exprFalseAndBOrC (constCtx (VBool true, None) false) tt.
Proof.
  apply (proj1 (cancellation_token_not_sampled
                  (constCtx (W:=unit) (VBool true, None) false) true tt 20)).
  repeat constructor; intros f Hf; try discriminate Hf;
    injection Hf as <-; intros c b' ps w; reflexivity.
Defined.

(** * Pushing on the stacks *)

Lemma int_small (z : Z) : in_signed 64 z -> int z = z.
Proof. apply wrap_small. lia. Qed.

Lemma store_Some {A} (a : list A) (i : Z) (x : A) :
  0 <= i < Z.of_nat (length a) -> store a i x = Some (<[Z.to_nat i := x]> a).
Proof. intros H. unfold store. rewrite decide_True by exact H. reflexivity. Qed.

Lemma load_Some_range {A} (a : list A) (i : Z) (x : A) :
  load a i = Some x -> 0 <= i < Z.of_nat (length a).
Proof.
  unfold load. destruct (decide (0 <= i)); [|discriminate].
  intros H. apply lookup_lt_Some in H. lia.
Qed.

Lemma store_Some_range {A} (a a' : list A) (i : Z) (x : A) :
  store a i x = Some a' -> 0 <= i < Z.of_nat (length a) /\ a' = <[Z.to_nat i := x]> a.
Proof.
  unfold store. destruct (decide (0 <= i < Z.of_nat (length a))); [|discriminate].
  intros [= <-]. auto.
Qed.

Lemma Boxed_push_Some {A} (a : list A) (top : Z) (x : A) :
  in_signed 16 (top + 1) -> 0 <= top + 1 < Z.of_nat (length a) ->
  Boxed.push a top x = Some (<[Z.to_nat (top + 1) := x]> a, top + 1).
Proof.
  intros Hr Hlen. unfold Boxed.push. rewrite int16_small by exact Hr.
  rewrite store_Some by exact Hlen. reflexivity.
Qed.

Lemma Flat_push_Some {A} (a : list A) (top : Z) (x : A) :
  in_signed 64 (top + 1) -> 0 <= top + 1 < Z.of_nat (length a) ->
  Flat.push a top x = Some (<[Z.to_nat (top + 1) := x]> a, top + 1).
Proof.
  intros Hr Hlen. unfold Flat.push. rewrite int_small by exact Hr.
  rewrite store_Some by exact Hlen. reflexivity.
Qed.

(** * The short-circuit rewind (C4) *)

(** The short-circuit block, case by case. *)

Section ShortCircuitCases.
Context {W : Type}.
Variable ctx : Ctx W.

Lemma Boxed_shortCircuit_zero (e : Boxed.Expr W) s curt b fuel :
  fires (Boxed.flag curt) b = true ->
  Boxed.scIdx curt = 0 ->
  Boxed.run e ctx (S fuel) (Boxed.AtShortCircuit s curt (VBool b))
  = Returns (VBool b) None (Boxed.io s).
Proof.
  intros Hf Hz. apply Boxed_run_done. cbn [Boxed.step]. unfold Boxed.shortCircuit.
  rewrite Hf. rewrite decide_True by exact Hz. reflexivity.
Qed.

Lemma Boxed_shortCircuit_rewind (e : Boxed.Expr W) s curt b sfSz osSz curt' :
  fires (Boxed.flag curt) b = true ->
  Boxed.scIdx curt <> 0 ->
  load (Boxed.sfSize e) (Boxed.scIdx curt) = Some sfSz ->
  load (Boxed.osSize e) (Boxed.scIdx curt) = Some osSz ->
  load (Boxed.nodes e) (Boxed.scIdx curt) = Some curt' ->
  Boxed.step e ctx (Boxed.AtShortCircuit s curt (VBool b))
  = Boxed.Next (Boxed.AtShortCircuit
      (Boxed.mkVM (Boxed.scIdx curt) (Boxed.sf s) (int16 (sfSz - 2)) (Boxed.os s)
         (int16 (osSz - 1)) true (Boxed.io s))
      curt' (VBool b)).
Proof.
  intros Hf Hnz Hsf Hos Hnode. cbn [Boxed.step]. unfold Boxed.shortCircuit. rewrite Hf.
  rewrite decide_False by exact Hnz. rewrite Hsf, Hos, Hnode. reflexivity.
Qed.

Lemma Boxed_shortCircuit_rest (e : Boxed.Expr W) s curt b :
  fires (Boxed.flag curt) b = false ->
  Boxed.step e ctx (Boxed.AtShortCircuit s curt (VBool b))
  = match Boxed.push (Boxed.os s) (Boxed.osTop s) (VBool b) with
    | Some (os1, osTop1) =>
        Boxed.Next (Boxed.AtLoop
          (Boxed.mkVM (Boxed.maxIdx s) (Boxed.sf s) (Boxed.sfTop s) os1 osTop1
             (Boxed.scTriggered s) (Boxed.io s)))
    | None => Boxed.Panicked
    end.
Proof.
  intros Hf. cbn [Boxed.step]. unfold Boxed.shortCircuit. rewrite Hf.
  destruct (Boxed.push _ _ _) as [[os1 osTop1]|]; reflexivity.
Qed.

Lemma Flat_shortCircuit_zero (e : Flat.Expr W) s curt flag b fuel :
  fires flag b = true ->
  load (Flat.scIdx e) curt = Some 0 ->
  Flat.run e ctx (S fuel) (Flat.AtShortCircuit s curt flag (VBool b))
  = Returns (VBool b) None (Flat.io s).
Proof.
  intros Hf Ht. apply Flat_run_done. cbn [Flat.step]. unfold Flat.shortCircuit.
  rewrite Hf, Ht. reflexivity.
Qed.

Lemma Flat_shortCircuit_rewind (e : Flat.Expr W) s curt flag b t sfSz osSz b0 :
  fires flag b = true ->
  load (Flat.scIdx e) curt = Some t -> t <> 0 ->
  load (Flat.sfSize e) t = Some sfSz ->
  load (Flat.osSize e) t = Some osSz ->
  load (Flat.bytecode e) (int (t * 4)) = Some b0 ->
  Flat.step e ctx (Flat.AtShortCircuit s curt flag (VBool b))
  = Flat.Next (Flat.AtShortCircuit
      (Flat.mkVM t (Flat.sf s) (int (sfSz - 2)) (Flat.os s) (int (osSz - 1)) true
         (Flat.io s))
      t (Z.land b0 scMask) (VBool b)).
Proof.
  intros Hf Ht Hnz Hsf Hos Hb0. cbn [Flat.step]. unfold Flat.shortCircuit.
  rewrite Hf, Ht. cbn [Flat.orPanic]. rewrite decide_False by exact Hnz.
  rewrite Hsf, Hos, Hb0. reflexivity.
Qed.

Lemma Flat_shortCircuit_rest (e : Flat.Expr W) s curt flag b :
  fires flag b = false ->
  Flat.step e ctx (Flat.AtShortCircuit s curt flag (VBool b))
  = match Flat.push (Flat.os s) (Flat.osTop s) (VBool b) with
    | Some (os1, osTop1) =>
        Flat.Next (Flat.AtLoop
          (Flat.mkVM (Flat.maxIdx s) (Flat.sf s) (Flat.sfTop s) os1 osTop1
             (Flat.scTriggered s) (Flat.io s)))
    | None => Flat.Panicked
    end.
Proof.
  intros Hf. cbn [Flat.step]. unfold Flat.shortCircuit. rewrite Hf.
  destruct (Flat.push _ _ _) as [[os1 osTop1]|]; reflexivity.
Qed.

End ShortCircuitCases.

(** C4. Whenever the short-circuit test fires on a node with the boolean
    result [res]: if its short-circuit target is 0, [Eval] returns [res] at
    once as the value of the whole expression; otherwise the machine rewinds
    to the target [t]: the depth of the stack frame becomes [sfSize[t] - 1],
    the depth of the operand stack [osSize[t]], [maxIdx] becomes [t], and
    the short-circuit test is repeated against the flags of [t] with the
    same [res], so that rewinds chain while the test fires; when it does not
    fire, [res] is pushed on the operand stack and the dispatch loop goes
    on.  The same holds in both variants. *)
Theorem short_circuit_rewind {W} (ctx : Ctx W) (b : bool) (fuel : nat) :
  (forall (e : Boxed.Expr W) s curt,
     (fires (Boxed.flag curt) b = true ->
      Boxed.scIdx curt = 0 ->
      Boxed.run e ctx (S fuel) (Boxed.AtShortCircuit s curt (VBool b))
      = Returns (VBool b) None (Boxed.io s))
     /\ (forall sfSz osSz curt',
           fires (Boxed.flag curt) b = true ->
           Boxed.scIdx curt <> 0 ->
           load (Boxed.sfSize e) (Boxed.scIdx curt) = Some sfSz ->
           load (Boxed.osSize e) (Boxed.scIdx curt) = Some osSz ->
           load (Boxed.nodes e) (Boxed.scIdx curt) = Some curt' ->
           in_signed 16 (sfSz - 2) -> in_signed 16 (osSz - 1) ->
           exists s',
             Boxed.step e ctx (Boxed.AtShortCircuit s curt (VBool b))
             = Boxed.Next (Boxed.AtShortCircuit s' curt' (VBool b))
             /\ Boxed.maxIdx s' = Boxed.scIdx curt
             /\ Boxed.sfTop s' + 1 = sfSz - 1
             /\ Boxed.osTop s' + 1 = osSz
             /\ Boxed.sf s' = Boxed.sf s /\ Boxed.os s' = Boxed.os s
             /\ Boxed.io s' = Boxed.io s)
     /\ (fires (Boxed.flag curt) b = false ->
         Boxed.step e ctx (Boxed.AtShortCircuit s curt (VBool b))
         = match Boxed.push (Boxed.os s) (Boxed.osTop s) (VBool b) with
           | Some (os1, osTop1) =>
               Boxed.Next (Boxed.AtLoop
                 (Boxed.mkVM (Boxed.maxIdx s) (Boxed.sf s) (Boxed.sfTop s) os1 osTop1
                    (Boxed.scTriggered s) (Boxed.io s)))
           | None => Boxed.Panicked
           end))
  /\ (forall (e : Flat.Expr W) s curt flag,
        (forall t, fires flag b = true ->
           load (Flat.scIdx e) curt = Some t -> t = 0 ->
           Flat.run e ctx (S fuel) (Flat.AtShortCircuit s curt flag (VBool b))
           = Returns (VBool b) None (Flat.io s))
        /\ (forall t sfSz osSz b0,
              fires flag b = true ->
              load (Flat.scIdx e) curt = Some t -> t <> 0 ->
              load (Flat.sfSize e) t = Some sfSz ->
              load (Flat.osSize e) t = Some osSz ->
              load (Flat.bytecode e) (int (t * 4)) = Some b0 ->
              in_signed 64 (sfSz - 2) -> in_signed 64 (osSz - 1) ->
              exists s',
                Flat.step e ctx (Flat.AtShortCircuit s curt flag (VBool b))
                = Flat.Next (Flat.AtShortCircuit s' t (Z.land b0 scMask) (VBool b))
                /\ Flat.maxIdx s' = t
                /\ Flat.sfTop s' + 1 = sfSz - 1
                /\ Flat.osTop s' + 1 = osSz
                /\ Flat.sf s' = Flat.sf s /\ Flat.os s' = Flat.os s
                /\ Flat.io s' = Flat.io s)
        /\ (fires flag b = false ->
            Flat.step e ctx (Flat.AtShortCircuit s curt flag (VBool b))
            = match Flat.push (Flat.os s) (Flat.osTop s) (VBool b) with
              | Some (os1, osTop1) =>
                  Flat.Next (Flat.AtLoop
                    (Flat.mkVM (Flat.maxIdx s) (Flat.sf s) (Flat.sfTop s) os1 osTop1
                       (Flat.scTriggered s) (Flat.io s)))
              | None => Flat.Panicked
              end)).
Proof.
  split.
  - intros e s curt. split; [|split].
    + apply Boxed_shortCircuit_zero.
    + intros sfSz osSz curt' Hf Hnz Hsf Hos Hnode Hr1 Hr2. eexists. split.
      * apply (Boxed_shortCircuit_rewind ctx e s curt b sfSz osSz curt'); assumption.
      * cbn [Boxed.maxIdx Boxed.sfTop Boxed.osTop Boxed.sf Boxed.os Boxed.io].
        rewrite !int16_small by assumption. repeat split; lia.
    + apply Boxed_shortCircuit_rest.
  - intros e s curt flag. split; [|split].
    + intros t Hf Ht ->. apply Flat_shortCircuit_zero; assumption.
    + intros t sfSz osSz b0 Hf Ht Hnz Hsf Hos Hb0 Hr1 Hr2. eexists. split.
      * apply (Flat_shortCircuit_rewind ctx e s curt flag b t sfSz osSz b0); assumption.
      * cbn [Flat.maxIdx Flat.sfTop Flat.osTop Flat.sf Flat.os Flat.io].
        rewrite !int_small by assumption. repeat split; lia.
    + apply Flat_shortCircuit_rest.
Qed.

Lemma short_circuit_rewind_witness :
  fires (Boxed.flag nodeFalse) false = true
  /\ Boxed.scIdx nodeFalse <> 0
  /\ in_signed 16 (3 - 2) /\ in_signed 16 (0 - 1)
  /\ exists s',
       Boxed.step exprFalseAndBOrC xyCtx (Boxed.AtShortCircuit vmAtFalse nodeFalse (VBool false))
       = Boxed.Next (Boxed.AtShortCircuit s' nodeAnd (VBool false))
       /\ Boxed.maxIdx s' = 1
       /\ Boxed.sfTop s' + 1 = 3 - 1
       /\ Boxed.osTop s' + 1 = 0
       /\ Boxed.sf s' = Boxed.sf vmAtFalse /\ Boxed.os s' = Boxed.os vmAtFalse
       /\ Boxed.io s' = Boxed.io vmAtFalse.
Proof.
  assert (Hnz : Boxed.scIdx nodeFalse <> 0) by discriminate.
  assert (Hr1 : in_signed 16 (3 - 2)) by (unfold in_signed; simpl; lia).
  assert (Hr2 : in_signed 16 (0 - 1)) by (unfold in_signed; simpl; lia).
  split; [reflexivity|]. split; [exact Hnz|]. split; [exact Hr1|]. split; [exact Hr2|].
  exact (proj1 (proj2 (proj1 (short_circuit_rewind xyCtx false 0)
                         exprFalseAndBOrC vmAtFalse nodeFalse))
           3 0 nodeAnd eq_refl Hnz eq_refl eq_refl eq_refl Hr1 Hr2).
Defined.

(** * Short-circuit laziness (C3) *)

Section ShortCircuitBlock.
Context {W : Type}.
Variable ctx : Ctx W.







End ShortCircuitBlock.

Lemma take_take_le {A} (l : list A) (n m : nat) :
  (n <= m)%nat -> take n (take m l) = take n l.
Proof. intros H. rewrite take_take. f_equal. lia. Qed.



(** * Conditionals (C5) *)

Section BoxedCond.
Context {W : Type}.
Variable e : Boxed.Expr W.
Variable ctx : Ctx W.


Lemma Boxed_cond_second_visit s curtIdx curt v :
  Boxed_dispatches e s curtIdx curt ->
  Boxed.getNodeType curt = cond ->
  ~ curtIdx > Boxed.maxIdx s ->
  load (Boxed.os s) (Boxed.osTop s) = Some v ->
  in_signed 16 (Boxed.sfTop s) ->
  Boxed.step e ctx (Boxed.AtLoop s)
  = match v with
    | VBool condRes =>
        Boxed.Next (Boxed.AtLoop
          (Boxed.mkVM (Boxed.maxIdx s)
             (<[Z.to_nat (Boxed.sfTop s) :=
                  if condRes then int16 (Boxed.childIdx curt + 1)
                  else int16 (Boxed.childIdx curt + 2)]> (Boxed.sf s))
             (Boxed.sfTop s) (Boxed.os s) (int16 (Boxed.osTop s - 1))
             (Boxed.scTriggered s) (Boxed.io s)))
    | _ => Boxed.Done VNil (Some (ErrCondType v)) (Boxed.io s)
    end.
Proof.
  intros (Hne & Hpop & Hnode) Hty Hsecond Hos Hr.
  pose proof (load_Some_range _ _ _ Hpop) as Htop.
  unfold Boxed.getNodeType in Hty. cbn [Boxed.step]. unfold Boxed.dispatch.
  rewrite decide_False by exact Hne.
  rewrite Hpop. cbn [Boxed.orPanic]. rewrite Hnode. cbn [Boxed.orPanic].
  node_type Hty. rewrite decide_False by exact Hsecond.
  rewrite Hos. cbn [Boxed.orPanic].
  assert (Hs : in_signed 16 (Boxed.sfTop s - 1)).
  { unfold in_signed in *. change (2 ^ (16 - 1)) with 32768 in *. lia. }
  destruct v; try reflexivity.
  rewrite (int16_small (Boxed.sfTop s - 1)) by exact Hs.
  rewrite Boxed_push_Some
    by (replace (Boxed.sfTop s - 1 + 1) with (Boxed.sfTop s) by lia; assumption).
  cbn [Boxed.orPanic].
  replace (Boxed.sfTop s - 1 + 1) with (Boxed.sfTop s) by lia. reflexivity.
Qed.

End BoxedCond.

Section FlatCond.
Context {W : Type}.
Variable e : Flat.Expr W.
Variable ctx : Ctx W.


Lemma Flat_cond_second_visit s curt b0 childIdx v :
  Flat_dispatches e s curt b0 ->
  Z.land b0 nodeTypeMask = cond ->
  load (Flat.bytecode e) (int (int (curt * 4) + 1)) = Some childIdx ->
  ~ curt > Flat.maxIdx s ->
  load (Flat.os s) (Flat.osTop s) = Some v ->
  in_signed 64 (Flat.sfTop s) ->
  Flat.step e ctx (Flat.AtLoop s)
  = match v with
    | VBool condRes =>
        Flat.Next (Flat.AtLoop
          (Flat.mkVM (Flat.maxIdx s)
             (<[Z.to_nat (Flat.sfTop s) :=
                  if condRes then int (childIdx + 1) else int (childIdx + 2)]> (Flat.sf s))
             (Flat.sfTop s) (Flat.os s) (int (Flat.osTop s - 1))
             (Flat.scTriggered s) (Flat.io s)))
    | _ => Flat.Done VNil (Some (ErrCondType v)) (Flat.io s)
    end.
Proof.
  intros (Hne & Hpop & Hnode) Hty Hchild Hsecond Hos Hr.
  pose proof (load_Some_range _ _ _ Hpop) as Htop.
  cbn [Flat.step]. unfold Flat.dispatch.
  rewrite decide_False by exact Hne.
  rewrite Hpop. cbn [Flat.orPanic]. rewrite Hnode. cbn [Flat.orPanic].
  node_type Hty. rewrite Hchild. cbn [Flat.orPanic].
  rewrite decide_False by exact Hsecond.
  rewrite Hos. cbn [Flat.orPanic].
  assert (Hs : in_signed 64 (Flat.sfTop s - 1)).
  { unfold in_signed in *. change (2 ^ (64 - 1)) with 9223372036854775808 in *. lia. }
  destruct v; try reflexivity.
  rewrite (int_small (Flat.sfTop s - 1)) by exact Hs.
  rewrite Flat_push_Some
    by (replace (Flat.sfTop s - 1 + 1) with (Flat.sfTop s) by lia; assumption).
  cbn [Flat.orPanic].
  replace (Flat.sfTop s - 1 + 1) with (Flat.sfTop s) by lia. reflexivity.
Qed.

End FlatCond.

Lemma take_S_insert {A} (l : list A) (n : nat) (x : A) :
  (n < length l)%nat -> take (S n) (<[n := x]> l) = take n l ++ [x].
Proof.
  intros Hn. rewrite (take_S_r _ n x) by (apply list_lookup_insert_eq; exact Hn).
  rewrite take_insert_ge by lia. reflexivity.
Qed.




(** * The two variants in lock step (C1) *)

(** ** Arithmetic of the two integer widths *)

Lemma int16_sub_l (a b : Z) : int16 (int16 a - b) = int16 (a - b).
Proof.
  replace (int16 a - b) with (int16 a + - b) by lia.
  rewrite int16_int16_add; f_equal; lia.
Qed.

Lemma int16_add_r (a b : Z) : int16 (a + int16 b) = int16 (a + b).
Proof. rewrite Z.add_comm, int16_int16_add. f_equal. lia. Qed.

Lemma int_bounded (z : Z) : - 2 ^ 20 <= z <= 2 ^ 20 -> int z = z.
Proof.
  intros H. apply int_small. unfold in_signed.
  change (2 ^ (64 - 1)) with 9223372036854775808. lia.
Qed.

Lemma int16_index (ia ib len : Z) :
  ia = int16 ib -> 0 <= ib < len -> len < 2 ^ 15 -> ia = ib.
Proof.
  intros -> H Hlen. apply int16_small. unfold in_signed.
  change (2 ^ (16 - 1)) with (2 ^ 15). lia.
Qed.

Lemma entry_rel_int16 (x : Z) : - 2 ^ 16 <= x < 2 ^ 16 -> entry_rel (int16 x) x.
Proof.
  intros H. unfold entry_rel.
  destruct (decide (x < 0)) as [|Hx]; [auto|].
  destruct (decide (x < 2 ^ 15)) as [Hs|Hl].
  - left. apply int16_small. unfold in_signed.
    change (2 ^ (16 - 1)) with (2 ^ 15). lia.
  - right. left. unfold int16, wrap.
    change (2 ^ (16 - 1)) with 32768 in *. change (2 ^ 16) with 65536 in *.
    change (2 ^ 15) with 32768 in *.
    replace (x + 32768) with ((x - 32768) + 1 * 65536) by lia.
    rewrite Z.mod_add by lia. rewrite Z.mod_small by lia. lia.
Qed.

Lemma entry_rel_refl (x : Z) : entry_rel x x.
Proof. left. reflexivity. Qed.

(** The short-circuit test reads only the two short-circuit bits. *)
Lemma fires_scMask (f g : Z) (b : bool) :
  Z.land f scMask = Z.land g scMask -> fires f b = fires g b.
Proof.
  intros H. unfold fires.
  assert (E8 : Z.land f scIfFalse = Z.land g scIfFalse).
  { change scIfFalse with (Z.land scMask 8).
    rewrite !Z.land_assoc, H. reflexivity. }
  assert (E16 : Z.land f scIfTrue = Z.land g scIfTrue).
  { change scIfTrue with (Z.land scMask 16).
    rewrite !Z.land_assoc, H. reflexivity. }
  rewrite E8, E16. reflexivity.
Qed.

Lemma land_scMask_idem (f : Z) : Z.land (Z.land f scMask) scMask = Z.land f scMask.
Proof. rewrite <- Z.land_assoc. reflexivity. Qed.

Lemma land_scMask_idem_eq (f g : Z) :
  Z.land f scMask = Z.land g scMask ->
  Z.land (Z.land f scMask) scMask = Z.land g scMask.
Proof. intros <-. apply land_scMask_idem. Qed.

(** ** Loads and stores on related stacks *)

Lemma load_lookup {A} (a : list A) (i : Z) (x : A) :
  load a i = Some x -> 0 <= i /\ a !! Z.to_nat i = Some x.
Proof.
  unfold load. destruct (decide (0 <= i)); [auto|discriminate].
Qed.

Lemma lookup_load {A} (a : list A) (i : nat) (x : A) :
  a !! i = Some x -> load a (Z.of_nat i) = Some x.
Proof.
  intros H. unfold load. rewrite decide_True by lia. rewrite Nat2Z.id. exact H.
Qed.

Section Stacks.

Variables (sfa sfb : list Z).
Hypothesis Hlen : (length sfb <= length sfa)%nat.
Hypothesis Hmax : Z.of_nat (length sfa) < 2 ^ 15.
Hypothesis Hrel : Forall2 entry_rel (take (length sfb) sfa) sfb.

Lemma sf_load_sim ia ib ea eb :
  load sfa ia = Some ea -> load sfb ib = Some eb -> ia = int16 ib ->
  ia = ib /\ entry_rel ea eb.
Proof.
  intros Ha Hb Hi.
  pose proof (load_Some_range _ _ _ Hb) as Rb.
  assert (E : ia = ib) by (apply (int16_index ia ib (Z.of_nat (length sfa))); lia).
  clear Hi. subst ia. split; [reflexivity|].
  apply load_lookup in Ha as [_ Ha]. apply load_lookup in Hb as [_ Hb].
  eapply Forall2_lookup_lr; [exact Hrel | | exact Hb].
  rewrite lookup_take_lt by lia. exact Ha.
Qed.

Lemma sf_store_sim ia ib xa xb sfa' sfb' :
  store sfa ia xa = Some sfa' -> store sfb ib xb = Some sfb' -> ia = int16 ib ->
  entry_rel xa xb ->
  ia = ib /\ 0 <= ib < Z.of_nat (length sfb)
  /\ length sfa' = length sfa /\ length sfb' = length sfb
  /\ Forall2 entry_rel (take (length sfb') sfa') sfb'.
Proof.
  intros Ha Hb Hi Hx.
  apply store_Some_range in Ha as [Ra ->]. apply store_Some_range in Hb as [Rb ->].
  assert (E : ia = ib) by (apply (int16_index ia ib (Z.of_nat (length sfa))); lia).
  clear Hi. subst ia. rewrite !length_insert. repeat split; try lia.
  rewrite take_insert_lt by lia.
  apply Forall2_insert; assumption.
Qed.

End Stacks.

Section Operands.

Variables (osa osb : list Value) (d : nat).
Hypothesis Hmax : Z.of_nat (length osa) < 2 ^ 15.
Hypothesis Hos : osa = osb ++ replicate d VNil.

Lemma os_len : (length osb <= length osa)%nat.
Proof. rewrite Hos, length_app. lia. Qed.

Lemma os_load_sim ia ib va vb :
  load osa ia = Some va -> load osb ib = Some vb -> ia = int16 ib ->
  ia = ib /\ va = vb.
Proof.
  intros Ha Hb Hi. pose proof os_len as Hl.
  pose proof (load_Some_range _ _ _ Hb) as Rb.
  assert (E : ia = ib) by (apply (int16_index ia ib (Z.of_nat (length osa))); lia).
  clear Hi. subst ia. split; [reflexivity|].
  apply load_lookup in Ha as [_ Ha]. apply load_lookup in Hb as [_ Hb].
  rewrite Hos, lookup_app_l in Ha by lia. congruence.
Qed.

Lemma os_store_sim ia ib x osa' osb' :
  store osa ia x = Some osa' -> store osb ib x = Some osb' -> ia = int16 ib ->
  ia = ib /\ 0 <= ib < Z.of_nat (length osb)
  /\ length osa' = length osa
  /\ osa' = osb' ++ replicate d VNil.
Proof.
  intros Ha Hb Hi. pose proof os_len as Hl.
  apply store_Some_range in Ha as [Ra ->]. apply store_Some_range in Hb as [Rb ->].
  assert (E : ia = ib) by (apply (int16_index ia ib (Z.of_nat (length osa))); lia).
  clear Hi. subst ia. rewrite length_insert. repeat split; try lia.
  rewrite Hos. rewrite insert_app_l by lia. reflexivity.
Qed.

End Operands.

(** ** What [Rep] says at one node *)

Section RepFacts.
Context {W : Type}.
Variables (a : Boxed.Expr W) (b : Flat.Expr W).
Hypothesis HRep : Rep a b.

Lemma Rep_nodes_small : Z.of_nat (length (Boxed.nodes a)) < 2 ^ 15.
Proof. apply (nodes_addressable a (rep_typed a b HRep)). Qed.

Lemma Rep_load i n :
  load (Boxed.nodes a) i = Some n ->
  exists b0 k,
    load (Flat.bytecode b) (int (i * 4)) = Some b0
    /\ load (Flat.bytecode b) (int (int (i * 4) + 1)) = Some (Boxed.childIdx n)
    /\ load (Flat.bytecode b) (int (int (i * 4) + 2)) = Some k
    /\ load (Flat.bytecode b) (int (int (i * 4) + 3)) = Some (Boxed.selKey n)
    /\ in_signed 16 b0
    /\ Z.land b0 nodeTypeMask = Z.land (Boxed.flag n) nodeTypeMask
    /\ Z.land b0 scMask = Z.land (Boxed.flag n) scMask
    /\ Z.shiftr b0 8 = Boxed.childCnt n
    /\ (Z.land (Boxed.flag n) nodeTypeMask = constant ->
          load (Flat.constants b) k = Some (Boxed.value n))
    /\ (Z.land (Boxed.flag n) nodeTypeMask = operator
        \/ Z.land (Boxed.flag n) nodeTypeMask = fastOperator ->
          load (Flat.operators b) k ≫= id = Boxed.op n)
    /\ load (Flat.scIdx b) i = Some (Boxed.scIdx n)
    /\ node_typed n
    /\ 0 <= i < Z.of_nat (length (Boxed.nodes a)).
Proof.
  intros Hn. pose proof (load_Some_range _ _ _ Hn) as Hi.
  pose proof Rep_nodes_small as Hsmall. change (2 ^ 15) with 32768 in Hsmall.
  apply load_lookup in Hn as [_ Hn].
  destruct (rep_node a b HRep _ _ Hn)
    as (b0 & k & H0 & H1 & H2 & H3 & Hb0 & Hty & Hsc & Hcnt & Hconst & Hop & Hsci).
  exists b0, k.
  assert (E : int (i * 4) = i * 4) by (apply int_bounded; lia).
  assert (Ek : forall j, 0 <= j <= 3 -> int (int (i * 4) + j) = Z.of_nat (4 * Z.to_nat i + Z.to_nat j)).
  { intros j Hj. rewrite E. rewrite int_bounded by lia. lia. }
  rewrite (Ek 1), (Ek 2), (Ek 3) by lia.
  replace (int (i * 4)) with (Z.of_nat (4 * Z.to_nat i)) by lia.
  split_and!; try (apply lookup_load; assumption); try assumption; try lia.
  - replace i with (Z.of_nat (Z.to_nat i)) by lia. apply lookup_load. exact Hsci.
  - eapply Forall_lookup_1; [apply (nodes_typed a (rep_typed a b HRep)) | exact Hn].
Qed.

(** A frame the flat variant can dispatch is a node of the boxed one. *)
Lemma Rep_index jb b0 :
  - 2 ^ 16 <= jb < 2 ^ 16 ->
  load (Flat.bytecode b) (int (jb * 4)) = Some b0 ->
  0 <= jb < Z.of_nat (length (Boxed.nodes a)).
Proof.
  intros Hj Hl. rewrite int_bounded in Hl by lia.
  apply load_Some_range in Hl. rewrite (rep_length a b HRep) in Hl. lia.
Qed.

Lemma Rep_same_node ia jb n b0 :
  entry_rel ia jb ->
  - 2 ^ 16 <= jb < 2 ^ 16 ->
  load (Boxed.nodes a) ia = Some n ->
  load (Flat.bytecode b) (int (jb * 4)) = Some b0 ->
  ia = jb.
Proof.
  intros Hrel Hj Ha Hb.
  pose proof (load_Some_range _ _ _ Ha). pose proof (Rep_index jb b0 Hj Hb).
  destruct Hrel as [?|[?|?]]; lia.
Qed.

Lemma Rep_same_index ia jb n b0 :
  ia = int16 jb ->
  - 2 ^ 16 <= jb < 2 ^ 16 ->
  load (Boxed.nodes a) ia = Some n ->
  load (Flat.bytecode b) (int (jb * 4)) = Some b0 ->
  ia = jb.
Proof.
  intros -> Hj Ha Hb. eapply Rep_same_node; try eassumption.
  apply entry_rel_int16, Hj.
Qed.

End RepFacts.

(** ** Leaves and operators *)

Lemma io_rel_logged {W} (ioa iob : IO W) (w' : W) key name :
  io_rel ioa iob ->
  io_rel (logged ioa w' (CallGet key name)) (logged iob w' (CallGet key "")).
Proof.
  intros [Hw Hc]. split; [reflexivity|]. cbn [logged calls].
  rewrite fmap_app, Hc. reflexivity.
Qed.

Lemma io_rel_op {W} (ioa iob : IO W) (w' : W) i ps :
  io_rel ioa iob ->
  io_rel (mkIO w' (calls ioa ++ [CallOp i ps])) (mkIO w' (calls iob ++ [CallOp i ps])).
Proof.
  intros [Hw Hc]. split; [reflexivity|]. cbn [calls].
  rewrite fmap_app, Hc. reflexivity.
Qed.

Section Leaves.
Context {W : Type}.
Variables (a : Boxed.Expr W) (b : Flat.Expr W) (ctx : Ctx W).
Hypothesis HRep : Rep a b.
Hypothesis Hblind : name_blind ctx.
Hypothesis Hunified : returns_unified ctx.

Lemma getNodeValue_sim ia jb child ioa iob ra ioa' rb iob' :
  load (Boxed.nodes a) ia = Some child ->
  ia = int16 jb -> - 2 ^ 16 <= jb < 2 ^ 16 ->
  Boxed.getNodeValue ctx child ioa = Some (ra, ioa') ->
  Flat.getNodeValue b ctx jb iob = Some (rb, iob') ->
  io_rel ioa iob ->
  ra = rb /\ io_rel ioa' iob'.
Proof.
  intros Hchild Hi Hj Ha Hb Hio.
  unfold Flat.getNodeValue in Hb.
  destruct (load (Flat.bytecode b) (int (jb * 4))) as [b0'|] eqn:Hb0;
    cbn [mbind option_bind] in Hb; [|discriminate].
  pose proof (Rep_same_index a b HRep ia jb child b0' Hi Hj Hchild Hb0) as ->.
  destruct (Rep_load a b HRep jb child Hchild)
    as (b0 & k & H0 & H1 & H2 & H3 & _ & Hty & _ & _ & Hconst & _).
  rewrite H0 in Hb0. injection Hb0 as <-.
  unfold Boxed.getNodeValue in Ha. rewrite Hty in Hb.
  destruct (decide (Z.land (Boxed.flag child) nodeTypeMask = constant)) as [Hc|Hc].
  - rewrite H2 in Hb. cbn [mbind option_bind] in Hb. rewrite (Hconst Hc) in Hb.
    cbn [mbind option_bind] in Hb. simplify_eq. auto.
  - rewrite H3 in Hb. cbn [mbind option_bind] in Hb.
    unfold Boxed.getSelectorValue in Ha.
    destruct (Boxed.value child) as [| |name| | | | | | | | | | | | | | |];
      try discriminate Ha.
    destruct Hio as [Hw Hcalls].
    rewrite Hblind, Hw in Ha.
    destruct (Get ctx (Boxed.selKey child) "" (world iob)) as [[v [err|]] w'] eqn:Hget.
    + simplify_eq. split; [reflexivity|]. apply io_rel_logged. split; assumption.
    + pose proof (Hunified _ _ _ _ _ Hget) as Hfix.
      destruct (canonical v); simplify_eq;
        (split; [congruence | apply io_rel_logged; split; assumption]).
Qed.

Lemma fastParams_sim n : forall i childIdx param ioa iob ra ioa' rb iob',
  0 <= i -> i + Z.of_nat n <= 200 -> in_signed 16 childIdx ->
  Boxed.fastParams a ctx n i childIdx param ioa = Some (ra, ioa') ->
  Flat.fastParams b ctx n i childIdx param iob = Some (rb, iob') ->
  io_rel ioa iob ->
  ra = rb /\ io_rel ioa' iob'.
Proof.
  induction n as [|n IH]; intros i childIdx param ioa iob ra ioa' rb iob' Hi Hn Hc Ha Hb Hio.
  - cbn in Ha, Hb. simplify_eq. auto.
  - cbn [Boxed.fastParams Flat.fastParams] in Ha, Hb.
    unfold in_signed in Hc. change (2 ^ (16 - 1)) with 32768 in Hc.
    rewrite (int_bounded (childIdx + i)) in Hb by lia.
    destruct (load (Boxed.nodes a) (int16 (childIdx + i))) as [child|] eqn:Hchild;
      cbn [mbind option_bind] in Ha; [|discriminate].
    destruct (Boxed.getNodeValue ctx child ioa) as [[ra1 ioa1]|] eqn:Hga;
      cbn [mbind option_bind] in Ha; [|discriminate].
    destruct (Flat.getNodeValue b ctx (childIdx + i) iob) as [[rb1 iob1]|] eqn:Hgb;
      cbn [mbind option_bind] in Hb; [|discriminate].
    destruct (getNodeValue_sim _ (childIdx + i) child ioa iob ra1 ioa1 rb1 iob1
                Hchild eq_refl ltac:(lia) Hga Hgb Hio) as [<- Hio1].
    destruct ra1 as [v [err|]].
    + simplify_eq. auto.
    + destruct (store param i v) as [param'|]; cbn [mbind option_bind] in Ha, Hb;
        [|discriminate].
      rewrite (int16_small (i + 1)) in Ha
        by (unfold in_signed; change (2 ^ (16 - 1)) with 32768; lia).
      rewrite (int_bounded (i + 1)) in Hb by lia.
      eapply (IH (i + 1)); try eassumption; try lia.
Qed.

Lemma fastOperatorParams_sim cnt childIdx ioa iob ra ioa' rb iob' :
  cnt <= 127 -> in_signed 16 childIdx ->
  Boxed.fastOperatorParams a ctx cnt childIdx ioa = Some (ra, ioa') ->
  Flat.fastOperatorParams b ctx cnt childIdx iob = Some (rb, iob') ->
  io_rel ioa iob ->
  ra = rb /\ io_rel ioa' iob'.
Proof.
  intros Hcnt Hc Ha Hb Hio.
  unfold Boxed.fastOperatorParams in Ha. unfold Flat.fastOperatorParams in Hb.
  assert (Hc' := Hc). unfold in_signed in Hc'. change (2 ^ (16 - 1)) with 32768 in Hc'.
  destruct (decide (cnt = 2)) as [->|Hne].
  - destruct (load (Boxed.nodes a) childIdx) as [c0|] eqn:Hc0;
      cbn [mbind option_bind] in Ha; [|discriminate].
    destruct (Boxed.getNodeValue ctx c0 ioa) as [[ra0 ioa0]|] eqn:Hga0;
      cbn [mbind option_bind] in Ha; [|discriminate].
    destruct (Flat.getNodeValue b ctx childIdx iob) as [[rb0 iob0]|] eqn:Hgb0;
      cbn [mbind option_bind] in Hb; [|discriminate].
    destruct (getNodeValue_sim childIdx childIdx c0 ioa iob ra0 ioa0 rb0 iob0
                Hc0 (eq_sym (int16_small _ Hc)) ltac:(lia) Hga0 Hgb0 Hio) as [<- Hio0].
    destruct ra0 as [p0 [err|]]; [simplify_eq; auto|].
    rewrite (int_bounded (childIdx + 1)) in Hb by lia.
    destruct (load (Boxed.nodes a) (int16 (childIdx + 1))) as [c1|] eqn:Hc1;
      cbn [mbind option_bind] in Ha; [|discriminate].
    destruct (Boxed.getNodeValue ctx c1 ioa0) as [[ra1 ioa1]|] eqn:Hga1;
      cbn [mbind option_bind] in Ha; [|discriminate].
    destruct (Flat.getNodeValue b ctx (childIdx + 1) iob0) as [[rb1 iob1]|] eqn:Hgb1;
      cbn [mbind option_bind] in Hb; [|discriminate].
    destruct (getNodeValue_sim _ (childIdx + 1) c1 ioa0 iob0 ra1 ioa1 rb1 iob1
                Hc1 eq_refl ltac:(lia) Hga1 Hgb1 Hio0) as [<- Hio1].
    destruct ra1 as [p1 [err|]]; simplify_eq; auto.
  - destruct (make VNil cnt) as [param|] eqn:Hmake;
      cbn [mbind option_bind] in Ha, Hb; [|discriminate].
    unfold make in Hmake. destruct (decide (0 <= cnt)); [|discriminate].
    eapply (fastParams_sim (Z.to_nat cnt) 0); try eassumption; lia.
Qed.

Lemma invoke_sim i n param ioa iob ra ioa' rb iob' :
  load (Boxed.nodes a) i = Some n ->
  Boxed.getNodeType n = operator \/ Boxed.getNodeType n = fastOperator ->
  Boxed.invoke ctx i n param ioa = Some (ra, ioa') ->
  Flat.invoke b ctx i (int (i * 4)) param iob = Some (rb, iob') ->
  io_rel ioa iob ->
  ra = rb /\ io_rel ioa' iob'.
Proof.
  intros Hn Hty Ha Hb Hio.
  destruct (Rep_load a b HRep i n Hn)
    as (b0 & k & H0 & H1 & H2 & H3 & _ & _ & _ & _ & _ & Hop & _).
  unfold Boxed.invoke in Ha. unfold Flat.invoke in Hb.
  rewrite H2 in Hb. change (Some k ≫= _) with
    (f ← load (Flat.operators b) k ≫= id;
     let '(r, w') := f ctx param (world iob) in
     Some (r, mkIO w' (calls iob ++ [CallOp i param]))) in Hb.
  pose proof (Hop Hty) as Hop'. unfold Operator in Hop', Hb. rewrite Hop' in Hb.
  destruct (Boxed.op n) as [f|]; cbn [mbind option_bind] in Ha, Hb; [|discriminate].
  destruct Hio as [Hw Hcalls]. rewrite Hw in Ha.
  destruct (f ctx param (world iob)) as [r w'].
  simplify_eq. split; [reflexivity|]. apply io_rel_op. split; assumption.
Qed.

End Leaves.

(** ** Pushes *)

Lemma push_sf_sim sfa sfb ta tb xa xb sfa' ta' sfb' tb' :
  (length sfb <= length sfa)%nat ->
  Z.of_nat (length sfa) < 2 ^ 15 ->
  Forall2 entry_rel (take (length sfb) sfa) sfb ->
  Forall frame_bound sfb ->
  Boxed.push sfa ta xa = Some (sfa', ta') ->
  Flat.push sfb tb xb = Some (sfb', tb') ->
  ta = int16 tb -> - 2 ^ 17 <= tb <= 2 ^ 17 ->
  entry_rel xa xb -> frame_bound xb ->
  ta' = tb' /\ 0 <= tb' < Z.of_nat (length sfb)
  /\ length sfa' = length sfa /\ length sfb' = length sfb
  /\ Forall2 entry_rel (take (length sfb') sfa') sfb'
  /\ Forall frame_bound sfb'.
Proof.
  intros Hlen Hmax Hrel Hbnd Ha Hb Ht Htb Hx Hxb.
  unfold Boxed.push in Ha. unfold Flat.push in Hb.
  rewrite (int_bounded (tb + 1)) in Hb by lia.
  destruct (store sfa _ xa) as [sa1|] eqn:Sa; cbn [mbind option_bind] in Ha; [|discriminate].
  destruct (store sfb _ xb) as [sb1|] eqn:Sb; cbn [mbind option_bind] in Hb; [|discriminate].
  simplify_eq.
  assert (Hi : int16 (int16 tb + 1) = int16 (tb + 1)) by apply int16_int16_add.
  destruct (sf_store_sim sfa sfb Hlen Hmax Hrel _ _ _ _ _ _ Sa Sb Hi Hx)
    as (E & Hr & La & Lb & Hrel').
  split_and!; try assumption; try lia.
  apply store_Some_range in Sb as [_ ->]. apply Forall_insert; assumption.
Qed.

Lemma push_os_sim osa osb d oa ob x osa' oa' osb' ob' :
  Z.of_nat (length osa) < 2 ^ 15 ->
  osa = osb ++ replicate d VNil ->
  Boxed.push osa oa x = Some (osa', oa') ->
  Flat.push osb ob x = Some (osb', ob') ->
  oa = int16 ob -> - 2 ^ 17 <= ob <= 2 ^ 17 ->
  oa' = ob' /\ 0 <= ob' < Z.of_nat (length osb)
  /\ length osa' = length osa
  /\ osa' = osb' ++ replicate d VNil.
Proof.
  intros Hmax Hos Ha Hb Ht Htb.
  unfold Boxed.push in Ha. unfold Flat.push in Hb.
  rewrite (int_bounded (ob + 1)) in Hb by lia.
  destruct (store osa _ x) as [sa1|] eqn:Sa; cbn [mbind option_bind] in Ha; [|discriminate].
  destruct (store osb _ x) as [sb1|] eqn:Sb; cbn [mbind option_bind] in Hb; [|discriminate].
  injection Ha as <- <-. injection Hb as <- <-. rewrite Ht in Sa |- *.
  assert (Hi : int16 (int16 ob + 1) = int16 (ob + 1)) by apply int16_int16_add.
  destruct (os_store_sim osa osb d Hmax Hos _ _ _ _ _ Sa Sb Hi) as (E & Hr & La & Hos').
  split_and!; try assumption; lia.
Qed.

Lemma pushChildren_sim n : forall i sfa sfb ta tb childIdx sfa' sfb',
  (length sfb <= length sfa)%nat ->
  Z.of_nat (length sfa) < 2 ^ 15 ->
  Forall2 entry_rel (take (length sfb) sfa) sfb ->
  Forall frame_bound sfb ->
  0 <= i -> i + Z.of_nat n <= 200 -> in_signed 16 childIdx ->
  ta = int16 tb -> - 2 ^ 17 <= tb <= 2 ^ 17 ->
  Boxed.pushChildren n i sfa ta childIdx = Some sfa' ->
  Flat.pushChildren n i sfb tb childIdx = Some sfb' ->
  length sfa' = length sfa /\ length sfb' = length sfb
  /\ Forall2 entry_rel (take (length sfb') sfa') sfb'
  /\ Forall frame_bound sfb'
  /\ ((0 < n)%nat -> i = 0 -> 0 <= tb < Z.of_nat (length sfb)).
Proof.
  induction n as [|n IH];
    intros i sfa sfb ta tb childIdx sfa' sfb' Hlen Hmax Hrel Hbnd Hi Hn Hc Ht Htb Ha Hb.
  - cbn in Ha, Hb. simplify_eq. split_and!; try assumption; try reflexivity. lia.
  - cbn [Boxed.pushChildren Flat.pushChildren] in Ha, Hb.
    assert (Hc' := Hc). unfold in_signed in Hc'. change (2 ^ (16 - 1)) with 32768 in Hc'.
    rewrite (int_bounded (tb - i)), (int_bounded (childIdx + i)) in Hb by lia.
    destruct (store sfa _ _) as [sa1|] eqn:Sa; cbn [mbind option_bind] in Ha; [|discriminate].
    destruct (store sfb _ _) as [sb1|] eqn:Sb; cbn [mbind option_bind] in Hb; [|discriminate].
    assert (Hidx : int16 (ta - i) = int16 (tb - i)) by (subst ta; apply int16_sub_l).
    assert (Hx : entry_rel (int16 (childIdx + i)) (childIdx + i))
      by (apply entry_rel_int16; lia).
    destruct (sf_store_sim sfa sfb Hlen Hmax Hrel _ _ _ _ _ _ Sa Sb Hidx Hx)
      as (E & Hr & La & Lb & Hrel').
    rewrite (int16_small (i + 1)) in Ha
      by (unfold in_signed; change (2 ^ (16 - 1)) with 32768; lia).
    rewrite (int_bounded (i + 1)) in Hb by lia.
    assert (Hbnd' : Forall frame_bound sb1).
    { apply store_Some_range in Sb as [_ ->]. apply Forall_insert; [assumption|].
      unfold frame_bound. lia. }
    destruct (IH (i + 1) sa1 sb1 ta tb childIdx sfa' sfb') as (La' & Lb' & Hrel'' & Hbnd'' & _);
      try assumption; try lia.
    split_and!; try assumption; try lia.
Qed.

(** ** Parameters taken from the operand stack *)

Lemma copyParams_sim osa osb d cnt oa ob pa pb :
  Z.of_nat (length osa) < 2 ^ 15 ->
  osa = osb ++ replicate d VNil ->
  oa = int16 ob -> - 2 ^ 17 <= ob <= 2 ^ 17 ->
  Boxed.copyParams cnt osa oa = Some pa ->
  Flat.copyParams cnt osb ob = Some pb ->
  pa = pb /\ -1 <= ob <= Z.of_nat (length osb).
Proof.
  intros Hmax Hos Ho Hob Ha Hb.
  unfold Boxed.copyParams in Ha. unfold Flat.copyParams in Hb.
  destruct (make VNil cnt) as [param|] eqn:Hmake;
    cbn [mbind option_bind] in Ha, Hb; [|discriminate].
  unfold make in Hmake. destruct (decide (0 <= cnt)) as [Hcnt|]; [|discriminate].
  injection Hmake as <-.
  rewrite (int_bounded (ob + 1)) in Hb by lia.
  destruct (decide (0 <= ob + 1 <= Z.of_nat (length osb))) as [Rb|]; [|discriminate].
  destruct (decide (0 <= int16 (oa + 1) <= Z.of_nat (length osa))) as [Ra|]; [|discriminate].
  assert (Hl : (length osb <= length osa)%nat) by (rewrite Hos, length_app; lia).
  assert (E : int16 (oa + 1) = ob + 1).
  { subst oa. rewrite int16_int16_add. apply int16_small. unfold in_signed.
    change (2 ^ (16 - 1)) with (2 ^ 15). lia. }
  rewrite E in Ha. simplify_eq. split; [|lia].
  set (low := Z.to_nat (ob + 1)). set (c := Z.to_nat cnt).
  rewrite !length_take, !length_drop, !drop_replicate, !length_app, !length_replicate.
  rewrite drop_app_le by lia. rewrite take_app.
  rewrite length_drop. rewrite take_replicate.
  rewrite <- app_assoc, <- replicate_add. do 2 f_equal. lia.
Qed.

Lemma operatorParams_sim osa osb d cnt oa ob pa pb :
  Z.of_nat (length osa) < 2 ^ 15 ->
  osa = osb ++ replicate d VNil ->
  oa = int16 ob -> - 2 ^ 17 <= ob <= 2 ^ 17 ->
  Boxed.operatorParams cnt osa oa = Some pa ->
  Flat.operatorParams cnt osb ob = Some pb ->
  pa = pb /\ -1 <= ob <= Z.of_nat (length osb).
Proof.
  intros Hmax Hos Ho Hob Ha Hb.
  unfold Boxed.operatorParams in Ha. unfold Flat.operatorParams in Hb.
  destruct (decide (cnt = 2)).
  - rewrite (int_bounded (ob + 1)), (int_bounded (ob + 2)) in Hb by lia.
    destruct (load osa (int16 (oa + 1))) as [a0|] eqn:A0; cbn [mbind option_bind] in Ha; [|discriminate].
    destruct (load osa (int16 (oa + 2))) as [a1|] eqn:A1; cbn [mbind option_bind] in Ha; [|discriminate].
    destruct (load osb (ob + 1)) as [b0|] eqn:B0; cbn [mbind option_bind] in Hb; [|discriminate].
    destruct (load osb (ob + 2)) as [b1|] eqn:B1; cbn [mbind option_bind] in Hb; [|discriminate].
    assert (E1 : int16 (oa + 1) = int16 (ob + 1)) by (subst oa; apply int16_int16_add).
    assert (E2 : int16 (oa + 2) = int16 (ob + 2)) by (subst oa; apply int16_int16_add).
    destruct (os_load_sim osa osb d Hmax Hos _ _ _ _ A0 B0 E1) as [_ <-].
    destruct (os_load_sim osa osb d Hmax Hos _ _ _ _ A1 B1 E2) as [_ <-].
    apply load_Some_range in B0. simplify_eq. split; [reflexivity|lia].
  - eapply copyParams_sim; eassumption.
Qed.

(** ** The debug branch *)

Lemma debugStackFrame_sim sfa sfb t offset :
  (length sfb <= length sfa)%nat ->
  Forall2 entry_rel (take (length sfb) sfa) sfb ->
  Forall frame_bound sfb ->
  0 <= offset -> t < Z.of_nat (length sfb) ->
  let sfa' := Boxed.debugStackFrame sfa t offset in
  let sfb' := Flat.debugStackFrame sfb t offset in
  length sfa' = length sfa /\ length sfb' = length sfb
  /\ Forall2 entry_rel (take (length sfb') sfa') sfb'
  /\ Forall frame_bound sfb'.
Proof.
  intros Hlen Hrel Hbnd Hoff Ht sfa' sfb'. subst sfa' sfb'.
  unfold Boxed.debugStackFrame, Flat.debugStackFrame.
  set (n := Z.to_nat t).
  set (fa := fun x => if decide (offset <= x) then int16 (x - offset) else x).
  set (fb := fun x => if decide (offset <= x) then int (x - offset) else x).
  assert (Hn : (n <= length sfb)%nat) by lia.
  assert (La : length ((fa <$> take n sfa) ++ drop n sfa) = length sfa).
  { rewrite length_app, length_fmap, length_take, length_drop. lia. }
  assert (Lb : length ((fb <$> take n sfb) ++ drop n sfb) = length sfb).
  { rewrite length_app, length_fmap, length_take, length_drop. lia. }
  assert (Hel : forall ea eb, entry_rel ea eb -> frame_bound eb ->
                  entry_rel (fa ea) (fb eb) /\ frame_bound (fb eb)).
  { intros ea eb Hr Hb. unfold fa, fb, frame_bound in *.
    destruct (decide (offset <= eb)) as [Hge|Hlt].
    - rewrite (int_bounded (eb - offset)) by lia. split; [|lia].
      destruct (decide (offset <= ea)) as [Hgea|Hlta].
      + destruct Hr as [->|[?|?]]; [|lia|lia].
        apply entry_rel_int16. lia.
      + destruct Hr as [->|[?|?]]; [lia| |lia]. right. left. assumption.
    - split; [|lia].
      destruct (decide (offset <= ea)) as [Hgea|Hlta].
      + destruct Hr as [->|[?|?]]; [lia|lia|]. right. right. assumption.
      + assumption. }
  split_and!; try assumption.
  - rewrite Lb.
    rewrite take_app_ge by (rewrite length_fmap, length_take; lia).
    rewrite length_fmap, length_take.
    replace (length sfb - n `min` length sfa)%nat with (length sfb - n)%nat by lia.
    rewrite take_drop_commute.
    replace (n + (length sfb - n))%nat with (length sfb) by lia.
    apply Forall2_app.
    + apply Forall2_fmap.
      replace (take n sfa) with (take n (take (length sfb) sfa))
        by (rewrite take_take; f_equal; lia).
      assert (Ht2 : Forall2 entry_rel (take n (take (length sfb) sfa)) (take n sfb)) by (apply Forall2_take; exact Hrel).
      assert (Hb2 : Forall frame_bound (take n sfb)) by (apply Forall_take; exact Hbnd).
      revert Ht2 Hb2. generalize (take n (take (length sfb) sfa)) (take n sfb).
      intros la lb H2. induction H2 as [|x y la lb Hxy _ IH]; intros Hb'; constructor.
      * apply Hel; [assumption|]. inversion Hb'; assumption.
      * apply IH. inversion Hb'; assumption.
    + apply Forall2_drop. exact Hrel.
  - apply Forall_app. split.
    + apply Forall_fmap. assert (Hb2 : Forall frame_bound (take n sfb)) by (apply Forall_take; exact Hbnd).
      eapply Forall_impl; [exact Hb2|]. intros x Hx. cbn.
      unfold fb, frame_bound in *. destruct (decide (offset <= x)); [|lia].
      rewrite int_bounded by lia. lia.
    + apply Forall_drop. exact Hbnd.
Qed.

(** ** One step of each variant *)

Section Lockstep.
Context {W : Type}.
Variables (a : Boxed.Expr W) (b : Flat.Expr W) (ctx : Ctx W).
Hypothesis HRep : Rep a b.
Hypothesis Hblind : name_blind ctx.
Hypothesis Hunified : returns_unified ctx.

Lemma SimOutcome_panic_r oa : SimOutcome a oa Flat.Panicked.
Proof. destruct oa; exact I. Qed.

Lemma table_typed (l : list Z) i x :
  Forall (in_signed 16) l -> load l i = Some x -> - 2 ^ 15 <= x < 2 ^ 15.
Proof.
  intros Hall Hl. pose proof (load_Forall _ _ _ _ Hall Hl) as H.
  unfold in_signed in H. change (2 ^ (16 - 1)) with (2 ^ 15) in H. exact H.
Qed.

Lemma pushRes_sim sa sb res :
  Sim sa sb ->
  SimOutcome a
    (Boxed.orPanic (Boxed.push (Boxed.os sa) (Boxed.osTop sa) res)
       (fun '(os1, osTop1) =>
          Boxed.Next (Boxed.AtLoop
            (Boxed.mkVM (Boxed.maxIdx sa) (Boxed.sf sa) (Boxed.sfTop sa) os1 osTop1
               (Boxed.scTriggered sa) (Boxed.io sa)))))
    (Flat.orPanic (Flat.push (Flat.os sb) (Flat.osTop sb) res)
       (fun '(os1, osTop1) =>
          Flat.Next (Flat.AtLoop
            (Flat.mkVM (Flat.maxIdx sb) (Flat.sf sb) (Flat.sfTop sb) os1 osTop1
               (Flat.scTriggered sb) (Flat.io sb))))).
Proof.
  intros [Hmax Hst Hstb Hot Hotb Hsl Hsm Hsf Hsfb Hom [d Hos] Hio].
  destruct (Boxed.push _ _ _) as [[osa' oa']|] eqn:Pa; [|exact I].
  destruct (Flat.push _ _ _) as [[osb' ob']|] eqn:Pb; [|apply SimOutcome_panic_r].
  destruct (push_os_sim _ _ d _ _ _ _ _ _ _ Hom Hos Pa Pb Hot ltac:(lia))
    as (E & Hr & La & Hos').
  cbn [Boxed.orPanic Flat.orPanic SimOutcome SimConfig].
  constructor; cbn [Boxed.maxIdx Boxed.sf Boxed.sfTop Boxed.os Boxed.osTop Boxed.io
                    Flat.maxIdx Flat.sf Flat.sfTop Flat.os Flat.osTop Flat.io];
    try assumption.
  - subst oa'. symmetry. apply int16_small. unfold in_signed.
    change (2 ^ (16 - 1)) with (2 ^ 15). apply os_len in Hos. lia.
  - apply os_len in Hos. lia.
  - lia.
  - eauto.
Qed.

Lemma shortCircuit_sim sa sb curta curtb flagb res :
  SimConfig a (Boxed.AtShortCircuit sa curta res) (Flat.AtShortCircuit sb curtb flagb res) ->
  SimOutcome a (Boxed.shortCircuit a sa curta res) (Flat.shortCircuit b sb curtb flagb res).
Proof.
  intros (HS & _ & Hnode & Hflag).
  unfold Boxed.shortCircuit, Flat.shortCircuit.
  destruct res; try (apply pushRes_sim; exact HS).
  rewrite (fires_scMask flagb (Boxed.flag curta) b0 Hflag).
  destruct (fires (Boxed.flag curta) b0); [|apply pushRes_sim; exact HS].
  destruct (Rep_load a b HRep curtb curta Hnode)
    as (_ & _ & _ & _ & _ & _ & _ & _ & _ & _ & _ & _ & Hsc & _).
  rewrite Hsc. cbn [Flat.orPanic].
  destruct (decide (Boxed.scIdx curta = 0)).
  { cbn [SimOutcome]. destruct HS. split_and!; [reflexivity | reflexivity | assumption]. }
  rewrite (rep_sfSize a b HRep), (rep_osSize a b HRep).
  destruct (load (Boxed.sfSize a) (Boxed.scIdx curta)) as [sfSz|] eqn:Hsf; [|exact I].
  destruct (load (Boxed.osSize a) (Boxed.scIdx curta)) as [osSz|] eqn:Hos; [|exact I].
  cbn [Boxed.orPanic Flat.orPanic].
  destruct (load (Boxed.nodes a) (Boxed.scIdx curta)) as [curt'|] eqn:Hn'; [|exact I].
  destruct (Rep_load a b HRep _ curt' Hn')
    as (b0' & k & H0 & _ & _ & _ & _ & _ & Hsc' & _).
  rewrite H0. cbn [Boxed.orPanic Flat.orPanic SimOutcome SimConfig].
  pose proof (table_typed _ _ _ (sfSize_typed a (rep_typed a b HRep)) Hsf) as Tsf.
  pose proof (table_typed _ _ _ (osSize_typed a (rep_typed a b HRep)) Hos) as Tos.
  change (2 ^ 15) with 32768 in *.
  rewrite (int_bounded (sfSz - 2)), (int_bounded (osSz - 1)) by lia.
  split_and!; try reflexivity; try assumption; [|apply land_scMask_idem_eq; exact Hsc'].
  destruct HS as [Hmax Hst Hstb Hot Hotb Hsl Hsm Hsfr Hsfb Hom Hosr Hio].
  constructor; cbn [Boxed.maxIdx Boxed.sf Boxed.sfTop Boxed.os Boxed.osTop Boxed.io
                    Flat.maxIdx Flat.sf Flat.sfTop Flat.os Flat.osTop Flat.io];
    try assumption; try reflexivity; lia.
Qed.

Lemma same_failure_refl (e : option error) : same_failure e e.
Proof. destruct e as [[]|]; reflexivity. Qed.

Lemma SimOutcome_done (r : Value) (e : option error) (ioa iob : IO W) :
  io_rel ioa iob ->
  SimOutcome a (Boxed.Done r e ioa) (Flat.Done r e iob).
Proof. intros H. cbn. split_and!; [reflexivity | apply same_failure_refl | assumption]. Qed.

Lemma Sim_withIO (sa : Boxed.vm W) (sb : Flat.vm W) (ioa iob : IO W) :
  Sim sa sb -> io_rel ioa iob ->
  Sim (Boxed.mkVM (Boxed.maxIdx sa) (Boxed.sf sa) (Boxed.sfTop sa) (Boxed.os sa)
         (Boxed.osTop sa) (Boxed.scTriggered sa) ioa)
      (Flat.mkVM (Flat.maxIdx sb) (Flat.sf sb) (Flat.sfTop sb) (Flat.os sb)
         (Flat.osTop sb) (Flat.scTriggered sb) iob).
Proof. intros [] Hio. constructor; cbn; assumption. Qed.

Lemma SimConfig_sc (sa : Boxed.vm W) (sb : Flat.vm W) i n b0 res :
  Sim sa sb ->
  load (Boxed.nodes a) i = Some n ->
  Z.land b0 scMask = Z.land (Boxed.flag n) scMask ->
  SimConfig a (Boxed.AtShortCircuit sa n res)
    (Flat.AtShortCircuit sb i (Z.land b0 scMask) res).
Proof.
  intros HS Hn Hsc. cbn. split_and!; try assumption; try reflexivity.
  apply land_scMask_idem_eq, Hsc.
Qed.

Ltac sim_fields :=
  cbn [Boxed.maxIdx Boxed.sf Boxed.sfTop Boxed.os Boxed.osTop Boxed.io
       Flat.maxIdx Flat.sf Flat.sfTop Flat.os Flat.osTop Flat.io].

Lemma dispatch_sim sa sb :
  Sim sa sb -> SimOutcome a (Boxed.dispatch a ctx sa) (Flat.dispatch b ctx sb).
Proof.
  intros HS. pose proof HS as [Hmax Hst Hstb Hot Hotb Hsl Hsm Hsfr Hsfb Hom [d Hosr] Hio].
  pose proof (os_len _ _ d Hosr) as Hol.
  pose proof (Rep_nodes_small a b HRep) as Hnodes.
  change (2 ^ 15) with 32768 in *. change (2 ^ 16) with 65536 in *.
  unfold Boxed.dispatch, Flat.dispatch.
  destruct (decide (Flat.sfTop sb = -1)) as [Eb|Nb].
  { rewrite Hst, Eb. change (int16 (-1)) with (-1). rewrite decide_True by reflexivity.
    destruct (load (Boxed.os sa) 0) as [ra|] eqn:La; [|exact I].
    destruct (load (Flat.os sb) 0) as [rb|] eqn:Lb; [|apply SimOutcome_panic_r].
    destruct (os_load_sim _ _ d Hom Hosr 0 0 ra rb La Lb eq_refl) as [_ <-].
    apply SimOutcome_done. assumption. }
  destruct (load (Flat.sf sb) (Flat.sfTop sb)) as [eb|] eqn:Lb;
    [|apply SimOutcome_panic_r].
  pose proof (load_Some_range _ _ _ Lb) as Rtb.
  assert (Et : Boxed.sfTop sa = Flat.sfTop sb).
  { rewrite Hst. apply int16_small. unfold in_signed.
    change (2 ^ (16 - 1)) with 32768. lia. }
  rewrite decide_False by lia.
  destruct (load (Boxed.sf sa) (Boxed.sfTop sa)) as [ea|] eqn:La; [|exact I].
  destruct (sf_load_sim _ _ Hsl Hsm Hsfr _ _ _ _ La Lb Hst) as [_ Hrel].
  assert (Hbe : frame_bound eb).
  { apply (load_Forall frame_bound _ _ _ Hsfb Lb). }
  unfold frame_bound in Hbe. change (2 ^ 16) with 65536 in Hbe.
  cbn [Boxed.orPanic Flat.orPanic].
  destruct (load (Boxed.nodes a) ea) as [n|] eqn:Ln; [|exact I].
  destruct (load (Flat.bytecode b) (int (eb * 4))) as [b0'|] eqn:Lb0;
    [|apply SimOutcome_panic_r].
  pose proof (Rep_same_node a b HRep ea eb n b0' Hrel ltac:(change (2^16) with 65536; lia) Ln Lb0) as ->.
  destruct (Rep_load a b HRep eb n Ln)
    as (b0 & k & H0 & H1 & H2 & H3 & Hb0 & Hty & Hsc & Hcnt & Hconst & Hop & Hsci & Hnt & Hi).
  rewrite H0 in Lb0. injection Lb0 as <-.
  destruct Hnt as [Tflag Tcnt Tsc Tchild Tkey].
  assert (Ecnt : int16 (Boxed.childCnt n) = Boxed.childCnt n).
  { apply int16_small. revert Tcnt. apply in_signed_mono. lia. }
  unfold in_signed in Tcnt, Tchild. change (2 ^ (8 - 1)) with 128 in Tcnt.
  change (2 ^ (16 - 1)) with 32768 in Tchild.
  cbn [Boxed.orPanic Flat.orPanic].
  rewrite Hty, Hcnt, Ecnt, Et.
  rewrite (int_bounded (Flat.sfTop sb - 1)) by lia.
  set (ty := Z.land (Boxed.flag n) nodeTypeMask) in *.
  assert (Hpop : Sim (Boxed.mkVM (Boxed.maxIdx sa) (Boxed.sf sa) (int16 (Flat.sfTop sb - 1))
                        (Boxed.os sa) (Boxed.osTop sa) (Boxed.scTriggered sa) (Boxed.io sa))
                     (Flat.mkVM (Flat.maxIdx sb) (Flat.sf sb) (Flat.sfTop sb - 1)
                        (Flat.os sb) (Flat.osTop sb) (Flat.scTriggered sb) (Flat.io sb))).
  { constructor; sim_fields; try assumption; try reflexivity; eauto; lia. }
  destruct (decide (ty = fastOperator)) as [Tfo|_].
  { rewrite H1. cbn [Flat.orPanic].
    destruct (Boxed.fastOperatorParams a ctx _ _ _) as [[psa ioa1]|] eqn:Fa; [|exact I].
    destruct (Flat.fastOperatorParams b ctx _ _ _) as [[psb iob1]|] eqn:Fb;
      [|apply SimOutcome_panic_r].
    destruct (fastOperatorParams_sim a b ctx HRep Hblind Hunified
                (Boxed.childCnt n) (Boxed.childIdx n) _ _ _ _ _ _
                ltac:(lia) ltac:(unfold in_signed; change (2 ^ (16 - 1)) with 32768; lia)
                Fa Fb Hio) as [<- Hio1].
    cbn [Boxed.orPanic Flat.orPanic].
    destruct psa as [param|err]; [|apply SimOutcome_done; assumption].
    destruct (Boxed.invoke ctx eb n param ioa1) as [[ra ioa2]|] eqn:Ia; [|exact I].
    destruct (Flat.invoke b ctx eb (int (eb * 4)) param iob1) as [[rb iob2]|] eqn:Ib;
      [|apply SimOutcome_panic_r].
    destruct (invoke_sim a b ctx HRep eb n param _ _ _ _ _ _ Ln (or_intror Tfo) Ia Ib Hio1)
      as [<- Hio2].
    cbn [Boxed.orPanic Flat.orPanic].
    destruct ra as [res [err|]].
    - cbn. split_and!; [reflexivity | reflexivity | assumption].
    - cbn [SimOutcome]. apply SimConfig_sc; [|assumption|assumption].
      apply (Sim_withIO _ _ _ _ Hpop Hio2). }
  destruct (decide (ty = operator)) as [Top|_].
  { rewrite <- Hmax.
    destruct (decide (eb > Boxed.maxIdx sa)) as [Hfirst|Hsecond].
    - destruct (Boxed.push (Boxed.sf sa) _ eb) as [[sfa1 ta1]|] eqn:Pa1; [|exact I].
      destruct (Flat.push (Flat.sf sb) _ eb) as [[sfb1 tb1]|] eqn:Pb1;
        [|apply SimOutcome_panic_r].
      destruct (push_sf_sim _ _ _ _ _ _ _ _ _ _ Hsl Hsm Hsfr Hsfb Pa1 Pb1 eq_refl
                  ltac:(lia) (entry_rel_refl eb) ltac:(unfold frame_bound; lia))
        as (E1 & R1 & La1 & Lb1 & Hrel1 & Hbnd1).
      cbn [Boxed.orPanic Flat.orPanic]. rewrite H1. cbn [Flat.orPanic].
      destruct (decide (Boxed.childCnt n = 2)) as [Ecnt2|Ncnt2].
      + rewrite (int_bounded (Boxed.childIdx n + 1)) by lia.
        destruct (Boxed.push sfa1 ta1 _) as [[sfa2 ta2]|] eqn:Pa2; [|exact I].
        destruct (Flat.push sfb1 tb1 _) as [[sfb2 tb2]|] eqn:Pb2;
          [|apply SimOutcome_panic_r].
        edestruct (fun Hl Hm Ht Htb Hx Hxb =>
                     push_sf_sim _ _ _ _ _ _ _ _ _ _ Hl Hm Hrel1 Hbnd1 Pa2 Pb2 Ht Htb Hx Hxb)
          as (E2 & R2 & La2 & Lb2 & Hrel2 & Hbnd2);
          [lia | lia | rewrite E1; symmetry; apply int16_small; unfold in_signed;
                       change (2 ^ (16 - 1)) with 32768; lia
           | lia | apply entry_rel_int16; lia | unfold frame_bound; lia |].
        cbn [Boxed.orPanic Flat.orPanic].
        destruct (Boxed.push sfa2 ta2 _) as [[sfa3 ta3]|] eqn:Pa3; [|exact I].
        destruct (Flat.push sfb2 tb2 _) as [[sfb3 tb3]|] eqn:Pb3;
          [|apply SimOutcome_panic_r].
        edestruct (fun Hl Hm Ht Htb Hx Hxb =>
                     push_sf_sim _ _ _ _ _ _ _ _ _ _ Hl Hm Hrel2 Hbnd2 Pa3 Pb3 Ht Htb Hx Hxb)
          as (E3 & R3 & La3 & Lb3 & Hrel3 & Hbnd3);
          [lia | lia | rewrite E2; symmetry; apply int16_small; unfold in_signed;
                       change (2 ^ (16 - 1)) with 32768; lia
           | lia | apply entry_rel_refl | unfold frame_bound; lia |].
        cbn [Boxed.orPanic Flat.orPanic SimOutcome SimConfig].
        constructor; sim_fields; try assumption; try reflexivity; eauto; try lia.
        rewrite E3. symmetry. apply int16_small. unfold in_signed.
        change (2 ^ (16 - 1)) with 32768. lia.
      + rewrite (int_bounded (tb1 + Boxed.childCnt n)) by lia.
        destruct (Boxed.pushChildren _ 0 sfa1 _ _) as [sfa2|] eqn:Ca; [|exact I].
        destruct (Flat.pushChildren _ 0 sfb1 _ _) as [sfb2|] eqn:Cb;
          [|apply SimOutcome_panic_r].
        edestruct (fun Hl Hm Hi Hn Hc Ht Htb =>
                     pushChildren_sim _ 0 sfa1 sfb1 _ _ _ _ _ Hl Hm Hrel1 Hbnd1
                       Hi Hn Hc Ht Htb Ca Cb)
          as (La2 & Lb2 & Hrel2 & Hbnd2 & _);
          [lia | lia | lia | lia
           | unfold in_signed; change (2 ^ (16 - 1)) with 32768; lia
           | rewrite E1; reflexivity | lia |].
        cbn [Boxed.orPanic Flat.orPanic SimOutcome SimConfig].
        constructor; sim_fields; try assumption; try reflexivity; eauto; try lia.
        rewrite E1. reflexivity.
    - rewrite (int_bounded (Flat.osTop sb - Boxed.childCnt n)) by lia.
      destruct (Boxed.operatorParams _ _ _) as [pa|] eqn:Oa; [|exact I].
      destruct (Flat.operatorParams _ _ _) as [pb|] eqn:Ob; [|apply SimOutcome_panic_r].
      edestruct (fun Ho Hob => operatorParams_sim _ _ d _ _ _ _ _ Hom Hosr Ho Hob Oa Ob)
        as [<- Rob]; [rewrite Hot; apply int16_sub_l | lia |].
      cbn [Boxed.orPanic Flat.orPanic].
      destruct (Boxed.invoke ctx eb n pa _) as [[ra ioa2]|] eqn:Ia; [|exact I].
      destruct (Flat.invoke b ctx eb (int (eb * 4)) pa _) as [[rb iob2]|] eqn:Ib;
        [|apply SimOutcome_panic_r].
      destruct (invoke_sim a b ctx HRep eb n pa _ _ _ _ _ _ Ln (or_introl Top) Ia Ib Hio)
        as [<- Hio2].
      cbn [Boxed.orPanic Flat.orPanic].
      destruct ra as [res [err|]].
      + cbn. split_and!; [reflexivity | reflexivity | assumption].
      + cbn [SimOutcome]. apply SimConfig_sc; [|assumption|assumption].
        constructor; sim_fields; try assumption; try reflexivity; eauto; try lia.
        rewrite Hot. apply int16_sub_l. }
  destruct (decide (ty = selector)) as [Tsel|_].
  { rewrite H3. cbn [Flat.orPanic].
    unfold Boxed.getSelectorValue.
    destruct (Boxed.value n) as [| |name| | | | | | | | | | | | | | |]; try exact I.
    destruct Hio as [Hw Hcalls]. rewrite Hblind, Hw.
    destruct (Get ctx (Boxed.selKey n) "" (world (Flat.io sb))) as [[v [err|]] w'] eqn:Hget.
    - cbn [Boxed.orPanic]. apply SimOutcome_done.
      apply (io_rel_logged (Boxed.io sa) (Flat.io sb)). split; assumption.
    - pose proof (Hunified _ _ _ _ _ Hget) as Hfix.
      assert (Hio1 : io_rel (logged (Boxed.io sa) w' (CallGet (Boxed.selKey n) name))
                            (logged (Flat.io sb) w' (CallGet (Boxed.selKey n) "")))
        by (apply io_rel_logged; split; assumption).
      destruct (canonical v); cbn [Boxed.orPanic SimOutcome]; rewrite ?Hfix;
        (apply SimConfig_sc; [|assumption|assumption]);
        apply (Sim_withIO _ _ _ _ Hpop Hio1). }
  destruct (decide (ty = constant)) as [Tcon|_].
  { rewrite H2. cbn [Flat.orPanic]. rewrite (Hconst Tcon).
    cbn [Flat.orPanic SimOutcome]. apply SimConfig_sc; assumption. }
  destruct (decide (ty = cond)) as [Tcond|_].
  { rewrite H1. cbn [Flat.orPanic]. rewrite <- Hmax.
    destruct (decide (eb > Boxed.maxIdx sa)) as [Hfirst|Hsecond].
    - rewrite (int_bounded (Boxed.childIdx n + Boxed.childCnt n)) by lia.
      rewrite (int_bounded (Boxed.childIdx n + Boxed.childCnt n - 1)) by lia.
      rewrite int16_sub_l.
      destruct (Boxed.push (Boxed.sf sa) _ _) as [[sfa1 ta1]|] eqn:Pa1; [|exact I].
      destruct (Flat.push (Flat.sf sb) _ _) as [[sfb1 tb1]|] eqn:Pb1;
        [|apply SimOutcome_panic_r].
      edestruct (fun Ht Htb Hx Hxb =>
                   push_sf_sim _ _ _ _ _ _ _ _ _ _ Hsl Hsm Hsfr Hsfb Pa1 Pb1 Ht Htb Hx Hxb)
        as (E1 & R1 & La1 & Lb1 & Hrel1 & Hbnd1);
        [reflexivity | lia | apply entry_rel_int16; lia | unfold frame_bound; lia |].
      cbn [Boxed.orPanic Flat.orPanic].
      destruct (Boxed.push sfa1 ta1 _) as [[sfa2 ta2]|] eqn:Pa2; [|exact I].
      destruct (Flat.push sfb1 tb1 _) as [[sfb2 tb2]|] eqn:Pb2;
        [|apply SimOutcome_panic_r].
      edestruct (fun Hl Hm Ht Htb Hx Hxb =>
                   push_sf_sim _ _ _ _ _ _ _ _ _ _ Hl Hm Hrel1 Hbnd1 Pa2 Pb2 Ht Htb Hx Hxb)
        as (E2 & R2 & La2 & Lb2 & Hrel2 & Hbnd2);
        [lia | lia | rewrite E1; symmetry; apply int16_small; unfold in_signed;
                     change (2 ^ (16 - 1)) with 32768; lia
         | lia | apply entry_rel_refl | unfold frame_bound; lia |].
      cbn [Boxed.orPanic Flat.orPanic].
      destruct (Boxed.push sfa2 ta2 _) as [[sfa3 ta3]|] eqn:Pa3; [|exact I].
      destruct (Flat.push sfb2 tb2 _) as [[sfb3 tb3]|] eqn:Pb3;
        [|apply SimOutcome_panic_r].
      edestruct (fun Hl Hm Ht Htb Hx Hxb =>
                   push_sf_sim _ _ _ _ _ _ _ _ _ _ Hl Hm Hrel2 Hbnd2 Pa3 Pb3 Ht Htb Hx Hxb)
        as (E3 & R3 & La3 & Lb3 & Hrel3 & Hbnd3);
        [lia | lia | rewrite E2; symmetry; apply int16_small; unfold in_signed;
                     change (2 ^ (16 - 1)) with 32768; lia
         | lia | apply entry_rel_refl | unfold frame_bound; lia |].
      cbn [Boxed.orPanic Flat.orPanic SimOutcome SimConfig].
      constructor; sim_fields; try assumption; try reflexivity; eauto; try lia.
      rewrite E3. symmetry. apply int16_small. unfold in_signed.
      change (2 ^ (16 - 1)) with 32768. lia.
    - destruct (load (Boxed.os sa) (Boxed.osTop sa)) as [ra|] eqn:Oa; [|exact I].
      destruct (load (Flat.os sb) (Flat.osTop sb)) as [rb|] eqn:Ob;
        [|apply SimOutcome_panic_r].
      destruct (os_load_sim _ _ d Hom Hosr _ _ _ _ Oa Ob Hot) as [Eo <-].
      pose proof (load_Some_range _ _ _ Ob) as Rob.
      cbn [Boxed.orPanic Flat.orPanic].
      destruct ra; try (apply SimOutcome_done; assumption).
      rewrite (int_bounded (Boxed.childIdx n + 1)), (int_bounded (Boxed.childIdx n + 2)),
        (int_bounded (Flat.osTop sb - 1)) by lia.
      destruct (Boxed.push (Boxed.sf sa) _ _) as [[sfa1 ta1]|] eqn:Pa1; [|exact I].
      destruct (Flat.push (Flat.sf sb) _ _) as [[sfb1 tb1]|] eqn:Pb1;
        [|apply SimOutcome_panic_r].
      edestruct (fun Ht Htb Hx Hxb =>
                   push_sf_sim _ _ _ _ _ _ _ _ _ _ Hsl Hsm Hsfr Hsfb Pa1 Pb1 Ht Htb Hx Hxb)
        as (E1 & R1 & La1 & Lb1 & Hrel1 & Hbnd1);
        [reflexivity | lia
         | destruct b1; apply entry_rel_int16; lia
         | destruct b1; unfold frame_bound; lia |].
      cbn [Boxed.orPanic Flat.orPanic SimOutcome SimConfig].
      constructor; sim_fields; try assumption; try reflexivity; eauto; try lia.
      + rewrite E1. symmetry. apply int16_small. unfold in_signed.
        change (2 ^ (16 - 1)) with 32768. lia.
      + rewrite Eo. reflexivity. }
  destruct (decide (ty = end_)) as [Tend|_].
  { rewrite (rep_parentIdx a b HRep).
    destruct (load (Boxed.parentIdx a) eb) as [m|] eqn:Lp; [|exact I].
    cbn [Boxed.orPanic Flat.orPanic].
    destruct (load (Boxed.os sa) (Boxed.osTop sa)) as [ra|] eqn:Oa; [|exact I].
    destruct (load (Flat.os sb) (Flat.osTop sb)) as [rb|] eqn:Ob;
      [|apply SimOutcome_panic_r].
    destruct (os_load_sim _ _ d Hom Hosr _ _ _ _ Oa Ob Hot) as [Eo <-].
    pose proof (load_Some_range _ _ _ Ob) as Rob.
    rewrite (int_bounded (Flat.osTop sb - 1)) by lia.
    cbn [Boxed.orPanic Flat.orPanic SimOutcome]. apply SimConfig_sc; [|assumption|assumption].
    constructor; sim_fields; try assumption; try reflexivity; eauto; try lia.
    rewrite Eo. reflexivity. }
  rewrite (rep_nodes a b HRep).
  rewrite (int16_small (Z.of_nat (length (Boxed.nodes a))))
    by (unfold in_signed; change (2 ^ (16 - 1)) with 32768; lia).
  set (offset := Z.quot (Z.of_nat (length (Boxed.nodes a))) 2).
  assert (Hoff : 0 <= offset <= Z.of_nat (length (Boxed.nodes a))).
  { subst offset.
    pose proof (Z.quot_rem' (Z.of_nat (length (Boxed.nodes a))) 2) as Eq.
    pose proof (Z.rem_bound_pos (Z.of_nat (length (Boxed.nodes a))) 2 ltac:(lia) ltac:(lia)).
    lia. }
  destruct (debugStackFrame_sim (Boxed.sf sa) (Flat.sf sb) (Flat.sfTop sb - 1) offset
              Hsl Hsfr Hsfb ltac:(lia) ltac:(lia)) as (La0 & Lb0 & Hrel0 & Hbnd0).
  replace (Boxed.debugStackFrame (Boxed.sf sa) (int16 (Flat.sfTop sb - 1)) offset)
    with (Boxed.debugStackFrame (Boxed.sf sa) (Flat.sfTop sb - 1) offset)
    by (rewrite int16_small;
        [reflexivity | unfold in_signed; change (2 ^ (16 - 1)) with 32768; lia]).
  rewrite (int_bounded (eb + offset)) by lia.
  destruct (Boxed.push _ _ _) as [[sfa1 ta1]|] eqn:Pa1; [|exact I].
  destruct (Flat.push _ _ _) as [[sfb1 tb1]|] eqn:Pb1; [|apply SimOutcome_panic_r].
  edestruct (fun Hl Hm Ht Htb Hx Hxb =>
               push_sf_sim _ _ _ _ _ _ _ _ _ _ Hl Hm Hrel0 Hbnd0 Pa1 Pb1 Ht Htb Hx Hxb)
    as (E1 & R1 & La1 & Lb1 & Hrel1 & Hbnd1);
    [lia | lia | reflexivity | lia | apply entry_rel_int16; lia
     | unfold frame_bound; lia |].
  cbn [Boxed.orPanic Flat.orPanic].
  destruct (Boxed.printStacks a _ _ _ _) as [[]|]; [|exact I].
  destruct (Flat.printStacks b _ _ _ _) as [[]|]; [|apply SimOutcome_panic_r].
  cbn [Boxed.orPanic Flat.orPanic SimOutcome SimConfig].
  constructor; sim_fields; try assumption; try reflexivity; eauto; try lia.
  rewrite E1. symmetry. apply int16_small. unfold in_signed.
  change (2 ^ (16 - 1)) with 32768. lia.
Qed.

Lemma step_sim ca cb :
  SimConfig a ca cb -> SimOutcome a (Boxed.step a ctx ca) (Flat.step b ctx cb).
Proof.
  destruct ca as [sa|sa curta resa], cb as [sb|sb curtb flagb resb];
    cbn [SimConfig Boxed.step Flat.step]; intros H; try contradiction.
  - apply dispatch_sim, H.
  - pose proof H as (_ & <- & _). apply shortCircuit_sim, H.
Qed.

(** Whenever both runs return, they return the same. *)
Lemma run_sim fa : forall fb ca cb ra erra ioa rb errb iob,
  SimConfig a ca cb ->
  Boxed.run a ctx fa ca = Returns ra erra ioa ->
  Flat.run b ctx fb cb = Returns rb errb iob ->
  ra = rb /\ same_failure erra errb /\ io_rel ioa iob.
Proof.
  induction fa as [|fa IH]; intros fb ca cb ra erra ioa rb errb iob HS Ha Hb;
    [discriminate Ha|].
  destruct fb as [|fb]; [discriminate Hb|].
  cbn [Boxed.run Flat.run] in Ha, Hb.
  pose proof (step_sim ca cb HS) as Hstep.
  destruct (Boxed.step a ctx ca) as [ca'|ra' erra' ioa'|]; [| |discriminate Ha];
    (destruct (Flat.step b ctx cb) as [cb'|rb' errb' iob'|]; [| |discriminate Hb]);
    cbn [SimOutcome] in Hstep; try contradiction.
  - eapply IH; eassumption.
  - simplify_eq. exact Hstep.
Qed.

(** With the same fuel the two runs end in the same way. *)
Lemma run_sim_fuel fuel : forall ca cb,
  SimConfig a ca cb ->
  SimResult (Boxed.run a ctx fuel ca) (Flat.run b ctx fuel cb).
Proof.
  induction fuel as [|fuel IH]; intros ca cb HS; [exact I|].
  cbn [Boxed.run Flat.run].
  pose proof (step_sim ca cb HS) as Hstep.
  destruct (Boxed.step a ctx ca) as [ca'|ra' erra' ioa'|]; [| |exact I];
    (destruct (Flat.step b ctx cb) as [cb'|rb' errb' iob'|]);
    cbn [SimOutcome] in Hstep; try contradiction; cbn [SimResult]; try exact I.
  - apply IH, Hstep.
  - destruct (Boxed.run a ctx fuel ca'); exact I.
  - destruct Hstep as (? & ? & ? & ?). auto.
Qed.

Lemma stackSize_le (size : Z) :
  in_signed 16 size ->
  0 <= Flat.stackSize size <= Boxed.stackSize size /\ Boxed.stackSize size < 2 ^ 15.
Proof.
  unfold in_signed, Flat.stackSize, Boxed.stackSize.
  change (2 ^ (16 - 1)) with 32768. change (2 ^ 15) with 32768.
  intros H. repeat case_decide; lia.
Qed.

Lemma init_sim w : Sim (Boxed.init a w) (Flat.init b w).
Proof.
  pose proof (stackSize_le _ (size_typed a (rep_typed a b HRep))) as [Hle Hmax].
  unfold Boxed.init, Flat.init. rewrite (rep_size a b HRep).
  set (na := Z.to_nat (Boxed.stackSize (Boxed.maxStackSize a))).
  set (nb := Z.to_nat (Flat.stackSize (Boxed.maxStackSize a))).
  assert (Hn : (nb <= na)%nat) by lia.
  assert (E0 : <[0%nat := 0]> (replicate nb 0) = replicate nb 0).
  { destruct nb; reflexivity. }
  rewrite E0.
  constructor; sim_fields; rewrite ?length_replicate; try reflexivity; try lia.
  - rewrite take_replicate. replace (nb `min` na)%nat with nb by lia.
    apply Forall2_replicate. apply entry_rel_refl.
  - apply Forall_replicate. unfold frame_bound. lia.
  - exists (na - nb)%nat. rewrite <- replicate_add. f_equal. lia.
  - split; reflexivity.
Qed.

End Lockstep.

(** ** The flat encoding of a boxed expression represents it *)

Lemma lookup_concat_imap4 {A B} (l : list A) : forall (f : nat -> A -> list B) i j x,
  (forall i x, length (f i x) = 4%nat) ->
  l !! i = Some x -> (j < 4)%nat ->
  concat (imap f l) !! (4 * i + j)%nat = f i x !! j.
Proof.
  induction l as [|y l IH]; intros f i j x Hf Hl Hj; [discriminate Hl|].
  cbn [imap concat]. destruct i as [|i].
  - injection Hl as ->. rewrite lookup_app_l by (rewrite Hf; lia).
    f_equal.
  - rewrite lookup_app_r by (rewrite Hf; lia). rewrite Hf.
    replace (4 * S i + j - 4)%nat with (4 * i + j)%nat by lia.
    apply (IH (f ∘ S) i j x); [intros; apply Hf | exact Hl | exact Hj].
Qed.

Lemma length_concat_imap4 {A B} (l : list A) : forall (f : nat -> A -> list B),
  (forall i x, length (f i x) = 4%nat) ->
  length (concat (imap f l)) = (4 * length l)%nat.
Proof.
  induction l as [|y l IH]; intros f Hf; [reflexivity|].
  cbn [imap concat length]. rewrite length_app, Hf, (IH (f ∘ S)) by (intros; apply Hf).
  lia.
Qed.

Lemma flag_word (flag cnt : Z) :
  in_unsigned 8 flag -> in_signed 8 cnt ->
  let b0 := cnt * 256 + flag in
  in_signed 16 b0
  /\ Z.land b0 nodeTypeMask = Z.land flag nodeTypeMask
  /\ Z.land b0 scMask = Z.land flag scMask
  /\ Z.shiftr b0 8 = cnt.
Proof.
  unfold in_unsigned, in_signed. change (2 ^ 8) with 256. change (2 ^ (8 - 1)) with 128.
  change (2 ^ (16 - 1)) with 32768. cbv zeta. intros Hf Hc.
  assert (E32 : (cnt * 256 + flag) `mod` 32 = flag `mod` 32).
  { replace (cnt * 256 + flag) with (flag + (cnt * 8) * 32) by lia.
    apply Z.mod_add. lia. }
  assert (E8 : (cnt * 256 + flag) `mod` 8 = flag `mod` 8).
  { replace (cnt * 256 + flag) with (flag + (cnt * 32) * 8) by lia.
    apply Z.mod_add. lia. }
  split_and!.
  - lia.
  - lia.
  - change nodeTypeMask with (Z.ones 3). rewrite !Z.land_ones by lia. exact E8.
  - change scMask with (Z.land (Z.ones 5) 24). rewrite !Z.land_assoc.
    rewrite !Z.land_ones by lia. change (2 ^ 5) with 32. rewrite E32. reflexivity.
  - rewrite Z.shiftr_div_pow2 by lia. change (2 ^ 8) with 256.
    rewrite Z.add_comm, Z.div_add by lia. rewrite Z.div_small by lia. lia.
Qed.

Lemma Rep_encode {W} (a : Boxed.Expr W) : expr_typed a -> Rep a (encode a).
Proof.
  intros Ht. constructor; cbn [encode Flat.maxStackSize Flat.bytecode Flat.nodes
    Flat.constants Flat.operators Flat.scIdx Flat.parentIdx Flat.sfSize Flat.osSize];
    try reflexivity; try assumption.
  - apply length_concat_imap4. intros; reflexivity.
  - apply length_imap.
  - intros i n Hn.
    assert (Hnt : node_typed n)
      by (eapply Forall_lookup_1; [apply (nodes_typed a Ht) | exact Hn]).
    destruct Hnt as [Tflag Tcnt Tsc Tchild Tkey].
    destruct (flag_word _ _ Tflag Tcnt) as (Hb0 & Hty & Hsc & Hcnt).
    exists (Boxed.childCnt n * 256 + Boxed.flag n), (Z.of_nat i).
    assert (Hl : forall j, (j < 4)%nat ->
              concat (imap encodeNode (Boxed.nodes a)) !! (4 * i + j)%nat
              = encodeNode i n !! j).
    { intros j Hj. apply lookup_concat_imap4; [intros; reflexivity | exact Hn | exact Hj]. }
    split_and!; try assumption.
    + replace (4 * i)%nat with (4 * i + 0)%nat by lia. apply Hl. lia.
    + apply Hl. lia.
    + apply Hl. lia.
    + apply Hl. lia.
    + intros _. apply lookup_load. rewrite list_lookup_fmap, Hn. reflexivity.
    + intros _. unfold load. rewrite decide_True by lia. rewrite Nat2Z.id.
      rewrite list_lookup_fmap, Hn. reflexivity.
    + rewrite list_lookup_fmap, Hn. reflexivity.
Qed.

Ltac prove_typed :=
  constructor; cbn;
  repeat (first [apply Forall_nil | apply Forall_cons; split]);
  try (constructor; cbn);
  unfold in_signed, in_unsigned, selector, constant, operator, fastOperator, cond, end_,
    scIfFalse, scIfTrue; cbn;
  repeat match goal with
         | |- context [Z.lor ?x ?y] =>
             let v := eval vm_compute in (Z.lor x y) in change (Z.lor x y) with v
         end;
  lia.

Lemma exprX_typed {W} : expr_typed (W:=W) exprX.
Proof. prove_typed. Qed.

Lemma exprNameless_typed {W} : expr_typed (W:=W) exprNameless.
Proof. prove_typed. Qed.

Lemma exprDown_typed {W} : expr_typed (W:=W) exprDown.
Proof. prove_typed. Qed.

Lemma exprFalseAndBOrC_typed {W} : expr_typed (W:=W) exprFalseAndBOrC.
Proof. prove_typed. Qed.

(** ** The claim and its amendment *)

(** C1 as stated fails, in four ways.  On the expression [x], represented
    in both encodings: over a context that returns an [int32], the boxed
    variant returns the unified [int64] and the flat one the [int32] as it
    is; over a context that answers by name, the two get different answers,
    because the flat variant passes the empty name.  On [down()], whose
    operator fails, the two errors name the operator differently.  On a
    selector without a name the boxed variant panics where the flat one
    returns. *)
Lemma engines_differ :
  Rep (W:=unit) exprX (encode exprX)
  /\ Boxed.Eval 5 exprX (constCtx (VInt32 3, None) false) tt
     = Returns (VInt64 3) None (mkIO tt [CallGet 1 "x"])
  /\ Flat.Eval 5 (encode exprX) (constCtx (VInt32 3, None) false) tt
     = Returns (VInt32 3) None (mkIO tt [CallGet 1 ""])
  /\ Boxed.Eval 5 exprX byNameCtx tt = Returns (VInt64 1) None (mkIO tt [CallGet 1 "x"])
  /\ Flat.Eval 5 (encode exprX) byNameCtx tt
     = Returns (VInt64 2) None (mkIO tt [CallGet 1 ""])
  /\ Rep (W:=unit) exprDown (encode exprDown)
  /\ Boxed.Eval 5 exprDown xyCtx tt
     = Returns VNil (Some (ErrOperatorExec (VString "down") (ErrNew "db down")))
         (mkIO tt [CallOp 0 []])
  /\ Flat.Eval 5 (encode exprDown) xyCtx tt
     = Returns VNil (Some (ErrOperatorExec (VInt 0) (ErrNew "db down")))
         (mkIO tt [CallOp 0 []])
  /\ Rep (W:=unit) exprNameless (encode exprNameless)
  /\ Boxed.Eval 5 exprNameless xyCtx tt = Panics
  /\ Flat.Eval 5 (encode exprNameless) xyCtx tt
     = Returns (VInt64 3) None (mkIO tt [CallGet 1 ""]).
Proof.
  split_and!; try reflexivity; apply Rep_encode.
  - apply exprX_typed.
  - apply exprDown_typed.
  - apply exprNameless_typed.
Qed.

(** C1, amended. For every expression represented in both encodings, and
    every context that ignores the display name and returns only values the
    unifier leaves as they are (values of a canonical kind among them):
    whenever the [Eval] methods of the two variants both return, they return
    the same value, with the same final state of the world and the same
    calls up to the display names, and either both without an error or both
    with an error, the same one, except that an operator execution error
    names the operator by the node's value in the boxed variant and by the
    node's index in the flat one.  The two run in lock step: with the same
    fuel, when one returns, the other returns too, unless it panics. *)
Theorem engines_agree {W} (a : Boxed.Expr W) (b : Flat.Expr W) (ctx : Ctx W) (w : W)
    (fa fb : nat) (ra rb : Value) (erra errb : option error) (ioa iob : IO W) :
  Rep a b ->
  name_blind ctx ->
  returns_unified ctx ->
  (Boxed.Eval fa a ctx w = Returns ra erra ioa ->
   Flat.Eval fb b ctx w = Returns rb errb iob ->
   ra = rb
   /\ same_failure erra errb
   /\ world ioa = world iob
   /\ nameless <$> calls ioa = calls iob)
  /\ SimResult (Boxed.Eval fa a ctx w) (Flat.Eval fa b ctx w).
Proof.
  intros HRep Hblind Hunified. split.
  - intros Ha Hb. unfold Boxed.Eval in Ha. unfold Flat.Eval in Hb.
    destruct (run_sim a b ctx HRep Hblind Hunified fa fb
                (Boxed.AtLoop (Boxed.init a w)) (Flat.AtLoop (Flat.init b w))
                _ _ _ _ _ _ (init_sim a b HRep w) Ha Hb) as (Hr & He & Hw & Hc).
    auto.
  - apply (run_sim_fuel a b ctx HRep Hblind Hunified fa
             (Boxed.AtLoop (Boxed.init a w)) (Flat.AtLoop (Flat.init b w))).
    apply (init_sim a b HRep w).
Qed.

Lemma engines_agree_witness :
  Rep (W:=unit) exprFalseAndBOrC (encode exprFalseAndBOrC)
  /\ name_blind (constCtx (W:=unit) (VBool true, None) false)
  /\ returns_unified (constCtx (W:=unit) (VBool true, None) false)
  /\ Boxed.Eval 20 exprFalseAndBOrC (constCtx (VBool true, None) false) tt
     = Returns (VBool true) None
         (mkIO tt [CallGet 2 "c"; CallOp 0 [VBool false; VBool true]])
  /\ Flat.Eval 20 (encode exprFalseAndBOrC) (constCtx (VBool true, None) false) tt
     = Returns (VBool true) None
         (mkIO tt [CallGet 2 ""; CallOp 0 [VBool false; VBool true]])
  /\ (VBool true = VBool true
      /\ same_failure None None
      /\ world (mkIO tt [CallGet 2 "c"; CallOp 0 [VBool false; VBool true]])
         = world (mkIO tt [CallGet 2 ""; CallOp 0 [VBool false; VBool true]])
      /\ nameless <$> calls (mkIO tt [CallGet 2 "c"; CallOp 0 [VBool false; VBool true]])
         = calls (mkIO tt [CallGet 2 ""; CallOp 0 [VBool false; VBool true]])).
Proof.
  assert (HRep : Rep (W:=unit) exprFalseAndBOrC (encode exprFalseAndBOrC))
    by (apply Rep_encode, exprFalseAndBOrC_typed).
  assert (Hblind : name_blind (constCtx (W:=unit) (VBool true, None) false))
    by (intros key name w; reflexivity).
  assert (Hunified : returns_unified (constCtx (W:=unit) (VBool true, None) false))
    by (intros key name w v w' [= <- _]; reflexivity).
  assert (Ha : Boxed.Eval 20 exprFalseAndBOrC (constCtx (VBool true, None) false) tt
               = Returns (VBool true) None
                   (mkIO tt [CallGet 2 "c"; CallOp 0 [VBool false; VBool true]]))
    by (vm_compute; reflexivity).
  assert (Hb : Flat.Eval 20 (encode exprFalseAndBOrC) (constCtx (VBool true, None) false) tt
               = Returns (VBool true) None
                   (mkIO tt [CallGet 2 ""; CallOp 0 [VBool false; VBool true]]))
    by (vm_compute; reflexivity).
  refine (conj HRep (conj Hblind (conj Hunified (conj Ha (conj Hb _))))).
  exact (proj1 (engines_agree exprFalseAndBOrC (encode exprFalseAndBOrC)
           (constCtx (VBool true, None) false) tt 20 20
           (VBool true) (VBool true) None None
           (mkIO tt [CallGet 2 "c"; CallOp 0 [VBool false; VBool true]])
           (mkIO tt [CallGet 2 ""; CallOp 0 [VBool false; VBool true]])
           HRep Hblind Hunified) Ha Hb).
Defined.

(** * More of the two files: [EvalBool], edge cases of [Eval] *)

Lemma asBool_ok {W} (r : result W) (b : bool) (io : IO W) :
  asBool r = ReturnsBool b None io <-> r = Returns (VBool b) None io.
Proof.
split.
- destruct r as [res [err|] io'| |]; cbn; try discriminate.
  destruct res; cbn; try discriminate. intros [= -> ->]. reflexivity.
- intros ->. reflexivity.
Qed.

Lemma asBool_err {W} (r : result W) (v : bool) (err : boolError) (io : IO W) :
  asBool r = ReturnsBool v (Some err) io ->
  v = false
  /\ ((exists res err', err = EvalError err' /\ r = Returns res (Some err') io)
      \/ (exists res, err = InvalidResultType res
                      /\ (forall b, res <> VBool b) /\ r = Returns res None io)).
Proof.
destruct r as [res [err'|] io'| |]; cbn; try discriminate.
- intros [= <- <- <-]. split; [reflexivity|]. left. eauto.
- destruct res; cbn; try discriminate;
    intros [= <- <- <-]; (split; [reflexivity|]); right;
    eexists; (split; [reflexivity|]); (split; [intros b'; discriminate|reflexivity]).
Qed.

(** X7. [EvalBool], in both variants: it succeeds with [b] exactly when
    [Eval] returns the boolean [b] and no error, with the same effects;
    whenever it reports an error its boolean is [false], and the error is
    either the error of [Eval], unchanged, or the invalid-result-type error
    for a result of [Eval] that is not a boolean (no value of another type
    is coerced to a truth value). *)
Theorem EvalBool_bool_or_error {W} (ctx : Ctx W) (w : W) (fuel : nat) :
  (forall e : Boxed.Expr W,
     (forall b io, Boxed_EvalBool fuel e ctx w = ReturnsBool b None io
                   <-> Boxed.Eval fuel e ctx w = Returns (VBool b) None io)
     /\ (forall v err io,
           Boxed_EvalBool fuel e ctx w = ReturnsBool v (Some err) io ->
           v = false
           /\ ((exists res err', err = EvalError err'
                  /\ Boxed.Eval fuel e ctx w = Returns res (Some err') io)
               \/ (exists res, err = InvalidResultType res
                     /\ (forall b, res <> VBool b)
                     /\ Boxed.Eval fuel e ctx w = Returns res None io))))
  /\ (forall e : Flat.Expr W,
        (forall b io, Flat_EvalBool fuel e ctx w = ReturnsBool b None io
                      <-> Flat.Eval fuel e ctx w = Returns (VBool b) None io)
        /\ (forall v err io,
              Flat_EvalBool fuel e ctx w = ReturnsBool v (Some err) io ->
              v = false
              /\ ((exists res err', err = EvalError err'
                     /\ Flat.Eval fuel e ctx w = Returns res (Some err') io)
                  \/ (exists res, err = InvalidResultType res
                        /\ (forall b, res <> VBool b)
                        /\ Flat.Eval fuel e ctx w = Returns res None io)))).
Proof.
split; intros e; split.
- intros b io. apply asBool_ok.
- intros v err io. apply asBool_err.
- intros b io. apply asBool_ok.
- intros v err io. apply asBool_err.
Qed.

(** X8. An expression without nodes: [Eval] does not return an error, it
    panics.  The root is pushed without looking at the node table, and the
    first turn of the loop indexes the empty table (the node slice of the
    node-record variant, the bytecode of the flat variant). *)
Theorem Eval_without_nodes_panics {W} (ctx : Ctx W) (w : W) (fuel : nat) :
  (forall e : Boxed.Expr W,
     Boxed.nodes e = [] -> Boxed.Eval (S fuel) e ctx w = Panics)
  /\ (forall e : Flat.Expr W,
        Flat.bytecode e = [] -> Flat.Eval (S fuel) e ctx w = Panics).
Proof.
split; intros e He.
- unfold Boxed.Eval. cbn [Boxed.run Boxed.step]. unfold Boxed.dispatch, Boxed.init.
  cbn [Boxed.sfTop Boxed.sf Boxed.os]. rewrite decide_False by lia.
  assert (Hs : load (replicate (Z.to_nat (Boxed.stackSize (Boxed.maxStackSize e))) 0) 0
               = Some 0).
  { unfold load. rewrite decide_True by lia. apply lookup_replicate_2.
    unfold Boxed.stackSize. repeat case_decide; lia. }
  rewrite Hs. cbn [Boxed.orPanic]. rewrite He. reflexivity.
- unfold Flat.Eval. cbn [Flat.run Flat.step]. unfold Flat.dispatch, Flat.init.
  cbn [Flat.sfTop Flat.sf Flat.os]. rewrite decide_False by lia.
  assert (Hs : load (<[0%nat := 0]> (replicate (Z.to_nat (Flat.stackSize (Flat.maxStackSize e))) 0)) 0
               = Some 0).
  { unfold load. rewrite decide_True by lia. apply list_lookup_insert_eq.
    rewrite length_replicate. unfold Flat.stackSize. repeat case_decide; lia. }
  rewrite Hs. cbn [Flat.orPanic]. rewrite He. reflexivity.
Qed.

Lemma Eval_without_nodes_panics_witness :
  Boxed.Eval 1 (Boxed.mkExpr 0 [] [] [] [] []) (constCtx (VNil, None) false) tt = Panics
  /\ Flat.Eval 1 (encode (Boxed.mkExpr 0 [] [] [] [] [])) (constCtx (VNil, None) false) tt
     = Panics.
Proof.
split.
- apply (proj1 (Eval_without_nodes_panics (constCtx (VNil, None) false) tt 0)). reflexivity.
- apply (proj2 (Eval_without_nodes_panics (constCtx (VNil, None) false) tt 0)). reflexivity.
Defined.

(** ** The stacks are allocated once *)

Lemma store_length {A} (a a' : list A) (i : Z) (x : A) :
  store a i x = Some a' -> length a' = length a.
Proof. intros H. apply store_Some_range in H as [_ ->]. apply length_insert. Qed.

Lemma Boxed_push_length {A} (a a' : list A) (top top' : Z) (x : A) :
  Boxed.push a top x = Some (a', top') -> length a' = length a.
Proof.
unfold Boxed.push. destruct (store a _ x) as [a1|] eqn:E; [|discriminate].
cbn. intros [= <- _]. eapply store_length. exact E.
Qed.

Lemma Flat_push_length {A} (a a' : list A) (top top' : Z) (x : A) :
  Flat.push a top x = Some (a', top') -> length a' = length a.
Proof.
unfold Flat.push. destruct (store a _ x) as [a1|] eqn:E; [|discriminate].
cbn. intros [= <- _]. eapply store_length. exact E.
Qed.

Lemma Boxed_pushChildren_length (n : nat) :
  forall (i : Z) (sf sf' : list Z) (top c : Z),
    Boxed.pushChildren n i sf top c = Some sf' -> length sf' = length sf.
Proof.
induction n as [|n IH]; intros i sf sf' top c H.
- cbn in H. congruence.
- cbn [Boxed.pushChildren] in H.
  destruct (store sf _ _) as [sf1|] eqn:E; [|discriminate]. cbn in H.
  apply IH in H. rewrite H. eapply store_length. exact E.
Qed.

Lemma Flat_pushChildren_length (n : nat) :
  forall (i : Z) (sf sf' : list Z) (top c : Z),
    Flat.pushChildren n i sf top c = Some sf' -> length sf' = length sf.
Proof.
induction n as [|n IH]; intros i sf sf' top c H.
- cbn in H. congruence.
- cbn [Flat.pushChildren] in H.
  destruct (store sf _ _) as [sf1|] eqn:E; [|discriminate]. cbn in H.
  apply IH in H. rewrite H. eapply store_length. exact E.
Qed.

Lemma Boxed_debugStackFrame_length (sf : list Z) (sfTop offset : Z) :
  length (Boxed.debugStackFrame sf sfTop offset) = length sf.
Proof.
unfold Boxed.debugStackFrame.
rewrite length_app, length_fmap, length_take, length_drop. lia.
Qed.

Lemma Flat_debugStackFrame_length (sf : list Z) (sfTop offset : Z) :
  length (Flat.debugStackFrame sf sfTop offset) = length sf.
Proof.
unfold Flat.debugStackFrame.
rewrite length_app, length_fmap, length_take, length_drop. lia.
Qed.

Ltac split_matches H :=
  repeat match type of H with
         | context [match ?x with _ => _ end] => destruct x eqn:?
         end.

Lemma Boxed_step_lengths {W} (e : Boxed.Expr W) (ctx : Ctx W) (c c' : Boxed.config W) :
  Boxed.step e ctx c = Boxed.Next c' ->
  length (Boxed.sf (Boxed_state c')) = length (Boxed.sf (Boxed_state c))
  /\ length (Boxed.os (Boxed_state c')) = length (Boxed.os (Boxed_state c)).
Proof.
destruct c as [s|s curt res]; cbn [Boxed.step Boxed_state].
- unfold Boxed.dispatch, Boxed.orPanic. intros H.
  split_matches H; try discriminate; injection H as <-; cbn [Boxed_state Boxed.sf Boxed.os];
    repeat match goal with
           | E : Boxed.push _ _ _ = Some _ |- _ => apply Boxed_push_length in E
           | E : Boxed.pushChildren _ _ _ _ _ = Some _ |- _ =>
               apply Boxed_pushChildren_length in E
           end;
    rewrite ?Boxed_debugStackFrame_length in *;
    split; congruence.
- unfold Boxed.shortCircuit, Boxed.orPanic. intros H.
  split_matches H; try discriminate; injection H as <-; cbn [Boxed_state Boxed.sf Boxed.os];
    repeat match goal with
           | E : Boxed.push _ _ _ = Some _ |- _ => apply Boxed_push_length in E
           end;
    split; congruence.
Qed.

Lemma Flat_step_lengths {W} (e : Flat.Expr W) (ctx : Ctx W) (c c' : Flat.config W) :
  Flat.step e ctx c = Flat.Next c' ->
  length (Flat.sf (Flat_state c')) = length (Flat.sf (Flat_state c))
  /\ length (Flat.os (Flat_state c')) = length (Flat.os (Flat_state c)).
Proof.
destruct c as [s|s curt flag res]; cbn [Flat.step Flat_state].
- unfold Flat.dispatch, Flat.orPanic. intros H.
  split_matches H; try discriminate; injection H as <-; cbn [Flat_state Flat.sf Flat.os];
    repeat match goal with
           | E : Flat.push _ _ _ = Some _ |- _ => apply Flat_push_length in E
           | E : Flat.pushChildren _ _ _ _ _ = Some _ |- _ =>
               apply Flat_pushChildren_length in E
           end;
    rewrite ?Flat_debugStackFrame_length in *;
    split; congruence.
- unfold Flat.shortCircuit, Flat.orPanic. intros H.
  split_matches H; try discriminate; injection H as <-; cbn [Flat_state Flat.sf Flat.os];
    repeat match goal with
           | E : Flat.push _ _ _ = Some _ |- _ => apply Flat_push_length in E
           end;
    split; congruence.
Qed.

(** X9. [Eval] works within the two stacks it allocates on entry: in every
    state of every run, the stack frame and the operand stack have the size
    chosen from [maxStackSize] (8, 16 or [maxStackSize] slots in the
    node-record variant; 4, 8, 16 or [maxStackSize] in the flat variant).
    No turn of the loop, debug nodes included, grows or shrinks them; a
    store past the end is a panic, never a reallocation. *)
Theorem Eval_stacks_never_resized {W} (ctx : Ctx W) (w : W) (k : nat) :
  (forall (e : Boxed.Expr W) (c : Boxed.config W),
     Boxed_steps e ctx k (Boxed.AtLoop (Boxed.init e w)) = Some c ->
     Z.of_nat (length (Boxed.sf (Boxed_state c)))
     = Boxed.stackSize (Boxed.maxStackSize e)
     /\ length (Boxed.os (Boxed_state c)) = length (Boxed.sf (Boxed_state c)))
  /\ (forall (e : Flat.Expr W) (c : Flat.config W),
        Flat_steps e ctx k (Flat.AtLoop (Flat.init e w)) = Some c ->
        Z.of_nat (length (Flat.sf (Flat_state c)))
        = Flat.stackSize (Flat.maxStackSize e)
        /\ length (Flat.os (Flat_state c)) = length (Flat.sf (Flat_state c))).
Proof.
split; intros e.
- assert (Hgen : forall k c0 c,
            Boxed_steps e ctx k c0 = Some c ->
            length (Boxed.sf (Boxed_state c)) = length (Boxed.sf (Boxed_state c0))
            /\ length (Boxed.os (Boxed_state c)) = length (Boxed.os (Boxed_state c0))).
  { clear k. induction k as [|k IH]; intros c0 c H.
    - cbn in H. injection H as <-. auto.
    - cbn [Boxed_steps] in H. destruct (Boxed.step e ctx c0) as [c1| |] eqn:E; try discriminate.
      apply Boxed_step_lengths in E as [E1 E2]. apply IH in H as [H1 H2].
      split; congruence. }
  intros c H. apply Hgen in H as [H1 H2]. rewrite H1, H2.
  cbn [Boxed_state Boxed.init Boxed.sf Boxed.os]. rewrite !length_replicate.
  split; [|reflexivity]. unfold Boxed.stackSize. repeat case_decide; lia.
- assert (Hgen : forall k c0 c,
            Flat_steps e ctx k c0 = Some c ->
            length (Flat.sf (Flat_state c)) = length (Flat.sf (Flat_state c0))
            /\ length (Flat.os (Flat_state c)) = length (Flat.os (Flat_state c0))).
  { clear k. induction k as [|k IH]; intros c0 c H.
    - cbn in H. injection H as <-. auto.
    - cbn [Flat_steps] in H. destruct (Flat.step e ctx c0) as [c1| |] eqn:E; try discriminate.
      apply Flat_step_lengths in E as [E1 E2]. apply IH in H as [H1 H2].
      split; congruence. }
  intros c H. apply Hgen in H as [H1 H2]. rewrite H1, H2.
  cbn [Flat_state Flat.init Flat.sf Flat.os]. rewrite length_insert, !length_replicate.
  split; [|reflexivity]. unfold Flat.stackSize. repeat case_decide; lia.
Qed.

(** ** A constant as the whole expression *)

(** X10. An expression whose root is a constant node evaluates to that
    constant in at most three turns, without a call to the context or to an
    operator and without an error, whatever the context is; this holds
    unless the constant is a boolean on which the short-circuit flag of the
    node fires with a target other than 0. *)
Theorem Eval_constant_root {W} (ctx : Ctx W) (w : W) (fuel : nat) :
  (forall (e : Boxed.Expr W) (n : Boxed.node W),
     load (Boxed.nodes e) 0 = Some n ->
     Boxed.getNodeType n = constant ->
     (forall b, Boxed.value n = VBool b -> fires (Boxed.flag n) b = true ->
                Boxed.scIdx n = 0) ->
     Boxed.Eval (3 + fuel) e ctx w = Returns (Boxed.value n) None (mkIO w []))
  /\ (forall (e : Flat.Expr W) (b0 k : Z) (v : Value),
        load (Flat.bytecode e) 0 = Some b0 ->
        Z.land b0 nodeTypeMask = constant ->
        load (Flat.bytecode e) 2 = Some k ->
        load (Flat.constants e) k = Some v ->
        (forall b, v = VBool b -> fires (Z.land b0 scMask) b = true ->
                   load (Flat.scIdx e) 0 = Some 0) ->
        Flat.Eval (3 + fuel) e ctx w = Returns v None (mkIO w [])).
Proof.
split.
- intros e n Hn Hty Hsc. unfold Boxed.getNodeType in Hty.
  assert (Hsz : (8 <= Z.to_nat (Boxed.stackSize (Boxed.maxStackSize e)))%nat).
  { unfold Boxed.stackSize. repeat case_decide; lia. }
  destruct (Z.to_nat (Boxed.stackSize (Boxed.maxStackSize e))) as [|m] eqn:Em; [lia|].
  unfold Boxed.Eval, Boxed.init. rewrite Em.
  change (3 + fuel)%nat with (S (S (S fuel))).
  cbn [Boxed.run Boxed.step]. unfold Boxed.dispatch at 1.
  cbn [Boxed.sfTop Boxed.sf Boxed.os Boxed.maxIdx Boxed.osTop Boxed.scTriggered Boxed.io].
  rewrite decide_False by lia.
  change (load (replicate (S m) 0) 0) with (Some 0). cbn [Boxed.orPanic].
  rewrite Hn. cbn [Boxed.orPanic]. node_type Hty.
  cbn [Boxed.step]. unfold Boxed.shortCircuit at 1.
  cbn [Boxed.sfTop Boxed.sf Boxed.os Boxed.maxIdx Boxed.osTop Boxed.scTriggered Boxed.io].
  assert (Hpush : Boxed.push (replicate (S m) VNil) (-1) (Boxed.value n)
                  = Some (Boxed.value n :: replicate m VNil, 0)) by reflexivity.
  assert (Hlast : forall mx sc,
            Boxed.run e ctx (S fuel)
              (Boxed.AtLoop (Boxed.mkVM mx (replicate (S m) 0) (int16 (0 - 1))
                               (Boxed.value n :: replicate m VNil) 0 sc (mkIO w [])))
            = Returns (Boxed.value n) None (mkIO w [])).
  { intros mx sc. cbn [Boxed.run Boxed.step]. unfold Boxed.dispatch.
    cbn [Boxed.sfTop Boxed.os Boxed.io]. rewrite decide_True by reflexivity. reflexivity. }
  destruct (Boxed.value n) as [| b | | | | | | | | | | | | | | | | ] eqn:Ev;
    try (rewrite Hpush; cbn [Boxed.orPanic]; apply Hlast).
  destruct (fires (Boxed.flag n) b) eqn:Hf.
  + rewrite (Hsc b eq_refl Hf). rewrite decide_True by reflexivity. reflexivity.
  + rewrite Hpush. cbn [Boxed.orPanic]. apply Hlast.
- intros e b0 k v Hb0 Hty Hk Hv Hsc.
  assert (Hsz : (4 <= Z.to_nat (Flat.stackSize (Flat.maxStackSize e)))%nat).
  { unfold Flat.stackSize. repeat case_decide; lia. }
  destruct (Z.to_nat (Flat.stackSize (Flat.maxStackSize e))) as [|m] eqn:Em; [lia|].
  unfold Flat.Eval, Flat.init. rewrite Em.
  change (3 + fuel)%nat with (S (S (S fuel))).
  cbn [Flat.run Flat.step]. unfold Flat.dispatch at 1.
  cbn [Flat.sfTop Flat.sf Flat.os Flat.maxIdx Flat.osTop Flat.scTriggered Flat.io].
  rewrite decide_False by lia.
  change (load (<[0%nat := 0]> (replicate (S m) 0)) 0) with (Some 0). cbn [Flat.orPanic].
  change (int (0 * 4)) with 0. rewrite Hb0. cbn [Flat.orPanic]. node_type Hty.
  change (int (0 + 2)) with 2. rewrite Hk. cbn [Flat.orPanic]. rewrite Hv.
  cbn [Flat.orPanic Flat.step].
  unfold Flat.shortCircuit at 1.
  cbn [Flat.sfTop Flat.sf Flat.os Flat.maxIdx Flat.osTop Flat.scTriggered Flat.io].
  assert (Hpush : Flat.push (replicate (S m) VNil) (-1) v
                  = Some (v :: replicate m VNil, 0)) by reflexivity.
  assert (Hlast : forall mx sc,
            Flat.run e ctx (S fuel)
              (Flat.AtLoop (Flat.mkVM mx (<[0%nat := 0]> (replicate (S m) 0)) (int (0 - 1))
                              (v :: replicate m VNil) 0 sc (mkIO w [])))
            = Returns v None (mkIO w [])).
  { intros mx sc. cbn [Flat.run Flat.step]. unfold Flat.dispatch.
    cbn [Flat.sfTop Flat.os Flat.io]. rewrite decide_True by reflexivity. reflexivity. }
  destruct v as [| b | | | | | | | | | | | | | | | | ] eqn:Ev;
    try (rewrite Hpush; cbn [Flat.orPanic]; apply Hlast).
  destruct (fires (Z.land b0 scMask) b) eqn:Hf.
  + rewrite (Hsc b eq_refl Hf). cbn [Flat.orPanic].
    rewrite decide_True by reflexivity. reflexivity.
  + rewrite Hpush. cbn [Flat.orPanic]. apply Hlast.
Qed.

(** The expression [1]. *)
Lemma Eval_constant_root_witness :
  Boxed.Eval 3 (@exprOne unit) (constCtx (VNil, None) false) tt
  = Returns (VInt64 1) None (mkIO tt [])
  /\ Flat.Eval 3 (encode (@exprOne unit)) (constCtx (VNil, None) false) tt
     = Returns (VInt64 1) None (mkIO tt []).
Proof.
split.
- apply (proj1 (Eval_constant_root (constCtx (VNil, None) false) tt 0) exprOne
           (Boxed.mkNode constant 0 0 0 0 (VInt64 1) None)).
  + reflexivity.
  + reflexivity.
  + intros b Hb. discriminate Hb.
- apply (proj2 (Eval_constant_root (constCtx (VNil, None) false) tt 0) (encode exprOne)
           1 0 (VInt64 1)).
  + reflexivity.
  + reflexivity.
  + reflexivity.
  + reflexivity.
  + intros b Hb. discriminate Hb.
Defined.

(** ** The operands of an operator *)

Lemma take_drop_two {A} (os : list A) (n : nat) (a b : A) :
  os !! n = Some a -> os !! S n = Some b -> take 2 (drop n os) = [a; b].
Proof.
intros Ha Hb.
rewrite (drop_S os a n Ha). cbn [take]. rewrite (drop_S os b (S n) Hb). reflexivity.
Qed.

Lemma Boxed_copyParams_eq (cnt : Z) (os : list Value) (osTop : Z) :
  0 <= cnt -> in_signed 16 (osTop + 1) ->
  0 <= osTop + 1 <= Z.of_nat (length os) ->
  Boxed.copyParams cnt os osTop
  = Some (take (Z.to_nat cnt) (drop (Z.to_nat (osTop + 1)) os)
          ++ replicate (Z.to_nat cnt
                        - length (take (Z.to_nat cnt) (drop (Z.to_nat (osTop + 1)) os)))
               VNil).
Proof.
intros Hcnt Hr Hlow. unfold Boxed.copyParams, make.
rewrite decide_True by exact Hcnt. cbn [mbind option_bind].
rewrite (int16_small _ Hr). rewrite decide_True by exact Hlow.
rewrite drop_replicate. reflexivity.
Qed.

Lemma Flat_copyParams_eq (cnt : Z) (os : list Value) (osTop : Z) :
  0 <= cnt -> in_signed 64 (osTop + 1) ->
  0 <= osTop + 1 <= Z.of_nat (length os) ->
  Flat.copyParams cnt os osTop
  = Some (take (Z.to_nat cnt) (drop (Z.to_nat (osTop + 1)) os)
          ++ replicate (Z.to_nat cnt
                        - length (take (Z.to_nat cnt) (drop (Z.to_nat (osTop + 1)) os)))
               VNil).
Proof.
intros Hcnt Hr Hlow. unfold Flat.copyParams, make.
rewrite decide_True by exact Hcnt. cbn [mbind option_bind].
rewrite (int_small _ Hr). rewrite decide_True by exact Hlow.
rewrite drop_replicate. reflexivity.
Qed.

(** X11. The operands handed to an operator on its second visit, in both
    variants.  With [osTop] already lowered by [cnt]: when the operand
    stack holds [cnt] values above [osTop], the operator receives exactly
    these, in stack order, whether [cnt] is 2 (the unrolled code) or not
    (the [copy]).  When the array ends before that, the two codes differ:
    the [copy] hands over what there is and leaves the missing operands
    nil, the unrolled code for two operands panics. *)
Theorem operatorParams_operands (cnt : Z) (os : list Value) (osTop : Z)
    (Hcnt : 0 <= cnt) (Hr : in_signed 16 (osTop + 2)) (Hlow : 0 <= osTop + 1) :
  let above := drop (Z.to_nat (osTop + 1)) os in
  (osTop + cnt < Z.of_nat (length os) ->
   Boxed.operatorParams cnt os osTop = Some (take (Z.to_nat cnt) above)
   /\ Flat.operatorParams cnt os osTop = Some (take (Z.to_nat cnt) above))
  /\ (cnt <> 2 -> osTop + 1 <= Z.of_nat (length os) ->
      let got := take (Z.to_nat cnt) above in
      Boxed.operatorParams cnt os osTop
      = Some (got ++ replicate (Z.to_nat cnt - length got) VNil)
      /\ Flat.operatorParams cnt os osTop
         = Some (got ++ replicate (Z.to_nat cnt - length got) VNil))
  /\ (cnt = 2 -> Z.of_nat (length os) <= osTop + 2 ->
      Boxed.operatorParams cnt os osTop = None
      /\ Flat.operatorParams cnt os osTop = None).
Proof.
cbv zeta.
assert (Hr1 : in_signed 16 (osTop + 1)).
{ unfold in_signed in *. change (2 ^ (16 - 1)) with 32768 in *. lia. }
assert (Hr64 : in_signed 64 (osTop + 1) /\ in_signed 64 (osTop + 2)).
{ unfold in_signed in *. change (2 ^ (16 - 1)) with 32768 in *.
  change (2 ^ (64 - 1)) with 9223372036854775808. lia. }
destruct Hr64 as [Hr64 Hr64'].
split; [|split].
- intros Hen.
  assert (Hfull : length (take (Z.to_nat cnt) (drop (Z.to_nat (osTop + 1)) os))
                  = Z.to_nat cnt).
  { rewrite length_take, length_drop. lia. }
  destruct (decide (cnt = 2)) as [->|Hne].
  + unfold Boxed.operatorParams, Flat.operatorParams. rewrite !decide_True by reflexivity.
    rewrite (int16_small _ Hr1), (int16_small _ Hr), (int_small _ Hr64), (int_small _ Hr64').
    destruct (lookup_lt_is_Some_2 os (Z.to_nat (osTop + 1)) ltac:(lia)) as [a Ha].
    destruct (lookup_lt_is_Some_2 os (S (Z.to_nat (osTop + 1))) ltac:(lia)) as [b Hb].
    assert (Hla : load os (osTop + 1) = Some a).
    { unfold load. rewrite decide_True by lia. exact Ha. }
    assert (Hlb : load os (osTop + 2) = Some b).
    { unfold load. rewrite decide_True by lia.
      replace (Z.to_nat (osTop + 2)) with (S (Z.to_nat (osTop + 1))) by lia. exact Hb. }
    rewrite Hla, Hlb. cbn [mbind option_bind].
    change (Z.to_nat 2) with 2%nat. rewrite (take_drop_two os _ a b Ha Hb). auto.
  + unfold Boxed.operatorParams, Flat.operatorParams. rewrite !decide_False by exact Hne.
    rewrite Boxed_copyParams_eq, Flat_copyParams_eq by (assumption || lia).
    rewrite Hfull, Nat.sub_diag. cbn [replicate]. rewrite app_nil_r. auto.
- intros Hne Hlen. unfold Boxed.operatorParams, Flat.operatorParams.
  rewrite !decide_False by exact Hne.
  rewrite Boxed_copyParams_eq, Flat_copyParams_eq by (assumption || lia). auto.
- intros -> Hshort. unfold Boxed.operatorParams, Flat.operatorParams.
  rewrite !decide_True by reflexivity.
  rewrite (int16_small _ Hr1), (int16_small _ Hr), (int_small _ Hr64), (int_small _ Hr64').
  assert (Hlb : load os (osTop + 2) = None).
  { unfold load. rewrite decide_True by lia. apply lookup_ge_None. lia. }
  rewrite Hlb. destruct (load os (osTop + 1)); auto.
Qed.

(** Two operands on a stack of three slots, and a stack that ends after
    the first of them. *)
Lemma operatorParams_operands_witness :
  (Boxed.operatorParams 2 [VInt64 1; VInt64 2; VNil] (-1) = Some [VInt64 1; VInt64 2]
   /\ Flat.operatorParams 2 [VInt64 1; VInt64 2; VNil] (-1) = Some [VInt64 1; VInt64 2])
  /\ (Boxed.operatorParams 2 [VInt64 1] (-1) = None
      /\ Flat.operatorParams 2 [VInt64 1] (-1) = None)
  /\ (Boxed.operatorParams 3 [VInt64 1] (-1) = Some [VInt64 1; VNil; VNil]
      /\ Flat.operatorParams 3 [VInt64 1] (-1) = Some [VInt64 1; VNil; VNil]).
Proof.
assert (H2 : in_signed 16 (-1 + 2)) by (unfold in_signed; simpl; lia).
split; [|split].
- apply (proj1 (operatorParams_operands 2 [VInt64 1; VInt64 2; VNil] (-1)
                  ltac:(lia) H2 ltac:(lia))).
  cbn. lia.
- apply (proj2 (proj2 (operatorParams_operands 2 [VInt64 1] (-1)
                         ltac:(lia) H2 ltac:(lia)))); [reflexivity|cbn; lia].
- apply (proj1 (proj2 (operatorParams_operands 3 [VInt64 1] (-1)
                         ltac:(lia) H2 ltac:(lia)))); [lia|cbn; lia].
Defined.

(** * Laziness of the stack discipline

    On a node table that lays out a tree, the live stack frame is always a
    path of open ancestors; from there, which nodes can still be dispatched
    only shrinks, and a short-circuit hop or the choice of a branch removes
    whole subtrees from it. *)

Lemma seqZ_split (m n : Z) (done pend : list Z) (x : Z) :
  seqZ m n = done ++ x :: pend ->
  x = m + Z.of_nat (length done)
  /\ Z.of_nat (length done) + 1 + Z.of_nat (length pend) = n
  /\ pend = seqZ (x + 1) (Z.of_nat (length pend)).
Proof.
  intros H.
  assert (Hlen : length (seqZ m n) = (length done + S (length pend))%nat).
  { rewrite H, length_app. reflexivity. }
  rewrite length_seqZ in Hlen.
  assert (Hx : seqZ m n !! length done = Some x).
  { rewrite H. rewrite lookup_app_r by lia. rewrite Nat.sub_diag. reflexivity. }
  apply lookup_seqZ in Hx as [Hx Hlt].
  split; [exact Hx|]. split; [lia|].
  apply list_eq. intros k.
  destruct (decide (k < length pend)%nat) as [Hk|Hk].
  - assert (Hp : seqZ m n !! (length done + S k)%nat = pend !! k).
    { rewrite H. rewrite lookup_app_r by lia.
      replace (length done + S k - length done)%nat with (S k) by lia. reflexivity. }
    destruct (pend !! k) as [p|] eqn:Ep.
    + apply lookup_seqZ in Hp as [Hp _]. symmetry. apply lookup_seqZ. lia.
    + apply lookup_ge_None in Ep. lia.
  - rewrite (proj2 (lookup_ge_None pend k)) by lia.
    symmetry. apply lookup_ge_None. rewrite length_seqZ. lia.
Qed.

Lemma seqZ_cons' (m n : Z) : 0 < n -> seqZ m n = m :: seqZ (m + 1) (n - 1).
Proof.
  intros H. rewrite (seqZ_cons m n) by lia. reflexivity.
Qed.

Lemma load_inj {A} (a : list A) (i : Z) (x y : A) :
  load a i = Some x -> load a i = Some y -> x = y.
Proof. congruence. Qed.

Lemma lowest_app (d : Z) (l s : list Z) :
  Z.of_nat (length s) = d -> lowest d (l ++ s) = s.
Proof.
  intros H. unfold lowest. rewrite length_app.
  replace (length l + length s - Z.to_nat d)%nat with (length l) by lia.
  apply drop_app_length.
Qed.

Lemma stack_of_app (P : list anode) (a b : list frame) :
  stack_of P (a ++ b) = stack_of P a ++ stack_of P b.
Proof.
  induction a as [|[o pend|c|c] a IH]; cbn [stack_of app]; [reflexivity|..];
    rewrite IH; [rewrite <- app_assoc|..]; reflexivity.
Qed.

Section Tree.
Variable P : list anode.
Hypothesis HP : tree_shaped P.

Lemma parent_lt (i : Z) (n : anode) : load P i = Some n -> aparent n < i.
Proof. intros H. apply (ts_node P HP) in H. apply H. Qed.

Lemma anc_lt (t j : Z) : anc P t j -> t < j.
Proof.
  induction 1 as [i n H|t i n H _ IH].
  - apply parent_lt in H. lia.
  - apply parent_lt in H. lia.
Qed.

Lemma sub_le (t j : Z) : sub P t j -> t <= j.
Proof. intros [->|H]; [lia|]. apply anc_lt in H. lia. Qed.

Lemma sub_refl (t : Z) : sub P t t.
Proof. left. reflexivity. Qed.

Lemma sub_child (t j : Z) (n : anode) :
  load P j = Some n -> sub P t (aparent n) -> sub P t j.
Proof.
  intros H [Ht|Ht]; right.
  - rewrite <- Ht. apply anc_parent. exact H.
  - eapply anc_up; eassumption.
Qed.

Lemma anc_inv (t j : Z) :
  anc P t j -> exists n, load P j = Some n /\ sub P t (aparent n).
Proof.
  intros H. destruct H as [i n H|t i n H Hup].
  - exists n. split; [exact H|apply sub_refl].
  - exists n. split; [exact H|right; exact Hup].
Qed.

Lemma sub_trans (a b j : Z) : sub P a b -> sub P b j -> sub P a j.
Proof.
  intros Hab [->|Hbj]; [exact Hab|].
  induction Hbj as [i n H|t i n H _ IH].
  - eapply sub_child; eassumption.
  - eapply sub_child; [eassumption|]. apply IH. exact Hab.
Qed.

Lemma anc_chain (a b j : Z) : sub P a j -> sub P b j -> sub P a b \/ sub P b a.
Proof.
  intros [->|Ha]; [intros Hb; right; exact Hb|].
  revert b. induction Ha as [i n H|t i n H Hup IH]; intros b [->|Hb].
  - left. right. apply anc_parent. exact H.
  - apply anc_inv in Hb as (n' & H' & Hb).
    rewrite (load_inj _ _ _ _ H H'). right. exact Hb.
  - left. right. eapply anc_up; eassumption.
  - apply anc_inv in Hb as (n' & H' & Hb).
    rewrite <- (load_inj _ _ _ _ H H') in Hb. apply IH. exact Hb.
Qed.

(** Two children of one node have disjoint subtrees. *)
Lemma sib_disjoint (x p o j : Z) (nx np : anode) :
  load P x = Some nx -> aparent nx = o ->
  load P p = Some np -> aparent np = o ->
  x <> p -> sub P x j -> sub P p j -> False.
Proof.
  intros Hx Hxo Hp Hpo Hne Hxj Hpj.
  pose proof (parent_lt _ _ Hx) as Hlx. pose proof (parent_lt _ _ Hp) as Hlp.
  destruct (anc_chain _ _ _ Hxj Hpj) as [[E|H]|[E|H]]; try congruence.
  - apply anc_inv in H as (n' & H' & H).
    rewrite <- (load_inj _ _ _ _ Hp H') in H. apply sub_le in H. lia.
  - apply anc_inv in H as (n' & H' & H).
    rewrite <- (load_inj _ _ _ _ Hx H') in H. apply sub_le in H. lia.
Qed.

Lemma akind_at_Some (x : Z) (k : akind) :
  akind_at P x = Some k -> exists n, load P x = Some n /\ akind_of n = k.
Proof.
  unfold akind_at. destruct (load P x) as [n|]; [|discriminate].
  cbn. intros [= <-]. eauto.
Qed.

Lemma akind_at_load (x : Z) (n : anode) :
  load P x = Some n -> akind_at P x = Some (akind_of n).
Proof. unfold akind_at. intros ->. reflexivity. Qed.

Lemma op_child (o : Z) (n : anode) (k : Z) :
  load P o = Some n -> akind_of n = KOp -> 0 <= k < acnt n ->
  child_shaped P o (afirst n + k) (adepth n + acnt n - k).
Proof.
  intros H Hk Hr. apply (ts_node P HP) in H as (_ & _ & H).
  rewrite Hk in H. apply H. exact Hr.
Qed.

Lemma cond_children (c : Z) (n : anode) :
  load P c = Some n -> akind_of n = KCond ->
  3 <= acnt n <= 127
  /\ child_shaped P c (afirst n) (adepth n + 2)
  /\ child_shaped P c (afirst n + 1) (adepth n + 1)
  /\ child_shaped P c (afirst n + 2) (adepth n + 1)
  /\ exists ne, load P (afirst n + acnt n - 1) = Some ne
                /\ akind_of ne = KEnd /\ aparent ne = c
                /\ c < afirst n + acnt n - 1.
Proof.
  intros H Hk. apply (ts_node P HP) in H as (_ & _ & H).
  rewrite Hk in H. exact H.
Qed.

Lemma aend_eq (c : Z) (n : anode) :
  load P c = Some n -> aend P c = afirst n + acnt n - 1.
Proof. unfold aend. intros ->. reflexivity. Qed.

(** The innermost frame of a path belongs to the parent. *)
Lemma wf_path_parent (x : Z) (f : frame) (rest : list frame) :
  wf_path P x (f :: rest) ->
  exists nx, load P x = Some nx /\ aparent nx = owner f /\ owner f < x
             /\ wf_path P (owner f) rest
             /\ (akind_at P (owner f) = Some KOp \/ akind_at P (owner f) = Some KCond).
Proof.
  intros H. inversion H as [|x' o n done pend rest' Ho Hk Hseq Hw
                            |x' c n rest' Hc Hk Hx Hw|x' c n rest' Hc Hk Hx Hw]; subst.
  - apply seqZ_split in Hseq as (Hx & Hlen & _).
    destruct (op_child o n (Z.of_nat (length done)) Ho Hk ltac:(lia))
      as (nc & Hl & Hlt & Hp & _).
    rewrite <- Hx in Hl, Hlt. exists nc. cbn [owner]. split_and!; try assumption.
    left. rewrite (akind_at_load _ _ Ho), Hk. reflexivity.
  - destruct (cond_children c n Hc Hk) as (_ & (nc & Hl & Hlt & Hp & _) & _).
    exists nc. cbn [owner]. split_and!; try assumption.
    right. rewrite (akind_at_load _ _ Hc), Hk. reflexivity.
  - destruct (cond_children c n Hc Hk) as (_ & _ & (n1 & Hl1 & Hlt1 & Hp1 & _)
                                           & (n2 & Hl2 & Hlt2 & Hp2 & _) & _).
    destruct Hx as [-> | ->]; [exists n1|exists n2]; cbn [owner];
      (split_and!; try assumption;
       right; rewrite (akind_at_load _ _ Hc), Hk; reflexivity).
Qed.

Lemma owner_le_lt (x : Z) (path : list frame) :
  wf_path P x path -> owner_le path x.
Proof.
  destruct path as [|f rest]; [constructor|].
  intros H. apply wf_path_parent in H as (nx & _ & _ & Hlt & _). cbn. lia.
Qed.

(** The depth table gives the height of the stack frame under a node. *)
Lemma wf_path_depth (x : Z) (path : list frame) :
  wf_path P x path ->
  akind_at P x = Some KOp \/ akind_at P x = Some KCond ->
  exists nx, load P x = Some nx
             /\ Z.of_nat (length (stack_of P path)) = adepth nx - 1.
Proof.
  induction 1 as [|x o n done pend rest Ho Hk Hseq Hw IH
                  |x c n rest Hc Hk Hx Hw IH|x c n rest Hc Hk Hx Hw IH]; intros Hkx.
  - destruct Hkx as [Hkx|Hkx]; apply akind_at_Some in Hkx as (n & Hl & _);
      exists n; (split; [exact Hl|]); rewrite (ts_root P HP n Hl); reflexivity.
  - destruct IH as (n' & Hl' & Hlen).
    { left. rewrite (akind_at_load _ _ Ho), Hk. reflexivity. }
    rewrite <- (load_inj _ _ _ _ Ho Hl') in Hlen.
    apply seqZ_split in Hseq as (Hx & Hcnt & _).
    destruct (op_child o n (Z.of_nat (length done)) Ho Hk ltac:(lia))
      as (nc & Hl & _ & _ & Hd).
    rewrite <- Hx in Hl. exists nc. split; [exact Hl|].
    rewrite Hd.
    + cbn [stack_of]. rewrite length_app. cbn [length]. lia.
    + destruct Hkx as [Hkx|Hkx]; apply akind_at_Some in Hkx as (n'' & Hl'' & Hk'');
        rewrite (load_inj _ _ _ _ Hl Hl''); auto.
  - destruct IH as (n' & Hl' & Hlen).
    { right. rewrite (akind_at_load _ _ Hc), Hk. reflexivity. }
    rewrite <- (load_inj _ _ _ _ Hc Hl') in Hlen.
    destruct (cond_children c n Hc Hk) as (_ & (nc & Hl & _ & _ & Hd) & _).
    subst x. exists nc. split; [exact Hl|].
    rewrite Hd.
    + cbn [stack_of length]. lia.
    + destruct Hkx as [Hkx|Hkx]; apply akind_at_Some in Hkx as (n'' & Hl'' & Hk'');
        rewrite (load_inj _ _ _ _ Hl Hl''); auto.
  - destruct IH as (n' & Hl' & Hlen).
    { right. rewrite (akind_at_load _ _ Hc), Hk. reflexivity. }
    rewrite <- (load_inj _ _ _ _ Hc Hl') in Hlen.
    destruct (cond_children c n Hc Hk) as (_ & _ & (n1 & Hl1 & _ & _ & Hd1)
                                           & (n2 & Hl2 & _ & _ & Hd2) & _).
    destruct Hx as [-> | ->]; [exists n1|exists n2]; (split; [assumption|]).
    + rewrite Hd1; [cbn [stack_of length]; lia|].
      destruct Hkx as [Hkx|Hkx]; apply akind_at_Some in Hkx as (n'' & Hl'' & Hk'');
        rewrite (load_inj _ _ _ _ Hl1 Hl''); auto.
    + rewrite Hd2; [cbn [stack_of length]; lia|].
      destruct Hkx as [Hkx|Hkx]; apply akind_at_Some in Hkx as (n'' & Hl'' & Hk'');
        rewrite (load_inj _ _ _ _ Hl2 Hl''); auto.
Qed.

(** A proper ancestor owns a frame of the path. *)
Lemma anc_in_path (x : Z) (path : list frame) (t : Z) :
  wf_path P x path -> anc P t x -> 0 <= t ->
  exists pre rest, path = pre ++ rest /\ wf_path P t rest
                   /\ (akind_at P t = Some KOp \/ akind_at P t = Some KCond)
                   /\ pre <> [].
Proof.
  intros Hw. revert t.
  assert (Hgen : forall path x, wf_path P x path -> forall t, anc P t x -> 0 <= t ->
            exists pre rest, path = pre ++ rest /\ wf_path P t rest
              /\ (akind_at P t = Some KOp \/ akind_at P t = Some KCond)
              /\ pre <> []).
  { clear x path Hw. induction path as [|f rest IH]; intros x Hw t Ht H0.
    - inversion Hw; subst. apply anc_lt in Ht. lia.
    - apply wf_path_parent in Hw as (nx & Hl & Hp & Hlt & Hw & Hk).
      apply anc_inv in Ht as (n' & Hl' & Ht).
      rewrite <- (load_inj _ _ _ _ Hl Hl'), Hp in Ht.
      destruct Ht as [Ht|Ht].
      + exists [f], rest. subst t. split_and!; auto.
      + destruct (IH _ Hw t Ht H0) as (pre & rest' & -> & Hw' & Hk' & _).
        exists (f :: pre), rest'. split_and!; auto. }
  intros t. apply Hgen. exact Hw.
Qed.

Lemma rpath_app_r (pre rest : list frame) (j : Z) :
  rpath P rest j -> rpath P (pre ++ rest) j.
Proof. intros (f & Hf & H). exists f. split; [|exact H]. apply elem_of_app. auto. Qed.

Lemma rpath_cons (f : frame) (rest : list frame) (j : Z) :
  rpath P (f :: rest) j <-> rframe P f j \/ rpath P rest j.
Proof.
  split.
  - intros (g & Hg & H). apply elem_of_cons in Hg as [->|Hg]; [auto|].
    right. exists g. auto.
  - intros [H|(g & Hg & H)].
    + exists f. split; [apply elem_of_cons; auto|exact H].
    + exists g. split; [apply elem_of_cons; auto|exact H].
Qed.

(** Nothing pending in the path of a node lies in that node's subtree. *)
Lemma rpath_not_sub (x : Z) (path : list frame) (j : Z) :
  wf_path P x path -> akind_at P x <> Some KEnd ->
  rpath P path j -> ~ sub P x j.
Proof.
  intros Hw. revert j.
  induction Hw as [|x o n done pend rest Ho Hk Hseq Hw IH
                   |x c n rest Hc Hk Hx Hw IH|x c n rest Hc Hk Hx Hw IH];
    intros j Hkx Hr Hs.
  - destruct Hr as (f & Hf & _). inversion Hf.
  - pose proof (seqZ_split _ _ _ _ _ Hseq) as (Hx & Hcnt & Hpend).
    destruct (op_child o n (Z.of_nat (length done)) Ho Hk ltac:(lia))
      as (nx & Hlx & Hlt & Hpx & _).
    rewrite <- Hx in Hlx, Hlt.
    apply rpath_cons in Hr as [[->|(p & Hp & Hpj)]|Hr].
    + apply sub_le in Hs. lia.
    + rewrite Hpend in Hp. apply elem_of_seqZ in Hp.
      destruct (op_child o n (p - afirst n) Ho Hk ltac:(lia))
        as (np & Hlp & _ & Hpp & _).
      replace (afirst n + (p - afirst n)) with p in Hlp by lia.
      eapply (sib_disjoint x p o j); try eassumption. lia.
    + eapply IH; [|exact Hr|].
      * rewrite (akind_at_load _ _ Ho), Hk. discriminate.
      * eapply sub_trans; [|exact Hs]. right. rewrite <- Hpx.
        apply anc_parent. exact Hlx.
  - destruct (cond_children c n Hc Hk)
      as (Hcnt & (n0 & Hl0 & Hlt0 & Hp0 & _) & (n1 & Hl1 & _ & Hp1 & _)
          & (n2 & Hl2 & _ & Hp2 & _) & (ne & Hle & Hke & Hpe & _)).
    subst x.
    apply rpath_cons in Hr as [[->|[->|(n' & Hl' & Hb)]]|Hr].
    + apply sub_le in Hs. lia.
    + rewrite (aend_eq _ _ Hc) in Hs.
      eapply (sib_disjoint (afirst n) (afirst n + acnt n - 1) c); try eassumption.
      * lia.
      * apply sub_refl.
    + rewrite <- (load_inj _ _ _ _ Hc Hl') in Hb. destruct Hb as [Hb|Hb].
      * eapply (sib_disjoint (afirst n) (afirst n + 1) c); try eassumption. lia.
      * eapply (sib_disjoint (afirst n) (afirst n + 2) c); try eassumption. lia.
    + eapply IH; [|exact Hr|].
      * rewrite (akind_at_load _ _ Hc), Hk. discriminate.
      * eapply sub_trans; [|exact Hs]. right. rewrite <- Hp0.
        apply anc_parent. exact Hl0.
  - destruct (cond_children c n Hc Hk)
      as (Hcnt & _ & (n1 & Hl1 & _ & Hp1 & _)
          & (n2 & Hl2 & _ & Hp2 & _) & (ne & Hle & Hke & Hpe & _)).
    assert (Hx' : exists nx, load P x = Some nx /\ aparent nx = c).
    { destruct Hx as [-> | ->]; eauto. }
    destruct Hx' as (nx & Hlx & Hpx).
    apply rpath_cons in Hr as [->|Hr].
    + rewrite (aend_eq _ _ Hc) in Hs.
      destruct (decide (x = afirst n + acnt n - 1)) as [E|E].
      * apply Hkx. rewrite E, (akind_at_load _ _ Hle), Hke. reflexivity.
      * eapply (sib_disjoint x (afirst n + acnt n - 1) c); try eassumption.
        apply sub_refl.
    + eapply IH; [|exact Hr|].
      * rewrite (akind_at_load _ _ Hc), Hk. discriminate.
      * eapply sub_trans; [|exact Hs]. right. rewrite <- Hpx.
        apply anc_parent. exact Hlx.
Qed.
(** The fuel of [work] is enough for every node. *)
Lemma work_fuel_stable (f : nat) :
  forall (f' : nat) (x : Z),
    0 <= x -> Z.of_nat (length P) - x <= Z.of_nat f ->
    Z.of_nat (length P) - x <= Z.of_nat f' ->
    work_fuel f P x = work_fuel f' P x.
Proof.
  induction f as [|f IH]; intros f' x Hx Hf Hf'.
  - assert (Hnone : load P x = None).
    { unfold load. rewrite decide_True by exact Hx. apply lookup_ge_None. lia. }
    destruct f'; cbn [work_fuel]; [reflexivity|]. rewrite Hnone. reflexivity.
  - destruct f' as [|f'].
    + assert (Hnone : load P x = None).
      { unfold load. rewrite decide_True by exact Hx. apply lookup_ge_None. lia. }
      cbn [work_fuel]. rewrite Hnone. reflexivity.
    + cbn [work_fuel]. destruct (load P x) as [n|] eqn:Hn; [|reflexivity].
      destruct (akind_of n) eqn:Hk; try reflexivity.
      * f_equal. f_equal. apply Forall_fmap_ext_1. apply Forall_forall.
        intros c Hc. apply elem_of_seqZ in Hc.
        destruct (op_child x n (c - afirst n) Hn Hk ltac:(lia)) as (nc & Hl & Hlt & _).
        replace (afirst n + (c - afirst n)) with c in Hlt by lia.
        apply IH; lia.
      * destruct (cond_children x n Hn Hk)
          as (_ & (n0 & _ & Hlt0 & _) & (n1 & _ & Hlt1 & _) & (n2 & _ & Hlt2 & _) & _).
        rewrite (IH f' (afirst n)), (IH f' (afirst n + 1)), (IH f' (afirst n + 2)) by lia.
        reflexivity.
Qed.

Lemma work_child (x c : Z) (f : nat) :
  0 <= x -> x < c -> length P = S f -> work_fuel f P c = work P c.
Proof.
  intros Hx Hc Hlen. unfold work. apply work_fuel_stable; lia.
Qed.

Lemma work_op (x : Z) (n : anode) :
  load P x = Some n -> akind_of n = KOp ->
  work P x = (3 + sum_list (work P <$> seqZ (afirst n) (acnt n)))%nat.
Proof.
  intros Hn Hk. pose proof (load_Some_range _ _ _ Hn) as Hr.
  unfold work at 1. destruct (length P) as [|f] eqn:Hlen; [lia|].
  cbn [work_fuel]. rewrite Hn, Hk. f_equal. f_equal.
  apply Forall_fmap_ext_1. apply Forall_forall.
  intros c Hc. apply elem_of_seqZ in Hc.
  destruct (op_child x n (c - afirst n) Hn Hk ltac:(lia)) as (nc & Hl & Hlt & _).
  replace (afirst n + (c - afirst n)) with c in Hlt by lia.
  apply (work_child x); [lia|lia|exact Hlen].
Qed.

Lemma work_cond (x : Z) (n : anode) :
  load P x = Some n -> akind_of n = KCond ->
  work P x = (5 + work P (afirst n) + work P (afirst n + 1) + work P (afirst n + 2))%nat.
Proof.
  intros Hn Hk. pose proof (load_Some_range _ _ _ Hn) as Hr.
  destruct (cond_children x n Hn Hk)
    as (_ & (n0 & _ & Hlt0 & _) & (n1 & _ & Hlt1 & _) & (n2 & _ & Hlt2 & _) & _).
  unfold work at 1. destruct (length P) as [|f] eqn:Hlen; [lia|].
  cbn [work_fuel]. rewrite Hn, Hk.
  rewrite !(work_child x) by (lia || exact Hlen). reflexivity.
Qed.

Lemma work_ge_2 (x : Z) : (2 <= work P x)%nat.
Proof.
  unfold work. destruct (length P) as [|f]; cbn [work_fuel]; [lia|].
  destruct (load P x) as [n|]; [|lia]. destruct (akind_of n); lia.
Qed.

Lemma fwork_ge_2 (f : frame) : (2 <= fwork P f)%nat.
Proof.
  destruct f as [o pend|c|c]; cbn [fwork]; try lia.
  destruct (load P c); lia.
Qed.

Lemma sum_cons (a : nat) (l : list nat) : sum_list (a :: l) = (a + sum_list l)%nat.
Proof. reflexivity. Qed.

Lemma sum_nil : sum_list [] = 0%nat.
Proof. reflexivity. Qed.

Lemma pwork_cons (f : frame) (a : list frame) :
  pwork P (f :: a) = (fwork P f + pwork P a)%nat.
Proof. reflexivity. Qed.

Lemma pwork_app (a b : list frame) : pwork P (a ++ b) = (pwork P a + pwork P b)%nat.
Proof.
  induction a as [|f a IH]; [reflexivity|].
  cbn [app]. rewrite !pwork_cons, IH. lia.
Qed.

Lemma pwork_ne (a : list frame) : a <> [] -> (2 <= pwork P a)%nat.
Proof.
  destruct a as [|f a]; [congruence|]. intros _. rewrite pwork_cons.
  pose proof (fwork_ge_2 f). lia.
Qed.
End Tree.

Section Steps.
Variable P : list anode.
Hypothesis HP : tree_shaped P.

(** A hop lands on an open ancestor: the stack frame is cut back to the
    frames under that ancestor, and nothing in the ancestor's subtree is
    pending any more. *)
Lemma good_hop (i x : Z) (path : list frame) (m : Z) (n nt : anode) :
  good P (SAfter i x path) m ->
  load P i = Some n -> atarget n <> 0 -> load P (atarget n) = Some nt ->
  exists rest,
    good P (SAfter (atarget n) (atarget n) rest) (atarget n)
    /\ lowest (adepth nt - 1) (stack_of P path) = stack_of P rest
    /\ 1 <= adepth nt <= Z.of_nat (length (stack_of P path)) + 1
    /\ (forall j, rpath P rest j -> rpath P path j)
    /\ (forall j, rpath P rest j -> ~ sub P (atarget n) j)
    /\ (cwork P (SAfter (atarget n) (atarget n) rest) < cwork P (SAfter i x path))%nat.
Proof.
  intros (Hw & Hol & Hm & Hi) Hn Ht Hnt.
  destruct (ts_node P HP i n Hn) as (_ & [Ht0|[Hpos Hanc]] & _); [contradiction|].
  assert (Hsub : exists pre rest, path = pre ++ rest /\ wf_path P (atarget n) rest
            /\ (akind_at P (atarget n) = Some KOp \/ akind_at P (atarget n) = Some KCond)
            /\ (i = x -> pre <> [])).
  { destruct Hi as [->|[Hk ->]].
    - destruct (anc_in_path P HP x path _ Hw Hanc ltac:(lia))
        as (pre & rest & Hp & Hw' & Hk' & Hne).
      exists pre, rest. auto.
    - pose proof Hk as Hk'. apply (akind_at_Some P) in Hk' as (nx & Hlx & Hkx).
      destruct (cond_children P HP x nx Hlx Hkx)
        as (_ & _ & _ & _ & ne & Hle & _ & Hpe & Hlte).
      rewrite (aend_eq P x nx Hlx) in Hanc |- *.
      apply anc_inv in Hanc as (n' & Hl' & Hanc).
      rewrite <- (load_inj _ _ _ _ Hle Hl'), Hpe in Hanc.
      destruct Hanc as [E|Hanc].
      + exists [], path. rewrite <- E. split_and!; auto. lia.
      + destruct (anc_in_path P HP x path _ Hw Hanc ltac:(lia))
          as (pre & rest & Hp & Hw' & Hk' & Hne).
        exists pre, rest. auto. }
  destruct Hsub as (pre & rest & -> & Hw' & Hk' & Hne).
  destruct (wf_path_depth P HP _ _ Hw' Hk') as (nt' & Hl' & Hlen).
  rewrite <- (load_inj _ _ _ _ Hnt Hl') in Hlen.
  exists rest. split_and!.
  - cbn. split_and!; [exact Hw'|apply (owner_le_lt P HP); exact Hw'|lia|left; reflexivity].
  - rewrite stack_of_app. apply lowest_app. lia.
  - lia.
  - rewrite stack_of_app, length_app. lia.
  - intros j. apply rpath_app_r.
  - intros j Hr. apply (rpath_not_sub P HP _ rest j Hw'); [|exact Hr].
    destruct Hk' as [-> | ->]; discriminate.
  - cbn [cwork]. rewrite (pwork_app P), decide_True by reflexivity.
    destruct (decide (i = x)) as [E|E]; [|lia].
    pose proof (pwork_ne P pre (Hne E)). lia.
Qed.

Lemma good_hop_ok (sc : sconfig) (m : Z) : good P sc m -> hop_ok P (erase P sc m).
Proof.
  destruct sc; try exact (fun _ => I).
  intros Hg n nt Hn Ht Hnt. cbn.
  destruct (good_hop _ _ _ _ _ _ Hg Hn Ht Hnt) as (rest & _ & _ & H1 & H2 & _). lia.
Qed.

Ltac work_simpl :=
  cbn [cwork]; rewrite ?(pwork_cons P); cbn [fwork];
  rewrite ?fmap_cons, ?fmap_nil, ?sum_cons, ?sum_nil.

Ltac kind_clash :=
  match goal with
  | H1 : load P ?x = Some ?n, H2 : load P ?x = Some ?n' |- _ =>
      rewrite (load_inj _ _ _ _ H1 H2) in *; congruence
  end.

(** Every step of the list machine from a path leads to a path, and
    never widens what may still be dispatched. *)
Lemma good_step (sc : sconfig) (m : Z) (ac' : aconfig) :
  good P sc m -> astep P (erase P sc m) ac' ->
  exists sc' m', ac' = erase P sc' m' /\ good P sc' m'
                 /\ (forall j, reach P sc' j -> reach P sc j)
                 /\ (cwork P sc' < cwork P sc)%nat.
Proof.
  intros Hg Hs. destruct sc as [x path|o rest|c rest|c rest| |i x path]; cbn in Hg, Hs.
  - (* a node about to be visited for the first time *)
    destruct Hg as (Hw & Hm & Hol).
    inversion Hs as [x' stk m0 n Hn Hk|x' stk m0 n Hn Hk Hgt|x' stk m0 n Hn Hk Hgt
                     |x' stk m0 n Hn Hk Hgt|x' stk m0 n b Hn Hk Hgt
                     |x' stk m0 n Hn Hk| |]; subst.
    + exists (SAfter x x path), m. split_and!.
      * reflexivity.
      * cbn. split_and!; auto; lia.
      * intros j Hj. right. exact Hj.
      * cbn [cwork]. rewrite decide_True by reflexivity. pose proof (work_ge_2 P x). lia.
    + destruct (decide (acnt n = 0)) as [E|E].
      * exists (SOpSecond x path), x. rewrite E. split_and!.
        -- reflexivity.
        -- cbn. split_and!; auto; try lia.
           rewrite (akind_at_load P _ _ Hn), Hk. reflexivity.
        -- intros j [->|Hr]; [left; apply sub_refl|right; exact Hr].
        -- cbn [cwork]. rewrite (work_op P HP x n Hn Hk). lia.
      * destruct (ts_node P HP x n Hn) as (_ & _ & Hsh). rewrite Hk in Hsh.
        destruct Hsh as (Hcnt & Hch).
        destruct (Hch 0 ltac:(lia)) as (n0 & Hl0 & Hlt0 & Hp0 & _).
        rewrite Z.add_0_r in Hl0, Hlt0.
        exists (SFresh (afirst n) (FOp x (seqZ (afirst n + 1) (acnt n - 1)) :: path)), x.
        cbn [erase stack_of good reach]. split_and!.
        -- rewrite (seqZ_cons' (afirst n) (acnt n)) by lia. reflexivity.
        -- eapply (wp_op P _ x n []); [exact Hn|exact Hk| |exact Hw].
           rewrite (seqZ_cons' (afirst n) (acnt n)) by lia. reflexivity.
        -- lia.
        -- cbn. lia.
        -- intros j [Hj|Hj].
           ++ left. eapply (sub_trans P); [|exact Hj]. right. rewrite <- Hp0.
              apply anc_parent. exact Hl0.
           ++ apply (rpath_cons P) in Hj as [[->|(p & Hp & Hj)]|Hj].
              ** left. apply sub_refl.
              ** apply elem_of_seqZ in Hp.
                 destruct (Hch (p - afirst n) ltac:(lia)) as (np & Hlp & _ & Hpp & _).
                 replace (afirst n + (p - afirst n)) with p in Hlp by lia.
                 left. eapply (sub_trans P); [|exact Hj]. right. rewrite <- Hpp.
                 apply anc_parent. exact Hlp.
              ** right. exact Hj.
        -- work_simpl. rewrite (work_op P HP x n Hn Hk).
           rewrite (seqZ_cons' (afirst n) (acnt n)) by lia.
           rewrite fmap_cons, sum_cons. lia.
    + lia.
    + destruct (cond_children P HP x n Hn Hk)
        as (Hcnt & (n0 & Hl0 & Hlt0 & Hp0 & _) & (n1 & Hl1 & _ & Hp1 & _)
            & (n2 & Hl2 & _ & Hp2 & _) & (ne & Hle & Hke & Hpe & _)).
      exists (SFresh (afirst n) (FPred x :: path)), x.
      cbn [erase stack_of good reach]. split_and!.
      * rewrite (aend_eq P x n Hn). reflexivity.
      * eapply wp_pred; eauto.
      * lia.
      * cbn. lia.
      * assert (Hchild : forall c nc, load P c = Some nc -> aparent nc = x ->
                   forall j, sub P c j -> sub P x j).
        { intros c nc Hlc Hpc j Hj. eapply (sub_trans P); [|exact Hj].
          right. rewrite <- Hpc. apply anc_parent. exact Hlc. }
        intros j [Hj|Hj].
        -- left. apply (Hchild _ _ Hl0 Hp0). exact Hj.
        -- apply (rpath_cons P) in Hj as [[->|[->|(n' & Hl' & Hb)]]|Hj].
           ++ left. apply sub_refl.
           ++ left. rewrite (aend_eq P x n Hn). apply (Hchild _ _ Hle Hpe). apply sub_refl.
           ++ rewrite <- (load_inj _ _ _ _ Hn Hl') in Hb.
              left. destruct Hb as [Hb|Hb];
                [apply (Hchild _ _ Hl1 Hp1)|apply (Hchild _ _ Hl2 Hp2)]; exact Hb.
           ++ right. exact Hj.
      * work_simpl. rewrite (work_cond P HP x n Hn Hk), Hn. lia.
    + lia.
    + exists (SAfter x x path), (aparent n). split_and!.
      * reflexivity.
      * cbn. split_and!; auto.
        -- destruct path as [|f rest]; [exact I|].
           apply (wf_path_parent P HP) in Hw as (nx & Hlx & Hpx & _).
           rewrite (load_inj _ _ _ _ Hn Hlx). cbn. lia.
        -- pose proof (parent_lt P HP _ _ Hn). lia.
      * intros j Hj. right. exact Hj.
      * cbn [cwork]. rewrite decide_True by reflexivity. pose proof (work_ge_2 P x). lia.
  - (* an operator on its second visit *)
    destruct Hg as (Hw & Hk & Hm).
    apply (akind_at_Some P) in Hk as (no & Hlo & Hko).
    inversion Hs as [x' stk m0 n Hn Hk|x' stk m0 n Hn Hk Hgt|x' stk m0 n Hn Hk Hgt
                     |x' stk m0 n Hn Hk Hgt|x' stk m0 n b Hn Hk Hgt
                     |x' stk m0 n Hn Hk| |]; subst; try kind_clash; try lia.
    exists (SAfter o o rest), o. split_and!.
    + reflexivity.
    + cbn. split_and!; auto; try lia. apply (owner_le_lt P HP). exact Hw.
    + intros j Hj. right. exact Hj.
    + cbn [cwork]. rewrite decide_True by reflexivity. lia.
  - (* a conditional on its second visit *)
    destruct Hg as (Hw & Hk & Hm & Hmf).
    apply (akind_at_Some P) in Hk as (nc & Hlc & Hkc).
    inversion Hs as [x' stk m0 n Hn Hk|x' stk m0 n Hn Hk Hgt|x' stk m0 n Hn Hk Hgt
                     |x' stk m0 n Hn Hk Hgt|x' stk m0 n b Hn Hk Hgt
                     |x' stk m0 n Hn Hk| |]; subst; try kind_clash; try lia.
    pose proof (Hmf n Hn) as Hmf'.
    exists (SFresh (if b then afirst n + 1 else afirst n + 2) (FBranch c :: rest)), m.
    cbn [erase stack_of good reach]. split_and!.
    + reflexivity.
    + eapply wp_branch; [exact Hn|exact Hk| |exact Hw]. destruct b; auto.
    + destruct b; lia.
    + cbn. lia.
    + intros j [Hj|Hj].
      * left. right. right. exists n. split; [exact Hn|]. destruct b; auto.
      * apply (rpath_cons P) in Hj as [->|Hj]; [left; right; left; reflexivity|].
        right. exact Hj.
    + work_simpl. rewrite Hn. destruct b; lia.
  - (* the End node of a conditional *)
    destruct Hg as (Hw & Hk).
    apply (akind_at_Some P) in Hk as (nc & Hlc & Hkc).
    destruct (cond_children P HP c nc Hlc Hkc) as (_ & _ & _ & _ & ne & Hle & Hke & _).
    rewrite (aend_eq P c nc Hlc) in Hs.
    inversion Hs as [x' stk m0 n Hn Hk|x' stk m0 n Hn Hk Hgt|x' stk m0 n Hn Hk Hgt
                     |x' stk m0 n Hn Hk Hgt|x' stk m0 n b Hn Hk Hgt
                     |x' stk m0 n Hn Hk| |]; subst; try kind_clash.
    destruct (cond_children P HP c nc Hlc Hkc)
      as (_ & _ & _ & _ & ne' & Hle' & _ & Hpe & Hlte).
    rewrite (load_inj _ _ _ _ Hn Hle'), Hpe.
    exists (SAfter (aend P c) c rest), c. split_and!.
    + cbn. rewrite (aend_eq P c nc Hlc). reflexivity.
    + cbn. split_and!; auto; try lia.
      * apply (owner_le_lt P HP). exact Hw.
      * right. split; [|reflexivity]. rewrite (akind_at_load P _ _ Hlc), Hkc. reflexivity.
    + intros j Hj. right. exact Hj.
    + cbn [cwork]. rewrite decide_False by (rewrite (aend_eq P c nc Hlc); lia). lia.
  - inversion Hs.
  - (* the short-circuit block *)
    inversion Hs as [| | | | | |stk m0 i0|stk m0 i0 n nt Hn Ht Hnt]; subst.
    + destruct Hg as (Hw & Hol & Hm & Hi).
      assert (Hone : forall k : nat,
                (k < k + (if decide (i = x) then 1 else 2))%nat)
        by (intros k; destruct (decide (i = x)); lia).
      destruct path as [|[o [|p pend]|c|c] rest].
      * exists SDone, m. cbn. split_and!; [reflexivity|exact I|intros j []|].
        destruct (decide (i = x)); lia.
      * inversion Hw as [|x' o' n done pend' rest' Ho Hk Hseq Hw'| |]; subst.
        exists (SOpSecond o rest), m. cbn [erase stack_of good reach app]. split_and!.
        -- reflexivity.
        -- exact Hw'.
        -- rewrite (akind_at_load P _ _ Ho), Hk. reflexivity.
        -- exact Hol.
        -- intros j [->|Hj]; apply (rpath_cons P); [left; left; reflexivity|right; exact Hj].
        -- work_simpl. destruct (decide (i = x)); lia.
      * inversion Hw as [|x' o' n done pend' rest' Ho Hk Hseq Hw'| |]; subst.
        pose proof (seqZ_split _ _ _ _ _ Hseq) as (Hx & Hcnt & Hpend).
        assert (Hp : p = x + 1).
        { assert (H0 : seqZ (x + 1) (Z.of_nat (length (p :: pend))) !! 0%nat = Some p)
            by (rewrite <- Hpend; reflexivity).
          apply lookup_seqZ in H0. lia. }
        exists (SFresh p (FOp o pend :: rest)), m. cbn [erase stack_of good reach]. split_and!.
        -- reflexivity.
        -- eapply (wp_op P _ o n (done ++ [x])); [exact Ho|exact Hk| |exact Hw'].
           rewrite Hseq, <- app_assoc. reflexivity.
        -- lia.
        -- exact Hol.
        -- intros j [Hj|Hj]; apply (rpath_cons P).
           ++ left. right. exists p. split; [apply elem_of_cons; auto|exact Hj].
           ++ apply (rpath_cons P) in Hj as [[->|(q & Hq & Hj)]|Hj].
              ** left. left. reflexivity.
              ** left. right. exists q. split; [apply elem_of_cons; auto|exact Hj].
              ** right. exact Hj.
        -- work_simpl. destruct (decide (i = x)); lia.
      * inversion Hw as [| |x' c' n rest' Hc Hk Hx Hw'|]; subst.
        exists (SCondSecond c rest), m. cbn [erase stack_of good reach]. split_and!.
        -- reflexivity.
        -- exact Hw'.
        -- rewrite (akind_at_load P _ _ Hc), Hk. reflexivity.
        -- exact Hol.
        -- intros n' Hn'. rewrite <- (load_inj _ _ _ _ Hc Hn'). exact Hm.
        -- intros j Hj. apply (rpath_cons P). exact Hj.
        -- cbn [cwork]. rewrite (pwork_cons P). destruct (decide (i = afirst n)); lia.
      * inversion Hw as [| | |x' c' n rest' Hc Hk Hx Hw']; subst.
        exists (SJoin c rest), m. cbn [erase stack_of good reach]. split_and!.
        -- reflexivity.
        -- exact Hw'.
        -- rewrite (akind_at_load P _ _ Hc), Hk. reflexivity.
        -- intros j [->|Hj]; apply (rpath_cons P); [left; reflexivity|right; exact Hj].
        -- work_simpl. destruct (decide (i = x)); lia.
    + destruct (good_hop _ _ _ _ _ _ Hg Hn Ht Hnt) as (rest & Hg' & Hlow & _ & Hr & _ & Hwk).
      exists (SAfter (atarget n) (atarget n) rest), (atarget n).
      cbn [erase reach]. rewrite Hlow. auto.
Qed.

(** After a hop to [t] nothing in the subtree of [t] is pending. *)
Lemma good_hop_step (sc : sconfig) (m : Z) (stk' : list Z) (m' i' : Z) :
  good P sc m -> astep P (erase P sc m) (ASC stk' m' i') ->
  (exists stk i, erase P sc m = ASC stk m i) ->
  exists rest, ASC stk' m' i' = erase P (SAfter i' i' rest) m'
               /\ m' = i'
               /\ good P (SAfter i' i' rest) m'
               /\ (forall j, reach P (SAfter i' i' rest) j -> ~ sub P i' j).
Proof.
  intros Hg Hs (stk & i & He). destruct sc; try discriminate.
  cbn in He. injection He as <- <-. cbn in Hs.
  inversion Hs as [| | | | | | |stk0 m0 i1 n nt Hn Ht Hnt]; subst.
  destruct (good_hop _ _ _ _ _ _ Hg Hn Ht Hnt) as (rest & Hg' & Hlow & _ & _ & Hns & _).
  exists rest. cbn [erase reach]. rewrite Hlow. auto.
Qed.

(** The second visit of a conditional leaves only the chosen branch
    pending: of the other branch, at most the End node is still to come. *)
Lemma good_branch (sc : sconfig) (m c : Z) (stk : list Z) (n : anode) (b : bool) :
  good P sc m -> erase P sc m = ALoop (c :: stk) m ->
  load P c = Some n -> akind_of n = KCond -> ~ c > m ->
  exists sc', erase P sc' m = ALoop ((if b then afirst n + 1 else afirst n + 2) :: stk) m
              /\ good P sc' m
              /\ (forall j, reach P sc' j ->
                    sub P (if b then afirst n + 2 else afirst n + 1) j ->
                    j = aend P c).
Proof.
  intros Hg He Hn Hk Hle.
  destruct (cond_children P HP c n Hn Hk)
    as (Hcnt & _ & (n1 & Hl1 & _ & Hp1 & _)
        & (n2 & Hl2 & _ & Hp2 & _) & (ne & Hle' & Hke & Hpe & _)).
  destruct sc as [x path|o rest|c' rest|c' rest| |i x path]; cbn in He; try discriminate.
  - injection He as -> _. destruct Hg as (_ & Hm & _). lia.
  - injection He as -> _. destruct Hg as (_ & Hk' & _).
    rewrite (akind_at_load P _ _ Hn), Hk in Hk'. discriminate.
  - injection He as -> <-. destruct Hg as (Hw & _ & Hm & Hmf).
    pose proof (Hmf n Hn) as Hmf'.
    exists (SFresh (if b then afirst n + 1 else afirst n + 2) (FBranch c :: rest)).
    cbn [erase stack_of good reach]. split_and!.
    + reflexivity.
    + eapply wp_branch; [exact Hn|exact Hk| |exact Hw]. destruct b; auto.
    + destruct b; lia.
    + cbn. lia.
    + intros j [Hj|Hj] Hs.
      * exfalso. destruct b.
        -- eapply (sib_disjoint P HP (afirst n + 1) (afirst n + 2) c j); eauto. lia.
        -- eapply (sib_disjoint P HP (afirst n + 2) (afirst n + 1) c j); eauto. lia.
      * apply (rpath_cons P) in Hj as [->|Hj]; [reflexivity|].
        exfalso. eapply (rpath_not_sub P HP c rest j Hw); [|exact Hj|].
        -- rewrite (akind_at_load P _ _ Hn), Hk. discriminate.
        -- eapply (sub_trans P); [|exact Hs]. right.
           destruct b; [rewrite <- Hp2|rewrite <- Hp1]; apply anc_parent; assumption.
  - injection He as Hc _. destruct Hg as (_ & Hk').
    apply (akind_at_Some P) in Hk' as (nc & Hlc & Hkc).
    destruct (cond_children P HP c' nc Hlc Hkc) as (_ & _ & _ & _ & ne' & Hle'' & Hke' & _).
    rewrite (aend_eq P c' nc Hlc) in Hc. rewrite Hc in Hle''.
    rewrite (load_inj _ _ _ _ Hn Hle'') in Hk. congruence.
Qed.

(** What is on top of the stack frame is the root or a node of the table. *)
Lemma good_head_small (sc : sconfig) (m : Z) : good P sc m -> head_small (erase P sc m).
Proof.
pose proof (ts_size P HP) as Hsz.
assert (Hv : forall x n, load P x = Some n -> 0 <= x < 2 ^ 15).
{ intros x n H. apply load_Some_range in H. lia. }
destruct sc as [x path|o rest|c rest|c rest| |i x path]; cbn; try exact (fun _ => I).
- intros (Hw & _). destruct path as [|f rest].
  + inversion Hw; subst. lia.
  + apply (wf_path_parent P HP) in Hw as (nx & Hl & _). eauto.
- intros (_ & Hk & _). apply (akind_at_Some P) in Hk as (n & Hl & _). eauto.
- intros (_ & Hk & _). apply (akind_at_Some P) in Hk as (n & Hl & _). eauto.
- intros (_ & Hk). apply (akind_at_Some P) in Hk as (n & Hl & Hk).
  destruct (cond_children P HP c n Hl Hk) as (_ & _ & _ & _ & ne & Hle & _).
  rewrite (aend_eq P c n Hl). eauto.
Qed.

(** What is dispatched next is among what may still be dispatched. *)
Lemma good_head (sc : sconfig) (m x : Z) (stk : list Z) :
  good P sc m -> erase P sc m = ALoop (x :: stk) m -> reach P sc x.
Proof.
  intros Hg He. destruct sc; cbn in He; try discriminate; injection He as <- _; cbn.
  - left. apply sub_refl.
  - left. reflexivity.
  - left. left. reflexivity.
  - left. reflexivity.
Qed.
End Steps.

(** * The variants follow the list machine *)

Lemma frames_pop (sf : list Z) (top x : Z) :
  load sf top = Some x ->
  reverse (take (Z.to_nat (top + 1)) sf) = x :: reverse (take (Z.to_nat top) sf).
Proof.
  intros H. apply load_lookup in H as [H0 H].
  replace (Z.to_nat (top + 1)) with (S (Z.to_nat top)) by lia.
  rewrite (take_S_r _ _ x H), reverse_app. reflexivity.
Qed.

Lemma frames_push (sf : list Z) (top x : Z) :
  -1 <= top -> top + 1 < Z.of_nat (length sf) ->
  reverse (take (Z.to_nat (top + 1 + 1)) (<[Z.to_nat (top + 1) := x]> sf))
  = x :: reverse (take (Z.to_nat (top + 1)) sf).
Proof.
  intros H0 H1.
  replace (Z.to_nat (top + 1 + 1)) with (S (Z.to_nat (top + 1))) by lia.
  rewrite take_S_insert by lia. rewrite reverse_app. reflexivity.
Qed.

Lemma frames_lowest (sf : list Z) (top d : Z) :
  0 <= d <= top + 1 -> top < Z.of_nat (length sf) ->
  lowest d (reverse (take (Z.to_nat (top + 1)) sf)) = reverse (take (Z.to_nat d) sf).
Proof.
  intros Hd Hlen. unfold lowest.
  rewrite length_reverse, length_take.
  rewrite <- (take_take_le sf (Z.to_nat d) (Z.to_nat (top + 1))) by lia.
  set (l := take (Z.to_nat (top + 1)) sf).
  assert (Hl : length l = Z.to_nat (top + 1)) by (unfold l; rewrite length_take; lia).
  replace (Z.to_nat (top + 1) `min` length sf)%nat with (length l) by lia.
  rewrite <- (take_drop (Z.to_nat d) l) at 2.
  rewrite reverse_app.
  replace (length l - Z.to_nat d)%nat with (length (reverse (drop (Z.to_nat d) l))).
  - apply drop_app_length.
  - rewrite length_reverse, length_drop. reflexivity.
Qed.

(** What the children loop leaves in the stack frame. *)
Lemma frames_children (sf sf' : list Z) (top cnt c : Z) :
  (forall p : nat,
     sf' !! p = if decide (top - cnt < Z.of_nat p <= top)
                then Some (c + (top - Z.of_nat p)) else sf !! p) ->
  length sf' = length sf ->
  0 <= cnt -> -1 <= top - cnt -> top < Z.of_nat (length sf) ->
  reverse (take (Z.to_nat (top + 1)) sf')
  = seqZ c cnt ++ reverse (take (Z.to_nat (top - cnt + 1)) sf).
Proof.
  intros Hlk Hlen Hcnt Hlow Htop.
  assert (E : take (Z.to_nat (top + 1)) sf'
              = take (Z.to_nat (top - cnt + 1)) sf ++ reverse (seqZ c cnt)).
  { apply list_eq. intros p.
    destruct (decide (Z.of_nat p < top - cnt + 1)) as [Hp|Hp].
    - rewrite lookup_app_l by (rewrite length_take; lia).
      rewrite !lookup_take_lt by lia. rewrite Hlk.
      rewrite decide_False by lia. reflexivity.
    - destruct (decide (Z.of_nat p <= top)) as [Hp'|Hp'].
      + rewrite lookup_app_r by (rewrite length_take; lia).
        rewrite length_take.
        rewrite lookup_take_lt by lia. rewrite Hlk. rewrite decide_True by lia.
        rewrite reverse_lookup by (rewrite length_seqZ; lia).
        symmetry. apply lookup_seqZ. rewrite length_seqZ. lia.
      + rewrite lookup_take_ge by lia.
        symmetry. apply lookup_ge_None.
        rewrite length_app, length_take, length_reverse, length_seqZ. lia. }
  rewrite E, reverse_app, reverse_involutive. reflexivity.
Qed.

Lemma int16_idem (z : Z) : int16 (int16 z) = int16 z.
Proof. apply int16_small, int16_range. Qed.

(** An index that is still in range after the conversion did not wrap. *)
Lemma int16_nonneg (z : Z) : 0 <= z < 2 ^ 16 -> 0 <= int16 z -> int16 z = z.
Proof.
  intros Hz H. destruct (decide (z < 2 ^ 15)) as [Hlt|Hge].
  - apply int16_small. unfold in_signed. change (2 ^ (16 - 1)) with (2 ^ 15). lia.
  - exfalso. revert H. unfold int16, wrap.
    change (2 ^ (16 - 1)) with 32768. change (2 ^ 16) with 65536 in *.
    change (2 ^ 15) with 32768 in *.
    replace ((z + 32768) `mod` 65536) with (z + 32768 - 65536).
    + lia.
    + apply Z.mod_unique with 1; lia.
Qed.

Lemma seqZ_two (c : Z) : seqZ c 2 = [c; c + 1].
Proof.
  rewrite (seqZ_cons' c 2) by lia. rewrite (seqZ_cons' (c + 1) (2 - 1)) by lia.
  rewrite seqZ_nil by lia. reflexivity.
Qed.

Lemma kindOf_cases (flag : Z) :
  let ty := Z.land flag nodeTypeMask in
  (ty = fastOperator /\ kindOf flag = KLeaf)
  \/ (ty = operator /\ kindOf flag = KOp)
  \/ (ty = selector /\ kindOf flag = KLeaf)
  \/ (ty = constant /\ kindOf flag = KLeaf)
  \/ (ty = cond /\ kindOf flag = KCond)
  \/ (ty = end_ /\ kindOf flag = KEnd)
  \/ (ty <> fastOperator /\ ty <> operator /\ ty <> selector /\ ty <> constant
      /\ ty <> cond /\ ty <> end_ /\ kindOf flag = KDebug).
Proof.
  cbv zeta. unfold kindOf.
  repeat (case_decide; [tauto|]). tauto.
Qed.

Lemma Boxed_prog_length {W} (e : Boxed.Expr W) :
  length (Boxed_prog e) = length (Boxed.nodes e).
Proof. unfold Boxed_prog. apply length_imap. Qed.

Lemma Boxed_prog_load {W} (e : Boxed.Expr W) (i : Z) (nd : Boxed.node W) :
  load (Boxed.nodes e) i = Some nd ->
  load (Boxed_prog e) i
  = Some (mkANode (kindOf (Boxed.flag nd)) (Boxed.childIdx nd) (int16 (Boxed.childCnt nd))
            (Boxed.scIdx nd)
            (default (-1) (Boxed.parentIdx e !! Z.to_nat i))
            (default 0 (Boxed.sfSize e !! Z.to_nat i))).
Proof.
  unfold load, Boxed_prog. case_decide; [|discriminate].
  intros Hl. rewrite list_lookup_imap, Hl. reflexivity.
Qed.

Lemma load_default {A} (a : list A) (i : Z) (x d : A) :
  load a i = Some x -> default d (a !! Z.to_nat i) = x.
Proof. intros H. apply load_lookup in H as [_ ->]. reflexivity. Qed.

Lemma Boxed_push_inv {A} (a a' : list A) (top top' : Z) (x : A) :
  -1 <= top -> top + 1 < 2 ^ 15 ->
  Boxed.push a top x = Some (a', top') ->
  top' = top + 1 /\ top + 1 < Z.of_nat (length a) /\ a' = <[Z.to_nat (top + 1) := x]> a.
Proof.
  intros H0 H1. unfold Boxed.push.
  rewrite int16_small by (unfold in_signed; change (2 ^ (16 - 1)) with (2 ^ 15); lia).
  destruct (store a (top + 1) x) as [a1|] eqn:E; [|discriminate].
  cbn. intros [= <- <-]. apply store_Some_range in E as [Hr ->]. split_and!; [reflexivity|lia|reflexivity].
Qed.

Lemma Boxed_pushChildren_lookup (n : nat) :
  forall (i : Z) (sf sf' : list Z) (top c : Z),
    0 <= i -> i + Z.of_nat n <= 2 ^ 14 -> - 2 ^ 14 <= top < 2 ^ 15 ->
    0 <= c -> c + i + Z.of_nat n <= 2 ^ 15 ->
    Boxed.pushChildren n i sf top c = Some sf' ->
    length sf' = length sf
    /\ (forall p : nat,
          sf' !! p = if decide (top - i - Z.of_nat n < Z.of_nat p <= top - i)
                     then Some (c + (top - Z.of_nat p)) else sf !! p).
Proof.
  induction n as [|n IH]; intros i sf sf' top c Hi Hin Htop Hc Hcn H.
  - cbn in H. injection H as <-. split; [reflexivity|].
    intros p. rewrite decide_False by lia. reflexivity.
  - cbn [Boxed.pushChildren] in H.
    assert (E1 : int16 (top - i) = top - i).
    { apply int16_small. unfold in_signed. change (2 ^ (16 - 1)) with (2 ^ 15). lia. }
    assert (E2 : int16 (c + i) = c + i).
    { apply int16_small. unfold in_signed. change (2 ^ (16 - 1)) with (2 ^ 15). lia. }
    assert (E3 : int16 (i + 1) = i + 1).
    { apply int16_small. unfold in_signed. change (2 ^ (16 - 1)) with (2 ^ 15). lia. }
    rewrite E1, E2, E3 in H.
    destruct (store sf (top - i) (c + i)) as [sf1|] eqn:Es; [|discriminate].
    cbn in H. apply store_Some_range in Es as [Hr ->].
    apply IH in H as [Hlen Hlk]; try lia.
    rewrite length_insert in Hlen. split; [exact Hlen|].
    intros p. rewrite Hlk.
    destruct (decide (Z.of_nat p = top - i)) as [Hp|Hp].
    + rewrite decide_False by lia. rewrite decide_True by lia.
      replace p with (Z.to_nat (top - i)) by lia.
      rewrite list_lookup_insert_eq by lia. f_equal. lia.
    + rewrite list_lookup_insert_ne by lia.
      destruct (decide (top - (i + 1) - Z.of_nat n < Z.of_nat p <= top - (i + 1))).
      * rewrite decide_True by lia. reflexivity.
      * rewrite decide_False by lia. reflexivity.
Qed.

Lemma kindOf_operator (flag : Z) :
  Z.land flag nodeTypeMask = operator -> kindOf flag = KOp.
Proof. intros H. unfold kindOf. node_type H. reflexivity. Qed.

Lemma kindOf_cond (flag : Z) :
  Z.land flag nodeTypeMask = cond -> kindOf flag = KCond.
Proof. intros H. unfold kindOf. node_type H. reflexivity. Qed.

Lemma default_load (l : list Z) (x v : Z) :
  0 <= x -> default 0 (l !! Z.to_nat x) = v -> v <> 0 -> load l x = Some v.
Proof.
  intros Hx H Hv. unfold load. rewrite decide_True by exact Hx.
  destruct (l !! Z.to_nat x) as [y|]; cbn in H; congruence.
Qed.

Section BoxedConform.
Context {W : Type}.
Variable e : Boxed.Expr W.
Variable ctx : Ctx W.
Hypothesis HP : tree_shaped (Boxed_prog e).

Lemma Boxed_node_small (i : Z) (nd : Boxed.node W) :
  load (Boxed.nodes e) i = Some nd -> 0 <= i < 2 ^ 15.
Proof.
  intros H. apply load_Some_range in H.
  pose proof (ts_size _ HP) as Hs. rewrite Boxed_prog_length in Hs. lia.
Qed.

Lemma Boxed_child_small (i c d : Z) :
  child_shaped (Boxed_prog e) i c d -> 0 <= c < 2 ^ 15.
Proof.
  intros (nc & Hl & _). apply load_Some_range in Hl.
  pose proof (ts_size _ HP). lia.
Qed.

Lemma Boxed_popped_frames (s : Boxed.vm W) (curtIdx : Z) :
  load (Boxed.sf s) (Boxed.sfTop s) = Some curtIdx ->
  Boxed_frames s = curtIdx :: reverse (take (Z.to_nat (Boxed.sfTop s)) (Boxed.sf s)).
Proof. intros H. unfold Boxed_frames, Boxed_live. apply frames_pop. exact H. Qed.

(** One turn of the dispatch loop is a step of the list machine. *)
Lemma Boxed_conform_loop (s : Boxed.vm W) (c' : Boxed.config W) (stk : list Z) (m : Z) :
  Boxed_abs e (Boxed.AtLoop s) (ALoop stk m) ->
  Boxed.dispatch e ctx s = Boxed.Next c' ->
  exists ac', astep (Boxed_prog e) (ALoop stk m) ac' /\ Boxed_abs e c' ac'.
Proof.
  intros (-> & -> & Htop & Hlen). unfold Boxed.dispatch.
  destruct (decide (Boxed.sfTop s = -1)) as [E|Hne].
  { destruct (load (Boxed.os s) 0); discriminate. }
  destruct (load (Boxed.sf s) (Boxed.sfTop s)) as [curtIdx|] eqn:Hpop; [|discriminate].
  cbn [Boxed.orPanic].
  destruct (load (Boxed.nodes e) curtIdx) as [curt|] eqn:Hnode; [|discriminate].
  cbn [Boxed.orPanic].
  pose proof (Boxed_prog_load e _ _ Hnode) as Hn.
  pose proof (ts_node _ HP _ _ Hn) as (Hpar & Htgt & Hshape). cbn in Hpar, Htgt, Hshape.
  pose proof (Boxed_node_small _ _ Hnode) as Hsmall.
  rewrite (Boxed_popped_frames s curtIdx Hpop).
  set (below := reverse (take (Z.to_nat (Boxed.sfTop s)) (Boxed.sf s))).
  assert (Epop : int16 (Boxed.sfTop s - 1) = Boxed.sfTop s - 1).
  { apply int16_small. unfold in_signed. change (2 ^ (16 - 1)) with (2 ^ 15). lia. }
  rewrite Epop.
  assert (Hbelow : reverse (take (Z.to_nat (Boxed.sfTop s - 1 + 1)) (Boxed.sf s)) = below).
  { unfold below. do 2 f_equal. lia. }
  destruct (kindOf_cases (Boxed.flag curt))
    as [[Hty Hk]|[[Hty Hk]|[[Hty Hk]|[[Hty Hk]|[[Hty Hk]|[[Hty Hk]|Hdbg]]]]]];
    cbv zeta in *.
  - (* fastOperator *)
    node_type Hty.
    destruct (Boxed.fastOperatorParams e ctx _ _ _) as [[[param|err] io1]|];
      cbn [Boxed.orPanic]; try discriminate.
    destruct (Boxed.invoke ctx curtIdx curt param io1) as [[[res [err|]] io2]|];
      cbn [Boxed.orPanic]; try discriminate.
    intros [= <-]. exists (ASC below (Boxed.maxIdx s) curtIdx). split.
    + eapply AS_leaf; [exact Hn|exact Hk].
    + cbn. unfold Boxed_frames, Boxed_live. cbn. rewrite Hbelow.
      split_and!; try reflexivity; try lia. exact Hnode.
  - (* operator *)
    node_type Hty. rewrite Hk in Hshape. destruct Hshape as (Hcnt & Hch).
    destruct (decide (curtIdx > Boxed.maxIdx s)) as [Hgt|Hle].
    + destruct (Boxed.push (Boxed.sf s) (Boxed.sfTop s - 1) curtIdx) as [[sf1 sfTop1]|] eqn:E1;
        [|discriminate]. cbn [Boxed.orPanic].
      apply Boxed_push_inv in E1 as (-> & Hl1 & ->); [|lia|lia].
      replace (Boxed.sfTop s - 1 + 1) with (Boxed.sfTop s) in * by lia.
      assert (Hsf1 : <[Z.to_nat (Boxed.sfTop s) := curtIdx]> (Boxed.sf s) = Boxed.sf s).
      { apply list_insert_id. apply load_lookup in Hpop as [_ Hpop]. exact Hpop. }
      rewrite Hsf1.
      destruct (decide (int16 (Boxed.childCnt curt) = 2)) as [E2|E2].
      * pose proof (Hch 0 ltac:(lia)) as Hc0. pose proof (Hch 1 ltac:(lia)) as Hc1.
        apply Boxed_child_small in Hc0, Hc1. rewrite Z.add_0_r in Hc0.
        rewrite (int16_small (Boxed.childIdx curt + 1))
          by (unfold in_signed; change (2 ^ (16 - 1)) with (2 ^ 15); lia).
        destruct (Boxed.push (Boxed.sf s) (Boxed.sfTop s) (Boxed.childIdx curt + 1))
          as [[sf2 sfTop2]|] eqn:E3; [|discriminate]. cbn [Boxed.orPanic].
        apply Boxed_push_inv in E3 as (-> & Hl2 & ->); [|lia|lia].
        destruct (Boxed.push _ (Boxed.sfTop s + 1) (Boxed.childIdx curt))
          as [[sf3 sfTop3]|] eqn:E4; [|discriminate]. cbn [Boxed.orPanic].
        apply Boxed_push_inv in E4 as (-> & Hl3 & ->); [|lia|lia].
        rewrite length_insert in Hl3.
        intros [= <-].
        exists (ALoop (seqZ (Boxed.childIdx curt) (int16 (Boxed.childCnt curt))
                         ++ curtIdx :: below) curtIdx).
        split.
        -- apply (AS_op_first _ curtIdx below (Boxed.maxIdx s) _ Hn Hk Hgt).
        -- cbn. unfold Boxed_frames, Boxed_live. cbn.
           rewrite length_insert, length_insert. split_and!; try reflexivity; try lia.
           rewrite E2.
           rewrite frames_push by (rewrite ?length_insert; lia).
           rewrite frames_push by lia.
           rewrite (frames_pop _ _ _ Hpop), seqZ_two. reflexivity.
      * destruct (Boxed.pushChildren _ 0 _ _ _) as [sf2|] eqn:E3; [|discriminate].
        cbn [Boxed.orPanic]. intros [= <-].
        exists (ALoop (seqZ (Boxed.childIdx curt) (int16 (Boxed.childCnt curt))
                         ++ curtIdx :: below) curtIdx).
        split; [apply (AS_op_first _ curtIdx below (Boxed.maxIdx s) _ Hn Hk Hgt)|].
        set (cnt := int16 (Boxed.childCnt curt)) in *.
        destruct (decide (cnt = 0)) as [E0|E0].
        -- rewrite E0 in *. cbn in E3. injection E3 as <-.
           rewrite Z.add_0_r, (int16_small (Boxed.sfTop s))
             by (unfold in_signed; change (2 ^ (16 - 1)) with (2 ^ 15); lia).
           cbn. unfold Boxed_frames, Boxed_live. cbn.
           split_and!; try reflexivity; try lia.
           rewrite (frames_pop _ _ _ Hpop). reflexivity.
        -- pose proof (Hch 0 ltac:(lia)) as Hc0.
           pose proof (Hch (cnt - 1) ltac:(lia)) as Hc1.
           apply Boxed_child_small in Hc0, Hc1. rewrite Z.add_0_r in Hc0.
           (* the first store of the loop is at the new top *)
           assert (Hfirst : exists sf', store (Boxed.sf s) (int16 (int16 (Boxed.sfTop s + cnt) - 0))
                              (int16 (Boxed.childIdx curt + 0)) = Some sf').
           { destruct (Z.to_nat cnt) as [|k] eqn:Ek; [lia|].
             cbn [Boxed.pushChildren] in E3.
             destruct (store _ _ _) as [sf'|]; [eauto|discriminate]. }
           destruct Hfirst as (sf' & Hfirst).
           apply store_Some_range in Hfirst as [Hfirst _].
           rewrite Z.sub_0_r, int16_idem in Hfirst.
           assert (Htop2 : int16 (Boxed.sfTop s + cnt) = Boxed.sfTop s + cnt).
           { apply int16_nonneg; [|lia].
             change (2 ^ 16) with 65536. change (2 ^ 15) with 32768 in *. lia. }
           rewrite Htop2 in *.
           apply Boxed_pushChildren_lookup in E3 as [Hlen2 Hlk];
             [|lia|change (2 ^ 14) with 16384; lia
              |change (2 ^ 14) with 16384; change (2 ^ 15) with 32768 in *; lia
              |lia|change (2 ^ 15) with 32768 in *; lia].
           cbn. unfold Boxed_frames, Boxed_live. cbn. rewrite Hlen2.
           split_and!; try reflexivity; try lia.
           rewrite (frames_children (Boxed.sf s) sf2 (Boxed.sfTop s + cnt) cnt
                      (Boxed.childIdx curt)); try lia.
           ++ replace (Boxed.sfTop s + cnt - cnt + 1) with (Boxed.sfTop s + 1) by lia.
              rewrite (frames_pop _ _ _ Hpop). reflexivity.
           ++ intros p. rewrite Hlk. rewrite Z2Nat.id by lia.
              replace (Boxed.sfTop s + cnt - 0 - cnt) with (Boxed.sfTop s + cnt - cnt) by lia.
              replace (Boxed.sfTop s + cnt - 0) with (Boxed.sfTop s + cnt) by lia.
              reflexivity.
    + destruct (Boxed.operatorParams _ _ _) as [param|]; [|discriminate].
      cbn [Boxed.orPanic].
      destruct (Boxed.invoke ctx curtIdx curt param (Boxed.io s)) as [[[res [err|]] io1]|];
        cbn [Boxed.orPanic]; try discriminate.
      intros [= <-]. exists (ASC below curtIdx curtIdx). split.
      * eapply AS_op_second; [exact Hn|exact Hk|exact Hle].
      * cbn. unfold Boxed_frames, Boxed_live. cbn. rewrite Hbelow.
        split_and!; try reflexivity; try lia. exact Hnode.
  - (* selector *)
    node_type Hty.
    destruct (Boxed.getSelectorValue ctx curt (Boxed.io s)) as [[[res [err|]] io1]|];
      cbn [Boxed.orPanic]; try discriminate.
    intros [= <-]. exists (ASC below (Boxed.maxIdx s) curtIdx). split.
    + eapply AS_leaf; [exact Hn|exact Hk].
    + cbn. unfold Boxed_frames, Boxed_live. cbn. rewrite Hbelow.
      split_and!; try reflexivity; try lia. exact Hnode.
  - (* constant *)
    node_type Hty.
    intros [= <-]. exists (ASC below (Boxed.maxIdx s) curtIdx). split.
    + eapply AS_leaf; [exact Hn|exact Hk].
    + cbn. unfold Boxed_frames, Boxed_live. cbn. rewrite Hbelow.
      split_and!; try reflexivity; try lia. exact Hnode.
  - (* cond *)
    node_type Hty. rewrite Hk in Hshape.
    destruct Hshape as (Hcnt & Hc0 & Hc1 & Hc2 & ne & Hle' & Hke & Hpe & Hlte).
    apply Boxed_child_small in Hc0, Hc1, Hc2.
    pose proof (load_Some_range _ _ _ Hle') as Hre.
    pose proof (ts_size _ HP) as Hsz.
    destruct (decide (curtIdx > Boxed.maxIdx s)) as [Hgt|Hle].
    + assert (Eend : int16 (int16 (Boxed.childIdx curt + int16 (Boxed.childCnt curt)) - 1)
                     = Boxed.childIdx curt + int16 (Boxed.childCnt curt) - 1).
      { rewrite int16_sub_l. apply int16_small. unfold in_signed.
        change (2 ^ (16 - 1)) with (2 ^ 15). lia. }
      rewrite Eend.
      destruct (Boxed.push (Boxed.sf s) (Boxed.sfTop s - 1) _) as [[sf1 sfTop1]|] eqn:E1;
        [|discriminate]. cbn [Boxed.orPanic].
      apply Boxed_push_inv in E1 as (-> & Hl1 & ->); [|lia|lia].
      replace (Boxed.sfTop s - 1 + 1) with (Boxed.sfTop s) in * by lia.
      destruct (Boxed.push _ (Boxed.sfTop s) curtIdx) as [[sf2 sfTop2]|] eqn:E2;
        [|discriminate]. cbn [Boxed.orPanic].
      apply Boxed_push_inv in E2 as (-> & Hl2 & ->); [|lia|lia].
      rewrite !length_insert in Hl2.
      destruct (Boxed.push _ (Boxed.sfTop s + 1) (Boxed.childIdx curt))
        as [[sf3 sfTop3]|] eqn:E3; [|discriminate]. cbn [Boxed.orPanic].
      apply Boxed_push_inv in E3 as (-> & Hl3 & ->); [|lia|lia].
      rewrite !length_insert in Hl3.
      intros [= <-].
      exists (ALoop (Boxed.childIdx curt :: curtIdx
                     :: (Boxed.childIdx curt + int16 (Boxed.childCnt curt) - 1) :: below)
                curtIdx).
      split.
      * apply (AS_cond_first _ curtIdx below (Boxed.maxIdx s) _ Hn Hk Hgt).
      * cbn. unfold Boxed_frames, Boxed_live. cbn.
        rewrite !length_insert. split_and!; try reflexivity; try lia.
        rewrite frames_push by (rewrite ?length_insert; lia).
        rewrite frames_push by (rewrite ?length_insert; lia).
        replace (Z.to_nat (Boxed.sfTop s + 1)) with (S (Z.to_nat (Boxed.sfTop s))) by lia.
        rewrite take_S_insert by lia. rewrite reverse_app. reflexivity.
    + destruct (load (Boxed.os s) (Boxed.osTop s)) as [res|]; [|discriminate].
      cbn [Boxed.orPanic]. destruct res; try discriminate.
      destruct (Boxed.push (Boxed.sf s) (Boxed.sfTop s - 1) _) as [[sf1 sfTop1]|] eqn:E1;
        [|discriminate]. cbn [Boxed.orPanic].
      apply Boxed_push_inv in E1 as (-> & Hl1 & ->); [|lia|lia].
      replace (Boxed.sfTop s - 1 + 1) with (Boxed.sfTop s) in * by lia.
      intros [= <-].
      exists (ALoop ((if b then Boxed.childIdx curt + 1 else Boxed.childIdx curt + 2)
                     :: below) (Boxed.maxIdx s)).
      split.
      * apply (AS_cond_second _ curtIdx below (Boxed.maxIdx s) _ b Hn Hk Hle).
      * cbn. unfold Boxed_frames, Boxed_live. cbn.
        rewrite !length_insert. split_and!; try reflexivity; try lia.
        replace (Z.to_nat (Boxed.sfTop s + 1)) with (S (Z.to_nat (Boxed.sfTop s))) by lia.
        rewrite take_S_insert by lia. rewrite reverse_app. cbn. f_equal.
        destruct b; symmetry; apply int16_small; unfold in_signed;
          change (2 ^ (16 - 1)) with (2 ^ 15); lia.
  - (* end *)
    node_type Hty.
    destruct (load (Boxed.parentIdx e) curtIdx) as [par|] eqn:Epar; [|discriminate].
    cbn [Boxed.orPanic].
    destruct (load (Boxed.os s) (Boxed.osTop s)) as [res|]; [|discriminate].
    cbn [Boxed.orPanic]. intros [= <-].
    exists (ASC below par curtIdx). split.
    + rewrite <- (load_default _ _ _ (-1) Epar).
      apply (AS_end _ curtIdx below (Boxed.maxIdx s) _ Hn Hk).
    + cbn. unfold Boxed_frames, Boxed_live. cbn. rewrite Hbelow.
      split_and!; try reflexivity; try lia. exact Hnode.
  - (* a debug node has no place in a tree *)
    destruct Hdbg as (_ & _ & _ & _ & _ & _ & Hk). rewrite Hk in Hshape. contradiction.
Qed.
End BoxedConform.

Section BoxedTrack.
Context {W : Type}.
Variable e : Boxed.Expr W.
Variable ctx : Ctx W.
Hypothesis HP : tree_shaped (Boxed_prog e).

Lemma Boxed_frames_length (s : Boxed.vm W) :
  -1 <= Boxed.sfTop s < Z.of_nat (length (Boxed.sf s)) ->
  Z.of_nat (length (Boxed_frames s)) = Boxed.sfTop s + 1.
Proof.
  intros H. unfold Boxed_frames, Boxed_live. rewrite length_reverse, length_take. lia.
Qed.

(** One turn of the short-circuit block is a step of the list machine. *)
Lemma Boxed_conform_sc (s : Boxed.vm W) (curt : Boxed.node W) (res : Value)
    (c' : Boxed.config W) (stk : list Z) (m i : Z) :
  Boxed_abs e (Boxed.AtShortCircuit s curt res) (ASC stk m i) ->
  hop_ok (Boxed_prog e) (ASC stk m i) ->
  Boxed.shortCircuit e s curt res = Boxed.Next c' ->
  exists ac', astep (Boxed_prog e) (ASC stk m i) ac' /\ Boxed_abs e c' ac'.
Proof.
  intros (-> & -> & Htop & Hlen & Hnode) Hok.
  assert (Hrest : forall c',
            Boxed.orPanic (Boxed.push (Boxed.os s) (Boxed.osTop s) res)
              (fun '(os1, osTop1) =>
                 Boxed.Next (Boxed.AtLoop
                   (Boxed.mkVM (Boxed.maxIdx s) (Boxed.sf s) (Boxed.sfTop s) os1 osTop1
                      (Boxed.scTriggered s) (Boxed.io s)))) = Boxed.Next c' ->
            exists ac', astep (Boxed_prog e) (ASC (Boxed_frames s) (Boxed.maxIdx s) i) ac'
                        /\ Boxed_abs e c' ac').
  { intros c0. destruct (Boxed.push _ _ _) as [[os1 osTop1]|]; [|discriminate].
    cbn [Boxed.orPanic]. intros [= <-].
    exists (ALoop (Boxed_frames s) (Boxed.maxIdx s)). split; [apply AS_push|].
    cbn. unfold Boxed_frames, Boxed_live. cbn. split_and!; try reflexivity; lia. }
  unfold Boxed.shortCircuit.
  destruct res; try apply Hrest.
  destruct (fires (Boxed.flag curt) b) eqn:Hf; [|apply Hrest].
  destruct (decide (Boxed.scIdx curt = 0)) as [E0|Hnz]; [discriminate|].
  destruct (load (Boxed.sfSize e) (Boxed.scIdx curt)) as [sfSz|] eqn:Esf; [|discriminate].
  cbn [Boxed.orPanic].
  destruct (load (Boxed.osSize e) (Boxed.scIdx curt)) as [osSz|]; [|discriminate].
  cbn [Boxed.orPanic].
  destruct (load (Boxed.nodes e) (Boxed.scIdx curt)) as [curt'|] eqn:Enode; [|discriminate].
  cbn [Boxed.orPanic]. intros [= <-].
  pose proof (Boxed_prog_load e _ _ Hnode) as Hn.
  pose proof (Boxed_prog_load e _ _ Enode) as Hnt.
  rewrite (load_default _ _ _ 0 Esf) in Hnt.
  pose proof (Hok _ _ Hn Hnz Hnt) as Hd. cbn in Hd.
  rewrite Boxed_frames_length in Hd by exact Htop.
  pose proof (AS_hop _ (Boxed_frames s) (Boxed.maxIdx s) i _ _ Hn Hnz Hnt) as Hstep.
  cbn in Hstep.
  eexists. split; [exact Hstep|].
  assert (Etop : int16 (sfSz - 2) = sfSz - 2).
  { apply int16_small. unfold in_signed. change (2 ^ (16 - 1)) with (2 ^ 15). lia. }
  cbn. unfold Boxed_frames, Boxed_live. cbn. rewrite Etop.
  split_and!; try reflexivity; try lia; [|exact Enode].
  rewrite frames_lowest by lia. do 2 f_equal. lia.
Qed.

Lemma Boxed_conform (c c' : Boxed.config W) (ac : aconfig) :
  Boxed_abs e c ac -> hop_ok (Boxed_prog e) ac ->
  Boxed.step e ctx c = Boxed.Next c' ->
  exists ac', astep (Boxed_prog e) ac ac' /\ Boxed_abs e c' ac'.
Proof.
  destruct c as [s|s curt res], ac as [stk m|stk m i]; cbn [Boxed.step];
    try (intros []; fail).
  - intros Ha _. apply Boxed_conform_loop; assumption.
  - apply Boxed_conform_sc.
Qed.

(** The stack frame of every state of a run is a path of the tree. *)
Lemma Boxed_track_step (sc : sconfig) (m : Z) (c c' : Boxed.config W) :
  good (Boxed_prog e) sc m -> Boxed_abs e c (erase (Boxed_prog e) sc m) ->
  Boxed.step e ctx c = Boxed.Next c' ->
  exists sc' m', good (Boxed_prog e) sc' m'
                 /\ Boxed_abs e c' (erase (Boxed_prog e) sc' m')
                 /\ (forall j, reach (Boxed_prog e) sc' j -> reach (Boxed_prog e) sc j).
Proof.
  intros Hg Ha Hs.
  destruct (Boxed_conform c c' _ Ha (good_hop_ok _ HP _ _ Hg) Hs) as (ac' & Hstep & Ha').
  destruct (good_step _ HP _ _ _ Hg Hstep) as (sc' & m' & -> & Hg' & Hr & _).
  exists sc', m'. auto.
Qed.

Lemma Boxed_track (k : nat) :
  forall (sc : sconfig) (m : Z) (c c' : Boxed.config W),
    good (Boxed_prog e) sc m -> Boxed_abs e c (erase (Boxed_prog e) sc m) ->
    Boxed_steps e ctx k c = Some c' ->
    exists sc' m', good (Boxed_prog e) sc' m'
                   /\ Boxed_abs e c' (erase (Boxed_prog e) sc' m')
                   /\ (forall j, reach (Boxed_prog e) sc' j -> reach (Boxed_prog e) sc j).
Proof.
  induction k as [|k IH]; intros sc m c c' Hg Ha Hs.
  - cbn in Hs. injection Hs as <-. exists sc, m. auto.
  - cbn [Boxed_steps] in Hs.
    destruct (Boxed.step e ctx c) as [c1| |] eqn:E; try discriminate.
    destruct (Boxed_track_step sc m c c1 Hg Ha E) as (sc1 & m1 & Hg1 & Ha1 & Hr1).
    destruct (IH sc1 m1 c1 c' Hg1 Ha1 Hs) as (sc' & m' & Hg' & Ha' & Hr').
    exists sc', m'. auto.
Qed.

Lemma Boxed_steps_add (k k' : nat) (c : Boxed.config W) :
  Boxed_steps e ctx (k + k') c = Boxed_steps e ctx k c ≫= Boxed_steps e ctx k'.
Proof.
  revert c. induction k as [|k IH]; intros c; [reflexivity|].
  cbn [Nat.add Boxed_steps]. destruct (Boxed.step e ctx c); try reflexivity. apply IH.
Qed.

Lemma Boxed_init_abs (w : W) :
  Boxed.maxStackSize e < 2 ^ 15 ->
  good (Boxed_prog e) (SFresh 0 []) (-1)
  /\ Boxed_abs e (Boxed.AtLoop (Boxed.init e w)) (erase (Boxed_prog e) (SFresh 0 []) (-1)).
Proof.
  intros Hsz. split.
  - cbn. split_and!; [constructor|lia|exact I].
  - cbn. unfold Boxed_frames, Boxed_live, Boxed.init. cbn.
    rewrite length_replicate.
    assert (Hs : 8 <= Boxed.stackSize (Boxed.maxStackSize e) < 2 ^ 15).
    { unfold Boxed.stackSize. change (2 ^ 15) with 32768 in *. repeat case_decide; lia. }
    split_and!; try reflexivity; try lia.
    destruct (Z.to_nat (Boxed.stackSize (Boxed.maxStackSize e))) as [|n] eqn:E; [lia|].
    reflexivity.
Qed.

Lemma Boxed_dispatches_head (s : Boxed.vm W) (j : Z) (nj : Boxed.node W) :
  Boxed_dispatches e s j nj ->
  Boxed_frames s = j :: reverse (take (Z.to_nat (Boxed.sfTop s)) (Boxed.sf s)).
Proof. intros (_ & Hpop & _). apply Boxed_popped_frames. exact Hpop. Qed.
End BoxedTrack.

(** * Laziness along whole runs: the node-record variant *)

Section BoxedLazy.
Context {W : Type}.
Variable e : Boxed.Expr W.
Variable ctx : Ctx W.
Variable w : W.
Hypothesis HP : tree_shaped (Boxed_prog e).
Hypothesis Hsize : Boxed.maxStackSize e < 2 ^ 15.

Lemma Boxed_reached (k : nat) (c : Boxed.config W) :
  Boxed_steps e ctx k (Boxed.AtLoop (Boxed.init e w)) = Some c ->
  exists sc m, good (Boxed_prog e) sc m /\ Boxed_abs e c (erase (Boxed_prog e) sc m).
Proof.
  intros H. destruct (Boxed_init_abs e w Hsize) as [Hg Ha].
  destruct (Boxed_track e ctx HP k _ _ _ _ Hg Ha H) as (sc & m & Hg' & Ha' & _).
  eauto.
Qed.

Lemma Boxed_later_dispatch (sc : sconfig) (m : Z) (c : Boxed.config W) (k : nat)
    (s' : Boxed.vm W) (j : Z) (nj : Boxed.node W) :
  good (Boxed_prog e) sc m -> Boxed_abs e c (erase (Boxed_prog e) sc m) ->
  Boxed_steps e ctx k c = Some (Boxed.AtLoop s') ->
  Boxed_dispatches e s' j nj ->
  reach (Boxed_prog e) sc j.
Proof.
  intros Hg Ha Hs Hd.
  destruct (Boxed_track e ctx HP k _ _ _ _ Hg Ha Hs) as (sc' & m' & Hg' & Ha' & Hr).
  apply Hr.
  destruct sc'; cbn in Ha'; try contradiction;
    destruct Ha' as (Hstk & Hm & _); rewrite (Boxed_dispatches_head e _ _ _ Hd) in Hstk.
  - injection Hstk as -> _. left. apply sub_refl.
  - injection Hstk as -> _. left. reflexivity.
  - injection Hstk as -> _. left. left. reflexivity.
  - injection Hstk as Hj _. left. symmetry. exact Hj.
  - discriminate.
Qed.
End BoxedLazy.


(** X3. Node-record variant, on a node table that lays out a tree: after
    the second visit of a conditional has read the boolean [b] and pushed
    the branch it selects, no node of the other branch is dispatched for the
    rest of the evaluation, the End node apart: the End node is dispatched
    as the join point, and it lies in the other branch only when the
    conditional has three children and [b] is true, the slot of the else
    branch being the End node itself then. *)
Theorem Boxed_cond_skips_branch {W} (e : Boxed.Expr W) (ctx : Ctx W) (w : W)
    (k k' : nat) (s s' : Boxed.vm W) (c j : Z) (nc nj : Boxed.node W) (b : bool)
    (HP : tree_shaped (Boxed_prog e))
    (Hsize : Boxed.maxStackSize e < 2 ^ 15)
    (Hk : Boxed_steps e ctx k (Boxed.AtLoop (Boxed.init e w)) = Some (Boxed.AtLoop s))
    (Hd : Boxed_dispatches e s c nc)
    (Hty : Boxed.getNodeType nc = cond)
    (Hsecond : ~ c > Boxed.maxIdx s)
    (Hos : load (Boxed.os s) (Boxed.osTop s) = Some (VBool b))
    (Hk' : Boxed_steps e ctx (k + S k') (Boxed.AtLoop (Boxed.init e w))
           = Some (Boxed.AtLoop s'))
    (Hd' : Boxed_dispatches e s' j nj) :
  let other := if b then Boxed.childIdx nc + 2 else Boxed.childIdx nc + 1 in
  (j <> Boxed.childIdx nc + int16 (Boxed.childCnt nc) - 1 -> ~ sub (Boxed_prog e) other j)
  /\ (int16 (Boxed.childCnt nc) <> 3 \/ b = false -> ~ sub (Boxed_prog e) other j).
Proof.
  cbv zeta.
  assert (Hmain : sub (Boxed_prog e)
                    (if b then Boxed.childIdx nc + 2 else Boxed.childIdx nc + 1) j ->
                  j = Boxed.childIdx nc + int16 (Boxed.childCnt nc) - 1
                  /\ b = true /\ int16 (Boxed.childCnt nc) = 3);
    [intros Hsub|split; intros H Hsub; apply Hmain in Hsub as (? & ? & ?);
                 [contradiction|destruct H; congruence]].
  rewrite Boxed_steps_add, Hk in Hk'. cbn [mbind option_bind Boxed_steps] in Hk'.
  destruct (Boxed_reached e ctx w HP Hsize k _ Hk) as (sc & m & Hg & Ha).
  pose proof Hd as (Hne & Hpop & Hnode).
  pose proof (Boxed_prog_load e _ _ Hnode) as Hn.
  pose proof (kindOf_cond _ Hty) as Hkind.
  destruct (cond_children _ HP c _ Hn Hkind)
    as (Hcnt & _ & (n1 & Hl1 & _ & Hp1 & _) & (n2 & Hl2 & _ & Hp2 & _)
        & (ne & Hle & Hke & Hpe & _)).
  cbn in Hcnt, Hl1, Hl2, Hle.
  assert (Hm : m = Boxed.maxIdx s /\ erase (Boxed_prog e) sc m
               = ALoop (c :: reverse (take (Z.to_nat (Boxed.sfTop s)) (Boxed.sf s))) m
               /\ -1 <= Boxed.sfTop s < Z.of_nat (length (Boxed.sf s))
               /\ Z.of_nat (length (Boxed.sf s)) < 2 ^ 15).
  { destruct (erase (Boxed_prog e) sc m) as [stk0 m0|] eqn:Ee; [|contradiction].
    assert (m0 = m) by (destruct sc; cbn in Ee; congruence). subst m0.
    destruct Ha as (-> & -> & Ht & Hl).
    rewrite (Boxed_dispatches_head e _ _ _ Hd). auto. }
  destruct Hm as (-> & He & Htop & Hlen).
  destruct (good_branch _ HP sc _ c _ _ b Hg He Hn Hkind Hsecond) as (sc' & He' & Hg' & Hlazy).
  cbn in He', Hlazy.
  pose proof (load_Some_range _ _ _ Hpop) as Hr.
  rewrite (Boxed_cond_second_visit e ctx s c nc (VBool b) Hd Hty Hsecond Hos) in Hk'
    by (unfold in_signed; change (2 ^ (16 - 1)) with (2 ^ 15); lia).
  assert (Hbr : (if b then int16 (Boxed.childIdx nc + 1) else int16 (Boxed.childIdx nc + 2))
                = (if b then Boxed.childIdx nc + 1 else Boxed.childIdx nc + 2)).
  { apply load_Some_range in Hl1, Hl2. pose proof (ts_size _ HP).
    destruct b; apply int16_small; unfold in_signed;
      change (2 ^ (16 - 1)) with (2 ^ 15); lia. }
  rewrite Hbr in Hk'.
  assert (Ha1 : Boxed_abs e
            (Boxed.AtLoop
               (Boxed.mkVM (Boxed.maxIdx s)
                  (<[Z.to_nat (Boxed.sfTop s) :=
                       if b then Boxed.childIdx nc + 1 else Boxed.childIdx nc + 2]> (Boxed.sf s))
                  (Boxed.sfTop s) (Boxed.os s) (int16 (Boxed.osTop s - 1))
                  (Boxed.scTriggered s) (Boxed.io s)))
            (erase (Boxed_prog e) sc' (Boxed.maxIdx s))).
  { rewrite He'. cbn. unfold Boxed_frames, Boxed_live. cbn. rewrite length_insert.
    split_and!; try reflexivity; try lia.
    replace (Z.to_nat (Boxed.sfTop s + 1)) with (S (Z.to_nat (Boxed.sfTop s))) by lia.
    rewrite take_S_insert by lia. rewrite reverse_app. reflexivity. }
  pose proof (Boxed_later_dispatch e ctx HP _ _ _ _ _ _ _ Hg' Ha1 Hk' Hd') as Hreach.
  pose proof (Hlazy j Hreach Hsub) as Hj.
  rewrite (aend_eq _ c _ Hn) in Hj. cbn in Hj. split; [exact Hj|].
  (* the End node lies in the other branch only if it is that branch *)
  assert (Hother : (if b then Boxed.childIdx nc + 2 else Boxed.childIdx nc + 1)
                   = Boxed.childIdx nc + int16 (Boxed.childCnt nc) - 1).
  { destruct (decide ((if b then Boxed.childIdx nc + 2 else Boxed.childIdx nc + 1)
                      = Boxed.childIdx nc + int16 (Boxed.childCnt nc) - 1)) as [E|E];
      [exact E|exfalso].
    rewrite Hj in Hsub.
    destruct b.
    - eapply (sib_disjoint _ HP (Boxed.childIdx nc + 2) _ c _ n2 ne); eauto. apply sub_refl.
    - eapply (sib_disjoint _ HP (Boxed.childIdx nc + 1) _ c _ n1 ne); eauto. apply sub_refl. }
  destruct b; [split; [reflexivity|lia]|lia].
Qed.

(** X5. Node-record variant, on a node table that lays out a tree: the
    table [sfSize] holds the height of the stack frame at which a node is
    dispatched.  Whenever the loop dispatches an operator node (on its first
    or its second visit) or a conditional on its first visit, the live stack
    frame, that node included, has exactly [sfSize[node]] entries; this is
    what makes the rewind [sfTop = sfSize[t] - 2] of a short circuit drop
    the target and everything above it, and nothing else. *)
Theorem Boxed_frame_height {W} (e : Boxed.Expr W) (ctx : Ctx W) (w : W)
    (k : nat) (s : Boxed.vm W) (x : Z) (nx : Boxed.node W)
    (HP : tree_shaped (Boxed_prog e))
    (Hsize : Boxed.maxStackSize e < 2 ^ 15)
    (Hk : Boxed_steps e ctx k (Boxed.AtLoop (Boxed.init e w)) = Some (Boxed.AtLoop s))
    (Hd : Boxed_dispatches e s x nx)
    (Hty : Boxed.getNodeType nx = operator
           \/ (Boxed.getNodeType nx = cond /\ x > Boxed.maxIdx s)) :
  load (Boxed.sfSize e) x = Some (Boxed.sfTop s + 1).
Proof.
  destruct (Boxed_reached e ctx w HP Hsize k _ Hk) as (sc & m & Hg & Ha).
  pose proof Hd as (Hne & Hpop & Hnode).
  pose proof (Boxed_prog_load e _ _ Hnode) as Hn.
  pose proof (load_Some_range _ _ _ Hpop) as Hr.
  assert (Hkind : akind_at (Boxed_prog e) x = Some KOp \/ akind_at (Boxed_prog e) x = Some KCond).
  { rewrite (akind_at_load _ _ _ Hn). cbn.
    destruct Hty as [Hty|[Hty _]]; [left; rewrite (kindOf_operator _ Hty)
                                    |right; rewrite (kindOf_cond _ Hty)]; reflexivity. }
  assert (Hpath : exists path, wf_path (Boxed_prog e) x path
                    /\ stack_of (Boxed_prog e) path
                       = reverse (take (Z.to_nat (Boxed.sfTop s)) (Boxed.sf s))).
  { destruct sc as [x0 path|o rest|c rest|c rest| |i0 x0 path]; cbn in Ha; try contradiction;
      destruct Ha as (Hstk & Hm & _); rewrite (Boxed_dispatches_head e _ _ _ Hd) in Hstk.
    - injection Hstk as -> Hstk. destruct Hg as (Hw & _). eauto.
    - injection Hstk as -> Hstk. destruct Hg as (Hw & _). eauto.
    - injection Hstk as -> Hstk. destruct Hg as (_ & Hkc & Hcm & _). exfalso.
      destruct Hty as [Hty|[_ Hgt]]; [|lia].
      rewrite (akind_at_load _ _ _ Hn) in Hkc. cbn in Hkc.
      rewrite (kindOf_operator _ Hty) in Hkc. discriminate.
    - injection Hstk as Hx Hstk. destruct Hg as (_ & Hkc). exfalso.
      apply (akind_at_Some (Boxed_prog e)) in Hkc as (n0 & Hl0 & Hk0).
      destruct (cond_children _ HP c n0 Hl0 Hk0) as (_ & _ & _ & _ & ne & Hle & Hke & _).
      rewrite (aend_eq _ c n0 Hl0) in Hx. rewrite Hx in Hle.
      rewrite (akind_at_load _ _ _ Hle), Hke in Hkind. destruct Hkind; discriminate.
    - discriminate. }
  destruct Hpath as (path & Hw & Hstk).
  destruct (wf_path_depth _ HP x path Hw Hkind) as (n' & Hl' & Hlen).
  rewrite Hn in Hl'. injection Hl' as <-. cbn in Hlen.
  rewrite Hstk, length_reverse, length_take in Hlen.
  apply load_Some_range in Hnode.
  apply default_load; lia.
Qed.

Lemma anc_parent_eq (P : list anode) (t i : Z) (n : anode) :
  load P i = Some n -> aparent n = t -> anc P t i.
Proof. intros H <-. apply anc_parent. exact H. Qed.

(** Checking that a concrete node table lays out a tree. *)
Ltac tree_child :=
  eexists; split; [vm_compute; reflexivity|];
  cbn [akind_of afirst acnt atarget aparent adepth];
  split_and!; try lia; try reflexivity;
  try (intros [Hc|Hc]; (discriminate Hc || reflexivity)).

Ltac tree_children k Hk :=
  first
    [ (assert (k = 0) by lia; subst k; tree_child)
    | (let E := fresh in
       assert (E : k = 0 \/ k = 1) by lia; destruct E; subst k; tree_child)
    | (let E := fresh in
       assert (E : k = 0 \/ k = 1 \/ k = 2) by lia;
       destruct E as [|[|]]; subst k; tree_child) ].

Ltac tree_node :=
  unfold node_shaped; cbn [akind_of afirst acnt atarget aparent adepth];
  split; [|split];
  [ lia
  | first [ left; reflexivity
          | right; split; [lia|];
            eapply anc_parent_eq; [vm_compute; reflexivity|reflexivity] ]
  | first [ exact I
          | split; [lia|]; let k := fresh "k" in let Hk := fresh "Hk" in
            intros k Hk; tree_children k Hk
          | split; [lia|]; split; [tree_child|]; split; [tree_child|];
            split; [tree_child|];
            eexists; split; [vm_compute; reflexivity|];
            split; [reflexivity|]; split; [reflexivity|lia] ] ].

Lemma exprFalseAndBOrC_tree : tree_shaped (Boxed_prog (@exprFalseAndBOrC unit)).
Proof.
  let v := eval vm_compute in (Boxed_prog (@exprFalseAndBOrC unit)) in
  change (Boxed_prog (@exprFalseAndBOrC unit)) with v.
  constructor.
  - cbn. lia.
  - intros n [= <-]. reflexivity.
  - intros i n H. unfold load in H. case_decide; [|discriminate].
    destruct (Z.to_nat i) as [|[|[|[|[|k]]]]] eqn:Ei; try discriminate;
      injection H as <-.
    + replace i with 0 by lia. tree_node.
    + replace i with 1 by lia. tree_node.
    + replace i with 2 by lia. tree_node.
    + replace i with 3 by lia. tree_node.
    + replace i with 4 by lia. tree_node.
Qed.

Lemma exprIf_tree : tree_shaped (Boxed_prog (@exprIf unit)).
Proof.
  let v := eval vm_compute in (Boxed_prog (@exprIf unit)) in
  change (Boxed_prog (@exprIf unit)) with v.
  constructor.
  - cbn. lia.
  - intros n [= <-]. reflexivity.
  - intros i n H. unfold load in H. case_decide; [|discriminate].
    destruct (Z.to_nat i) as [|[|[|[|[|k]]]]] eqn:Ei; try discriminate;
      injection H as <-.
    + replace i with 0 by lia. tree_node.
    + replace i with 1 by lia. tree_node.
    + replace i with 2 by lia. tree_node.
    + replace i with 3 by lia. tree_node.
    + replace i with 4 by lia. tree_node.
Qed.


(** In [if(p, 1, 0)] with [p] true, the then branch (node 2) is dispatched
    after the second visit of the conditional; it lies outside the else
    branch (node 3). *)
Lemma Boxed_cond_skips_branch_witness :
  (2 <> 1 + int16 4 - 1 -> ~ sub (Boxed_prog (@exprIf unit)) 3 2)
  /\ (int16 4 <> 3 \/ true = false -> ~ sub (Boxed_prog (@exprIf unit)) 3 2).
Proof.
  apply (Boxed_cond_skips_branch exprIf (constCtx (VBool true, None) false) tt
           3 0
           (Boxed.mkVM 0 [4; 0; 1; 0; 0; 0; 0; 0] 1 (VBool true :: replicate 7 VNil) 0 false
              (mkIO tt [CallGet 1 "p"]))
           (Boxed.mkVM 0 [4; 2; 1; 0; 0; 0; 0; 0] 1 (VBool true :: replicate 7 VNil) (-1) false
              (mkIO tt [CallGet 1 "p"]))
           0 2
           (Boxed.mkNode cond 4 0 1 0 (VString "if") None)
           (Boxed.mkNode constant 0 0 0 0 (VInt64 1) None) true).
  - exact exprIf_tree.
  - vm_compute. reflexivity.
  - vm_compute. reflexivity.
  - split; [vm_compute; discriminate|]. split; vm_compute; reflexivity.
  - vm_compute. reflexivity.
  - vm_compute. discriminate.
  - vm_compute. reflexivity.
  - vm_compute. reflexivity.
  - split; [vm_compute; discriminate|]. split; vm_compute; reflexivity.
Defined.

(** In [(false and b) or c] the [and] node 1 is dispatched with three
    entries on the stack frame. *)
Lemma Boxed_frame_height_witness :
  load (Boxed.sfSize (@exprFalseAndBOrC unit)) 1 = Some 3.
Proof.
  apply (Boxed_frame_height exprFalseAndBOrC (constCtx (VBool true, None) false) tt 1
           (Boxed.mkVM 0 [0; 2; 1; 0; 0; 0; 0; 0] 2 (replicate 8 VNil) (-1) false
              (mkIO tt []))
           1 (Boxed.mkNode operator 2 0 3 0 (VString "and") (Some opAnd))).
  - exact exprFalseAndBOrC_tree.
  - vm_compute. reflexivity.
  - vm_compute. reflexivity.
  - split; [vm_compute; discriminate|]. split; vm_compute; reflexivity.
  - left. vm_compute. reflexivity.
Defined.

(** * The flat variant follows the list machine *)

Lemma Flat_prog_length {W} (e : Flat.Expr W) :
  length (Flat_prog e) = ((length (Flat.bytecode e) + 3) / 4)%nat.
Proof. unfold Flat_prog. rewrite length_fmap, length_seq. reflexivity. Qed.

Lemma Flat_prog_load {W} (e : Flat.Expr W) (i b0 : Z) :
  0 <= i -> load (Flat.bytecode e) (4 * i) = Some b0 ->
  load (Flat_prog e) i
  = Some (mkANode (kindOf b0)
            (default 0 (Flat.bytecode e !! Z.to_nat (4 * i + 1)))
            (Z.shiftr b0 8)
            (default 0 (Flat.scIdx e !! Z.to_nat i))
            (default (-1) (Flat.parentIdx e !! Z.to_nat i))
            (default 0 (Flat.sfSize e !! Z.to_nat i))).
Proof.
intros Hi Hb. pose proof (load_Some_range _ _ _ Hb) as Hr.
apply load_lookup in Hb as [_ Hb].
unfold load, Flat_prog. rewrite decide_True by exact Hi.
rewrite list_lookup_fmap.
assert (Hlt : (Z.to_nat i < (length (Flat.bytecode e) + 3) / 4)%nat).
{ apply Nat.div_le_lower_bound; lia. }
rewrite lookup_seq_lt by exact Hlt. cbn -[Nat.mul].
replace (4 * Z.to_nat i)%nat with (Z.to_nat (4 * i)) by lia.
replace (Z.to_nat (4 * i) + 1)%nat with (Z.to_nat (4 * i + 1)) by lia.
rewrite Hb. reflexivity.
Qed.

Lemma Flat_prog_valid {W} (e : Flat.Expr W) (i : Z) (n : anode) :
  load (Flat_prog e) i = Some n ->
  0 <= i /\ 4 * i < Z.of_nat (length (Flat.bytecode e)).
Proof.
intros H. apply load_Some_range in H. rewrite Flat_prog_length in H.
split; [lia|].
assert (Hlt : (Z.to_nat i < (length (Flat.bytecode e) + 3) / 4)%nat) by lia.
pose proof (Nat.Div0.mul_div_le (length (Flat.bytecode e) + 3) 4) as Hdiv. lia.
Qed.

Lemma Flat_push_inv {A} (a a' : list A) (top top' : Z) (x : A) :
  -1 <= top -> top + 1 < 2 ^ 15 ->
  Flat.push a top x = Some (a', top') ->
  top' = top + 1 /\ top + 1 < Z.of_nat (length a) /\ a' = <[Z.to_nat (top + 1) := x]> a.
Proof.
intros H0 H1. unfold Flat.push.
rewrite int_bounded by lia.
destruct (store a (top + 1) x) as [a1|] eqn:E; [|discriminate].
cbn. intros [= <- <-]. apply store_Some_range in E as [Hr ->].
split_and!; [reflexivity|lia|reflexivity].
Qed.

Lemma Flat_pushChildren_lookup (n : nat) :
  forall (i : Z) (sf sf' : list Z) (top c : Z),
    0 <= i -> i + Z.of_nat n <= 2 ^ 14 -> - 2 ^ 14 <= top < 2 ^ 15 ->
    0 <= c -> c + i + Z.of_nat n <= 2 ^ 15 ->
    Flat.pushChildren n i sf top c = Some sf' ->
    length sf' = length sf
    /\ (forall p : nat,
          sf' !! p = if decide (top - i - Z.of_nat n < Z.of_nat p <= top - i)
                     then Some (c + (top - Z.of_nat p)) else sf !! p).
Proof.
induction n as [|n IH]; intros i sf sf' top c Hi Hin Htop Hc Hcn H.
- cbn in H. injection H as <-. split; [reflexivity|].
  intros p. rewrite decide_False by lia. reflexivity.
- cbn [Flat.pushChildren] in H.
  rewrite (int_bounded (top - i)), (int_bounded (c + i)), (int_bounded (i + 1)) in H by lia.
  destruct (store sf (top - i) (c + i)) as [sf1|] eqn:Es; [|discriminate].
  cbn in H. apply store_Some_range in Es as [Hr ->].
  apply IH in H as [Hlen Hlk]; try lia.
  rewrite length_insert in Hlen. split; [exact Hlen|].
  intros p. rewrite Hlk.
  destruct (decide (Z.of_nat p = top - i)) as [Hp|Hp].
  + rewrite decide_False by lia. rewrite decide_True by lia.
    replace p with (Z.to_nat (top - i)) by lia.
    rewrite list_lookup_insert_eq by lia. f_equal. lia.
  + rewrite list_lookup_insert_ne by lia.
    destruct (decide (top - (i + 1) - Z.of_nat n < Z.of_nat p <= top - (i + 1))).
    * rewrite decide_True by lia. reflexivity.
    * rewrite decide_False by lia. reflexivity.
Qed.

Section FlatConform.
Context {W : Type}.
Variable e : Flat.Expr W.
Variable ctx : Ctx W.
Hypothesis HP : tree_shaped (Flat_prog e).

Lemma Flat_child_small (i c d : Z) :
  child_shaped (Flat_prog e) i c d -> 0 <= c < 2 ^ 15.
Proof.
intros (nc & Hl & _). apply load_Some_range in Hl.
pose proof (ts_size _ HP). lia.
Qed.

Lemma Flat_popped_frames (s : Flat.vm W) (curt : Z) :
  load (Flat.sf s) (Flat.sfTop s) = Some curt ->
  Flat_frames s = curt :: reverse (take (Z.to_nat (Flat.sfTop s)) (Flat.sf s)).
Proof. intros H. unfold Flat_frames, Flat_live. apply frames_pop. exact H. Qed.

(** One turn of the dispatch loop is a step of the list machine. *)
Lemma Flat_conform_loop (s : Flat.vm W) (c' : Flat.config W) (stk : list Z) (m : Z) :
  Flat_abs e (Flat.AtLoop s) (ALoop stk m) ->
  head_small (ALoop stk m) ->
  Flat.dispatch e ctx s = Flat.Next c' ->
  exists ac', astep (Flat_prog e) (ALoop stk m) ac' /\ Flat_abs e c' ac'.
Proof.
intros (-> & -> & Htop & Hlen) Hhead. unfold Flat.dispatch.
destruct (decide (Flat.sfTop s = -1)) as [E|Hne].
{ destruct (load (Flat.os s) 0); discriminate. }
destruct (load (Flat.sf s) (Flat.sfTop s)) as [curt|] eqn:Hpop; [|discriminate].
cbn [Flat.orPanic].
rewrite (Flat_popped_frames s curt Hpop) in Hhead |- *. cbn in Hhead.
rewrite (int_bounded (curt * 4)) by lia.
replace (curt * 4) with (4 * curt) by lia.
destruct (load (Flat.bytecode e) (4 * curt)) as [b0|] eqn:Hb0; [|discriminate].
cbn [Flat.orPanic].
pose proof (load_Some_range _ _ _ Hb0) as Hvalid.
pose proof (Flat_prog_load e curt b0 ltac:(lia) Hb0) as Hn.
pose proof (ts_node _ HP _ _ Hn) as (Hpar & Htgt & Hshape).
cbn [akind_of afirst acnt atarget aparent adepth] in Hpar, Htgt, Hshape.
set (below := reverse (take (Z.to_nat (Flat.sfTop s)) (Flat.sf s))).
rewrite (int_bounded (Flat.sfTop s - 1)) by lia.
assert (Hbelow : reverse (take (Z.to_nat (Flat.sfTop s - 1 + 1)) (Flat.sf s)) = below).
{ unfold below. do 2 f_equal. lia. }
assert (Hleaf : forall io1 res, kindOf b0 = KLeaf ->
          exists ac', astep (Flat_prog e) (ALoop (curt :: below) (Flat.maxIdx s)) ac'
            /\ Flat_abs e
                 (Flat.AtShortCircuit
                    (Flat.mkVM (Flat.maxIdx s) (Flat.sf s) (Flat.sfTop s - 1) (Flat.os s)
                       (Flat.osTop s) (Flat.scTriggered s) io1)
                    curt (Z.land b0 scMask) res) ac').
{ intros io1 res Hk. exists (ASC below (Flat.maxIdx s) curt). split.
  - eapply AS_leaf; [exact Hn|exact Hk].
  - cbn. unfold Flat_frames, Flat_live. cbn. rewrite Hbelow.
    split_and!; try reflexivity; try lia. }
destruct (kindOf_cases b0)
  as [[Hty Hk]|[[Hty Hk]|[[Hty Hk]|[[Hty Hk]|[[Hty Hk]|[[Hty Hk]|Hdbg]]]]]];
  cbv zeta in *.
- (* fastOperator *)
  node_type Hty.
  destruct (load (Flat.bytecode e) (int (4 * curt + 1))) as [childIdx|]; [|discriminate].
  cbn [Flat.orPanic].
  destruct (Flat.fastOperatorParams e ctx _ _ _) as [[[param|err] io1]|];
    cbn [Flat.orPanic]; try discriminate.
  destruct (Flat.invoke e ctx curt _ param io1) as [[[res [err|]] io2]|];
    cbn [Flat.orPanic]; try discriminate.
  intros [= <-]. exact (Hleaf io2 res Hk).
- (* operator *)
  node_type Hty. rewrite Hk in Hshape. destruct Hshape as (Hcnt & Hch).
  destruct (decide (curt > Flat.maxIdx s)) as [Hgt|Hle].
  + destruct (Flat.push (Flat.sf s) (Flat.sfTop s - 1) curt) as [[sf1 sfTop1]|] eqn:E1;
      [|discriminate]. cbn [Flat.orPanic].
    apply Flat_push_inv in E1 as (-> & Hl1 & ->); [|lia|lia].
    replace (Flat.sfTop s - 1 + 1) with (Flat.sfTop s) in * by lia.
    assert (Hsf1 : <[Z.to_nat (Flat.sfTop s) := curt]> (Flat.sf s) = Flat.sf s).
    { apply list_insert_id. apply load_lookup in Hpop as [_ Hpop]. exact Hpop. }
    rewrite Hsf1.
    rewrite (int_bounded (4 * curt + 1)) by lia.
    destruct (load (Flat.bytecode e) (4 * curt + 1)) as [childIdx|] eqn:Ech; [|discriminate].
    cbn [Flat.orPanic].
    rewrite (load_default _ _ _ 0 Ech) in Hn, Hch.
    destruct (decide (Z.shiftr b0 8 = 2)) as [E2|E2].
    * pose proof (Hch 0 ltac:(lia)) as Hc0. pose proof (Hch 1 ltac:(lia)) as Hc1.
      apply Flat_child_small in Hc0, Hc1. rewrite Z.add_0_r in Hc0.
      rewrite (int_bounded (childIdx + 1)) by lia.
      destruct (Flat.push (Flat.sf s) (Flat.sfTop s) (childIdx + 1))
        as [[sf2 sfTop2]|] eqn:E3; [|discriminate]. cbn [Flat.orPanic].
      apply Flat_push_inv in E3 as (-> & Hl2 & ->); [|lia|lia].
      destruct (Flat.push _ (Flat.sfTop s + 1) childIdx)
        as [[sf3 sfTop3]|] eqn:E4; [|discriminate]. cbn [Flat.orPanic].
      apply Flat_push_inv in E4 as (-> & Hl3 & ->); [|lia|lia].
      rewrite length_insert in Hl3.
      intros [= <-].
      exists (ALoop (seqZ childIdx (Z.shiftr b0 8) ++ curt :: below) curt).
      split.
      -- apply (AS_op_first _ curt below (Flat.maxIdx s) _ Hn Hk Hgt).
      -- cbn. unfold Flat_frames, Flat_live. cbn.
         rewrite length_insert, length_insert. split_and!; try reflexivity; try lia.
         rewrite E2.
         rewrite frames_push by (rewrite ?length_insert; lia).
         rewrite frames_push by lia.
         rewrite (frames_pop _ _ _ Hpop), seqZ_two. reflexivity.
    * destruct (Flat.pushChildren _ 0 _ _ _) as [sf2|] eqn:E3; [|discriminate].
      cbn [Flat.orPanic]. intros [= <-].
      exists (ALoop (seqZ childIdx (Z.shiftr b0 8) ++ curt :: below) curt).
      split; [apply (AS_op_first _ curt below (Flat.maxIdx s) _ Hn Hk Hgt)|].
      set (cnt := Z.shiftr b0 8) in *.
      rewrite (int_bounded (Flat.sfTop s + cnt)) in * by lia.
      destruct (decide (cnt = 0)) as [E0|E0].
      -- rewrite E0 in *. cbn in E3. injection E3 as <-.
         rewrite Z.add_0_r.
         cbn. unfold Flat_frames, Flat_live. cbn.
         split_and!; try reflexivity; try lia.
         rewrite (frames_pop _ _ _ Hpop). reflexivity.
      -- pose proof (Hch 0 ltac:(lia)) as Hc0.
         pose proof (Hch (cnt - 1) ltac:(lia)) as Hc1.
         apply Flat_child_small in Hc0, Hc1. rewrite Z.add_0_r in Hc0.
         assert (Hfirst : exists sf', store (Flat.sf s) (int (Flat.sfTop s + cnt - 0))
                            (int (childIdx + 0)) = Some sf').
         { destruct (Z.to_nat cnt) as [|k] eqn:Ek; [lia|].
           cbn [Flat.pushChildren] in E3.
           destruct (store _ _ _) as [sf'|]; [eauto|discriminate]. }
         destruct Hfirst as (sf' & Hfirst).
         apply store_Some_range in Hfirst as [Hfirst _].
         rewrite Z.sub_0_r, (int_bounded (Flat.sfTop s + cnt)) in Hfirst by lia.
         apply Flat_pushChildren_lookup in E3 as [Hlen2 Hlk];
           [|lia|change (2 ^ 14) with 16384; lia
            |change (2 ^ 14) with 16384; change (2 ^ 15) with 32768 in *; lia
            |lia|change (2 ^ 15) with 32768 in *; lia].
         cbn. unfold Flat_frames, Flat_live. cbn. rewrite Hlen2.
         split_and!; try reflexivity; try lia.
         rewrite (frames_children (Flat.sf s) sf2 (Flat.sfTop s + cnt) cnt childIdx);
           try lia.
         ++ replace (Flat.sfTop s + cnt - cnt + 1) with (Flat.sfTop s + 1) by lia.
            rewrite (frames_pop _ _ _ Hpop). reflexivity.
         ++ intros p. rewrite Hlk. rewrite Z2Nat.id by lia.
            replace (Flat.sfTop s + cnt - 0 - cnt) with (Flat.sfTop s + cnt - cnt) by lia.
            replace (Flat.sfTop s + cnt - 0) with (Flat.sfTop s + cnt) by lia.
            reflexivity.
  + destruct (Flat.operatorParams _ _ _) as [param|]; [|discriminate].
    cbn [Flat.orPanic].
    destruct (Flat.invoke e ctx curt _ param (Flat.io s)) as [[[res [err|]] io1]|];
      cbn [Flat.orPanic]; try discriminate.
    intros [= <-]. exists (ASC below curt curt). split.
    * eapply AS_op_second; [exact Hn|exact Hk|exact Hle].
    * cbn. unfold Flat_frames, Flat_live. cbn. rewrite Hbelow.
      split_and!; try reflexivity; try lia.
- (* selector *)
  node_type Hty.
  destruct (load (Flat.bytecode e) (int (4 * curt + 3))) as [key|]; [|discriminate].
  cbn [Flat.orPanic].
  destruct (Get ctx key "" (world (Flat.io s))) as [[res [err|]] w'];
    try discriminate.
  intros [= <-]. exact (Hleaf _ res Hk).
- (* constant *)
  node_type Hty.
  destruct (load (Flat.bytecode e) (int (4 * curt + 2))) as [k|]; [|discriminate].
  cbn [Flat.orPanic].
  destruct (load (Flat.constants e) k) as [res|]; [|discriminate]. cbn [Flat.orPanic].
  intros [= <-]. exact (Hleaf _ res Hk).
- (* cond *)
  node_type Hty. rewrite Hk in Hshape.
  rewrite (int_bounded (4 * curt + 1)) by lia.
  destruct (load (Flat.bytecode e) (4 * curt + 1)) as [childIdx|] eqn:Ech; [|discriminate].
  cbn [Flat.orPanic].
  rewrite (load_default _ _ _ 0 Ech) in Hn, Hshape.
  destruct Hshape as (Hcnt & Hc0 & Hc1 & Hc2 & ne & Hle' & Hke & Hpe & Hlte).
  apply Flat_child_small in Hc0, Hc1, Hc2.
  pose proof (load_Some_range _ _ _ Hle') as Hre.
  pose proof (ts_size _ HP) as Hsz.
  destruct (decide (curt > Flat.maxIdx s)) as [Hgt|Hle].
  + rewrite (int_bounded (childIdx + Z.shiftr b0 8)) by lia.
    rewrite (int_bounded (childIdx + Z.shiftr b0 8 - 1)) by lia.
    destruct (Flat.push (Flat.sf s) (Flat.sfTop s - 1) _) as [[sf1 sfTop1]|] eqn:E1;
      [|discriminate]. cbn [Flat.orPanic].
    apply Flat_push_inv in E1 as (-> & Hl1 & ->); [|lia|lia].
    replace (Flat.sfTop s - 1 + 1) with (Flat.sfTop s) in * by lia.
    destruct (Flat.push _ (Flat.sfTop s) curt) as [[sf2 sfTop2]|] eqn:E2;
      [|discriminate]. cbn [Flat.orPanic].
    apply Flat_push_inv in E2 as (-> & Hl2 & ->); [|lia|lia].
    rewrite !length_insert in Hl2.
    destruct (Flat.push _ (Flat.sfTop s + 1) childIdx)
      as [[sf3 sfTop3]|] eqn:E3; [|discriminate]. cbn [Flat.orPanic].
    apply Flat_push_inv in E3 as (-> & Hl3 & ->); [|lia|lia].
    rewrite !length_insert in Hl3.
    intros [= <-].
    exists (ALoop (childIdx :: curt :: (childIdx + Z.shiftr b0 8 - 1) :: below) curt).
    split.
    * apply (AS_cond_first _ curt below (Flat.maxIdx s) _ Hn Hk Hgt).
    * cbn. unfold Flat_frames, Flat_live. cbn.
      rewrite !length_insert. split_and!; try reflexivity; try lia.
      rewrite frames_push by (rewrite ?length_insert; lia).
      rewrite frames_push by (rewrite ?length_insert; lia).
      replace (Z.to_nat (Flat.sfTop s + 1)) with (S (Z.to_nat (Flat.sfTop s))) by lia.
      rewrite take_S_insert by lia. rewrite reverse_app. reflexivity.
  + destruct (load (Flat.os s) (Flat.osTop s)) as [res|]; [|discriminate].
    cbn [Flat.orPanic]. destruct res; try discriminate.
    destruct (Flat.push (Flat.sf s) (Flat.sfTop s - 1) _) as [[sf1 sfTop1]|] eqn:E1;
      [|discriminate]. cbn [Flat.orPanic].
    apply Flat_push_inv in E1 as (-> & Hl1 & ->); [|lia|lia].
    replace (Flat.sfTop s - 1 + 1) with (Flat.sfTop s) in * by lia.
    intros [= <-].
    exists (ALoop ((if b then childIdx + 1 else childIdx + 2) :: below) (Flat.maxIdx s)).
    split.
    * apply (AS_cond_second _ curt below (Flat.maxIdx s) _ b Hn Hk Hle).
    * cbn. unfold Flat_frames, Flat_live. cbn.
      rewrite !length_insert. split_and!; try reflexivity; try lia.
      replace (Z.to_nat (Flat.sfTop s + 1)) with (S (Z.to_nat (Flat.sfTop s))) by lia.
      rewrite take_S_insert by lia. rewrite reverse_app. cbn. f_equal.
      destruct b; symmetry; apply int_bounded; lia.
- (* end *)
  node_type Hty.
  destruct (load (Flat.parentIdx e) curt) as [par|] eqn:Epar; [|discriminate].
  cbn [Flat.orPanic].
  destruct (load (Flat.os s) (Flat.osTop s)) as [res|]; [|discriminate].
  cbn [Flat.orPanic]. intros [= <-].
  exists (ASC below par curt). split.
  + rewrite <- (load_default _ _ _ (-1) Epar).
    apply (AS_end _ curt below (Flat.maxIdx s) _ Hn Hk).
  + cbn. unfold Flat_frames, Flat_live. cbn. rewrite Hbelow.
    split_and!; try reflexivity; try lia.
- (* a debug node has no place in a tree *)
  destruct Hdbg as (_ & _ & _ & _ & _ & _ & Hk). rewrite Hk in Hshape. contradiction.
Qed.
End FlatConform.

Section FlatTrack.
Context {W : Type}.
Variable e : Flat.Expr W.
Variable ctx : Ctx W.
Hypothesis HP : tree_shaped (Flat_prog e).

Lemma Flat_frames_length (s : Flat.vm W) :
  -1 <= Flat.sfTop s < Z.of_nat (length (Flat.sf s)) ->
  Z.of_nat (length (Flat_frames s)) = Flat.sfTop s + 1.
Proof.
intros H. unfold Flat_frames, Flat_live. rewrite length_reverse, length_take. lia.
Qed.

Lemma Flat_node_at (i : Z) :
  0 <= i -> 4 * i < Z.of_nat (length (Flat.bytecode e)) ->
  exists b0, load (Flat.bytecode e) (4 * i) = Some b0.
Proof.
intros H0 H1. unfold load. rewrite decide_True by lia.
apply lookup_lt_is_Some. lia.
Qed.

(** One turn of the short-circuit block is a step of the list machine. *)
Lemma Flat_conform_sc (s : Flat.vm W) (curt flag : Z) (res : Value)
    (c' : Flat.config W) (stk : list Z) (m i : Z) :
  Flat_abs e (Flat.AtShortCircuit s curt flag res) (ASC stk m i) ->
  hop_ok (Flat_prog e) (ASC stk m i) ->
  Flat.shortCircuit e s curt flag res = Flat.Next c' ->
  exists ac', astep (Flat_prog e) (ASC stk m i) ac' /\ Flat_abs e c' ac'.
Proof.
intros (-> & -> & Htop & Hlen & -> & Hc0 & Hc1) Hok.
assert (Hrest : forall c',
          Flat.orPanic (Flat.push (Flat.os s) (Flat.osTop s) res)
            (fun '(os1, osTop1) =>
               Flat.Next (Flat.AtLoop
                 (Flat.mkVM (Flat.maxIdx s) (Flat.sf s) (Flat.sfTop s) os1 osTop1
                    (Flat.scTriggered s) (Flat.io s)))) = Flat.Next c' ->
          exists ac', astep (Flat_prog e) (ASC (Flat_frames s) (Flat.maxIdx s) curt) ac'
                      /\ Flat_abs e c' ac').
{ intros c0. destruct (Flat.push _ _ _) as [[os1 osTop1]|]; [|discriminate].
  cbn [Flat.orPanic]. intros [= <-].
  exists (ALoop (Flat_frames s) (Flat.maxIdx s)). split; [apply AS_push|].
  cbn. unfold Flat_frames, Flat_live. cbn. split_and!; try reflexivity; lia. }
unfold Flat.shortCircuit.
destruct res; try apply Hrest.
destruct (fires flag b) eqn:Hf; [|apply Hrest].
destruct (load (Flat.scIdx e) curt) as [t|] eqn:Et; [|discriminate].
cbn [Flat.orPanic].
destruct (decide (t = 0)) as [E0|Hnz]; [discriminate|].
destruct (load (Flat.sfSize e) t) as [sfSz|] eqn:Esf; [|discriminate].
cbn [Flat.orPanic].
destruct (load (Flat.osSize e) t) as [osSz|]; [|discriminate].
cbn [Flat.orPanic].
destruct (Flat_node_at curt Hc0 Hc1) as (bc & Hbc).
pose proof (Flat_prog_load e curt bc Hc0 Hbc) as Hn.
rewrite (load_default _ _ _ 0 Et) in Hn.
pose proof (ts_node _ HP _ _ Hn) as (_ & Htgt & _).
cbn [akind_of afirst acnt atarget aparent adepth] in Htgt.
destruct Htgt as [Htgt|[Hpos Hanc]]; [contradiction|].
pose proof (anc_lt _ HP _ _ Hanc) as Hlt.
pose proof (Flat_prog_valid e _ _ Hn) as _.
assert (Hcsmall : curt < 2 ^ 15).
{ apply load_Some_range in Hn. pose proof (ts_size _ HP). lia. }
rewrite (int_bounded (t * 4)) by lia.
replace (t * 4) with (4 * t) by lia.
destruct (load (Flat.bytecode e) (4 * t)) as [b0|] eqn:Eb0; [|discriminate].
cbn [Flat.orPanic]. intros [= <-].
pose proof (Flat_prog_load e t b0 ltac:(lia) Eb0) as Hnt.
rewrite (load_default _ _ _ 0 Esf) in Hnt.
pose proof (Hok _ _ Hn Hnz Hnt) as Hd. cbn in Hd.
rewrite Flat_frames_length in Hd by exact Htop.
pose proof (AS_hop _ (Flat_frames s) (Flat.maxIdx s) curt _ _ Hn Hnz Hnt) as Hstep.
cbn in Hstep.
eexists. split; [exact Hstep|].
apply load_Some_range in Eb0.
cbn. unfold Flat_frames, Flat_live. cbn. rewrite (int_bounded (sfSz - 2)) by lia.
split_and!; try reflexivity; try lia.
rewrite frames_lowest by lia. do 2 f_equal. lia.
Qed.

Lemma Flat_conform (c c' : Flat.config W) (ac : aconfig) :
  Flat_abs e c ac -> hop_ok (Flat_prog e) ac -> head_small ac ->
  Flat.step e ctx c = Flat.Next c' ->
  exists ac', astep (Flat_prog e) ac ac' /\ Flat_abs e c' ac'.
Proof.
destruct c as [s|s curt flag res], ac as [stk m|stk m i]; cbn [Flat.step];
  try (intros []; fail).
- intros Ha _ Hh. apply Flat_conform_loop; assumption.
- intros Ha Hok _. apply Flat_conform_sc; assumption.
Qed.

(** The stack frame of every state of a run is a path of the tree. *)
Lemma Flat_track_step (sc : sconfig) (m : Z) (c c' : Flat.config W) :
  good (Flat_prog e) sc m -> Flat_abs e c (erase (Flat_prog e) sc m) ->
  Flat.step e ctx c = Flat.Next c' ->
  exists sc' m', good (Flat_prog e) sc' m'
                 /\ Flat_abs e c' (erase (Flat_prog e) sc' m')
                 /\ (forall j, reach (Flat_prog e) sc' j -> reach (Flat_prog e) sc j).
Proof.
intros Hg Ha Hs.
destruct (Flat_conform c c' _ Ha (good_hop_ok _ HP _ _ Hg) (good_head_small _ HP _ _ Hg) Hs)
  as (ac' & Hstep & Ha').
destruct (good_step _ HP _ _ _ Hg Hstep) as (sc' & m' & -> & Hg' & Hr & _).
exists sc', m'. auto.
Qed.

Lemma Flat_track (k : nat) :
  forall (sc : sconfig) (m : Z) (c c' : Flat.config W),
    good (Flat_prog e) sc m -> Flat_abs e c (erase (Flat_prog e) sc m) ->
    Flat_steps e ctx k c = Some c' ->
    exists sc' m', good (Flat_prog e) sc' m'
                   /\ Flat_abs e c' (erase (Flat_prog e) sc' m')
                   /\ (forall j, reach (Flat_prog e) sc' j -> reach (Flat_prog e) sc j).
Proof.
induction k as [|k IH]; intros sc m c c' Hg Ha Hs.
- cbn in Hs. injection Hs as <-. exists sc, m. auto.
- cbn [Flat_steps] in Hs.
  destruct (Flat.step e ctx c) as [c1| |] eqn:E; try discriminate.
  destruct (Flat_track_step sc m c c1 Hg Ha E) as (sc1 & m1 & Hg1 & Ha1 & Hr1).
  destruct (IH sc1 m1 c1 c' Hg1 Ha1 Hs) as (sc' & m' & Hg' & Ha' & Hr').
  exists sc', m'. auto.
Qed.

Lemma Flat_steps_add (k k' : nat) (c : Flat.config W) :
  Flat_steps e ctx (k + k') c = Flat_steps e ctx k c ≫= Flat_steps e ctx k'.
Proof.
revert c. induction k as [|k IH]; intros c; [reflexivity|].
cbn [Nat.add Flat_steps]. destruct (Flat.step e ctx c); try reflexivity. apply IH.
Qed.

Lemma Flat_init_abs (w : W) :
  Flat.maxStackSize e < 2 ^ 15 ->
  good (Flat_prog e) (SFresh 0 []) (-1)
  /\ Flat_abs e (Flat.AtLoop (Flat.init e w)) (erase (Flat_prog e) (SFresh 0 []) (-1)).
Proof.
intros Hsz. split.
- cbn. split_and!; [constructor|lia|exact I].
- cbn. unfold Flat_frames, Flat_live, Flat.init. cbn.
  rewrite length_insert, length_replicate.
  assert (Hs : 4 <= Flat.stackSize (Flat.maxStackSize e) < 2 ^ 15).
  { unfold Flat.stackSize. change (2 ^ 15) with 32768 in *. repeat case_decide; lia. }
  split_and!; try reflexivity; try lia.
  destruct (Z.to_nat (Flat.stackSize (Flat.maxStackSize e))) as [|n] eqn:E; [lia|].
  reflexivity.
Qed.

Lemma Flat_dispatches_head (s : Flat.vm W) (j b0 : Z) :
  Flat_dispatches e s j b0 ->
  Flat_frames s = j :: reverse (take (Z.to_nat (Flat.sfTop s)) (Flat.sf s)).
Proof. intros (_ & Hpop & _). apply Flat_popped_frames. exact Hpop. Qed.

Variable w : W.
Hypothesis Hsize : Flat.maxStackSize e < 2 ^ 15.

Lemma Flat_reached (k : nat) (c : Flat.config W) :
  Flat_steps e ctx k (Flat.AtLoop (Flat.init e w)) = Some c ->
  exists sc m, good (Flat_prog e) sc m /\ Flat_abs e c (erase (Flat_prog e) sc m).
Proof.
intros H. destruct (Flat_init_abs w Hsize) as [Hg Ha].
destruct (Flat_track k _ _ _ _ Hg Ha H) as (sc & m & Hg' & Ha' & _).
eauto.
Qed.

Lemma Flat_later_dispatch (sc : sconfig) (m : Z) (c : Flat.config W) (k : nat)
    (s' : Flat.vm W) (j b0 : Z) :
  good (Flat_prog e) sc m -> Flat_abs e c (erase (Flat_prog e) sc m) ->
  Flat_steps e ctx k c = Some (Flat.AtLoop s') ->
  Flat_dispatches e s' j b0 ->
  reach (Flat_prog e) sc j.
Proof.
intros Hg Ha Hs Hd.
destruct (Flat_track k _ _ _ _ Hg Ha Hs) as (sc' & m' & Hg' & Ha' & Hr).
apply Hr.
destruct sc'; cbn in Ha'; try contradiction;
  destruct Ha' as (Hstk & Hm & _); rewrite (Flat_dispatches_head _ _ _ Hd) in Hstk.
- injection Hstk as -> _. left. apply sub_refl.
- injection Hstk as -> _. left. reflexivity.
- injection Hstk as -> _. left. left. reflexivity.
- injection Hstk as Hj _. left. symmetry. exact Hj.
- discriminate.
Qed.
End FlatTrack.

(** * Laziness along whole runs: the flat variant *)

(** X2. Flat bytecode variant, on a node table that lays out a tree: once
    the short-circuit test has fired on a node and hopped to the target [t]
    (its entry of [scIdx], an ancestor), no node of the subtree of [t] is
    dispatched again for the rest of the evaluation. *)
Theorem Flat_hop_skips_subtree {W} (e : Flat.Expr W) (ctx : Ctx W) (w : W)
    (k k' : nat) (s s' : Flat.vm W) (curt flag t j bj : Z) (b : bool)
    (HP : tree_shaped (Flat_prog e))
    (Hsize : Flat.maxStackSize e < 2 ^ 15)
    (Hk : Flat_steps e ctx k (Flat.AtLoop (Flat.init e w))
          = Some (Flat.AtShortCircuit s curt flag (VBool b)))
    (Hf : fires flag b = true)
    (Ht : load (Flat.scIdx e) curt = Some t)
    (Hnz : t <> 0)
    (Hk' : Flat_steps e ctx (k + S k') (Flat.AtLoop (Flat.init e w))
           = Some (Flat.AtLoop s'))
    (Hd : Flat_dispatches e s' j bj) :
  ~ sub (Flat_prog e) t j.
Proof.
rewrite Flat_steps_add, Hk in Hk'. cbn [mbind option_bind Flat_steps] in Hk'.
destruct (Flat.step e ctx (Flat.AtShortCircuit s curt flag (VBool b))) as [c1| |] eqn:E;
  try discriminate.
destruct (Flat_reached e ctx HP w Hsize k _ Hk) as (sc & m & Hg & Ha).
destruct (Flat_conform e ctx HP _ _ _ Ha (good_hop_ok _ HP _ _ Hg)
            (good_head_small _ HP _ _ Hg) E) as (ac1 & Hstep & Ha1).
cbn [Flat.step] in E. unfold Flat.shortCircuit in E. rewrite Hf, Ht in E.
cbn [Flat.orPanic] in E. rewrite decide_False in E by exact Hnz.
destruct (load (Flat.sfSize e) _) as [sfSz|]; [|discriminate]. cbn [Flat.orPanic] in E.
destruct (load (Flat.osSize e) _) as [osSz|]; [|discriminate]. cbn [Flat.orPanic] in E.
destruct (load (Flat.bytecode e) _) as [b0|]; [|discriminate]. cbn [Flat.orPanic] in E.
injection E as <-.
destruct ac1 as [stk1 m1|stk1 m1 i1]; [contradiction|].
assert (Hform : exists stk i, erase (Flat_prog e) sc m = ASC stk m i).
{ destruct sc; cbn in Ha; try contradiction. cbn. eauto. }
destruct (good_hop_step _ HP sc m stk1 m1 i1 Hg Hstep Hform) as (rest & Heq & Hm & Hg1 & Hns).
rewrite Heq in Ha1.
pose proof (Flat_later_dispatch e ctx HP _ _ _ _ _ _ _ Hg1 Ha1 Hk' Hd) as Hr.
apply Hns in Hr.
destruct Ha1 as (_ & Hm1 & _). cbn in Hm1. congruence.
Qed.

(** X4. Flat bytecode variant, on a node table that lays out a tree: after
    the second visit of a conditional has read the boolean [b] and pushed
    the branch it selects, no node of the other branch is dispatched for the
    rest of the evaluation, the End node apart: it is dispatched as the join
    point, and lies in the other branch only when the conditional has three
    children and [b] is true. *)
Theorem Flat_cond_skips_branch {W} (e : Flat.Expr W) (ctx : Ctx W) (w : W)
    (k k' : nat) (s s' : Flat.vm W) (c j b0 bj childIdx : Z) (b : bool)
    (HP : tree_shaped (Flat_prog e))
    (Hsize : Flat.maxStackSize e < 2 ^ 15)
    (Hk : Flat_steps e ctx k (Flat.AtLoop (Flat.init e w)) = Some (Flat.AtLoop s))
    (Hd : Flat_dispatches e s c b0)
    (Hty : Z.land b0 nodeTypeMask = cond)
    (Hchild : load (Flat.bytecode e) (int (int (c * 4) + 1)) = Some childIdx)
    (Hsecond : ~ c > Flat.maxIdx s)
    (Hos : load (Flat.os s) (Flat.osTop s) = Some (VBool b))
    (Hk' : Flat_steps e ctx (k + S k') (Flat.AtLoop (Flat.init e w))
           = Some (Flat.AtLoop s'))
    (Hd' : Flat_dispatches e s' j bj) :
  let other := if b then childIdx + 2 else childIdx + 1 in
  (j <> childIdx + Z.shiftr b0 8 - 1 -> ~ sub (Flat_prog e) other j)
  /\ (Z.shiftr b0 8 <> 3 \/ b = false -> ~ sub (Flat_prog e) other j).
Proof.
cbv zeta.
assert (Hmain : sub (Flat_prog e) (if b then childIdx + 2 else childIdx + 1) j ->
                j = childIdx + Z.shiftr b0 8 - 1 /\ b = true /\ Z.shiftr b0 8 = 3);
  [intros Hsub|split; intros H Hsub; apply Hmain in Hsub as (? & ? & ?);
               [contradiction|destruct H; congruence]].
rewrite Flat_steps_add, Hk in Hk'. cbn [mbind option_bind Flat_steps] in Hk'.
destruct (Flat_reached e ctx HP w Hsize k _ Hk) as (sc & m & Hg & Ha).
pose proof Hd as (Hne & Hpop & Hnode).
assert (Hm : m = Flat.maxIdx s /\ erase (Flat_prog e) sc m
             = ALoop (c :: reverse (take (Z.to_nat (Flat.sfTop s)) (Flat.sf s))) m
             /\ -1 <= Flat.sfTop s < Z.of_nat (length (Flat.sf s))
             /\ Z.of_nat (length (Flat.sf s)) < 2 ^ 15).
{ destruct (erase (Flat_prog e) sc m) as [stk0 m0|] eqn:Ee; [|contradiction].
  assert (m0 = m) by (destruct sc; cbn in Ee; congruence). subst m0.
  destruct Ha as (-> & -> & Ht & Hl).
  rewrite (Flat_dispatches_head e _ _ _ Hd). auto. }
destruct Hm as (-> & He & Htop & Hlen).
pose proof (good_head_small _ HP _ _ Hg) as Hhead. rewrite He in Hhead. cbn in Hhead.
rewrite (int_bounded (c * 4)) in Hnode, Hchild by lia.
rewrite (int_bounded (c * 4 + 1)) in Hchild by lia.
replace (c * 4) with (4 * c) in Hnode, Hchild by lia.
pose proof (Flat_prog_load e c b0 ltac:(lia) Hnode) as Hn.
rewrite (load_default _ _ _ 0 Hchild) in Hn.
pose proof (kindOf_cond _ Hty) as Hkind.
destruct (cond_children _ HP c _ Hn Hkind)
  as (Hcnt & _ & (n1 & Hl1 & _ & Hp1 & _) & (n2 & Hl2 & _ & Hp2 & _)
      & (ne & Hle & Hke & Hpe & _)).
cbn [akind_of afirst acnt atarget aparent adepth] in Hcnt, Hl1, Hl2, Hle.
destruct (good_branch _ HP sc _ c _ _ b Hg He Hn Hkind Hsecond) as (sc' & He' & Hg' & Hlazy).
cbn [akind_of afirst acnt atarget aparent adepth] in He', Hlazy.
pose proof (load_Some_range _ _ _ Hpop) as Hr.
assert (Hchild' : load (Flat.bytecode e) (int (int (c * 4) + 1)) = Some childIdx).
{ rewrite (int_bounded (c * 4)) by lia. rewrite (int_bounded (c * 4 + 1)) by lia.
  replace (c * 4) with (4 * c) by lia. exact Hchild. }
rewrite (Flat_cond_second_visit e ctx s c b0 childIdx (VBool b) Hd Hty Hchild' Hsecond Hos)
  in Hk' by (unfold in_signed; change (2 ^ (64 - 1)) with 9223372036854775808; lia).
assert (Hbr : (if b then int (childIdx + 1) else int (childIdx + 2))
              = (if b then childIdx + 1 else childIdx + 2)).
{ apply load_Some_range in Hl1, Hl2. pose proof (ts_size _ HP).
  destruct b; apply int_bounded; lia. }
rewrite Hbr in Hk'.
assert (Ha1 : Flat_abs e
          (Flat.AtLoop
             (Flat.mkVM (Flat.maxIdx s)
                (<[Z.to_nat (Flat.sfTop s) :=
                     if b then childIdx + 1 else childIdx + 2]> (Flat.sf s))
                (Flat.sfTop s) (Flat.os s) (int (Flat.osTop s - 1))
                (Flat.scTriggered s) (Flat.io s)))
          (erase (Flat_prog e) sc' (Flat.maxIdx s))).
{ rewrite He'. cbn. unfold Flat_frames, Flat_live. cbn. rewrite length_insert.
  split_and!; try reflexivity; try lia.
  replace (Z.to_nat (Flat.sfTop s + 1)) with (S (Z.to_nat (Flat.sfTop s))) by lia.
  rewrite take_S_insert by lia. rewrite reverse_app. reflexivity. }
pose proof (Flat_later_dispatch e ctx HP _ _ _ _ _ _ _ Hg' Ha1 Hk' Hd') as Hreach.
pose proof (Hlazy j Hreach Hsub) as Hj.
rewrite (aend_eq _ c _ Hn) in Hj.
cbn [akind_of afirst acnt atarget aparent adepth] in Hj. split; [exact Hj|].
assert (Hother : (if b then childIdx + 2 else childIdx + 1)
                 = childIdx + Z.shiftr b0 8 - 1).
{ destruct (decide ((if b then childIdx + 2 else childIdx + 1)
                    = childIdx + Z.shiftr b0 8 - 1)) as [E|E];
    [exact E|exfalso].
  rewrite Hj in Hsub.
  destruct b.
  - eapply (sib_disjoint _ HP (childIdx + 2) _ c _ n2 ne); eauto. apply sub_refl.
  - eapply (sib_disjoint _ HP (childIdx + 1) _ c _ n1 ne); eauto. apply sub_refl. }
destruct b; [split; [reflexivity|lia]|lia].
Qed.

(** X6. Flat bytecode variant, on a node table that lays out a tree: the
    table [sfSize] holds the height of the stack frame at which a node is
    dispatched.  Whenever the loop dispatches an operator node (on its first
    or its second visit) or a conditional on its first visit, the live stack
    frame, that node included, has exactly [sfSize[node]] entries. *)
Theorem Flat_frame_height {W} (e : Flat.Expr W) (ctx : Ctx W) (w : W)
    (k : nat) (s : Flat.vm W) (x b0 : Z)
    (HP : tree_shaped (Flat_prog e))
    (Hsize : Flat.maxStackSize e < 2 ^ 15)
    (Hk : Flat_steps e ctx k (Flat.AtLoop (Flat.init e w)) = Some (Flat.AtLoop s))
    (Hd : Flat_dispatches e s x b0)
    (Hty : Z.land b0 nodeTypeMask = operator
           \/ (Z.land b0 nodeTypeMask = cond /\ x > Flat.maxIdx s)) :
  load (Flat.sfSize e) x = Some (Flat.sfTop s + 1).
Proof.
destruct (Flat_reached e ctx HP w Hsize k _ Hk) as (sc & m & Hg & Ha).
pose proof Hd as (Hne & Hpop & Hnode).
pose proof (load_Some_range _ _ _ Hpop) as Hr.
pose proof (good_head_small _ HP _ _ Hg) as Hhead.
assert (Hx : 0 <= x < 2 ^ 15).
{ destruct (erase (Flat_prog e) sc m) as [stk0 m0|] eqn:Ee; [|contradiction].
  destruct Ha as (-> & _). rewrite (Flat_dispatches_head e _ _ _ Hd) in Hhead.
  exact Hhead. }
rewrite (int_bounded (x * 4)) in Hnode by lia.
replace (x * 4) with (4 * x) in Hnode by lia.
pose proof (Flat_prog_load e x b0 ltac:(lia) Hnode) as Hn.
assert (Hkind : akind_at (Flat_prog e) x = Some KOp \/ akind_at (Flat_prog e) x = Some KCond).
{ rewrite (akind_at_load _ _ _ Hn). cbn [akind_of].
  destruct Hty as [Hty|[Hty _]]; [left; rewrite (kindOf_operator _ Hty)
                                  |right; rewrite (kindOf_cond _ Hty)]; reflexivity. }
assert (Hpath : exists path, wf_path (Flat_prog e) x path
                  /\ stack_of (Flat_prog e) path
                     = reverse (take (Z.to_nat (Flat.sfTop s)) (Flat.sf s))).
{ destruct sc as [x0 path|o rest|c rest|c rest| |i0 x0 path];
    cbn [erase Flat_abs stack_of] in Ha; try contradiction;
    destruct Ha as (Hstk & Hm & _); rewrite (Flat_dispatches_head e _ _ _ Hd) in Hstk.
  - injection Hstk as -> Hstk. destruct Hg as (Hw & _). eauto.
  - injection Hstk as -> Hstk. destruct Hg as (Hw & _). eauto.
  - injection Hstk as -> Hstk. destruct Hg as (_ & Hkc & Hcm & _). exfalso.
    destruct Hty as [Hty|[_ Hgt]]; [|lia].
    rewrite (akind_at_load _ _ _ Hn) in Hkc. cbn [akind_of] in Hkc.
    rewrite (kindOf_operator _ Hty) in Hkc. discriminate.
  - injection Hstk as Hx' Hstk. destruct Hg as (_ & Hkc). exfalso.
    apply (akind_at_Some (Flat_prog e)) in Hkc as (n0 & Hl0 & Hk0).
    destruct (cond_children _ HP c n0 Hl0 Hk0) as (_ & _ & _ & _ & ne & Hle & Hke & _).
    rewrite (aend_eq _ c n0 Hl0) in Hx'. rewrite Hx' in Hle.
    rewrite (akind_at_load _ _ _ Hle), Hke in Hkind. destruct Hkind; discriminate.
  - discriminate. }
destruct Hpath as (path & Hw & Hstk).
destruct (wf_path_depth _ HP x path Hw Hkind) as (n' & Hl' & Hlen).
rewrite Hn in Hl'. injection Hl' as <-. cbn [adepth] in Hlen.
rewrite Hstk, length_reverse, length_take in Hlen.
apply default_load; lia.
Qed.

Lemma flat_exprFalseAndBOrC_tree :
  tree_shaped (Flat_prog (encode (@exprFalseAndBOrC unit))).
Proof.
let v := eval vm_compute in (Flat_prog (encode (@exprFalseAndBOrC unit))) in
change (Flat_prog (encode (@exprFalseAndBOrC unit))) with v.
constructor.
- cbn. lia.
- intros n [= <-]. reflexivity.
- intros i n H. unfold load in H. case_decide; [|discriminate].
  destruct (Z.to_nat i) as [|[|[|[|[|k]]]]] eqn:Ei; try discriminate;
    injection H as <-.
  + replace i with 0 by lia. tree_node.
  + replace i with 1 by lia. tree_node.
  + replace i with 2 by lia. tree_node.
  + replace i with 3 by lia. tree_node.
  + replace i with 4 by lia. tree_node.
Qed.

Lemma flat_exprIf_tree : tree_shaped (Flat_prog (encode (@exprIf unit))).
Proof.
let v := eval vm_compute in (Flat_prog (encode (@exprIf unit))) in
change (Flat_prog (encode (@exprIf unit))) with v.
constructor.
- cbn. lia.
- intros n [= <-]. reflexivity.
- intros i n H. unfold load in H. case_decide; [|discriminate].
  destruct (Z.to_nat i) as [|[|[|[|[|k]]]]] eqn:Ei; try discriminate;
    injection H as <-.
  + replace i with 0 by lia. tree_node.
  + replace i with 1 by lia. tree_node.
  + replace i with 2 by lia. tree_node.
  + replace i with 3 by lia. tree_node.
  + replace i with 4 by lia. tree_node.
Qed.

(** The bytecode of [(false and b) or c]: the constant [false], node 3,
    short-circuits to node 1; node 2, dispatched afterwards, lies outside
    the subtree of node 1. *)
Lemma Flat_hop_skips_subtree_witness :
  ~ sub (Flat_prog (encode (@exprFalseAndBOrC unit))) 1 2.
Proof.
apply (Flat_hop_skips_subtree (encode exprFalseAndBOrC)
         (constCtx (VBool true, None) false) tt 3 1
         (Flat.mkVM 1 [0; 2; 1; 4; 3; 0; 0; 0] 3 (replicate 8 VNil) (-1) false (mkIO tt []))
         (Flat.mkVM 1 [0; 2; 1; 4; 3; 0; 0; 0] 1 (VBool false :: replicate 7 VNil) 0 true
            (mkIO tt []))
         3 8 1 2 2 false).
- exact flat_exprFalseAndBOrC_tree.
- vm_compute. reflexivity.
- vm_compute. reflexivity.
- vm_compute. reflexivity.
- vm_compute. reflexivity.
- vm_compute. discriminate.
- vm_compute. reflexivity.
- split; [vm_compute; discriminate|]. split; vm_compute; reflexivity.
Defined.

(** The bytecode of [if(p, 1, 0)] with [p] true: the then branch (node 2)
    is dispatched after the second visit of the conditional; it lies
    outside the else branch (node 3). *)
Lemma Flat_cond_skips_branch_witness :
  (2 <> 1 + Z.shiftr 1029 8 - 1 -> ~ sub (Flat_prog (encode (@exprIf unit))) 3 2)
  /\ (Z.shiftr 1029 8 <> 3 \/ true = false
      -> ~ sub (Flat_prog (encode (@exprIf unit))) 3 2).
Proof.
apply (Flat_cond_skips_branch (encode exprIf) (constCtx (VBool true, None) false) tt
         3 0
         (Flat.mkVM 0 [4; 0; 1; 0] 1 [VBool true; VNil; VNil; VNil] 0 false
            (mkIO tt [CallGet 1 ""]))
         (Flat.mkVM 0 [4; 2; 1; 0] 1 [VBool true; VNil; VNil; VNil] (-1) false
            (mkIO tt [CallGet 1 ""]))
         0 2 1029 1 1 true).
- exact flat_exprIf_tree.
- vm_compute. reflexivity.
- vm_compute. reflexivity.
- split; [vm_compute; discriminate|]. split; vm_compute; reflexivity.
- vm_compute. reflexivity.
- vm_compute. reflexivity.
- vm_compute. discriminate.
- vm_compute. reflexivity.
- vm_compute. reflexivity.
- split; [vm_compute; discriminate|]. split; vm_compute; reflexivity.
Defined.

(** The bytecode of [(false and b) or c]: node 1 is dispatched with three
    entries on the stack frame. *)
Lemma Flat_frame_height_witness :
  load (Flat.sfSize (encode (@exprFalseAndBOrC unit))) 1 = Some 3.
Proof.
apply (Flat_frame_height (encode exprFalseAndBOrC) (constCtx (VBool true, None) false) tt 1
         (Flat.mkVM 0 [0; 2; 1; 0; 0; 0; 0; 0] 2 (replicate 8 VNil) (-1) false (mkIO tt []))
         1 515).
- exact flat_exprFalseAndBOrC_tree.
- vm_compute. reflexivity.
- vm_compute. reflexivity.
- split; [vm_compute; discriminate|]. split; vm_compute; reflexivity.
- left. vm_compute. reflexivity.
Defined.

(** * Termination *)

Section Terminates.
Context {W : Type}.
Variable ctx : Ctx W.

Lemma Boxed_run_bounded (e : Boxed.Expr W) (HP : tree_shaped (Boxed_prog e)) (fuel : nat) :
  forall (sc : sconfig) (m : Z) (c : Boxed.config W),
    good (Boxed_prog e) sc m -> Boxed_abs e c (erase (Boxed_prog e) sc m) ->
    (cwork (Boxed_prog e) sc < fuel)%nat ->
    Boxed.run e ctx fuel c <> OutOfFuel.
Proof.
induction fuel as [|fuel IH]; intros sc m c Hg Ha Hlt; [lia|].
cbn [Boxed.run]. destruct (Boxed.step e ctx c) as [c'| |] eqn:E; try discriminate.
destruct (Boxed_conform e ctx HP c c' _ Ha (good_hop_ok _ HP _ _ Hg) E) as (ac' & Hstep & Ha').
destruct (good_step _ HP _ _ _ Hg Hstep) as (sc' & m' & -> & Hg' & _ & Hwk).
apply (IH sc' m' c' Hg' Ha'). lia.
Qed.

Lemma Flat_run_bounded (e : Flat.Expr W) (HP : tree_shaped (Flat_prog e)) (fuel : nat) :
  forall (sc : sconfig) (m : Z) (c : Flat.config W),
    good (Flat_prog e) sc m -> Flat_abs e c (erase (Flat_prog e) sc m) ->
    (cwork (Flat_prog e) sc < fuel)%nat ->
    Flat.run e ctx fuel c <> OutOfFuel.
Proof.
induction fuel as [|fuel IH]; intros sc m c Hg Ha Hlt; [lia|].
cbn [Flat.run]. destruct (Flat.step e ctx c) as [c'| |] eqn:E; try discriminate.
destruct (Flat_conform e ctx HP c c' _ Ha (good_hop_ok _ HP _ _ Hg)
            (good_head_small _ HP _ _ Hg) E) as (ac' & Hstep & Ha').
destruct (good_step _ HP _ _ _ Hg Hstep) as (sc' & m' & -> & Hg' & _ & Hwk).
apply (IH sc' m' c' Hg' Ha'). lia.
Qed.
End Terminates.

(** X12. Node-record variant, on a node table that lays out a tree: [Eval]
    terminates, whatever the context and the operators do.  The loop takes
    at most [work] turns, a number read off the table alone (two turns for
    each leaf, three for each operator and five for each conditional that
    is reached): given that much fuel, the evaluation returns or panics. *)
Theorem Boxed_Eval_terminates {W} (e : Boxed.Expr W) (ctx : Ctx W) (w : W) (fuel : nat)
    (HP : tree_shaped (Boxed_prog e))
    (Hsize : Boxed.maxStackSize e < 2 ^ 15)
    (Hfuel : (work (Boxed_prog e) 0 < fuel)%nat) :
  Boxed.Eval fuel e ctx w <> OutOfFuel.
Proof.
destruct (Boxed_init_abs e w Hsize) as [Hg Ha].
apply (Boxed_run_bounded ctx e HP fuel _ _ _ Hg Ha).
cbn [cwork pwork fmap list_fmap sum_list sum_list_with]. lia.
Qed.

(** [(false and b) or c]: at most twelve turns. *)
Lemma Boxed_Eval_terminates_witness :
  Boxed.Eval 13 (@exprFalseAndBOrC unit) (constCtx (VBool true, None) false) tt
  <> OutOfFuel.
Proof.
apply (Boxed_Eval_terminates exprFalseAndBOrC (constCtx (VBool true, None) false) tt 13).
- exact exprFalseAndBOrC_tree.
- vm_compute. reflexivity.
- vm_compute. lia.
Defined.

(** X13. Flat bytecode variant, on a node table that lays out a tree:
    [Eval] terminates, whatever the context and the operators do, within
    the [work] turns read off the table. *)
Theorem Flat_Eval_terminates {W} (e : Flat.Expr W) (ctx : Ctx W) (w : W) (fuel : nat)
    (HP : tree_shaped (Flat_prog e))
    (Hsize : Flat.maxStackSize e < 2 ^ 15)
    (Hfuel : (work (Flat_prog e) 0 < fuel)%nat) :
  Flat.Eval fuel e ctx w <> OutOfFuel.
Proof.
destruct (Flat_init_abs e w Hsize) as [Hg Ha].
apply (Flat_run_bounded ctx e HP fuel _ _ _ Hg Ha).
cbn [cwork pwork fmap list_fmap sum_list sum_list_with]. lia.
Qed.

Lemma Flat_Eval_terminates_witness :
  Flat.Eval 13 (encode (@exprFalseAndBOrC unit)) (constCtx (VBool true, None) false) tt
  <> OutOfFuel.
Proof.
apply (Flat_Eval_terminates (encode exprFalseAndBOrC)
         (constCtx (VBool true, None) false) tt 13).
- exact flat_exprFalseAndBOrC_tree.
- vm_compute. reflexivity.
- vm_compute. lia.
Defined.

(** * The height of the operand stack *)

Section SafeTree.
Variable P : list anode.
Variable osz : list Z.
Variable size : Z.
Hypothesis HP : tree_shaped P.
Hypothesis HO : os_shaped P osz size.

Lemma os_osz (i : Z) (n : anode) :
  load P i = Some n -> akind_of n = KOp \/ akind_of n = KCond ->
  load osz i = Some (obase P osz i).
Proof.
  intros Hl Hk. pose proof (os_node _ _ _ HO i n Hl) as H.
  destruct Hk as [Hk|Hk]; rewrite Hk in H; apply H.
Qed.

Lemma load_neg {A} (a : list A) (i : Z) : i < 0 -> load a i = None.
Proof. intros H. unfold load. rewrite decide_False by lia. reflexivity. Qed.

Lemma obase_root : obase P osz 0 = 0.
Proof.
  destruct (os_root _ _ _ HO) as (n & Hl & _). unfold obase. rewrite Hl.
  pose proof (parent_lt P HP 0 n Hl) as Hlt.
  rewrite (load_neg P (aparent n)) by lia. reflexivity.
Qed.

Lemma obase_op_child (x o : Z) (nx n : anode) :
  load P x = Some nx -> aparent nx = o -> load P o = Some n -> akind_of n = KOp ->
  obase P osz x = obase P osz o + (x - afirst n).
Proof.
  intros Hx Hp Ho Hk. unfold obase at 1. rewrite Hx, Hp, Ho, Hk.
  rewrite (os_osz o n Ho (or_introl Hk)). reflexivity.
Qed.

Lemma obase_cond_child (x c : Z) (nx n : anode) :
  load P x = Some nx -> aparent nx = c -> load P c = Some n -> akind_of n = KCond ->
  obase P osz x = obase P osz c.
Proof.
  intros Hx Hp Hc Hk. unfold obase at 1. rewrite Hx, Hp, Hc, Hk.
  rewrite (os_osz c n Hc (or_intror Hk)). reflexivity.
Qed.

Lemma obase_end (c : Z) (n : anode) :
  load P c = Some n -> akind_of n = KCond ->
  obase P osz (aend P c) = obase P osz c
  /\ exists ne, load P (aend P c) = Some ne /\ akind_of ne = KEnd.
Proof.
  intros Hc Hk.
  destruct (cond_children P HP c n Hc Hk) as (_ & _ & _ & _ & ne & Hle & Hke & Hpe & _).
  rewrite (aend_eq P c n Hc). split; [|eauto].
  exact (obase_cond_child _ _ _ _ Hle Hpe Hc Hk).
Qed.

(** The base of an open node lies within the stack, and the node is no End
    node. *)
Lemma wf_path_obase (x : Z) (path : list frame) :
  wf_path P x path ->
  (exists nx, load P x = Some nx /\ akind_of nx <> KEnd)
  /\ 0 <= obase P osz x /\ obase P osz x + 1 <= size.
Proof.
  induction 1 as [|x o n done pend rest Ho Hk Hseq Hw IH
                  |x c n rest Hc Hk Hx Hw IH|x c n rest Hc Hk Hx Hw IH].
  - split; [exact (os_root _ _ _ HO)|]. rewrite obase_root.
    pose proof (os_size _ _ _ HO). lia.
  - destruct IH as (_ & IH0 & _).
    apply seqZ_split in Hseq as (Hx & Hcnt & _).
    assert (Hr : 0 <= Z.of_nat (length done) < acnt n) by lia.
    destruct (op_child P HP o n _ Ho Hk Hr) as (nc & Hlc & _ & Hpc & _).
    rewrite <- Hx in Hlc.
    pose proof (os_node _ _ _ HO o n Ho) as Hos. rewrite Hk in Hos.
    destruct Hos as (_ & _ & Hcap & Hne).
    specialize (Hne _ Hr). rewrite <- Hx, (akind_at_load P _ _ Hlc) in Hne.
    rewrite (obase_op_child x o nc n Hlc Hpc Ho Hk).
    split; [exists nc; split; [exact Hlc|congruence]|lia].
  - destruct IH as (_ & IH0 & _).
    destruct (cond_children P HP c n Hc Hk) as (_ & (nc & Hlc & _ & Hpc & _) & _).
    rewrite <- Hx in Hlc.
    pose proof (os_node _ _ _ HO c n Hc) as Hos. rewrite Hk in Hos.
    destruct Hos as (_ & _ & Hcap & Hne & _).
    rewrite <- Hx, (akind_at_load P _ _ Hlc) in Hne.
    rewrite (obase_cond_child x c nc n Hlc Hpc Hc Hk).
    split; [exists nc; split; [exact Hlc|congruence]|lia].
  - destruct IH as (_ & IH0 & _).
    destruct (cond_children P HP c n Hc Hk)
      as (_ & _ & (n1 & Hl1 & _ & Hp1 & _) & (n2 & Hl2 & _ & Hp2 & _) & _).
    pose proof (os_node _ _ _ HO c n Hc) as Hos. rewrite Hk in Hos.
    destruct Hos as (_ & _ & Hcap & _ & Hne1 & Hne2).
    rewrite (akind_at_load P _ _ Hl1) in Hne1. rewrite (akind_at_load P _ _ Hl2) in Hne2.
    destruct Hx as [-> | ->].
    + rewrite (obase_cond_child _ c n1 n Hl1 Hp1 Hc Hk).
      split; [exists n1; split; [exact Hl1|congruence]|lia].
    + rewrite (obase_cond_child _ c n2 n Hl2 Hp2 Hc Hk).
      split; [exists n2; split; [exact Hl2|congruence]|lia].
Qed.

Lemma bump_fresh (x m : Z) (nx : anode) :
  load P x = Some nx -> akind_of nx <> KEnd -> m < x -> bump P x m = 0.
Proof.
  intros Hl Hk Hm. unfold bump. rewrite Hl.
  destruct (akind_of nx); try reflexivity; try congruence;
    rewrite decide_True by lia; reflexivity.
Qed.

Lemma good_after_obase (i x : Z) (path : list frame) (m : Z) :
  good P (SAfter i x path) m ->
  obase P osz i = obase P osz x /\ 0 <= obase P osz x /\ obase P osz x + 1 <= size.
Proof.
  intros (Hw & _ & _ & Hi).
  destruct (wf_path_obase x path Hw) as (_ & H0 & H1).
  split; [|lia]. destruct Hi as [->|[Hk ->]]; [reflexivity|].
  apply (akind_at_Some P) in Hk as (n & Hl & Hk).
  apply (obase_end x n Hl Hk).
Qed.

(** Pushing a result leaves the stack as high as the next frame expects. *)
Lemma oheight_push (i x : Z) (path : list frame) (m : Z) :
  good P (SAfter i x path) m ->
  oheight P osz (ALoop (stack_of P path) m) = obase P osz i + 1.
Proof.
  intros Hg. destruct (good_after_obase _ _ _ _ Hg) as (-> & _).
  destruct Hg as (Hw & Hol & Hm & _).
  inversion Hw as [|x0 o n done pend rest Ho Hk Hseq Hw'
                   |x0 c n rest Hc Hk Hx Hw'|x0 c n rest Hc Hk Hx Hw']; subst.
  - cbn. rewrite obase_root. reflexivity.
  - cbn in Hol. pose proof Hseq as Hseq'.
    apply seqZ_split in Hseq as (Hx & Hcnt & Hpend).
    assert (Hr : 0 <= Z.of_nat (length done) < acnt n) by lia.
    destruct (op_child P HP o n _ Ho Hk Hr) as (nc & Hlc & _ & Hpc & _).
    rewrite <- Hx in Hlc.
    rewrite (obase_op_child x o nc n Hlc Hpc Ho Hk).
    destruct pend as [|p pend]; cbn [stack_of app oheight].
    + unfold bump. rewrite Ho, Hk, decide_False by lia. cbn in Hcnt. lia.
    + cbn [length] in Hcnt, Hpend.
      rewrite seqZ_cons' in Hpend by lia. injection Hpend as Hp _.
      assert (Hr' : 0 <= Z.of_nat (length done) + 1 < acnt n) by lia.
      destruct (op_child P HP o n _ Ho Hk Hr') as (np & Hlp & _ & Hpp & _).
      replace (afirst n + (Z.of_nat (length done) + 1)) with p in Hlp by lia.
      pose proof (os_node _ _ _ HO o n Ho) as Hos. rewrite Hk in Hos.
      destruct Hos as (_ & _ & _ & Hne). specialize (Hne _ Hr').
      replace (afirst n + (Z.of_nat (length done) + 1)) with p in Hne by lia.
      rewrite (akind_at_load P _ _ Hlp) in Hne.
      rewrite (bump_fresh p m np Hlp) by (congruence || lia).
      rewrite (obase_op_child p o np n Hlp Hpp Ho Hk). lia.
  - cbn in Hol. cbn [stack_of oheight].
    destruct (cond_children P HP c n Hc Hk) as (_ & (nc & Hlc & _ & Hpc & _) & _).
    rewrite (obase_cond_child _ c nc n Hlc Hpc Hc Hk).
    unfold bump. rewrite Hc, Hk, decide_False by lia. reflexivity.
  - cbn [stack_of oheight].
    destruct (obase_end c n Hc Hk) as (-> & ne & Hle & Hke).
    unfold bump. rewrite Hle, Hke.
    destruct (cond_children P HP c n Hc Hk)
      as (_ & _ & (n1 & Hl1 & _ & Hp1 & _) & (n2 & Hl2 & _ & Hp2 & _) & _).
    destruct Hx as [-> | ->].
    + rewrite (obase_cond_child _ c n1 n Hl1 Hp1 Hc Hk). reflexivity.
    + rewrite (obase_cond_child _ c n2 n Hl2 Hp2 Hc Hk). reflexivity.
Qed.

(** The first visit of an operator leaves on top a frame that expects the
    stack as it is. *)
Lemma oheight_op_first (x : Z) (n : anode) (stk : list Z) :
  load P x = Some n -> akind_of n = KOp ->
  oheight P osz (ALoop (seqZ (afirst n) (acnt n) ++ x :: stk) x) = obase P osz x.
Proof.
  intros Hl Hk.
  destruct (ts_node P HP x n Hl) as (_ & _ & Hshape). rewrite Hk in Hshape.
  destruct Hshape as (Hcnt & _).
  destruct (decide (acnt n = 0)) as [E|E].
  - rewrite E. change (seqZ (afirst n) 0) with (@nil Z). cbn [app oheight].
    unfold bump. rewrite Hl, Hk, decide_False by lia. lia.
  - rewrite seqZ_cons' by lia. cbn [app oheight].
    assert (Hr : 0 <= 0 < acnt n) by lia.
    destruct (op_child P HP x n _ Hl Hk Hr) as (nc & Hlc & Hlt & Hpc & _).
    pose proof (os_node _ _ _ HO x n Hl) as Hos. rewrite Hk in Hos.
    destruct Hos as (_ & _ & _ & Hne). specialize (Hne _ Hr).
    rewrite Z.add_0_r in Hlc, Hne, Hlt. rewrite (akind_at_load P _ _ Hlc) in Hne.
    rewrite (bump_fresh _ x nc Hlc) by (congruence || lia).
    rewrite (obase_op_child _ x nc n Hlc Hpc Hl Hk). lia.
Qed.

Lemma oheight_cond_first (x : Z) (n : anode) (stk : list Z) :
  load P x = Some n -> akind_of n = KCond ->
  oheight P osz (ALoop (afirst n :: stk) x) = obase P osz x.
Proof.
  intros Hl Hk. cbn [oheight].
  destruct (cond_children P HP x n Hl Hk) as (_ & (nc & Hlc & Hlt & Hpc & _) & _).
  pose proof (os_node _ _ _ HO x n Hl) as Hos. rewrite Hk in Hos.
  destruct Hos as (_ & _ & _ & Hne & _). rewrite (akind_at_load P _ _ Hlc) in Hne.
  rewrite (bump_fresh _ x nc Hlc) by (congruence || lia).
  rewrite (obase_cond_child _ x nc n Hlc Hpc Hl Hk). lia.
Qed.

(** A frame met again at the head of the loop is an operator or a
    conditional on its second visit, or an End node. *)
Lemma good_cond_second (sc : sconfig) (m x : Z) (stk : list Z) (n : anode) :
  good P sc m -> erase P sc m = ALoop (x :: stk) m ->
  load P x = Some n -> akind_of n = KCond -> ~ x > m ->
  m <= afirst n.
Proof.
  intros Hg He Hn Hk Hle.
  destruct sc as [x' path|o rest|c' rest|c' rest| |i x' path]; cbn in He; try discriminate.
  - injection He as -> _. destruct Hg as (_ & Hm & _). lia.
  - injection He as -> _. destruct Hg as (_ & Hk' & _).
    rewrite (akind_at_load P _ _ Hn), Hk in Hk'. discriminate.
  - injection He as -> _. destruct Hg as (_ & _ & _ & Hmf). exact (Hmf n Hn).
  - injection He as Hc _. destruct Hg as (_ & Hk').
    apply (akind_at_Some P) in Hk' as (nc & Hlc & Hkc).
    destruct (obase_end c' nc Hlc Hkc) as (_ & ne & Hle' & Hke).
    rewrite Hc in Hle'. rewrite (load_inj _ _ _ _ Hn Hle') in Hk. congruence.
Qed.

Lemma oheight_cond_second (x m : Z) (n : anode) (stk : list Z) (b : bool) :
  load P x = Some n -> akind_of n = KCond -> m <= afirst n ->
  oheight P osz (ALoop ((if b then afirst n + 1 else afirst n + 2) :: stk) m)
  = obase P osz x.
Proof.
  intros Hl Hk Hm. cbn [oheight].
  destruct (cond_children P HP x n Hl Hk)
    as (_ & _ & (n1 & Hl1 & _ & Hp1 & _) & (n2 & Hl2 & _ & Hp2 & _) & _).
  pose proof (os_node _ _ _ HO x n Hl) as Hos. rewrite Hk in Hos.
  destruct Hos as (_ & _ & _ & _ & Hne1 & Hne2).
  rewrite (akind_at_load P _ _ Hl1) in Hne1. rewrite (akind_at_load P _ _ Hl2) in Hne2.
  destruct b.
  - rewrite (bump_fresh _ m n1 Hl1) by (congruence || lia).
    rewrite (obase_cond_child _ x n1 n Hl1 Hp1 Hl Hk). lia.
  - rewrite (bump_fresh _ m n2 Hl2) by (congruence || lia).
    rewrite (obase_cond_child _ x n2 n Hl2 Hp2 Hl Hk). lia.
Qed.

(** The target of a hop is an operator or a conditional of the table, with
    its depth and its base in the tables. *)
Lemma good_hop_target (i x : Z) (path : list frame) (m : Z) (n : anode) :
  good P (SAfter i x path) m ->
  load P i = Some n -> atarget n <> 0 ->
  exists nt, load P (atarget n) = Some nt /\ 1 <= adepth nt
             /\ load osz (atarget n) = Some (obase P osz (atarget n)).
Proof.
  intros Hg Hn Ht. pose proof Hg as (Hw & _ & _ & Hi).
  destruct (ts_node P HP i n Hn) as (_ & [Ht0|[Hpos Hanc]] & _); [contradiction|].
  assert (Hk : akind_at P (atarget n) = Some KOp \/ akind_at P (atarget n) = Some KCond).
  { destruct Hi as [->|[Hk ->]].
    - destruct (anc_in_path P HP x path _ Hw Hanc ltac:(lia)) as (? & ? & _ & _ & Hk' & _).
      exact Hk'.
    - pose proof Hk as Hk'. apply (akind_at_Some P) in Hk' as (nx & Hlx & Hkx).
      destruct (cond_children P HP x nx Hlx Hkx)
        as (_ & _ & _ & _ & ne & Hle & _ & Hpe & _).
      rewrite (aend_eq P x nx Hlx) in Hanc.
      apply (anc_inv P) in Hanc as (n' & Hl' & Hanc).
      rewrite <- (load_inj _ _ _ _ Hle Hl'), Hpe in Hanc.
      destruct Hanc as [E|Hanc].
      + rewrite <- E. right. exact Hk.
      + destruct (anc_in_path P HP x path _ Hw Hanc ltac:(lia)) as (? & ? & _ & _ & Hk' & _).
        exact Hk'. }
  assert (Hnt : exists nt, load P (atarget n) = Some nt
                  /\ (akind_of nt = KOp \/ akind_of nt = KCond)).
  { destruct Hk as [Hk|Hk]; apply (akind_at_Some P) in Hk as (nt & Hlt & Hkt); eauto. }
  destruct Hnt as (nt & Hlt & Hkt). exists nt.
  destruct (good_hop P HP _ _ _ _ _ _ Hg Hn Ht Hlt) as (_ & _ & _ & Hd & _).
  split_and!; [exact Hlt|lia|]. eapply os_osz; eauto.
Qed.

Lemma good_hop_osz (i x : Z) (path : list frame) (m : Z) (n : anode) :
  good P (SAfter i x path) m ->
  load P i = Some n -> atarget n <> 0 ->
  load osz (atarget n) = Some (obase P osz (atarget n)).
Proof.
  intros Hg Hn Ht. destruct (good_hop_target _ _ _ _ _ Hg Hn Ht) as (_ & _ & _ & H).
  exact H.
Qed.

(** The frame on top of the stack frame is a node of the table, and an
    End node there has its conditional in the parent table. *)
Lemma good_head_node (sc : sconfig) (m x : Z) (stk : list Z) :
  good P sc m -> erase P sc m = ALoop (x :: stk) m ->
  exists n, load P x = Some n /\ (akind_of n = KEnd -> 0 <= aparent n).
Proof.
  intros Hg He.
  destruct sc as [x' path|o rest|c rest|c rest| |i x' path]; cbn in He; try discriminate.
  - injection He as -> _. destruct Hg as (Hw & _).
    destruct (wf_path_obase x path Hw) as ((nx & Hl & Hk) & _).
    exists nx. split; [exact Hl|]. intros; congruence.
  - injection He as -> _. destruct Hg as (_ & Hk & _).
    apply (akind_at_Some P) in Hk as (n & Hl & Hk).
    exists n. split; [exact Hl|]. intros; congruence.
  - injection He as -> _. destruct Hg as (_ & Hk & _).
    apply (akind_at_Some P) in Hk as (n & Hl & Hk).
    exists n. split; [exact Hl|]. intros; congruence.
  - injection He as <- _. destruct Hg as (_ & Hk).
    apply (akind_at_Some P) in Hk as (n & Hl & Hk).
    destruct (cond_children P HP c n Hl Hk) as (_ & _ & _ & _ & ne & Hle & _ & Hpe & _).
    rewrite (aend_eq P c n Hl). exists ne. split; [exact Hle|].
    intros _. rewrite Hpe. apply load_Some_range in Hl. lia.
Qed.

(** How the height the frames expect moves with a step of the list
    machine. *)
Lemma oheight_step (sc : sconfig) (m : Z) (ac' : aconfig) :
  good P sc m -> astep P (erase P sc m) ac' ->
  match erase P sc m, ac' with
  | ALoop (x :: _) _, _ => oheight P osz ac' = obase P osz x
  | ASC _ _ i, ALoop _ _ => oheight P osz ac' = obase P osz i + 1
  | ASC _ _ _, ASC _ _ t => load osz t = Some (oheight P osz ac')
  | _, _ => True
  end.
Proof.
  intros Hg Hs. remember (erase P sc m) as ac eqn:He.
  destruct Hs as [x stk m0 n Hn Hk|x stk m0 n Hn Hk Hgt|x stk m0 n Hn Hk Hle
                 |x stk m0 n Hn Hk Hgt|x stk m0 n b Hn Hk Hle|x stk m0 n Hn Hk
                 |stk m0 i|stk m0 i n nt Hn Ht Hnt].
  - reflexivity.
  - apply oheight_op_first; assumption.
  - reflexivity.
  - apply oheight_cond_first; assumption.
  - assert (m0 = m) as ->.
    { destruct sc; cbn in He; try discriminate; injection He; intros; subst; reflexivity. }
    apply oheight_cond_second; [assumption..|].
    eapply good_cond_second; eauto.
  - reflexivity.
  - destruct sc as [| | | | |i' x path]; cbn in He; try discriminate.
    injection He as -> -> ->. eapply oheight_push; eauto.
  - destruct sc as [| | | | |i' x path]; cbn in He; try discriminate.
    injection He as -> -> ->. cbn [oheight]. eapply good_hop_osz; eauto.
Qed.

(** The frame on top has its base within the stack, and room above it for
    what it finds there. *)
Lemma good_head_obase (sc : sconfig) (m x : Z) (stk : list Z) :
  good P sc m -> erase P sc m = ALoop (x :: stk) m ->
  0 <= obase P osz x /\ 0 <= bump P x m /\ obase P osz x + bump P x m <= size
  /\ obase P osz x + 1 <= size.
Proof.
  intros Hg He.
  destruct sc as [x' path|o rest|c rest|c rest| |i x' path]; cbn in He; try discriminate.
  - injection He as -> _. destruct Hg as (Hw & Hm & _).
    destruct (wf_path_obase x path Hw) as ((nx & Hl & Hk) & H0 & H1).
    rewrite (bump_fresh x m nx Hl Hk Hm). lia.
  - injection He as -> _. destruct Hg as (Hw & Hk & Hm).
    destruct (wf_path_obase x rest Hw) as (_ & H0 & H1).
    apply (akind_at_Some P) in Hk as (n & Hl & Hk).
    destruct (ts_node P HP x n Hl) as (_ & _ & Hshape). rewrite Hk in Hshape.
    pose proof (os_node _ _ _ HO x n Hl) as Hos. rewrite Hk in Hos.
    unfold bump. rewrite Hl, Hk, decide_False by lia. lia.
  - injection He as -> _. destruct Hg as (Hw & Hk & Hm & _).
    destruct (wf_path_obase x rest Hw) as (_ & H0 & H1).
    apply (akind_at_Some P) in Hk as (n & Hl & Hk).
    pose proof (os_node _ _ _ HO x n Hl) as Hos. rewrite Hk in Hos.
    unfold bump. rewrite Hl, Hk, decide_False by lia. lia.
  - injection He as <- _. destruct Hg as (Hw & Hk).
    destruct (wf_path_obase c rest Hw) as (_ & H0 & H1).
    apply (akind_at_Some P) in Hk as (n & Hl & Hk).
    destruct (obase_end c n Hl Hk) as (-> & ne & Hle & Hke).
    unfold bump. rewrite Hle, Hke. lia.
Qed.

Lemma good_sc_obase (sc : sconfig) (m m' i : Z) (stk : list Z) :
  good P sc m -> erase P sc m = ASC stk m' i ->
  0 <= obase P osz i /\ obase P osz i + 1 <= size.
Proof.
  intros Hg He. destruct sc; cbn in He; try discriminate. injection He as _ _ ->.
  destruct (good_after_obase _ _ _ _ Hg) as (-> & H). exact H.
Qed.

(** A node visited for the first time is popped at the depth its table
    entry says. *)
Lemma good_first_visit (sc : sconfig) (m x : Z) (stk : list Z) (nx : anode) :
  good P sc m -> erase P sc m = ALoop (x :: stk) m ->
  load P x = Some nx -> akind_of nx = KOp \/ akind_of nx = KCond -> x > m ->
  Z.of_nat (length stk) = adepth nx - 1.
Proof.
  intros Hg He Hn Hk Hgt.
  assert (Hkind : akind_at P x = Some KOp \/ akind_at P x = Some KCond).
  { rewrite (akind_at_load P _ _ Hn). destruct Hk as [-> | ->]; auto. }
  destruct sc as [x' path|o rest|c rest|c rest| |i x' path]; cbn in He; try discriminate.
  - injection He as -> <-. destruct Hg as (Hw & _).
    destruct (wf_path_depth P HP x path Hw Hkind) as (n' & Hl' & Hlen).
    rewrite (load_inj _ _ _ _ Hn Hl'). exact Hlen.
  - injection He as -> _. destruct Hg as (_ & _ & Hm). lia.
  - injection He as -> _. destruct Hg as (_ & _ & Hm & _). lia.
  - injection He as Hx _. destruct Hg as (_ & Hkc). exfalso.
    apply (akind_at_Some P) in Hkc as (n0 & Hl0 & Hk0).
    destruct (obase_end c n0 Hl0 Hk0) as (_ & ne & Hle & Hke).
    rewrite Hx in Hle. rewrite (load_inj _ _ _ _ Hn Hle) in Hk.
    destruct Hk; congruence.
Qed.

End SafeTree.

(** * The node-record variant never indexes out of range *)

Lemma load_ok {A} (a : list A) (i : Z) :
  0 <= i < Z.of_nat (length a) -> exists x, load a i = Some x.
Proof.
  intros H. unfold load. rewrite decide_True by lia.
  apply lookup_lt_is_Some_2. lia.
Qed.

Lemma store_ok {A} (a : list A) (i : Z) (x : A) :
  0 <= i < Z.of_nat (length a) -> store a i x = Some (<[Z.to_nat i := x]> a).
Proof. intros H. unfold store. rewrite decide_True by lia. reflexivity. Qed.

Lemma erase_m (P : list anode) (sc : sconfig) (m : Z) :
  match erase P sc m with ALoop _ m' => m' = m | ASC _ m' _ => m' = m end.
Proof. destruct sc; reflexivity. Qed.

Lemma default_load_neg (l : list Z) (x v : Z) :
  0 <= x -> default (-1) (l !! Z.to_nat x) = v -> v <> -1 -> load l x = Some v.
Proof.
  intros Hx Hd Hv. unfold load. rewrite decide_True by lia.
  destruct (l !! Z.to_nat x); cbn in Hd; congruence.
Qed.

Lemma int16_small' (z : Z) : - 2 ^ 15 <= z < 2 ^ 15 -> int16 z = z.
Proof. intros H. apply int16_small. unfold in_signed. exact H. Qed.

Lemma Boxed_push_ok {A} (a : list A) (top : Z) (x : A) :
  -1 <= top -> top + 1 < Z.of_nat (length a) -> Z.of_nat (length a) < 2 ^ 15 ->
  Boxed.push a top x = Some (<[Z.to_nat (top + 1) := x]> a, top + 1).
Proof.
  intros H1 H2 H3. unfold Boxed.push.
  rewrite int16_small' by lia. rewrite store_ok by lia. reflexivity.
Qed.

Lemma Boxed_pushChildren_ok (n : nat) :
  forall (i : Z) (sf : list Z) (top c : Z),
    0 <= i -> Z.of_nat n <= top - i + 1 ->
    top < Z.of_nat (length sf) -> Z.of_nat (length sf) < 2 ^ 15 ->
    is_Some (Boxed.pushChildren n i sf top c).
Proof.
  induction n as [|n IH]; intros i sf top c Hi Hn Htop Hlen.
  - eexists. reflexivity.
  - cbn [Boxed.pushChildren].
    rewrite (int16_small' (top - i)) by lia. rewrite store_ok by lia. cbn.
    rewrite (int16_small' (i + 1)) by lia.
    apply IH; rewrite ?length_insert; lia.
Qed.

Section BoxedSafe.
Context {W : Type}.
Variable e : Boxed.Expr W.
Variable ctx : Ctx W.
Hypothesis HR : Boxed_ready e.

Lemma Boxed_getNodeValue_ok (ch : Boxed.node W) (io : IO W) :
  Boxed_readable ch -> is_Some (Boxed.getNodeValue ctx ch io).
Proof.
  intros Hr. unfold Boxed.getNodeValue.
  destruct (decide (Z.land (Boxed.flag ch) nodeTypeMask = constant)) as [E|E]; [eauto|].
  destruct Hr as [Hr|[name Hv]]; [contradiction|].
  unfold Boxed.getSelectorValue. rewrite Hv.
  destruct (Get ctx (Boxed.selKey ch) name (world io)) as [[res [err|]] w'];
    [eauto|]. destruct (canonical res); eauto.
Qed.

Lemma Boxed_fastParams_ok (n : nat) :
  forall (i childIdx : Z) (param : list Value) (io : IO W),
    0 <= i -> i + Z.of_nat n <= Z.of_nat (length param) -> i + Z.of_nat n < 2 ^ 15 ->
    (forall k, i <= k < i + Z.of_nat n ->
       exists ch, load (Boxed.nodes e) (childIdx + k) = Some ch /\ Boxed_readable ch) ->
    is_Some (Boxed.fastParams e ctx n i childIdx param io).
Proof.
  pose proof (ts_size _ (br_tree e HR)) as Hsz. rewrite Boxed_prog_length in Hsz.
  induction n as [|n IH]; intros i childIdx param io Hi Hlen Hsmall Hch.
  - eexists. reflexivity.
  - cbn [Boxed.fastParams].
    destruct (Hch i ltac:(lia)) as (ch & Hl & Hr).
    pose proof (load_Some_range _ _ _ Hl) as Hrange.
    rewrite (int16_small' (childIdx + i)) by lia. rewrite Hl. cbn.
    destruct (Boxed_getNodeValue_ok ch io Hr) as [[[v [err|]] io'] Hg]; rewrite Hg; cbn;
      [eauto|].
    rewrite store_ok by lia. cbn. rewrite (int16_small' (i + 1)) by lia.
    apply IH; rewrite ?length_insert; try lia.
    intros k Hk. apply Hch. lia.
Qed.

Lemma Boxed_fastOperatorParams_ok (nd : Boxed.node W) (io : IO W) :
  Boxed_node_ready e nd ->
  Z.land (Boxed.flag nd) nodeTypeMask = fastOperator ->
  is_Some (Boxed.fastOperatorParams e ctx (int16 (Boxed.childCnt nd)) (Boxed.childIdx nd) io).
Proof.
  pose proof (ts_size _ (br_tree e HR)) as Hsz. rewrite Boxed_prog_length in Hsz.
  intros (Hf & _) Hty. destruct (Hf Hty) as (Hcnt & _ & Hch).
  unfold Boxed.fastOperatorParams.
  destruct (decide (int16 (Boxed.childCnt nd) = 2)) as [E|E].
  - destruct (Hch 0 ltac:(lia)) as (c0 & Hl0 & Hr0).
    destruct (Hch 1 ltac:(lia)) as (c1 & Hl1 & Hr1).
    rewrite Z.add_0_r in Hl0. rewrite Hl0. cbn.
    destruct (Boxed_getNodeValue_ok c0 io Hr0) as [[[v0 [err|]] io0] Hg0]; rewrite Hg0; cbn;
      [eauto|].
    pose proof (load_Some_range _ _ _ Hl1) as Hrange.
    rewrite (int16_small' (Boxed.childIdx nd + 1)) by lia. rewrite Hl1. cbn.
    destruct (Boxed_getNodeValue_ok c1 io0 Hr1) as [[[v1 [err|]] io1] Hg1]; rewrite Hg1; cbn;
      eauto.
  - unfold make. rewrite decide_True by lia. cbn.
    pose proof (int16_range (Boxed.childCnt nd)) as Hr. unfold in_signed in Hr.
    change (2 ^ (16 - 1)) with (2 ^ 15) in Hr.
    apply Boxed_fastParams_ok; rewrite ?length_replicate; try lia.
    intros k Hk. apply Hch. lia.
Qed.

Lemma Boxed_invoke_ok (curtIdx : Z) (curt : Boxed.node W) (param : list Value) (io : IO W) :
  is_Some (Boxed.op curt) -> is_Some (Boxed.invoke ctx curtIdx curt param io).
Proof.
  intros [f Hf]. unfold Boxed.invoke. rewrite Hf. cbn.
  destruct (f ctx param (world io)) as [r w']. eauto.
Qed.

End BoxedSafe.

Section BoxedProgress.
Context {W : Type}.
Variable e : Boxed.Expr W.
Variable ctx : Ctx W.
Hypothesis HR : Boxed_ready e.

Lemma Boxed_prog_node (i : Z) (n : anode) :
  load (Boxed_prog e) i = Some n -> exists nd, load (Boxed.nodes e) i = Some nd.
Proof.
  intros H. apply load_Some_range in H. rewrite Boxed_prog_length in H.
  apply load_ok. exact H.
Qed.

Lemma Boxed_stackSize_ge (size : Z) : 8 <= Boxed.stackSize size.
Proof. unfold Boxed.stackSize. repeat case_decide; lia. Qed.

(** A turn of the dispatch loop indexes nothing out of range. *)
Lemma Boxed_dispatch_safe (sc : sconfig) (m : Z) (s : Boxed.vm W) :
  good (Boxed_prog e) sc m ->
  Boxed_abs e (Boxed.AtLoop s) (erase (Boxed_prog e) sc m) ->
  Boxed_os_ok e (Boxed.AtLoop s) (erase (Boxed_prog e) sc m) ->
  Boxed.dispatch e ctx s <> Boxed.Panicked.
Proof.
  pose proof (br_tree e HR) as HP. pose proof (br_os e HR) as HO.
  intros Hg Ha Hos. pose proof (erase_m (Boxed_prog e) sc m) as Hm.
  destruct (erase (Boxed_prog e) sc m) as [stk m0|] eqn:He; [|contradiction]. subst m0.
  destruct Ha as (-> & Hmax & Htop & Hlen).
  destruct Hos as (Hh & Hlsf & Hlos). cbn [Boxed_state] in Hh, Hlsf, Hlos.
  pose proof (Boxed_stackSize_ge (Boxed.maxStackSize e)) as Hge.
  unfold Boxed.dispatch.
  destruct (decide (Boxed.sfTop s = -1)) as [E|Hne].
  { destruct (load_ok (Boxed.os s) 0 ltac:(lia)) as (r & ->). discriminate. }
  destruct (load_ok (Boxed.sf s) (Boxed.sfTop s) ltac:(lia)) as (curtIdx & Hpop).
  rewrite Hpop. cbn [Boxed.orPanic].
  rewrite (Boxed_popped_frames s curtIdx Hpop) in He, Hh.
  set (below := reverse (take (Z.to_nat (Boxed.sfTop s)) (Boxed.sf s))) in *.
  assert (Hbl : Z.of_nat (length below) = Boxed.sfTop s).
  { unfold below. rewrite length_reverse, length_take. lia. }
  destruct (good_head_node _ _ _ HP HO _ _ _ _ Hg He) as (n0 & Hn0 & Hend).
  destruct (good_head_obase _ _ _ HP HO _ _ _ _ Hg He) as (Hb0 & Hbump0 & Hbcap & Hb1).
  destruct (Boxed_prog_node _ _ Hn0) as (curt & Hnode). rewrite Hnode. cbn [Boxed.orPanic].
  pose proof (Boxed_prog_load e _ _ Hnode) as Hn.
  rewrite Hn in Hn0. injection Hn0 as <-.
  pose proof (ts_node _ HP _ _ Hn) as (Hpar & Htgt & Hshape). cbn in Hpar, Htgt, Hshape.
  pose proof (os_node _ _ _ HO _ _ Hn) as Hosn. cbn in Hosn.
  pose proof (br_node e HR _ _ Hnode) as (Hfast & Hop & Hsel).
  assert (Epop : int16 (Boxed.sfTop s - 1) = Boxed.sfTop s - 1).
  { apply int16_small'. lia. }
  rewrite Epop. cbn [oheight] in Hh. unfold bump in Hh, Hbump0, Hbcap.
  rewrite Hn in Hh, Hbump0, Hbcap.
  cbn [akind_of acnt] in Hh, Hbump0, Hbcap.
  destruct (kindOf_cases (Boxed.flag curt))
    as [[Hty Hk]|[[Hty Hk]|[[Hty Hk]|[[Hty Hk]|[[Hty Hk]|[[Hty Hk]|Hdbg]]]]]];
    cbv zeta in *.
  - (* fastOperator *)
    node_type Hty.
    destruct (Boxed_fastOperatorParams_ok e ctx HR curt (Boxed.io s)
                (br_node e HR _ _ Hnode) Hty) as [[[param|err] io1] Hps];
      rewrite Hps; cbn [Boxed.orPanic]; [|discriminate].
    destruct (Boxed_invoke_ok ctx curtIdx curt param io1 (proj1 (proj2 (Hfast Hty))))
      as [[[res [err|]] io2] Hinv]; rewrite Hinv; cbn [Boxed.orPanic]; discriminate.
  - (* operator *)
    node_type Hty. rewrite Hk in Hshape, Hosn, Hh, Hbump0, Hbcap.
    destruct Hshape as (Hcnt & Hch). destruct Hosn as (Hosz & Hcap & Hocap & _).
    destruct (decide (curtIdx > Boxed.maxIdx s)) as [Hgt|Hle].
    + pose proof (good_first_visit _ _ _ HP HO _ _ _ _ _ Hg He Hn
                    ltac:(left; exact Hk) ltac:(lia)) as Hd.
      cbn [adepth] in Hd, Hcap.
      rewrite Boxed_push_ok by lia. cbn [Boxed.orPanic].
      destruct (decide (int16 (Boxed.childCnt curt) = 2)) as [E2|E2].
      * rewrite Boxed_push_ok by (rewrite ?length_insert; lia). cbn [Boxed.orPanic].
        rewrite Boxed_push_ok by (rewrite ?length_insert; lia). cbn [Boxed.orPanic].
        discriminate.
      * rewrite (int16_small' (Boxed.sfTop s - 1 + 1 + int16 (Boxed.childCnt curt))) by lia.
        destruct (Boxed_pushChildren_ok (Z.to_nat (int16 (Boxed.childCnt curt))) 0
                    (<[Z.to_nat (Boxed.sfTop s - 1 + 1) := curtIdx]> (Boxed.sf s))
                    (Boxed.sfTop s - 1 + 1 + int16 (Boxed.childCnt curt))
                    (Boxed.childIdx curt)) as [sf2 Hpc];
          rewrite ?length_insert; try lia.
        rewrite Hpc. cbn [Boxed.orPanic]. discriminate.
    + rewrite decide_False in Hh, Hbump0, Hbcap by lia.
      assert (Eos : int16 (Boxed.osTop s - int16 (Boxed.childCnt curt))
                    = Boxed.osTop s - int16 (Boxed.childCnt curt)).
      { apply int16_small'. lia. }
      rewrite Eos.
      assert (Hparam : is_Some (Boxed.operatorParams (int16 (Boxed.childCnt curt)) (Boxed.os s)
                                  (Boxed.osTop s - int16 (Boxed.childCnt curt)))).
      { unfold Boxed.operatorParams.
        destruct (decide (int16 (Boxed.childCnt curt) = 2)) as [E2|E2].
        - rewrite (int16_small' (Boxed.osTop s - int16 (Boxed.childCnt curt) + 1)) by lia.
          rewrite (int16_small' (Boxed.osTop s - int16 (Boxed.childCnt curt) + 2)) by lia.
          destruct (load_ok (Boxed.os s)
                      (Boxed.osTop s - int16 (Boxed.childCnt curt) + 1) ltac:(lia))
            as (p0 & ->).
          destruct (load_ok (Boxed.os s)
                      (Boxed.osTop s - int16 (Boxed.childCnt curt) + 2) ltac:(lia))
            as (p1 & ->).
          cbn. eauto.
        - unfold Boxed.copyParams, make. rewrite decide_True by lia. cbn.
          rewrite (int16_small' (Boxed.osTop s - int16 (Boxed.childCnt curt) + 1)) by lia.
          rewrite decide_True by lia. eauto. }
      destruct Hparam as [param Hparam]. rewrite Hparam. cbn [Boxed.orPanic].
      destruct (Boxed_invoke_ok ctx curtIdx curt param (Boxed.io s) (Hop Hty))
        as [[[res [err|]] io2] Hinv]; rewrite Hinv; cbn [Boxed.orPanic]; discriminate.
  - (* selector *)
    node_type Hty. destruct (Hsel Hty) as (name & Hv).
    unfold Boxed.getSelectorValue. rewrite Hv.
    destruct (Get ctx (Boxed.selKey curt) name (world (Boxed.io s))) as [[res [err|]] w'];
      cbn [Boxed.orPanic]; [discriminate|].
    destruct (canonical res); cbn [Boxed.orPanic]; discriminate.
  - (* constant *)
    node_type Hty. discriminate.
  - (* cond *)
    node_type Hty. rewrite Hk in Hshape, Hosn, Hh, Hbump0, Hbcap.
    destruct Hosn as (Hosz & Hcap & Hocap & _).
    destruct (decide (curtIdx > Boxed.maxIdx s)) as [Hgt|Hle].
    + pose proof (good_first_visit _ _ _ HP HO _ _ _ _ _ Hg He Hn
                    ltac:(right; exact Hk) ltac:(lia)) as Hd.
      cbn [adepth] in Hd, Hcap.
      rewrite Boxed_push_ok by lia. cbn [Boxed.orPanic].
      rewrite Boxed_push_ok by (rewrite ?length_insert; lia). cbn [Boxed.orPanic].
      rewrite Boxed_push_ok by (rewrite ?length_insert; lia). cbn [Boxed.orPanic].
      discriminate.
    + rewrite decide_False in Hh, Hbump0, Hbcap by lia.
      destruct (load_ok (Boxed.os s) (Boxed.osTop s) ltac:(lia)) as (res & ->).
      cbn [Boxed.orPanic].
      destruct res; try discriminate.
      rewrite Boxed_push_ok by lia. cbn [Boxed.orPanic]. discriminate.
  - (* end *)
    node_type Hty. rewrite Hk in Hh, Hbump0, Hbcap, Hend. cbn [aparent] in Hend.
    specialize (Hend eq_refl).
    assert (Hpi : exists p, load (Boxed.parentIdx e) curtIdx = Some p).
    { eexists. apply default_load_neg; [|reflexivity|lia].
      apply load_Some_range in Hnode. lia. }
    destruct Hpi as (p & ->). cbn [Boxed.orPanic].
    destruct (load_ok (Boxed.os s) (Boxed.osTop s) ltac:(lia)) as (res & ->).
    cbn [Boxed.orPanic]. discriminate.
  - (* debug *)
    destruct Hdbg as (_ & _ & _ & _ & _ & _ & Hk). rewrite Hk in Hshape. contradiction.
Qed.

End BoxedProgress.

Section BoxedHeight.
Context {W : Type}.
Variable e : Boxed.Expr W.
Variable ctx : Ctx W.
Hypothesis HR : Boxed_ready e.

(** The short-circuit block indexes nothing out of range. *)
Lemma Boxed_shortCircuit_safe (sc : sconfig) (m : Z) (s : Boxed.vm W)
    (curt : Boxed.node W) (res : Value) :
  good (Boxed_prog e) sc m ->
  Boxed_abs e (Boxed.AtShortCircuit s curt res) (erase (Boxed_prog e) sc m) ->
  Boxed_os_ok e (Boxed.AtShortCircuit s curt res) (erase (Boxed_prog e) sc m) ->
  Boxed.shortCircuit e s curt res <> Boxed.Panicked.
Proof.
  pose proof (br_tree e HR) as HP. pose proof (br_os e HR) as HO.
  intros Hg Ha Hos.
  destruct sc as [| | | | |i x path]; try contradiction.
  cbn [erase] in Ha, Hos.
  destruct Ha as (Hstk & Hmax & Htop & Hlen & Hnode).
  destruct Hos as (Hh & Hlsf & Hlos). cbn [Boxed_state oheight] in Hh, Hlsf, Hlos.
  destruct (good_after_obase _ _ _ HP HO _ _ _ _ Hg) as (Hix & Hb0 & Hb1).
  pose proof (Boxed_prog_load e _ _ Hnode) as Hn.
  assert (Hpush : forall r, exists os1,
             Boxed.push (Boxed.os s) (Boxed.osTop s) r = Some (os1, Boxed.osTop s + 1)).
  { intros r. eexists. apply Boxed_push_ok; lia. }
  unfold Boxed.shortCircuit.
  destruct res as [|b| | | | | | | | | | | | | | | |];
    try (destruct (Hpush VNil) as (os1 & Hp); rewrite Hp; cbn [Boxed.orPanic]; discriminate);
    try (match goal with
         | |- context [Boxed.push _ _ ?r] =>
             destruct (Hpush r) as (os1 & Hp); rewrite Hp; cbn [Boxed.orPanic]; discriminate
         end).
  destruct (fires (Boxed.flag curt) b).
  - destruct (decide (Boxed.scIdx curt = 0)) as [E|E]; [discriminate|].
    destruct (good_hop_target _ _ _ HP HO _ _ _ _ _ Hg Hn E) as (nt & Hlt & Hd & Hosz).
    cbn [atarget] in Hlt, Hosz.
    destruct (Boxed_prog_node e _ _ Hlt) as (curt' & Hnode').
    pose proof (Boxed_prog_load e _ _ Hnode') as Hn'.
    rewrite Hn' in Hlt. injection Hlt as <-. cbn [adepth] in Hd.
    assert (Hsf : load (Boxed.sfSize e) (Boxed.scIdx curt)
                  = Some (default 0 (Boxed.sfSize e !! Z.to_nat (Boxed.scIdx curt)))).
    { apply default_load; [|reflexivity|lia]. apply load_Some_range in Hnode'. lia. }
    rewrite Hsf, Hosz, Hnode'. cbn [Boxed.orPanic]. discriminate.
  - destruct (Hpush (VBool b)) as (os1 & Hp); rewrite Hp; cbn [Boxed.orPanic]; discriminate.
Qed.

Lemma Boxed_step_safe (sc : sconfig) (m : Z) (c : Boxed.config W) :
  good (Boxed_prog e) sc m ->
  Boxed_abs e c (erase (Boxed_prog e) sc m) ->
  Boxed_os_ok e c (erase (Boxed_prog e) sc m) ->
  Boxed.step e ctx c <> Boxed.Panicked.
Proof.
  destruct c as [s|s curt res]; cbn [Boxed.step].
  - apply Boxed_dispatch_safe. exact HR.
  - apply Boxed_shortCircuit_safe.
Qed.

(** How a turn of the dispatch loop moves [osTop]. *)
Lemma Boxed_dispatch_osTop (s : Boxed.vm W) (c' : Boxed.config W)
    (curtIdx : Z) (curt : Boxed.node W) :
  load (Boxed.sf s) (Boxed.sfTop s) = Some curtIdx ->
  load (Boxed.nodes e) curtIdx = Some curt ->
  Boxed.dispatch e ctx s = Boxed.Next c' ->
  (bump (Boxed_prog e) curtIdx (Boxed.maxIdx s) = 0
   /\ Boxed.osTop (Boxed_state c') = Boxed.osTop s)
  \/ Boxed.osTop (Boxed_state c')
     = int16 (Boxed.osTop s - bump (Boxed_prog e) curtIdx (Boxed.maxIdx s)).
Proof.
  intros Hpop Hnode. unfold bump. rewrite (Boxed_prog_load e _ _ Hnode).
  cbn [akind_of acnt]. unfold Boxed.dispatch.
  destruct (decide (Boxed.sfTop s = -1)) as [E|Hne].
  { destruct (load (Boxed.os s) 0); discriminate. }
  rewrite Hpop. cbn [Boxed.orPanic]. rewrite Hnode. cbn [Boxed.orPanic].
  destruct (kindOf_cases (Boxed.flag curt))
    as [[Hty Hk]|[[Hty Hk]|[[Hty Hk]|[[Hty Hk]|[[Hty Hk]|[[Hty Hk]|Hdbg]]]]]];
    cbv zeta in *; try rewrite Hk.
  - node_type Hty. unfold Boxed.orPanic. intros H.
    split_matches H; try discriminate; injection H as <-; left; auto.
  - node_type Hty. destruct (decide (curtIdx > Boxed.maxIdx s)).
    + unfold Boxed.orPanic. intros H.
      split_matches H; try discriminate; injection H as <-; left; auto.
    + unfold Boxed.orPanic. intros H.
      split_matches H; try discriminate; injection H as <-; right; reflexivity.
  - node_type Hty. unfold Boxed.orPanic. intros H.
    split_matches H; try discriminate; injection H as <-; left; auto.
  - node_type Hty. intros [= <-]. left; auto.
  - node_type Hty. destruct (decide (curtIdx > Boxed.maxIdx s)).
    + unfold Boxed.orPanic. intros H.
      split_matches H; try discriminate; injection H as <-; left; auto.
    + unfold Boxed.orPanic. intros H.
      split_matches H; try discriminate; injection H as <-; right; reflexivity.
  - node_type Hty. unfold Boxed.orPanic. intros H.
    split_matches H; try discriminate; injection H as <-; right; reflexivity.
  - destruct Hdbg as (H1 & H2 & H3 & H4 & H5 & H6 & Hk). rewrite Hk.
    rewrite !decide_False by assumption.
    unfold Boxed.orPanic. intros H.
    split_matches H; try discriminate; injection H as <-; left; auto.
Qed.

Lemma Boxed_push_top {A} (a a' : list A) (top top' : Z) (x : A) :
  Boxed.push a top x = Some (a', top') -> top' = int16 (top + 1).
Proof.
  unfold Boxed.push. destruct (store a (int16 (top + 1)) x); [|discriminate].
  cbn. intros [= _ <-]. reflexivity.
Qed.

(** How the short-circuit block moves [osTop]. *)
Lemma Boxed_shortCircuit_osTop (s : Boxed.vm W) (curt : Boxed.node W) (res : Value)
    (c' : Boxed.config W) :
  Boxed.shortCircuit e s curt res = Boxed.Next c' ->
  match c' with
  | Boxed.AtLoop s' => Boxed.osTop s' = int16 (Boxed.osTop s + 1)
  | Boxed.AtShortCircuit s' _ _ =>
      exists osSz, load (Boxed.osSize e) (Boxed.scIdx curt) = Some osSz
                   /\ Boxed.osTop s' = int16 (osSz - 1)
  end.
Proof.
  unfold Boxed.shortCircuit, Boxed.orPanic.
  destruct res as [|b| | | | | | | | | | | | | | | |];
    try (destruct (Boxed.push _ _ _) as [[os1 top1]|] eqn:Hpush; [|discriminate];
         intros [= <-]; apply Boxed_push_top in Hpush; exact Hpush).
  destruct (fires (Boxed.flag curt) b).
  - destruct (decide (Boxed.scIdx curt = 0)); [discriminate|].
    destruct (load (Boxed.sfSize e) (Boxed.scIdx curt)); [|discriminate].
    destruct (load (Boxed.osSize e) (Boxed.scIdx curt)) as [osSz|]; [|discriminate].
    destruct (load (Boxed.nodes e) (Boxed.scIdx curt)); [|discriminate].
    intros [= <-]. eauto.
  - destruct (Boxed.push _ _ _) as [[os1 top1]|] eqn:Hpush; [|discriminate].
    intros [= <-]. apply Boxed_push_top in Hpush. exact Hpush.
Qed.

(** The operand stack stays as high as the frames expect. *)
Lemma Boxed_os_step (sc : sconfig) (m : Z) (c c' : Boxed.config W) (ac' : aconfig) :
  good (Boxed_prog e) sc m ->
  Boxed_abs e c (erase (Boxed_prog e) sc m) ->
  Boxed_os_ok e c (erase (Boxed_prog e) sc m) ->
  Boxed.step e ctx c = Boxed.Next c' ->
  astep (Boxed_prog e) (erase (Boxed_prog e) sc m) ac' ->
  Boxed_abs e c' ac' ->
  Boxed_os_ok e c' ac'.
Proof.
  pose proof (br_tree e HR) as HP. pose proof (br_os e HR) as HO.
  intros Hg Ha Hos Hstep Hs Ha'.
  destruct (Boxed_step_lengths e ctx c c' Hstep) as (Hl1 & Hl2).
  destruct Hos as (Hh & Hlsf & Hlos).
  split; [|rewrite Hl1, Hl2; auto].
  pose proof (oheight_step _ _ _ HP HO sc m ac' Hg Hs) as Hmove.
  pose proof (erase_m (Boxed_prog e) sc m) as Hm.
  destruct c as [s|s curt res]; cbn [Boxed.step Boxed_state] in *.
  - destruct (erase (Boxed_prog e) sc m) as [stk m0|] eqn:He; [|contradiction]. subst m0.
    destruct Ha as (-> & Hmax & Htop & Hlen).
    assert (Hpop : exists curtIdx, load (Boxed.sf s) (Boxed.sfTop s) = Some curtIdx).
    { unfold Boxed.dispatch in Hstep.
      destruct (decide (Boxed.sfTop s = -1)).
      - destruct (load (Boxed.os s) 0); discriminate.
      - destruct (load (Boxed.sf s) (Boxed.sfTop s)); [eauto|discriminate]. }
    destruct Hpop as (curtIdx & Hpop).
    rewrite (Boxed_popped_frames s curtIdx Hpop) in He, Hh, Hmove.
    destruct (good_head_obase _ _ _ HP HO _ _ _ _ Hg He) as (Hb0 & Hbump0 & Hbcap & Hb1).
    destruct (good_head_node _ _ _ HP HO _ _ _ _ Hg He) as (n0 & Hn0 & _).
    destruct (Boxed_prog_node e _ _ Hn0) as (curt & Hnode).
    cbn [oheight] in Hh. rewrite Hmove. subst m.
    destruct (Boxed_dispatch_osTop s c' curtIdx curt Hpop Hnode Hstep) as [[E0 ->]| ->].
    + lia.
    + rewrite int16_small' by lia. lia.
  - destruct sc as [| | | | |i x path]; try contradiction.
    cbn [erase] in *.
    destruct Ha as (Hstk & Hmax & Htop & Hlen & Hnode).
    cbn [oheight] in Hh.
    destruct (good_after_obase _ _ _ HP HO _ _ _ _ Hg) as (Hix & Hb0 & Hb1).
    pose proof (Boxed_prog_load e _ _ Hnode) as Hn.
    pose proof (Boxed_shortCircuit_osTop s curt res c' Hstep) as Htop'.
    destruct c' as [s'|s' curt' res']; destruct ac' as [stk' m'|stk' m' t];
      try contradiction; cbn [Boxed_state].
    + rewrite Hmove, Htop'. rewrite int16_small' by lia. lia.
    + destruct Htop' as (osSz & Hosz & ->).
      inversion Hs as [| | | | | | |stk0 m0 i1 n nt Hn1 Ht Hnt]; subst.
      rewrite Hn in Hn1. injection Hn1 as <-. cbn [atarget] in *.
      rewrite Hmove in Hosz. injection Hosz as <-.
      cbn [oheight].
      destruct (good_hop (Boxed_prog e) HP _ _ _ _ _ _ Hg Hn Ht Hnt) as (rest & Hg' & _).
      destruct (good_after_obase _ _ _ HP HO _ _ _ _ Hg') as (_ & Hc0 & Hc1).
      cbn [atarget] in Hc0, Hc1.
      pose proof (Boxed_stackSize_ge (Boxed.maxStackSize e)).
      rewrite int16_small' by lia. lia.
Qed.

(** From a state whose stacks are in order, the loop never panics. *)
Lemma Boxed_run_safe (fuel : nat) :
  forall (sc : sconfig) (m : Z) (c : Boxed.config W),
    good (Boxed_prog e) sc m ->
    Boxed_abs e c (erase (Boxed_prog e) sc m) ->
    Boxed_os_ok e c (erase (Boxed_prog e) sc m) ->
    Boxed.run e ctx fuel c <> Panics.
Proof.
  pose proof (br_tree e HR) as HP.
  induction fuel as [|fuel IH]; intros sc m c Hg Ha Hos; cbn [Boxed.run]; [discriminate|].
  pose proof (Boxed_step_safe sc m c Hg Ha Hos) as Hsafe.
  destruct (Boxed.step e ctx c) as [c'|res err io|] eqn:Hstep;
    [|discriminate|contradiction].
  destruct (Boxed_conform e ctx HP c c' _ Ha (good_hop_ok _ HP _ _ Hg) Hstep)
    as (ac' & Hs & Ha').
  pose proof (Boxed_os_step sc m c c' ac' Hg Ha Hos Hstep Hs Ha') as Hos'.
  destruct (good_step _ HP sc m ac' Hg Hs) as (sc' & m' & -> & Hg' & _).
  exact (IH sc' m' c' Hg' Ha' Hos').
Qed.

Lemma Boxed_init_os (w : W) :
  Boxed_os_ok e (Boxed.AtLoop (Boxed.init e w)) (erase (Boxed_prog e) (SFresh 0 []) (-1)).
Proof.
  pose proof (br_tree e HR) as HP. pose proof (br_os e HR) as HO.
  pose proof (Boxed_stackSize_ge (Boxed.maxStackSize e)).
  destruct (os_root _ _ _ HO) as (n & Hl & Hk).
  unfold Boxed_os_ok. cbn [Boxed_state Boxed.init Boxed.osTop Boxed.sf Boxed.os erase
                             stack_of oheight].
  rewrite !length_replicate.
  rewrite (obase_root _ _ _ HP HO), (bump_fresh _ 0 (-1) n Hl Hk) by lia.
  split_and!; lia.
Qed.

End BoxedHeight.

(** X14.  Node-record variant: [Eval] never panics, whatever the context
    and the operators answer, and once the loop has had one turn more than
    [work] counts for the root it returns a value or an error, on every
    expression that is ready for the loop ([Boxed_ready]), that is, one
    that meets all of the following.
    - The node table lays out a tree: it has fewer than [2^15] nodes, each
      of one of the six node types; the entry of the root in [sfSize] is 1;
      the entry of every node in [parentIdx] is smaller than its index; the
      [scIdx] of a node is 0 or a proper ancestor greater than 0; an
      operator has between 0 and 127 children, the [childCnt] nodes from
      [childIdx] on, each after the operator and with the operator as its
      parent, and a child at position [k] that is itself an operator or a
      conditional has the entry [sfSize + childCnt - k] in [sfSize]; a
      conditional has between 3 and 127 children, the nodes [childIdx],
      [childIdx + 1] and [childIdx + 2] come after it and have it as their
      parent, with the entries [sfSize + 2], [sfSize + 1] and [sfSize + 1]
      in [sfSize] when they are operators or conditionals, and its last
      child [childIdx + childCnt - 1] is an End node with the conditional
      as its parent.
    - [maxStackSize] is below [2^15].
    - The table is not empty and its root is not an End node; no child of
      an operator and none of the children [childIdx], [childIdx + 1],
      [childIdx + 2] of a conditional is an End node, so that every
      conditional has at least four children: the predicate, the two
      branches and the End node.
    - For every operator and every conditional, [osSize] holds its operand
      base (0 for the root, the base of the parent plus the position for a
      child of an operator, the base of the parent for a child of a
      conditional), and with [size] the length of the stacks that [Eval]
      allocates, [sfSize + childCnt <= size] and
      [base + max childCnt 1 <= size] for an operator, [sfSize + 2 <= size]
      and [base + 1 <= size] for a conditional.
    - Every operator and fast operator has a function that is not nil,
      every selector holds its name as a string, and a fast operator has a
      child count that is not negative and reads nodes of the table that
      are constants or hold a name as a string. *)
Theorem Boxed_Eval_never_panics {W} (e : Boxed.Expr W) (ctx : Ctx W) (w : W) (fuel : nat)
    (HR : Boxed_ready e) :
  Boxed.Eval fuel e ctx w <> Panics
  /\ ((work (Boxed_prog e) 0 < fuel)%nat ->
      exists res err io, Boxed.Eval fuel e ctx w = Returns res err io).
Proof.
  pose proof (br_tree e HR) as HP.
  destruct (Boxed_init_abs e w (br_size e HR)) as (Hg & Ha).
  pose proof (Boxed_init_os e HR w) as Hos.
  pose proof (Boxed_run_safe e ctx HR fuel _ _ _ Hg Ha Hos) as Hsafe.
  split; [exact Hsafe|]. intros Hfuel.
  assert (Hterm : Boxed.Eval fuel e ctx w <> OutOfFuel).
  { apply (Boxed_run_bounded ctx e HP fuel _ _ _ Hg Ha).
    cbn [cwork pwork fmap list_fmap sum_list sum_list_with]. lia. }
  unfold Boxed.Eval in *.
  destruct (Boxed.run e ctx fuel (Boxed.AtLoop (Boxed.init e w))) as [res err io| |];
    [eauto|contradiction|contradiction].
Qed.

Lemma exprIfLt_tree : tree_shaped (Boxed_prog (@exprIfLt unit)).
Proof.
  let v := eval vm_compute in (Boxed_prog (@exprIfLt unit)) in
  change (Boxed_prog (@exprIfLt unit)) with v.
  constructor.
  - cbn. lia.
  - intros n [= <-]. reflexivity.
  - intros i n H. unfold load in H. case_decide; [|discriminate].
    destruct (Z.to_nat i) as [|[|[|[|[|[|[|k]]]]]]] eqn:Ei; try discriminate;
      injection H as <-.
    + replace i with 0 by lia. tree_node.
    + replace i with 1 by lia. tree_node.
    + replace i with 2 by lia. tree_node.
    + replace i with 3 by lia. tree_node.
    + replace i with 4 by lia. tree_node.
    + replace i with 5 by lia. tree_node.
    + replace i with 6 by lia. tree_node.
Qed.

(** Checking the operand-stack side of a concrete node table. *)
Ltac os_kind :=
  let Hc := fresh in
  intros Hc; vm_compute in Hc; discriminate Hc.

Ltac os_node_check :=
  cbn [akind_of afirst acnt atarget aparent adepth];
  first
    [ exact I
    | split_and!;
      [ vm_compute; reflexivity
      | vm_compute; discriminate
      | vm_compute; discriminate
      | os_kind | os_kind | os_kind ]
    | split_and!;
      [ vm_compute; reflexivity
      | vm_compute; discriminate
      | vm_compute; discriminate
      | let k := fresh "k" in let Hk := fresh "Hk" in
        intros k Hk;
        first
          [ (assert (k = 0) by lia; subst k; os_kind)
          | (let E := fresh in
             assert (E : k = 0 \/ k = 1) by lia; destruct E; subst k; os_kind)
          | (let E := fresh in
             assert (E : k = 0 \/ k = 1 \/ k = 2) by lia;
             destruct E as [|[|]]; subst k; os_kind) ] ] ].

Ltac ready_child :=
  eexists; split; [vm_compute; reflexivity|];
  first [ left; vm_compute; reflexivity | right; eexists; reflexivity ].

Ltac ready_node_check :=
  unfold Boxed_node_ready;
  cbn [Boxed.flag Boxed.childCnt Boxed.childIdx Boxed.value Boxed.op];
  split_and!;
    let Hty := fresh "Hty" in
    intros Hty; try (vm_compute in Hty; discriminate Hty);
    first
      [ eexists; reflexivity
      | split_and!;
        [ vm_compute; discriminate
        | eexists; reflexivity
        | let k := fresh "k" in let Hk := fresh "Hk" in
          intros k Hk; change (int16 2) with 2 in Hk;
          let E := fresh in
          assert (E : k = 0 \/ k = 1) by lia; destruct E; subst k; ready_child ] ].

Lemma exprIfLt_ready : Boxed_ready (@exprIfLt unit).
Proof.
  constructor.
  - exact exprIfLt_tree.
  - vm_compute. reflexivity.
  - constructor.
    + eexists. split; [vm_compute; reflexivity|discriminate].
    + vm_compute. discriminate.
    + intros i n H. pose proof H as H'. unfold load in H'. case_decide; [|discriminate].
      destruct (Z.to_nat i) as [|[|[|[|[|[|[|k]]]]]]] eqn:Ei; try discriminate;
        vm_compute in H'; injection H' as <-.
      * replace i with 0 by lia. os_node_check.
      * replace i with 1 by lia. os_node_check.
      * replace i with 2 by lia. os_node_check.
      * replace i with 3 by lia. os_node_check.
      * replace i with 4 by lia. os_node_check.
      * replace i with 5 by lia. os_node_check.
      * replace i with 6 by lia. os_node_check.
  - intros i nd H. unfold load in H. case_decide; [|discriminate].
    destruct (Z.to_nat i) as [|[|[|[|[|[|[|k]]]]]]] eqn:Ei; try discriminate;
      injection H as <-; ready_node_check.
Qed.

(** [if(x < y, "lt", "ge")], a conditional over a fast operator that reads
    two selectors, is evaluated without a panic by any context. *)
Lemma Boxed_Eval_never_panics_witness :
  Boxed.Eval 12 (@exprIfLt unit) xyCtx tt <> Panics
  /\ ((work (Boxed_prog (@exprIfLt unit)) 0 < 12)%nat ->
      exists res err io, Boxed.Eval 12 (@exprIfLt unit) xyCtx tt = Returns res err io).
Proof.
  apply (Boxed_Eval_never_panics exprIfLt xyCtx tt 12). exact exprIfLt_ready.
Defined.

(** * The flat variant never indexes out of range *)

Lemma Flat_push_ok {A} (a : list A) (top : Z) (x : A) :
  -1 <= top -> top + 1 < Z.of_nat (length a) -> Z.of_nat (length a) < 2 ^ 15 ->
  Flat.push a top x = Some (<[Z.to_nat (top + 1) := x]> a, top + 1).
Proof.
  intros H1 H2 H3. unfold Flat.push.
  rewrite int_bounded by lia. rewrite store_ok by lia. reflexivity.
Qed.

Lemma Flat_pushChildren_ok (n : nat) :
  forall (i : Z) (sf : list Z) (top c : Z),
    0 <= i -> Z.of_nat n <= top - i + 1 ->
    top < Z.of_nat (length sf) -> Z.of_nat (length sf) < 2 ^ 15 ->
    is_Some (Flat.pushChildren n i sf top c).
Proof.
  induction n as [|n IH]; intros i sf top c Hi Hn Htop Hlen.
  - eexists. reflexivity.
  - cbn [Flat.pushChildren].
    rewrite (int_bounded (top - i)) by lia. rewrite store_ok by lia. cbn.
    rewrite (int_bounded (i + 1)) by lia.
    apply IH; rewrite ?length_insert; lia.
Qed.

Lemma Flat_push_top {A} (a a' : list A) (top top' : Z) (x : A) :
  Flat.push a top x = Some (a', top') -> top' = int (top + 1).
Proof.
  unfold Flat.push. destruct (store a (int (top + 1)) x); [|discriminate].
  cbn. intros [= _ <-]. reflexivity.
Qed.

Lemma Flat_stackSize_ge (size : Z) : 4 <= Flat.stackSize size.
Proof. unfold Flat.stackSize. repeat case_decide; lia. Qed.

Lemma Flat_bytecode_small {W} (e : Flat.Expr W) :
  tree_shaped (Flat_prog e) -> Z.of_nat (length (Flat.bytecode e)) < 2 ^ 17.
Proof.
  intros HP. pose proof (ts_size _ HP) as Hs. rewrite Flat_prog_length in Hs.
  pose proof (Nat.div_mod_eq (length (Flat.bytecode e) + 3) 4) as Hd.
  pose proof (Nat.mod_upper_bound (length (Flat.bytecode e) + 3) 4 ltac:(lia)) as Hm.
  change (2 ^ 15) with 32768 in Hs. change (2 ^ 17) with 131072. lia.
Qed.

Section FlatSafe.
Context {W : Type}.
Variable e : Flat.Expr W.
Variable ctx : Ctx W.
Hypothesis HR : Flat_ready e.

Lemma Flat_getNodeValue_ok (j : Z) (io : IO W) :
  0 <= j -> Flat_readable e j -> is_Some (Flat.getNodeValue e ctx j io).
Proof.
  pose proof (Flat_bytecode_small e (fr_tree e HR)) as Hsz.
  change (2 ^ 17) with 131072 in Hsz.
  intros Hj (b & Hb & Hc). unfold Flat.getNodeValue.
  pose proof (load_Some_range _ _ _ Hb) as Hr.
  pose proof (fr_whole e HR j Hj ltac:(lia)) as Hw.
  rewrite (int_bounded (j * 4)) by (change (2 ^ 20) with 1048576; lia).
  replace (j * 4) with (4 * j) by lia. rewrite Hb. cbn.
  destruct (decide (Z.land b nodeTypeMask = constant)) as [E|E].
  - destruct (Hc E) as (k & v & Hk & Hv).
    rewrite (int_bounded (4 * j + 2)) by (change (2 ^ 20) with 1048576; lia).
    rewrite Hk. cbn. rewrite Hv. cbn. eauto.
  - rewrite (int_bounded (4 * j + 3)) by (change (2 ^ 20) with 1048576; lia).
    destruct (load_ok (Flat.bytecode e) (4 * j + 3) ltac:(lia)) as (key & ->). cbn.
    destruct (Get ctx key "" (world io)) as [r w']. eauto.
Qed.

Lemma Flat_fastParams_ok (n : nat) :
  forall (i childIdx : Z) (param : list Value) (io : IO W),
    0 <= i -> i + Z.of_nat n <= Z.of_nat (length param) -> i + Z.of_nat n < 2 ^ 19 ->
    (forall k, i <= k < i + Z.of_nat n ->
       0 <= childIdx + k /\ Flat_readable e (childIdx + k)) ->
    is_Some (Flat.fastParams e ctx n i childIdx param io).
Proof.
  pose proof (Flat_bytecode_small e (fr_tree e HR)) as Hsz.
  change (2 ^ 17) with 131072 in Hsz.
  induction n as [|n IH]; intros i childIdx param io Hi Hlen Hsmall Hch.
  - eexists. reflexivity.
  - cbn [Flat.fastParams].
    destruct (Hch i ltac:(lia)) as (Hnn & Hr).
    pose proof Hr as (b & Hb & _). apply load_Some_range in Hb.
    rewrite (int_bounded (childIdx + i)) by (change (2 ^ 20) with 1048576; lia).
    destruct (Flat_getNodeValue_ok (childIdx + i) io Hnn Hr) as [[[v [err|]] io'] Hg];
      rewrite Hg; cbn; [eauto|].
    rewrite store_ok by lia. cbn.
    rewrite (int_bounded (i + 1))
      by (change (2 ^ 20) with 1048576; change (2 ^ 19) with 524288 in *; lia).
    apply IH; rewrite ?length_insert; try lia.
    intros k Hk. apply Hch. lia.
Qed.

Lemma Flat_readable_nonneg (j : Z) : Flat_readable e j -> 0 <= j.
Proof. intros (b & Hb & _). apply load_Some_range in Hb. lia. Qed.

Lemma Flat_fastOperatorParams_ok (i b0 childIdx : Z) (io : IO W) :
  Flat_node_ready e i b0 ->
  Z.land b0 nodeTypeMask = fastOperator ->
  load (Flat.bytecode e) (4 * i + 1) = Some childIdx ->
  is_Some (Flat.fastOperatorParams e ctx (Z.shiftr b0 8) childIdx io).
Proof.
  pose proof (Flat_bytecode_small e (fr_tree e HR)) as Hsz.
  change (2 ^ 17) with 131072 in Hsz.
  intros (Hf & _) Hty Hci. destruct (Hf Hty) as (Hcnt & _ & Hch).
  rewrite Hci in Hch. change (default 0 (Some childIdx)) with childIdx in Hch.
  unfold Flat.fastOperatorParams.
  destruct (decide (Z.shiftr b0 8 = 2)) as [E|E].
  - pose proof (Hch 0 ltac:(lia)) as Hr0. pose proof (Hch 1 ltac:(lia)) as Hr1.
    rewrite Z.add_0_r in Hr0.
    destruct (Flat_getNodeValue_ok childIdx io (Flat_readable_nonneg _ Hr0) Hr0)
      as [[[v0 [err|]] io0] Hg0]; rewrite Hg0; cbn; [eauto|].
    pose proof Hr1 as (b & Hb & _). apply load_Some_range in Hb.
    rewrite (int_bounded (childIdx + 1)) by (change (2 ^ 20) with 1048576; lia).
    destruct (Flat_getNodeValue_ok (childIdx + 1) io0 (Flat_readable_nonneg _ Hr1) Hr1)
      as [[[v1 [err|]] io1] Hg1]; rewrite Hg1; cbn; eauto.
  - unfold make. rewrite decide_True by lia. cbn.
    assert (Hsm : Z.shiftr b0 8 < 2 ^ 19).
    { destruct (decide (Z.shiftr b0 8 = 0)) as [E0|E0]; [rewrite E0; lia|].
      pose proof (Hch (Z.shiftr b0 8 - 1) ltac:(lia)) as (b & Hb & _).
      pose proof (Hch 0 ltac:(lia)) as (b' & Hb' & _).
      apply load_Some_range in Hb, Hb'. change (2 ^ 19) with 524288. lia. }
    apply Flat_fastParams_ok; rewrite ?length_replicate; try lia.
    intros k Hk. split; [|apply Hch; lia].
    apply Flat_readable_nonneg. apply Hch. lia.
Qed.

Lemma Flat_invoke_ok (curt : Z) (param : list Value) (io : IO W) :
  0 <= curt -> 4 * curt < Z.of_nat (length (Flat.bytecode e)) ->
  Flat_operator_at e curt -> is_Some (Flat.invoke e ctx curt (4 * curt) param io).
Proof.
  pose proof (Flat_bytecode_small e (fr_tree e HR)) as Hsz.
  change (2 ^ 17) with 131072 in Hsz.
  intros H0 H1 (k & f & Hk & Hf). unfold Flat.invoke.
  rewrite (int_bounded (4 * curt + 2)) by (change (2 ^ 20) with 1048576; lia).
  rewrite Hk. cbn. rewrite Hf. cbn.
  destruct (f ctx param (world io)) as [r w']. eauto.
Qed.

End FlatSafe.

Section FlatProgress.
Context {W : Type}.
Variable e : Flat.Expr W.
Variable ctx : Ctx W.
Hypothesis HR : Flat_ready e.

Lemma Flat_prog_word (i : Z) (n : anode) :
  load (Flat_prog e) i = Some n ->
  0 <= i /\ 4 * i + 3 < Z.of_nat (length (Flat.bytecode e))
  /\ exists b0, load (Flat.bytecode e) (4 * i) = Some b0.
Proof.
  intros H. destruct (Flat_prog_valid e i n H) as (H0 & H1).
  split; [exact H0|]. split; [exact (fr_whole e HR i H0 H1)|].
  apply load_ok. lia.
Qed.

(** A turn of the dispatch loop indexes nothing out of range. *)
Lemma Flat_dispatch_safe (sc : sconfig) (m : Z) (s : Flat.vm W) :
  good (Flat_prog e) sc m ->
  Flat_abs e (Flat.AtLoop s) (erase (Flat_prog e) sc m) ->
  Flat_os_ok e (Flat.AtLoop s) (erase (Flat_prog e) sc m) ->
  Flat.dispatch e ctx s <> Flat.Panicked.
Proof.
  pose proof (fr_tree e HR) as HP. pose proof (fr_os e HR) as HO.
  pose proof (Flat_bytecode_small e HP) as Hsz. change (2 ^ 17) with 131072 in Hsz.
  intros Hg Ha Hos. pose proof (erase_m (Flat_prog e) sc m) as Hm.
  destruct (erase (Flat_prog e) sc m) as [stk m0|] eqn:He; [|contradiction]. subst m0.
  destruct Ha as (-> & Hmax & Htop & Hlen).
  destruct Hos as (Hh & Hlsf & Hlos). cbn [Flat_state] in Hh, Hlsf, Hlos.
  pose proof (Flat_stackSize_ge (Flat.maxStackSize e)) as Hge.
  unfold Flat.dispatch.
  destruct (decide (Flat.sfTop s = -1)) as [E|Hne].
  { destruct (load_ok (Flat.os s) 0 ltac:(lia)) as (r & ->). discriminate. }
  destruct (load_ok (Flat.sf s) (Flat.sfTop s) ltac:(lia)) as (curt & Hpop).
  rewrite Hpop. cbn [Flat.orPanic].
  rewrite (Flat_popped_frames s curt Hpop) in He, Hh.
  set (below := reverse (take (Z.to_nat (Flat.sfTop s)) (Flat.sf s))) in *.
  assert (Hbl : Z.of_nat (length below) = Flat.sfTop s).
  { unfold below. rewrite length_reverse, length_take. lia. }
  destruct (good_head_node _ _ _ HP HO _ _ _ _ Hg He) as (n0 & Hn0 & Hend).
  destruct (good_head_obase _ _ _ HP HO _ _ _ _ Hg He) as (Hb0 & Hbump0 & Hbcap & Hb1).
  destruct (Flat_prog_word _ _ Hn0) as (Hc0 & Hc3 & b0 & Hword).
  rewrite (int_bounded (curt * 4)) by (change (2 ^ 20) with 1048576; lia).
  replace (curt * 4) with (4 * curt) by lia.
  rewrite Hword. cbn [Flat.orPanic].
  pose proof (Flat_prog_load e curt b0 Hc0 Hword) as Hn.
  rewrite Hn in Hn0. injection Hn0 as <-.
  pose proof (ts_node _ HP _ _ Hn) as (Hpar & Htgt & Hshape).
  cbn [akind_of afirst acnt atarget aparent adepth] in Hpar, Htgt, Hshape.
  pose proof (os_node _ _ _ HO _ _ Hn) as Hosn.
  cbn [akind_of afirst acnt atarget aparent adepth] in Hosn.
  pose proof (fr_node e HR _ _ Hc0 Hword) as (Hfast & Hop & Hconst).
  rewrite (int_bounded (Flat.sfTop s - 1)) by lia.
  cbn [oheight] in Hh. unfold bump in Hh, Hbump0, Hbcap.
  rewrite Hn in Hh, Hbump0, Hbcap.
  cbn [akind_of acnt] in Hh, Hbump0, Hbcap.
  destruct (load_ok (Flat.bytecode e) (4 * curt + 1) ltac:(lia)) as (childIdx & Hci).
  destruct (load_ok (Flat.bytecode e) (4 * curt + 3) ltac:(lia)) as (key & Hkey).
  rewrite ?(int_bounded (4 * curt + 1)), ?(int_bounded (4 * curt + 3))
    by (change (2 ^ 20) with 1048576; lia).
  destruct (kindOf_cases b0)
    as [[Hty Hk]|[[Hty Hk]|[[Hty Hk]|[[Hty Hk]|[[Hty Hk]|[[Hty Hk]|Hdbg]]]]]];
    cbv zeta in *.
  - (* fastOperator *)
    node_type Hty. rewrite Hci. cbn [Flat.orPanic].
    destruct (Flat_fastOperatorParams_ok e ctx HR curt b0 childIdx (Flat.io s)
                (fr_node e HR _ _ Hc0 Hword) Hty Hci) as [[[param|err] io1] Hps];
      rewrite Hps; cbn [Flat.orPanic]; [|discriminate].
    destruct (Flat_invoke_ok e ctx HR curt param io1 Hc0 ltac:(lia)
                (proj1 (proj2 (Hfast Hty))))
      as [[[res [err|]] io2] Hinv]; rewrite Hinv; cbn [Flat.orPanic]; discriminate.
  - (* operator *)
    node_type Hty. rewrite Hk in Hshape, Hosn, Hh, Hbump0, Hbcap.
    destruct Hshape as (Hcnt & Hch). destruct Hosn as (Hosz & Hcap & Hocap & _).
    destruct (decide (curt > Flat.maxIdx s)) as [Hgt|Hle].
    + pose proof (good_first_visit _ _ _ HP HO _ _ _ _ _ Hg He Hn
                    ltac:(left; exact Hk) ltac:(lia)) as Hd.
      cbn [adepth] in Hd, Hcap.
      rewrite Flat_push_ok by lia. cbn [Flat.orPanic].
      rewrite Hci. cbn [Flat.orPanic].
      destruct (decide (Z.shiftr b0 8 = 2)) as [E2|E2].
      * rewrite Flat_push_ok by (rewrite ?length_insert; lia). cbn [Flat.orPanic].
        rewrite Flat_push_ok by (rewrite ?length_insert; lia). cbn [Flat.orPanic].
        discriminate.
      * rewrite (int_bounded (Flat.sfTop s - 1 + 1 + Z.shiftr b0 8)) by lia.
        destruct (Flat_pushChildren_ok (Z.to_nat (Z.shiftr b0 8)) 0
                    (<[Z.to_nat (Flat.sfTop s - 1 + 1) := curt]> (Flat.sf s))
                    (Flat.sfTop s - 1 + 1 + Z.shiftr b0 8) childIdx) as [sf2 Hpc];
          rewrite ?length_insert; try lia.
        rewrite Hpc. cbn [Flat.orPanic]. discriminate.
    + rewrite decide_False in Hh, Hbump0, Hbcap by lia.
      rewrite (int_bounded (Flat.osTop s - Z.shiftr b0 8)) by lia.
      assert (Hparam : is_Some (Flat.operatorParams (Z.shiftr b0 8) (Flat.os s)
                                  (Flat.osTop s - Z.shiftr b0 8))).
      { unfold Flat.operatorParams.
        destruct (decide (Z.shiftr b0 8 = 2)) as [E2|E2].
        - rewrite (int_bounded (Flat.osTop s - Z.shiftr b0 8 + 1)) by lia.
          rewrite (int_bounded (Flat.osTop s - Z.shiftr b0 8 + 2)) by lia.
          destruct (load_ok (Flat.os s) (Flat.osTop s - Z.shiftr b0 8 + 1) ltac:(lia))
            as (p0 & ->).
          destruct (load_ok (Flat.os s) (Flat.osTop s - Z.shiftr b0 8 + 2) ltac:(lia))
            as (p1 & ->).
          cbn. eauto.
        - unfold Flat.copyParams, make. rewrite decide_True by lia. cbn.
          rewrite (int_bounded (Flat.osTop s - Z.shiftr b0 8 + 1)) by lia.
          rewrite decide_True by lia. eauto. }
      destruct Hparam as [param Hparam]. rewrite Hparam. cbn [Flat.orPanic].
      destruct (Flat_invoke_ok e ctx HR curt param (Flat.io s) Hc0 ltac:(lia) (Hop Hty))
        as [[[res [err|]] io2] Hinv]; rewrite Hinv; cbn [Flat.orPanic]; discriminate.
  - (* selector *)
    node_type Hty. rewrite Hkey. cbn [Flat.orPanic].
    destruct (Get ctx key "" (world (Flat.io s))) as [[res [err|]] w']; discriminate.
  - (* constant *)
    node_type Hty. destruct (Hconst Hty) as (k & v & Hk2 & Hv).
    rewrite (int_bounded (4 * curt + 2)) by (change (2 ^ 20) with 1048576; lia).
    rewrite Hk2. cbn [Flat.orPanic]. rewrite Hv. cbn [Flat.orPanic]. discriminate.
  - (* cond *)
    node_type Hty. rewrite Hk in Hshape, Hosn, Hh, Hbump0, Hbcap.
    destruct Hosn as (Hosz & Hcap & Hocap & _).
    rewrite Hci. cbn [Flat.orPanic].
    destruct (decide (curt > Flat.maxIdx s)) as [Hgt|Hle].
    + pose proof (good_first_visit _ _ _ HP HO _ _ _ _ _ Hg He Hn
                    ltac:(right; exact Hk) ltac:(lia)) as Hd.
      cbn [adepth] in Hd, Hcap.
      rewrite Flat_push_ok by lia. cbn [Flat.orPanic].
      rewrite Flat_push_ok by (rewrite ?length_insert; lia). cbn [Flat.orPanic].
      rewrite Flat_push_ok by (rewrite ?length_insert; lia). cbn [Flat.orPanic].
      discriminate.
    + rewrite decide_False in Hh, Hbump0, Hbcap by lia.
      destruct (load_ok (Flat.os s) (Flat.osTop s) ltac:(lia)) as (res & ->).
      cbn [Flat.orPanic].
      destruct res; try discriminate.
      rewrite Flat_push_ok by lia. cbn [Flat.orPanic]. discriminate.
  - (* end *)
    node_type Hty. rewrite Hk in Hh, Hbump0, Hbcap, Hend. cbn [aparent] in Hend.
    specialize (Hend eq_refl).
    assert (Hpi : exists p, load (Flat.parentIdx e) curt = Some p).
    { eexists. apply default_load_neg; [lia|reflexivity|lia]. }
    destruct Hpi as (p & ->). cbn [Flat.orPanic].
    destruct (load_ok (Flat.os s) (Flat.osTop s) ltac:(lia)) as (res & ->).
    cbn [Flat.orPanic]. discriminate.
  - (* debug *)
    destruct Hdbg as (_ & _ & _ & _ & _ & _ & Hk). rewrite Hk in Hshape. contradiction.
Qed.

End FlatProgress.

Section FlatHeight.
Context {W : Type}.
Variable e : Flat.Expr W.
Variable ctx : Ctx W.
Hypothesis HR : Flat_ready e.

(** The short-circuit block indexes nothing out of range. *)
Lemma Flat_shortCircuit_safe (sc : sconfig) (m : Z) (s : Flat.vm W)
    (curt flag : Z) (res : Value) :
  good (Flat_prog e) sc m ->
  Flat_abs e (Flat.AtShortCircuit s curt flag res) (erase (Flat_prog e) sc m) ->
  Flat_os_ok e (Flat.AtShortCircuit s curt flag res) (erase (Flat_prog e) sc m) ->
  Flat.shortCircuit e s curt flag res <> Flat.Panicked.
Proof.
  pose proof (fr_tree e HR) as HP. pose proof (fr_os e HR) as HO.
  pose proof (Flat_bytecode_small e HP) as Hsz. change (2 ^ 17) with 131072 in Hsz.
  intros Hg Ha Hos.
  destruct sc as [| | | | |i x path]; try contradiction.
  cbn [erase] in Ha, Hos.
  destruct Ha as (Hstk & Hmax & Htop & Hlen & -> & Hc0 & Hc1).
  destruct Hos as (Hh & Hlsf & Hlos). cbn [Flat_state oheight] in Hh, Hlsf, Hlos.
  destruct (good_after_obase _ _ _ HP HO _ _ _ _ Hg) as (Hix & Hb0 & Hb1).
  destruct (load_ok (Flat.bytecode e) (4 * curt) ltac:(lia)) as (b0 & Hword).
  pose proof (Flat_prog_load e curt b0 Hc0 Hword) as Hn.
  assert (Hpush : forall r, exists os1,
             Flat.push (Flat.os s) (Flat.osTop s) r = Some (os1, Flat.osTop s + 1)).
  { intros r. eexists. apply Flat_push_ok; lia. }
  unfold Flat.shortCircuit.
  destruct res as [|b| | | | | | | | | | | | | | | |];
    try (match goal with
         | |- context [Flat.push _ _ ?r] =>
             destruct (Hpush r) as (os1 & Hp); rewrite Hp; cbn [Flat.orPanic]; discriminate
         end).
  destruct (fires flag b).
  - destruct (fr_sc e HR curt Hc0 Hc1) as (curt' & Hsc). rewrite Hsc. cbn [Flat.orPanic].
    destruct (decide (curt' = 0)) as [E|E]; [discriminate|].
    assert (Ht : atarget (mkANode (kindOf b0)
                   (default 0 (Flat.bytecode e !! Z.to_nat (4 * curt + 1)))
                   (Z.shiftr b0 8)
                   (default 0 (Flat.scIdx e !! Z.to_nat curt))
                   (default (-1) (Flat.parentIdx e !! Z.to_nat curt))
                   (default 0 (Flat.sfSize e !! Z.to_nat curt))) = curt').
    { cbn [atarget]. apply load_default. exact Hsc. }
    destruct (good_hop_target _ _ _ HP HO _ _ _ _ _ Hg Hn ltac:(rewrite Ht; exact E))
      as (nt & Hlt & Hd & Hosz).
    rewrite Ht in Hlt, Hosz.
    destruct (Flat_prog_word e HR _ _ Hlt) as (Ht0 & Ht3 & b1 & Hword').
    pose proof (Flat_prog_load e curt' b1 Ht0 Hword') as Hn'.
    rewrite Hn' in Hlt. injection Hlt as <-. cbn [adepth] in Hd.
    assert (Hsf : load (Flat.sfSize e) curt'
                  = Some (default 0 (Flat.sfSize e !! Z.to_nat curt'))).
    { apply default_load; [lia|reflexivity|lia]. }
    rewrite Hsf, Hosz. cbn [Flat.orPanic].
    rewrite (int_bounded (curt' * 4)) by (change (2 ^ 20) with 1048576; lia).
    replace (curt' * 4) with (4 * curt') by lia.
    rewrite Hword'. cbn [Flat.orPanic]. discriminate.
  - destruct (Hpush (VBool b)) as (os1 & Hp); rewrite Hp; cbn [Flat.orPanic]; discriminate.
Qed.

Lemma Flat_step_safe (sc : sconfig) (m : Z) (c : Flat.config W) :
  good (Flat_prog e) sc m ->
  Flat_abs e c (erase (Flat_prog e) sc m) ->
  Flat_os_ok e c (erase (Flat_prog e) sc m) ->
  Flat.step e ctx c <> Flat.Panicked.
Proof.
  destruct c as [s|s curt flag res]; cbn [Flat.step].
  - apply Flat_dispatch_safe. exact HR.
  - apply Flat_shortCircuit_safe.
Qed.

(** How a turn of the dispatch loop moves [osTop]. *)
Lemma Flat_dispatch_osTop (s : Flat.vm W) (c' : Flat.config W) (curt b0 : Z) :
  load (Flat.sf s) (Flat.sfTop s) = Some curt ->
  0 <= curt -> 4 * curt < 2 ^ 17 ->
  load (Flat.bytecode e) (4 * curt) = Some b0 ->
  Flat.dispatch e ctx s = Flat.Next c' ->
  (bump (Flat_prog e) curt (Flat.maxIdx s) = 0
   /\ Flat.osTop (Flat_state c') = Flat.osTop s)
  \/ Flat.osTop (Flat_state c')
     = int (Flat.osTop s - bump (Flat_prog e) curt (Flat.maxIdx s)).
Proof.
  intros Hpop Hc0 Hc1 Hword. unfold bump. rewrite (Flat_prog_load e _ _ Hc0 Hword).
  cbn [akind_of acnt]. unfold Flat.dispatch.
  destruct (decide (Flat.sfTop s = -1)) as [E|Hne].
  { destruct (load (Flat.os s) 0); discriminate. }
  rewrite Hpop. cbn [Flat.orPanic].
  rewrite (int_bounded (curt * 4))
    by (change (2 ^ 20) with 1048576; change (2 ^ 17) with 131072 in Hc1; lia).
  replace (curt * 4) with (4 * curt) by lia.
  rewrite Hword. cbn [Flat.orPanic].
  destruct (kindOf_cases b0)
    as [[Hty Hk]|[[Hty Hk]|[[Hty Hk]|[[Hty Hk]|[[Hty Hk]|[[Hty Hk]|Hdbg]]]]]];
    cbv zeta in *; try rewrite Hk.
  - node_type Hty. unfold Flat.orPanic. intros H.
    split_matches H; try discriminate; injection H as <-; left; auto.
  - node_type Hty. destruct (decide (curt > Flat.maxIdx s)).
    + unfold Flat.orPanic. intros H.
      split_matches H; try discriminate; injection H as <-; left; auto.
    + unfold Flat.orPanic. intros H.
      split_matches H; try discriminate; injection H as <-; right; reflexivity.
  - node_type Hty. unfold Flat.orPanic. intros H.
    split_matches H; try discriminate; injection H as <-; left; auto.
  - node_type Hty. unfold Flat.orPanic. intros H.
    split_matches H; try discriminate; injection H as <-; left; auto.
  - node_type Hty. destruct (decide (curt > Flat.maxIdx s)).
    + unfold Flat.orPanic. intros H.
      split_matches H; try discriminate; injection H as <-; left; auto.
    + unfold Flat.orPanic. intros H.
      split_matches H; try discriminate; injection H as <-; right; reflexivity.
  - node_type Hty. unfold Flat.orPanic. intros H.
    split_matches H; try discriminate; injection H as <-; right; reflexivity.
  - destruct Hdbg as (H1 & H2 & H3 & H4 & H5 & H6 & Hk). rewrite Hk.
    rewrite !decide_False by assumption.
    unfold Flat.orPanic. intros H.
    split_matches H; try discriminate; injection H as <-; left; auto.
Qed.

(** How the short-circuit block moves [osTop]. *)
Lemma Flat_shortCircuit_osTop (s : Flat.vm W) (curt flag : Z) (res : Value)
    (c' : Flat.config W) :
  Flat.shortCircuit e s curt flag res = Flat.Next c' ->
  match c' with
  | Flat.AtLoop s' => Flat.osTop s' = int (Flat.osTop s + 1)
  | Flat.AtShortCircuit s' curt' _ _ =>
      load (Flat.scIdx e) curt = Some curt'
      /\ exists osSz, load (Flat.osSize e) curt' = Some osSz
                      /\ Flat.osTop s' = int (osSz - 1)
  end.
Proof.
  unfold Flat.shortCircuit, Flat.orPanic.
  destruct res as [|b| | | | | | | | | | | | | | | |];
    try (destruct (Flat.push _ _ _) as [[os1 top1]|] eqn:Hpush; [|discriminate];
         intros [= <-]; apply Flat_push_top in Hpush; exact Hpush).
  destruct (fires flag b).
  - destruct (load (Flat.scIdx e) curt) as [curt'|]; [|discriminate].
    destruct (decide (curt' = 0)); [discriminate|].
    destruct (load (Flat.sfSize e) curt'); [|discriminate].
    destruct (load (Flat.osSize e) curt') as [osSz|] eqn:Hosz; [|discriminate].
    destruct (load (Flat.bytecode e) (int (curt' * 4))); [|discriminate].
    intros [= <-]. split; [reflexivity|]. exists osSz. split; [exact Hosz|reflexivity].
  - destruct (Flat.push _ _ _) as [[os1 top1]|] eqn:Hpush; [|discriminate].
    intros [= <-]. apply Flat_push_top in Hpush. exact Hpush.
Qed.

(** The operand stack stays as high as the frames expect. *)
Lemma Flat_os_step (sc : sconfig) (m : Z) (c c' : Flat.config W) (ac' : aconfig) :
  good (Flat_prog e) sc m ->
  Flat_abs e c (erase (Flat_prog e) sc m) ->
  Flat_os_ok e c (erase (Flat_prog e) sc m) ->
  Flat.step e ctx c = Flat.Next c' ->
  astep (Flat_prog e) (erase (Flat_prog e) sc m) ac' ->
  Flat_abs e c' ac' ->
  Flat_os_ok e c' ac'.
Proof.
  pose proof (fr_tree e HR) as HP. pose proof (fr_os e HR) as HO.
  pose proof (Flat_bytecode_small e HP) as Hsz.
  intros Hg Ha Hos Hstep Hs Ha'.
  destruct (Flat_step_lengths e ctx c c' Hstep) as (Hl1 & Hl2).
  destruct Hos as (Hh & Hlsf & Hlos).
  split; [|rewrite Hl1, Hl2; auto].
  pose proof (oheight_step _ _ _ HP HO sc m ac' Hg Hs) as Hmove.
  pose proof (erase_m (Flat_prog e) sc m) as Hm.
  pose proof (Flat_stackSize_ge (Flat.maxStackSize e)) as Hge.
  destruct c as [s|s curt flag res]; cbn [Flat.step Flat_state] in *.
  - destruct (erase (Flat_prog e) sc m) as [stk m0|] eqn:He; [|contradiction]. subst m0.
    destruct Ha as (-> & Hmax & Htop & Hlen).
    assert (Hpop : exists curt, load (Flat.sf s) (Flat.sfTop s) = Some curt).
    { unfold Flat.dispatch in Hstep.
      destruct (decide (Flat.sfTop s = -1)).
      - destruct (load (Flat.os s) 0); discriminate.
      - destruct (load (Flat.sf s) (Flat.sfTop s)); [eauto|discriminate]. }
    destruct Hpop as (curt & Hpop).
    rewrite (Flat_popped_frames s curt Hpop) in He, Hh, Hmove.
    destruct (good_head_obase _ _ _ HP HO _ _ _ _ Hg He) as (Hb0 & Hbump0 & Hbcap & Hb1).
    destruct (good_head_node _ _ _ HP HO _ _ _ _ Hg He) as (n0 & Hn0 & _).
    destruct (Flat_prog_word e HR _ _ Hn0) as (Hc0 & Hc3 & b0 & Hword).
    cbn [oheight] in Hh. rewrite Hmove. subst m.
    destruct (Flat_dispatch_osTop s c' curt b0 Hpop Hc0 ltac:(lia) Hword Hstep)
      as [[E0 ->]| ->].
    + lia.
    + rewrite int_bounded by lia. lia.
  - destruct sc as [| | | | |i x path]; try contradiction.
    cbn [erase] in *.
    destruct Ha as (Hstk & Hmax & Htop & Hlen & -> & Hc0 & Hc1).
    cbn [oheight] in Hh.
    destruct (good_after_obase _ _ _ HP HO _ _ _ _ Hg) as (Hix & Hb0 & Hb1).
    destruct (load_ok (Flat.bytecode e) (4 * curt) ltac:(lia)) as (b0 & Hword).
    pose proof (Flat_prog_load e curt b0 Hc0 Hword) as Hn.
    pose proof (Flat_shortCircuit_osTop s curt flag res c' Hstep) as Htop'.
    destruct c' as [s'|s' curt' flag' res']; destruct ac' as [stk' m'|stk' m' t];
      try contradiction; cbn [Flat_state].
    + rewrite Hmove, Htop'. rewrite int_bounded by lia. lia.
    + destruct Htop' as (Hsc & osSz & Hosz & ->).
      inversion Hs as [| | | | | | |stk0 m0 i1 n nt Hn1 Ht Hnt]; subst.
      rewrite Hn in Hn1. injection Hn1 as <-. cbn [atarget] in *.
      rewrite (load_default _ _ _ 0 Hsc) in *.
      rewrite Hmove in Hosz. injection Hosz as <-.
      cbn [oheight].
      destruct (good_hop (Flat_prog e) HP _ _ _ _ _ _ Hg Hn Ht Hnt) as (rest & Hg' & _).
      destruct (good_after_obase _ _ _ HP HO _ _ _ _ Hg') as (_ & Hc0' & Hc1').
      cbn [atarget] in Hc0', Hc1'.
      rewrite int_bounded by lia. lia.
Qed.

(** From a state whose stacks are in order, the loop never panics. *)
Lemma Flat_run_safe (fuel : nat) :
  forall (sc : sconfig) (m : Z) (c : Flat.config W),
    good (Flat_prog e) sc m ->
    Flat_abs e c (erase (Flat_prog e) sc m) ->
    Flat_os_ok e c (erase (Flat_prog e) sc m) ->
    Flat.run e ctx fuel c <> Panics.
Proof.
  pose proof (fr_tree e HR) as HP.
  induction fuel as [|fuel IH]; intros sc m c Hg Ha Hos; cbn [Flat.run]; [discriminate|].
  pose proof (Flat_step_safe sc m c Hg Ha Hos) as Hsafe.
  destruct (Flat.step e ctx c) as [c'|res err io|] eqn:Hstep;
    [|discriminate|contradiction].
  destruct (Flat_conform e ctx HP c c' _ Ha (good_hop_ok _ HP _ _ Hg)
              (good_head_small _ HP _ _ Hg) Hstep)
    as (ac' & Hs & Ha').
  pose proof (Flat_os_step sc m c c' ac' Hg Ha Hos Hstep Hs Ha') as Hos'.
  destruct (good_step _ HP sc m ac' Hg Hs) as (sc' & m' & -> & Hg' & _).
  exact (IH sc' m' c' Hg' Ha' Hos').
Qed.

Lemma Flat_init_os (w : W) :
  Flat_os_ok e (Flat.AtLoop (Flat.init e w)) (erase (Flat_prog e) (SFresh 0 []) (-1)).
Proof.
  pose proof (fr_tree e HR) as HP. pose proof (fr_os e HR) as HO.
  pose proof (Flat_stackSize_ge (Flat.maxStackSize e)).
  destruct (os_root _ _ _ HO) as (n & Hl & Hk).
  unfold Flat_os_ok. cbn [Flat_state Flat.init Flat.osTop Flat.sf Flat.os erase
                            stack_of oheight].
  rewrite length_insert, !length_replicate.
  rewrite (obase_root _ _ _ HP HO), (bump_fresh _ 0 (-1) n Hl Hk) by lia.
  split_and!; lia.
Qed.

End FlatHeight.

(** X15.  Flat variant: [Eval] never panics, whatever the context and the
    operators answer, and once the loop has had one turn more than [work]
    counts for the root it returns a value or an error, on every expression
    that is ready for the loop ([Flat_ready]), that is, one that meets all
    of the following.
    - The bytecode is made of whole nodes of four words, and every node has
      an entry in [scIdx].
    - The bytecode lays out a tree: it has fewer than [2^15] nodes, each of
      one of the six node types; the entry of the root in [sfSize] is 1;
      the entry of every node in [parentIdx] is smaller than its index; the
      entry of a node in [scIdx] is 0 or a proper ancestor greater than 0;
      an operator has between 0 and 127 children, the nodes from its child
      index on, each after the operator and with the operator as its
      parent, and a child at position [k] that is itself an operator or a
      conditional has the entry [sfSize + cnt - k] in [sfSize]; a
      conditional has between 3 and 127 children, the nodes [childIdx],
      [childIdx + 1] and [childIdx + 2] come after it and have it as their
      parent, with the entries [sfSize + 2], [sfSize + 1] and [sfSize + 1]
      in [sfSize] when they are operators or conditionals, and its last
      child [childIdx + cnt - 1] is an End node with the conditional as its
      parent.
    - [maxStackSize] is below [2^15].
    - The bytecode is not empty and its root is not an End node; no child
      of an operator and none of the children [childIdx], [childIdx + 1],
      [childIdx + 2] of a conditional is an End node, so that every
      conditional has at least four children: the predicate, the two
      branches and the End node.
    - For every operator and every conditional, [osSize] holds its operand
      base (0 for the root, the base of the parent plus the position for a
      child of an operator, the base of the parent for a child of a
      conditional), and with [size] the length of the stacks that [Eval]
      allocates, [sfSize + cnt <= size] and [base + max cnt 1 <= size] for
      an operator, [sfSize + 2 <= size] and [base + 1 <= size] for a
      conditional.
    - The third word of every operator and fast operator names an operator
      of the table [operators] that is not nil, the third word of every
      constant names an entry of the table [constants], and a fast operator
      has a child count that is not negative and reads nodes of the
      bytecode whose constants, if they are constants, are in their
      table. *)
Theorem Flat_Eval_never_panics {W} (e : Flat.Expr W) (ctx : Ctx W) (w : W) (fuel : nat)
    (HR : Flat_ready e) :
  Flat.Eval fuel e ctx w <> Panics
  /\ ((work (Flat_prog e) 0 < fuel)%nat ->
      exists res err io, Flat.Eval fuel e ctx w = Returns res err io).
Proof.
  pose proof (fr_tree e HR) as HP.
  destruct (Flat_init_abs e w (fr_size e HR)) as (Hg & Ha).
  pose proof (Flat_init_os e HR w) as Hos.
  pose proof (Flat_run_safe e ctx HR fuel _ _ _ Hg Ha Hos) as Hsafe.
  split; [exact Hsafe|]. intros Hfuel.
  assert (Hterm : Flat.Eval fuel e ctx w <> OutOfFuel).
  { apply (Flat_run_bounded ctx e HP fuel _ _ _ Hg Ha).
    cbn [cwork pwork fmap list_fmap sum_list sum_list_with]. lia. }
  unfold Flat.Eval in *.
  destruct (Flat.run e ctx fuel (Flat.AtLoop (Flat.init e w))) as [res err io| |];
    [eauto|contradiction|contradiction].
Qed.

Lemma flat_exprIfLt_tree : tree_shaped (Flat_prog (encode (@exprIfLt unit))).
Proof.
  let v := eval vm_compute in (Flat_prog (encode (@exprIfLt unit))) in
  change (Flat_prog (encode (@exprIfLt unit))) with v.
  constructor.
  - cbn. lia.
  - intros n [= <-]. reflexivity.
  - intros i n H. unfold load in H. case_decide; [|discriminate].
    destruct (Z.to_nat i) as [|[|[|[|[|[|[|k]]]]]]] eqn:Ei; try discriminate;
      injection H as <-.
    + replace i with 0 by lia. tree_node.
    + replace i with 1 by lia. tree_node.
    + replace i with 2 by lia. tree_node.
    + replace i with 3 by lia. tree_node.
    + replace i with 4 by lia. tree_node.
    + replace i with 5 by lia. tree_node.
    + replace i with 6 by lia. tree_node.
Qed.

Ltac flat_at := do 2 eexists; split; [vm_compute; reflexivity|vm_compute; reflexivity].

Ltac flat_child :=
  eexists; split; [vm_compute; reflexivity|];
  let Hc := fresh in intros Hc; first [vm_compute in Hc; discriminate Hc | flat_at].

Ltac flat_node_check :=
  unfold Flat_node_ready; split_and!;
    let Hty := fresh "Hty" in
    intros Hty; try (vm_compute in Hty; discriminate Hty);
    first
      [ flat_at
      | split_and!;
        [ vm_compute; discriminate
        | flat_at
        | let k := fresh "k" in let Hk := fresh "Hk" in
          intros k Hk;
          match type of Hk with
          | context [Z.shiftr ?a ?b] =>
              let v := eval vm_compute in (Z.shiftr a b) in
              change (Z.shiftr a b) with v in Hk
          end;
          let E := fresh in
          assert (E : k = 0 \/ k = 1) by lia; destruct E; subst k; flat_child ] ].

Lemma flat_exprIfLt_ready : Flat_ready (encode (@exprIfLt unit)).
Proof.
  assert (Hlen : length (Flat.bytecode (encode (@exprIfLt unit))) = 28%nat)
    by (vm_compute; reflexivity).
  constructor.
  - exact flat_exprIfLt_tree.
  - vm_compute. reflexivity.
  - constructor.
    + eexists. split; [vm_compute; reflexivity|discriminate].
    + vm_compute. discriminate.
    + intros i n H. pose proof H as H'. unfold load in H'. case_decide; [|discriminate].
      destruct (Z.to_nat i) as [|[|[|[|[|[|[|k]]]]]]] eqn:Ei; try discriminate;
        vm_compute in H'; injection H' as <-.
      * replace i with 0 by lia. os_node_check.
      * replace i with 1 by lia. os_node_check.
      * replace i with 2 by lia. os_node_check.
      * replace i with 3 by lia. os_node_check.
      * replace i with 4 by lia. os_node_check.
      * replace i with 5 by lia. os_node_check.
      * replace i with 6 by lia. os_node_check.
  - intros i H0 H1. rewrite Hlen in *. lia.
  - intros i H0 H1. rewrite Hlen in H1.
    destruct (load_ok (Flat.scIdx (encode (@exprIfLt unit))) i) as (x & Hx);
      [|eexists; exact Hx].
    change (length (Flat.scIdx (encode (@exprIfLt unit)))) with 7%nat. lia.
  - intros i b0 H0 H. pose proof (load_Some_range _ _ _ H) as Hr. rewrite Hlen in Hr.
    assert (E : i = 0 \/ i = 1 \/ i = 2 \/ i = 3 \/ i = 4 \/ i = 5 \/ i = 6) by lia.
    destruct E as [|[|[|[|[|[|]]]]]]; subst i; vm_compute in H; injection H as <-;
      flat_node_check.
Qed.

(** The bytecode of [if(x < y, "lt", "ge")] is evaluated without a panic
    by any context. *)
Lemma Flat_Eval_never_panics_witness :
  Flat.Eval 12 (encode (@exprIfLt unit)) xyCtx tt <> Panics
  /\ ((work (Flat_prog (encode (@exprIfLt unit))) 0 < 12)%nat ->
      exists res err io,
        Flat.Eval 12 (encode (@exprIfLt unit)) xyCtx tt = Returns res err io).
Proof.
  apply (Flat_Eval_never_panics (encode exprIfLt) xyCtx tt 12). exact flat_exprIfLt_ready.
Defined.

(** * What the loop finds on the operand stack *)

Section BoxedOperands.
Context {W : Type}.
Variable e : Boxed.Expr W.
Variable ctx : Ctx W.
Hypothesis HR : Boxed_ready e.

Lemma Boxed_track_os (k : nat) :
  forall (sc : sconfig) (m : Z) (c c' : Boxed.config W),
    good (Boxed_prog e) sc m ->
    Boxed_abs e c (erase (Boxed_prog e) sc m) ->
    Boxed_os_ok e c (erase (Boxed_prog e) sc m) ->
    Boxed_steps e ctx k c = Some c' ->
    exists sc' m', good (Boxed_prog e) sc' m'
                   /\ Boxed_abs e c' (erase (Boxed_prog e) sc' m')
                   /\ Boxed_os_ok e c' (erase (Boxed_prog e) sc' m').
Proof.
  pose proof (br_tree e HR) as HP.
  induction k as [|k IH]; intros sc m c c' Hg Ha Hos; cbn [Boxed_steps].
  - intros [= <-]. eauto.
  - destruct (Boxed.step e ctx c) as [c1| |] eqn:Hstep; try discriminate.
    destruct (Boxed_conform e ctx HP c c1 _ Ha (good_hop_ok _ HP _ _ Hg) Hstep)
      as (ac' & Hs & Ha').
    pose proof (Boxed_os_step e ctx HR sc m c c1 ac' Hg Ha Hos Hstep Hs Ha') as Hos'.
    destruct (good_step _ HP sc m ac' Hg Hs) as (sc' & m' & -> & Hg' & _).
    apply (IH sc' m' c1 c' Hg' Ha' Hos').
Qed.

End BoxedOperands.

Section FlatOperands.
Context {W : Type}.
Variable e : Flat.Expr W.
Variable ctx : Ctx W.
Hypothesis HR : Flat_ready e.

Lemma Flat_track_os (k : nat) :
  forall (sc : sconfig) (m : Z) (c c' : Flat.config W),
    good (Flat_prog e) sc m ->
    Flat_abs e c (erase (Flat_prog e) sc m) ->
    Flat_os_ok e c (erase (Flat_prog e) sc m) ->
    Flat_steps e ctx k c = Some c' ->
    exists sc' m', good (Flat_prog e) sc' m'
                   /\ Flat_abs e c' (erase (Flat_prog e) sc' m')
                   /\ Flat_os_ok e c' (erase (Flat_prog e) sc' m').
Proof.
  pose proof (fr_tree e HR) as HP.
  induction k as [|k IH]; intros sc m c c' Hg Ha Hos; cbn [Flat_steps].
  - intros [= <-]. eauto.
  - destruct (Flat.step e ctx c) as [c1| |] eqn:Hstep; try discriminate.
    destruct (Flat_conform e ctx HP c c1 _ Ha (good_hop_ok _ HP _ _ Hg)
                (good_head_small _ HP _ _ Hg) Hstep)
      as (ac' & Hs & Ha').
    pose proof (Flat_os_step e ctx HR sc m c c1 ac' Hg Ha Hos Hstep Hs Ha') as Hos'.
    destruct (good_step _ HP sc m ac' Hg Hs) as (sc' & m' & -> & Hg' & _).
    apply (IH sc' m' c1 c' Hg' Ha' Hos').
Qed.

End FlatOperands.

(** X16.  Node-record variant, on a table that is ready for the loop: the
    operand stack is balanced.  When the loop ends, exactly one operand is
    on the stack, the result [os[0]]; an operator met for the second time
    finds its [childCnt] operands right above the base [osSize] keeps for
    it, and a conditional met for the second time finds its predicate at
    that base. *)
Theorem Boxed_operands_balanced {W} (e : Boxed.Expr W) (ctx : Ctx W) (w : W)
    (k : nat) (s : Boxed.vm W)
    (HR : Boxed_ready e)
    (Hk : Boxed_steps e ctx k (Boxed.AtLoop (Boxed.init e w)) = Some (Boxed.AtLoop s)) :
  (Boxed.sfTop s = -1 -> Boxed.osTop s = 0)
  /\ (forall x nx,
        Boxed_dispatches e s x nx -> ~ x > Boxed.maxIdx s ->
        (Boxed.getNodeType nx = operator ->
         load (Boxed.osSize e) x = Some (Boxed.osTop s + 1 - int16 (Boxed.childCnt nx)))
        /\ (Boxed.getNodeType nx = cond ->
            load (Boxed.osSize e) x = Some (Boxed.osTop s))).
Proof.
  pose proof (br_tree e HR) as HP. pose proof (br_os e HR) as HO.
  destruct (Boxed_init_abs e w (br_size e HR)) as (Hg0 & Ha0).
  pose proof (Boxed_init_os e HR w) as Hos0.
  destruct (Boxed_track_os e ctx HR k _ _ _ _ Hg0 Ha0 Hos0 Hk) as (sc & m & Hg & Ha & Hos).
  pose proof (erase_m (Boxed_prog e) sc m) as Hm.
  destruct (erase (Boxed_prog e) sc m) as [stk m0|] eqn:He; [|contradiction]. subst m0.
  destruct Ha as (-> & -> & Htop & Hlen).
  destruct Hos as (Hh & _). cbn [Boxed_state] in Hh.
  split.
  - intros E. unfold Boxed_frames, Boxed_live in Hh. rewrite E in Hh.
    change (Z.to_nat (-1 + 1)) with 0%nat in Hh. rewrite take_0 in Hh.
    cbn [reverse rev_append oheight] in Hh. lia.
  - intros x nx Hd Hle. pose proof Hd as (Hne & Hpop & Hnode).
    rewrite (Boxed_dispatches_head e _ _ _ Hd) in Hh. cbn [oheight] in Hh.
    pose proof (Boxed_prog_load e _ _ Hnode) as Hn.
    unfold bump in Hh. rewrite Hn in Hh. cbn [akind_of acnt] in Hh.
    unfold Boxed.getNodeType. split; intros Hty.
    + rewrite (kindOf_operator _ Hty), decide_False in Hh by exact Hle.
      rewrite (os_osz _ _ _ HO x _ Hn) by (left; apply (kindOf_operator _ Hty)).
      f_equal. lia.
    + rewrite (kindOf_cond _ Hty), decide_False in Hh by exact Hle.
      rewrite (os_osz _ _ _ HO x _ Hn) by (right; apply (kindOf_cond _ Hty)).
      f_equal. lia.
Qed.

(** In [if(x < y, "lt", "ge")], after three turns the conditional, node 0,
    is met again with its predicate alone on the operand stack. *)
Lemma Boxed_operands_balanced_witness :
  (Boxed.sfTop vmIfLtSecond = -1 -> Boxed.osTop vmIfLtSecond = 0)
  /\ (forall x nx,
        Boxed_dispatches (@exprIfLt unit) vmIfLtSecond x nx ->
        ~ x > Boxed.maxIdx vmIfLtSecond ->
        (Boxed.getNodeType nx = operator ->
         load (Boxed.osSize (@exprIfLt unit)) x
         = Some (Boxed.osTop vmIfLtSecond + 1 - int16 (Boxed.childCnt nx)))
        /\ (Boxed.getNodeType nx = cond ->
            load (Boxed.osSize (@exprIfLt unit)) x = Some (Boxed.osTop vmIfLtSecond))).
Proof.
  apply (Boxed_operands_balanced exprIfLt xyCtx tt 3 vmIfLtSecond).
  - exact exprIfLt_ready.
  - vm_compute. reflexivity.
Defined.

(** X17.  Flat variant, on a bytecode that is ready for the loop: the
    operand stack is balanced.  When the loop ends, exactly one operand is
    on the stack, the result [os[0]]; an operator met for the second time
    finds its operands right above the base [osSize] keeps for it, and a
    conditional met for the second time finds its predicate at that
    base. *)
Theorem Flat_operands_balanced {W} (e : Flat.Expr W) (ctx : Ctx W) (w : W)
    (k : nat) (s : Flat.vm W)
    (HR : Flat_ready e)
    (Hk : Flat_steps e ctx k (Flat.AtLoop (Flat.init e w)) = Some (Flat.AtLoop s)) :
  (Flat.sfTop s = -1 -> Flat.osTop s = 0)
  /\ (forall x b0,
        Flat_dispatches e s x b0 -> ~ x > Flat.maxIdx s ->
        (Z.land b0 nodeTypeMask = operator ->
         load (Flat.osSize e) x = Some (Flat.osTop s + 1 - Z.shiftr b0 8))
        /\ (Z.land b0 nodeTypeMask = cond ->
            load (Flat.osSize e) x = Some (Flat.osTop s))).
Proof.
  pose proof (fr_tree e HR) as HP. pose proof (fr_os e HR) as HO.
  pose proof (Flat_bytecode_small e HP) as Hsz. change (2 ^ 17) with 131072 in Hsz.
  destruct (Flat_init_abs e w (fr_size e HR)) as (Hg0 & Ha0).
  pose proof (Flat_init_os e HR w) as Hos0.
  destruct (Flat_track_os e ctx HR k _ _ _ _ Hg0 Ha0 Hos0 Hk) as (sc & m & Hg & Ha & Hos).
  pose proof (erase_m (Flat_prog e) sc m) as Hm.
  destruct (erase (Flat_prog e) sc m) as [stk m0|] eqn:He; [|contradiction]. subst m0.
  destruct Ha as (-> & -> & Htop & Hlen).
  destruct Hos as (Hh & _). cbn [Flat_state] in Hh.
  split.
  - intros E. unfold Flat_frames, Flat_live in Hh. rewrite E in Hh.
    change (Z.to_nat (-1 + 1)) with 0%nat in Hh. rewrite take_0 in Hh.
    cbn [reverse rev_append oheight] in Hh. lia.
  - intros x b0 Hd Hle. pose proof Hd as (Hne & Hpop & Hword).
    rewrite (Flat_dispatches_head e _ _ _ Hd) in Hh, He. cbn [oheight] in Hh.
    destruct (good_head_node _ _ _ HP HO _ _ _ _ Hg He) as (n0 & Hn0 & _).
    destruct (Flat_prog_word e HR _ _ Hn0) as (Hc0 & Hc3 & _).
    rewrite (int_bounded (x * 4)) in Hword by (change (2 ^ 20) with 1048576; lia).
    replace (x * 4) with (4 * x) in Hword by lia.
    pose proof (Flat_prog_load e _ _ Hc0 Hword) as Hn.
    unfold bump in Hh. rewrite Hn in Hh. cbn [akind_of acnt] in Hh.
    split; intros Hty.
    + rewrite (kindOf_operator _ Hty), decide_False in Hh by exact Hle.
      rewrite (os_osz _ _ _ HO x _ Hn) by (left; apply (kindOf_operator _ Hty)).
      f_equal. lia.
    + rewrite (kindOf_cond _ Hty), decide_False in Hh by exact Hle.
      rewrite (os_osz _ _ _ HO x _ Hn) by (right; apply (kindOf_cond _ Hty)).
      f_equal. lia.
Qed.

(** The same state of the bytecode of [if(x < y, "lt", "ge")]. *)
Lemma Flat_operands_balanced_witness :
  (Flat.sfTop flatVmIfLtSecond = -1 -> Flat.osTop flatVmIfLtSecond = 0)
  /\ (forall x b0,
        Flat_dispatches (encode (@exprIfLt unit)) flatVmIfLtSecond x b0 ->
        ~ x > Flat.maxIdx flatVmIfLtSecond ->
        (Z.land b0 nodeTypeMask = operator ->
         load (Flat.osSize (encode (@exprIfLt unit))) x
         = Some (Flat.osTop flatVmIfLtSecond + 1 - Z.shiftr b0 8))
        /\ (Z.land b0 nodeTypeMask = cond ->
            load (Flat.osSize (encode (@exprIfLt unit))) x
            = Some (Flat.osTop flatVmIfLtSecond))).
Proof.
  apply (Flat_operands_balanced (encode exprIfLt) xyCtx tt 3 flatVmIfLtSecond).
  - exact flat_exprIfLt_ready.
  - vm_compute. reflexivity.
Defined.

(** * What a fast operator reads *)

Lemma seqZ_succ (m : Z) (n : nat) :
  seqZ m (Z.of_nat (S n)) = m :: seqZ (m + 1) (Z.of_nat n).
Proof.
  rewrite seqZ_cons by lia. f_equal. f_equal; lia.
Qed.

Section BoxedReads.
Context {W : Type}.
Variable e : Boxed.Expr W.
Variable ctx : Ctx W.

Lemma Boxed_readLeaves_app (js1 js2 : list Z) (io : IO W) :
  Boxed_readLeaves e ctx (js1 ++ js2) io =
    match Boxed_readLeaves e ctx js1 io with
    | Some (inl vs, io1) =>
        match Boxed_readLeaves e ctx js2 io1 with
        | Some (inl vs', io2) => Some (inl (vs ++ vs'), io2)
        | r => r
        end
    | r => r
    end.
Proof.
  revert io. induction js1 as [|j js1 IH]; intros io.
  - cbn. destruct (Boxed_readLeaves e ctx js2 io) as [[[?|?] ?]|]; reflexivity.
  - cbn [app Boxed_readLeaves].
    destruct (load (Boxed.nodes e) j) as [ch|]; [|reflexivity].
    destruct (Boxed.getNodeValue ctx ch io) as [[[v [err|]] io1]|]; try reflexivity.
    rewrite IH.
    destruct (Boxed_readLeaves e ctx js1 io1) as [[[vs|?] io2]|]; try reflexivity.
    destruct (Boxed_readLeaves e ctx js2 io2) as [[[?|?] ?]|]; reflexivity.
Qed.

(** The loop of [fastOperatorParams], from its turn [i] on, reads the leaves
    [i] to [i + n - 1] in order and stores what it reads at their places. *)
Lemma Boxed_fastParams_reads (n i : nat) (childIdx : Z) (param : list Value) (io : IO W) :
  (i + n <= length param)%nat -> Z.of_nat (i + n) < 2 ^ 15 ->
  Boxed.fastParams e ctx n (Z.of_nat i) childIdx param io =
    match Boxed_readLeaves e ctx
            ((fun k => int16 (childIdx + k)) <$> seqZ (Z.of_nat i) (Z.of_nat n)) io with
    | Some (inl vs, io') => Some (inl (take i param ++ vs ++ drop (i + n) param), io')
    | r => r
    end.
Proof.
  revert i param io. induction n as [|n IH]; intros i param io Hlen Hsmall.
  - change (Z.of_nat 0) with 0. cbn [seqZ fmap list_fmap Boxed.fastParams Boxed_readLeaves].
    rewrite Nat.add_0_r. change (seqZ (Z.of_nat i) 0) with (@nil Z).
    cbn [fmap list_fmap Boxed_readLeaves app]. rewrite take_drop. reflexivity.
  - rewrite seqZ_succ. cbn [fmap list_fmap Boxed.fastParams Boxed_readLeaves].
    destruct (load (Boxed.nodes e) _) as [ch|]; [|reflexivity]. cbn [mbind option_bind].
    destruct (Boxed.getNodeValue ctx ch io) as [[[v [err|]] io1]|];
      cbn [mbind option_bind]; try reflexivity.
    rewrite store_ok by lia. cbn [mbind option_bind].
    rewrite Nat2Z.id.
    rewrite (int16_small' (Z.of_nat i + 1)) by lia.
    replace (Z.of_nat i + 1) with (Z.of_nat (S i)) by lia.
    rewrite IH by (rewrite ?length_insert; lia).
    destruct (Boxed_readLeaves e ctx _ io1) as [[[vs|?] io2]|]; try reflexivity.
    rewrite take_S_insert by lia. rewrite drop_insert_lt by lia.
    rewrite <- app_assoc. cbn [app].
    replace (S i + n)%nat with (i + S n)%nat by lia. reflexivity.
Qed.

(** Both paths of [fastOperatorParams], the one unrolled for two operands
    and the loop, read the leaves in order. *)
Lemma Boxed_fastOperatorParams_reads (cnt childIdx : Z) (io : IO W) :
  in_signed 16 childIdx -> 0 <= cnt < 2 ^ 15 ->
  Boxed.fastOperatorParams e ctx cnt childIdx io
  = Boxed_readLeaves e ctx (Boxed_leaves childIdx cnt) io.
Proof.
  intros Hc Hcnt. rewrite Boxed_fastOperatorParams_loop by (assumption || lia).
  pose proof (Boxed_fastParams_reads (Z.to_nat cnt) 0 childIdx
                (replicate (Z.to_nat cnt) VNil) io) as H.
  rewrite length_replicate in H. cbn [Nat.add] in H. change (Z.of_nat 0) with 0 in H.
  rewrite H by lia. clear H. rewrite Z2Nat.id by lia. unfold Boxed_leaves.
  rewrite take_0, drop_ge by (rewrite length_replicate; lia).
  destruct (Boxed_readLeaves e ctx _ io) as [[[vs|?] io']|]; try reflexivity.
  cbn [app]. rewrite app_nil_r. reflexivity.
Qed.

(** One turn of the loop on a fast operator. *)
Lemma Boxed_step_fastOperator (s : Boxed.vm W) (curtIdx : Z) (curt : Boxed.node W) :
  Boxed_dispatches e s curtIdx curt ->
  Boxed.getNodeType curt = fastOperator ->
  in_signed 16 (Boxed.childIdx curt) -> 0 <= int16 (Boxed.childCnt curt) ->
  Boxed.step e ctx (Boxed.AtLoop s) =
    match Boxed_readLeaves e ctx
            (Boxed_leaves (Boxed.childIdx curt) (int16 (Boxed.childCnt curt)))
            (Boxed.io s) with
    | None => Boxed.Panicked
    | Some (inr err, io1) => Boxed.Done VNil (Some err) io1
    | Some (inl param, io1) =>
        match Boxed.invoke ctx curtIdx curt param io1 with
        | None => Boxed.Panicked
        | Some ((_, Some err), io2) =>
            Boxed.Done VNil (Some (ErrOperatorExec (Boxed.value curt) err)) io2
        | Some ((res, None), io2) =>
            Boxed.Next (Boxed.AtShortCircuit (Boxed_withIO (Boxed_popped s) io2) curt res)
        end
    end.
Proof.
  intros Hd Hty Hc Hcnt. cbn [Boxed.step].
  rewrite (Boxed_dispatch_fastOperator e ctx s curtIdx curt Hd Hty).
  rewrite Boxed_fastOperatorParams_reads; [reflexivity|exact Hc|].
  pose proof (int16_range (Boxed.childCnt curt)) as Hr. unfold in_signed in Hr.
  change (2 ^ (16 - 1)) with (2 ^ 15) in Hr. lia.
Qed.

(** A leaf whose lookup fails ends the reading with the context's error. *)
Lemma Boxed_readLeaves_fails (js1 js2 : list Z) (j : Z) (ch : Boxed.node W) (io iok : IO W)
    (vs : list Value) (name : string) (v : Value) (err : error) (w' : W) :
  Boxed_readLeaves e ctx js1 io = Some (inl vs, iok) ->
  load (Boxed.nodes e) j = Some ch ->
  Boxed.getNodeType ch <> constant ->
  Boxed.value ch = VString name ->
  Get ctx (Boxed.selKey ch) name (world iok) = ((v, Some err), w') ->
  Boxed_readLeaves e ctx (js1 ++ j :: js2) io
  = Some (inr err, logged iok w' (CallGet (Boxed.selKey ch) name)).
Proof.
  intros Hread Hch Hty Hname Hget.
  rewrite Boxed_readLeaves_app, Hread. cbn [Boxed_readLeaves]. rewrite Hch.
  rewrite Boxed_getNodeValue_leaf by exact Hty.
  rewrite (Boxed_getSelectorValue_err ctx ch name _ v err w' Hname Hget). reflexivity.
Qed.
End BoxedReads.

Section FlatReads.
Context {W : Type}.
Variable e : Flat.Expr W.
Variable ctx : Ctx W.

Lemma int_small' (z : Z) : - 2 ^ 63 <= z < 2 ^ 63 -> int z = z.
Proof. intros H. apply int_small. unfold in_signed. exact H. Qed.

Lemma Flat_fastParams_reads (n i : nat) (childIdx : Z) (param : list Value) (io : IO W) :
  (i + n <= length param)%nat -> Z.of_nat (i + n) < 2 ^ 63 ->
  Flat.fastParams e ctx n (Z.of_nat i) childIdx param io =
    match Flat_readLeaves e ctx
            ((fun k => int (childIdx + k)) <$> seqZ (Z.of_nat i) (Z.of_nat n)) io with
    | Some (inl vs, io') => Some (inl (take i param ++ vs ++ drop (i + n) param), io')
    | r => r
    end.
Proof.
  revert i param io. induction n as [|n IH]; intros i param io Hlen Hsmall.
  - change (Z.of_nat 0) with 0. cbn [Flat.fastParams].
    rewrite Nat.add_0_r. change (seqZ (Z.of_nat i) 0) with (@nil Z).
    cbn [fmap list_fmap Flat_readLeaves app]. rewrite take_drop. reflexivity.
  - rewrite seqZ_succ. cbn [fmap list_fmap Flat.fastParams Flat_readLeaves].
    destruct (Flat.getNodeValue e ctx _ io) as [[[v [err|]] io1]|];
      cbn [mbind option_bind]; try reflexivity.
    rewrite store_ok by lia. cbn [mbind option_bind].
    rewrite Nat2Z.id.
    rewrite (int_small' (Z.of_nat i + 1)) by lia.
    replace (Z.of_nat i + 1) with (Z.of_nat (S i)) by lia.
    rewrite IH by (rewrite ?length_insert; lia).
    destruct (Flat_readLeaves e ctx _ io1) as [[[vs|?] io2]|]; try reflexivity.
    rewrite take_S_insert by lia. rewrite drop_insert_lt by lia.
    rewrite <- app_assoc. cbn [app].
    replace (S i + n)%nat with (i + S n)%nat by lia. reflexivity.
Qed.

Lemma Flat_fastOperatorParams_reads (cnt childIdx : Z) (io : IO W) :
  in_signed 64 childIdx -> 0 <= cnt < 2 ^ 63 ->
  Flat.fastOperatorParams e ctx cnt childIdx io
  = Flat_readLeaves e ctx (Flat_leaves childIdx cnt) io.
Proof.
  intros Hc Hcnt. unfold Flat.fastOperatorParams, Flat_leaves.
  destruct (decide (cnt = 2)) as [->|Hne].
  - change (seqZ 0 2) with [0; 1]. cbn [fmap list_fmap Flat_readLeaves].
    rewrite Z.add_0_r, (int_small childIdx) by exact Hc.
    destruct (Flat.getNodeValue e ctx childIdx io) as [[[p0 [err|]] io0]|];
      cbn [mbind option_bind]; try reflexivity.
    destruct (Flat.getNodeValue e ctx _ io0) as [[[p1 [err|]] io1]|];
      cbn [mbind option_bind]; reflexivity.
  - unfold make. rewrite decide_True by lia. cbn [mbind option_bind].
    pose proof (Flat_fastParams_reads (Z.to_nat cnt) 0 childIdx
                  (replicate (Z.to_nat cnt) VNil) io) as H.
    rewrite length_replicate in H. cbn [Nat.add] in H. change (Z.of_nat 0) with 0 in H.
    rewrite H by lia. clear H. rewrite Z2Nat.id by lia.
    rewrite take_0, drop_ge by (rewrite length_replicate; lia).
    destruct (Flat_readLeaves e ctx _ io) as [[[vs|?] io']|]; try reflexivity.
    cbn [app]. rewrite app_nil_r. reflexivity.
Qed.

(** One turn of the loop on a fast operator. *)
Lemma Flat_step_fastOperator (s : Flat.vm W) (curt b0 childIdx : Z) :
  Flat_dispatches e s curt b0 ->
  Z.land b0 nodeTypeMask = fastOperator ->
  load (Flat.bytecode e) (int (int (curt * 4) + 1)) = Some childIdx ->
  in_signed 64 childIdx -> 0 <= Z.shiftr b0 8 < 2 ^ 63 ->
  Flat.step e ctx (Flat.AtLoop s) =
    match Flat_readLeaves e ctx (Flat_leaves childIdx (Z.shiftr b0 8)) (Flat.io s) with
    | None => Flat.Panicked
    | Some (inr err, io1) => Flat.Done VNil (Some err) io1
    | Some (inl param, io1) =>
        match Flat.invoke e ctx curt (int (curt * 4)) param io1 with
        | None => Flat.Panicked
        | Some ((_, Some err), io2) =>
            Flat.Done VNil (Some (ErrOperatorExec (VInt curt) err)) io2
        | Some ((res, None), io2) =>
            Flat.Next (Flat.AtShortCircuit (Flat_withIO (Flat_popped s) io2)
                         curt (Z.land b0 scMask) res)
        end
    end.
Proof.
  intros (Hne & Hpop & Hnode) Hty Hch Hc Hcnt. cbn [Flat.step].
  unfold Flat.dispatch. rewrite decide_False by exact Hne.
  rewrite Hpop. cbn [Flat.orPanic]. rewrite Hnode. cbn [Flat.orPanic].
  node_type Hty. rewrite Hch. cbn [Flat.orPanic].
  rewrite Flat_fastOperatorParams_reads by assumption.
  destruct (Flat_readLeaves e ctx _ _) as [[[param|err] io1]|];
    cbn [Flat.orPanic]; reflexivity.
Qed.
End FlatReads.

Lemma Boxed_leaves_split (childIdx cnt k : Z) :
  0 <= k < cnt ->
  Boxed_leaves childIdx cnt
  = Boxed_leaves childIdx k ++ int16 (childIdx + k)
      :: ((fun i => int16 (childIdx + i)) <$> seqZ (k + 1) (cnt - k - 1)).
Proof.
  intros Hk. unfold Boxed_leaves.
  replace cnt with (k + (cnt - k)) at 1 by lia.
  rewrite seqZ_app by lia. rewrite fmap_app. f_equal.
  rewrite seqZ_cons by lia. cbn [fmap list_fmap]. rewrite Z.add_0_l.
  reflexivity.
Qed.

Lemma Boxed_leaves_snoc (childIdx k : Z) :
  0 <= k ->
  Boxed_leaves childIdx (k + 1) = Boxed_leaves childIdx k ++ [int16 (childIdx + k)].
Proof.
  intros Hk. unfold Boxed_leaves. rewrite seqZ_app by lia. rewrite fmap_app.
  reflexivity.
Qed.

Lemma Flat_leaves_snoc (childIdx k : Z) :
  0 <= k ->
  Flat_leaves childIdx (k + 1) = Flat_leaves childIdx k ++ [int (childIdx + k)].
Proof.
  intros Hk. unfold Flat_leaves. rewrite seqZ_app by lia. rewrite fmap_app.
  reflexivity.
Qed.

Lemma Flat_readLeaves_app {W} (e : Flat.Expr W) (ctx : Ctx W) (js1 js2 : list Z) (io : IO W) :
  Flat_readLeaves e ctx (js1 ++ js2) io =
    match Flat_readLeaves e ctx js1 io with
    | Some (inl vs, io1) =>
        match Flat_readLeaves e ctx js2 io1 with
        | Some (inl vs', io2) => Some (inl (vs ++ vs'), io2)
        | r => r
        end
    | r => r
    end.
Proof.
  revert io. induction js1 as [|j js1 IH]; intros io.
  - cbn. destruct (Flat_readLeaves e ctx js2 io) as [[[?|?] ?]|]; reflexivity.
  - cbn [app Flat_readLeaves].
    destruct (Flat.getNodeValue e ctx j io) as [[[v [err|]] io1]|]; try reflexivity.
    rewrite IH.
    destruct (Flat_readLeaves e ctx js1 io1) as [[[vs|?] io2]|]; try reflexivity.
    destruct (Flat_readLeaves e ctx js2 io2) as [[[?|?] ?]|]; reflexivity.
Qed.

(** Reading one leaf more: a leaf that is not a constant is looked up with
    its key and its name, and the unified value is the next parameter. *)
Lemma Boxed_readLeaves_next {W} (e : Boxed.Expr W) (ctx : Ctx W) (childIdx k : Z)
    (io iok : IO W) (vs : list Value) (ch : Boxed.node W) (name : string) (v : Value) (w' : W) :
  0 <= k ->
  Boxed_readLeaves e ctx (Boxed_leaves childIdx k) io = Some (inl vs, iok) ->
  load (Boxed.nodes e) (int16 (childIdx + k)) = Some ch ->
  Boxed.getNodeType ch <> constant ->
  Boxed.value ch = VString name ->
  Get ctx (Boxed.selKey ch) name (world iok) = ((v, None), w') ->
  Boxed_readLeaves e ctx (Boxed_leaves childIdx (k + 1)) io
  = Some (inl (vs ++ [if canonical v then v else unifyType v]),
          logged iok w' (CallGet (Boxed.selKey ch) name)).
Proof.
  intros Hk Hread Hch Hty Hname Hget.
  rewrite Boxed_leaves_snoc by exact Hk.
  rewrite Boxed_readLeaves_app, Hread. cbn [Boxed_readLeaves]. rewrite Hch.
  rewrite Boxed_getNodeValue_leaf by exact Hty.
  rewrite (Boxed_getSelectorValue_ok ctx ch name _ v w' Hname Hget). reflexivity.
Qed.

Lemma Flat_readLeaves_next {W} (e : Flat.Expr W) (ctx : Ctx W) (childIdx k : Z)
    (io iok : IO W) (vs : list Value) (b0 key : Z) (v : Value) (w' : W) :
  0 <= k ->
  Flat_readLeaves e ctx (Flat_leaves childIdx k) io = Some (inl vs, iok) ->
  load (Flat.bytecode e) (int (int (childIdx + k) * 4)) = Some b0 ->
  Z.land b0 nodeTypeMask <> constant ->
  load (Flat.bytecode e) (int (int (int (childIdx + k) * 4) + 3)) = Some key ->
  Get ctx key "" (world iok) = ((v, None), w') ->
  Flat_readLeaves e ctx (Flat_leaves childIdx (k + 1)) io
  = Some (inl (vs ++ [v]), logged iok w' (CallGet key "")).
Proof.
  intros Hk Hread Hb0 Hty Hkey Hget.
  rewrite Flat_leaves_snoc by exact Hk.
  rewrite Flat_readLeaves_app, Hread. cbn [Flat_readLeaves].
  rewrite (Flat_getNodeValue_leaf e ctx _ iok b0 key Hb0 Hty Hkey), Hget.
  reflexivity.
Qed.

(** C7, amended. When the context fails a lookup with an error, [Eval]
    stops at once and returns that very error, not wrapped in another one:
    so for a dispatched Selector node, and so for a leaf child of a
    dispatched FastOperator, after the leaves before it have been read (the
    error returned is the one [ctx.Get] gave for that leaf, and the calls
    made are the lookups up to it).  An operator's error, in contrast,
    comes back wrapped in an operator execution error. *)
Theorem selector_error_returned_as_is {W} (e : Boxed.Expr W) (ctx : Ctx W)
    (s : Boxed.vm W) (curtIdx : Z) (curt : Boxed.node W) (fuel : nat)
    (Hd : Boxed_dispatches e s curtIdx curt) :
  (forall name v err w',
     Boxed.getNodeType curt = selector ->
     Boxed.value curt = VString name ->
     Get ctx (Boxed.selKey curt) name (world (Boxed.io s)) = ((v, Some err), w') ->
     Boxed.run e ctx (S fuel) (Boxed.AtLoop s)
     = Returns VNil (Some err)
         (logged (Boxed.io s) w' (CallGet (Boxed.selKey curt) name)))
  /\ (forall k vs iok ch name v err w',
        Boxed.getNodeType curt = fastOperator ->
        in_signed 16 (Boxed.childIdx curt) ->
        0 <= k < int16 (Boxed.childCnt curt) ->
        Boxed_readLeaves e ctx (Boxed_leaves (Boxed.childIdx curt) k) (Boxed.io s)
        = Some (inl vs, iok) ->
        load (Boxed.nodes e) (int16 (Boxed.childIdx curt + k)) = Some ch ->
        Boxed.getNodeType ch <> constant ->
        Boxed.value ch = VString name ->
        Get ctx (Boxed.selKey ch) name (world iok) = ((v, Some err), w') ->
        Boxed.run e ctx (S fuel) (Boxed.AtLoop s)
        = Returns VNil (Some err) (logged iok w' (CallGet (Boxed.selKey ch) name)))
  /\ (forall err io1,
        Boxed.getNodeType curt = fastOperator ->
        Boxed.fastOperatorParams e ctx (int16 (Boxed.childCnt curt))
          (Boxed.childIdx curt) (Boxed.io s) = Some (inr err, io1) ->
        Boxed.run e ctx (S fuel) (Boxed.AtLoop s) = Returns VNil (Some err) io1)
  /\ (forall param io1 v err io2,
        Boxed.getNodeType curt = fastOperator ->
        Boxed.fastOperatorParams e ctx (int16 (Boxed.childCnt curt))
          (Boxed.childIdx curt) (Boxed.io s) = Some (inl param, io1) ->
        Boxed.invoke ctx curtIdx curt param io1 = Some ((v, Some err), io2) ->
        Boxed.run e ctx (S fuel) (Boxed.AtLoop s)
        = Returns VNil (Some (ErrOperatorExec (Boxed.value curt) err)) io2).
Proof.
  destruct (selector_error_paths e ctx s curtIdx curt fuel Hd) as (H1 & H2 & H3).
  split; [exact H1|]. split; [|split; [exact H2|exact H3]].
  intros k vs iok ch name v err w' Hty Hc Hk Hread Hch Hcty Hname Hget.
  apply Boxed_run_done.
  rewrite (Boxed_step_fastOperator e ctx s curtIdx curt Hd Hty Hc) by lia.
  rewrite (Boxed_leaves_split _ _ k Hk).
  rewrite (Boxed_readLeaves_fails e ctx _ _ _ ch _ iok vs name v err w'
             Hread Hch Hcty Hname Hget).
  reflexivity.
Qed.

Lemma selector_error_returned_as_is_witness :
  (Boxed_dispatches exprX (Boxed.init exprX tt) 0
     (Boxed.mkNode selector 0 0 0 1 (VString "x") None)
   /\ Boxed.run exprX (constCtx (VNil, Some (ErrNew "db down")) false) 1
        (Boxed.AtLoop (Boxed.init exprX tt))
      = Returns VNil (Some (ErrNew "db down")) (mkIO tt [CallGet 1 "x"]))
  /\ (Boxed_dispatches exprLt (Boxed.init exprLt tt) 0 nodeLt
      /\ Boxed_readLeaves exprLt xOnlyCtx (Boxed_leaves 1 1) (mkIO tt [])
         = Some (inl [VInt64 3], mkIO tt [CallGet 1 "x"])
      /\ Boxed.run exprLt xOnlyCtx 1 (Boxed.AtLoop (Boxed.init exprLt tt))
         = Returns VNil (Some (ErrNew "no such variable"))
             (mkIO tt [CallGet 1 "x"; CallGet 2 "y"])).
Proof.
  assert (Hd : Boxed_dispatches (W:=unit) exprX (Boxed.init exprX tt) 0
                 (Boxed.mkNode selector 0 0 0 1 (VString "x") None)).
  { repeat split. discriminate. }
  assert (Hd' : Boxed_dispatches (W:=unit) exprLt (Boxed.init exprLt tt) 0 nodeLt).
  { repeat split. discriminate. }
  split; [split; [exact Hd|]|split; [exact Hd'|split; [reflexivity|]]].
  - apply (proj1 (selector_error_returned_as_is exprX
                    (constCtx (VNil, Some (ErrNew "db down")) false)
                    (Boxed.init exprX tt) 0 _ 0 Hd) "x" VNil (ErrNew "db down") tt);
      reflexivity.
  - apply (proj1 (proj2 (selector_error_returned_as_is exprLt xOnlyCtx
                           (Boxed.init exprLt tt) 0 nodeLt 0 Hd'))
             1 [VInt64 3] (mkIO tt [CallGet 1 "x"]) nodeSelY "y" VNil
             (ErrNew "no such variable") tt);
      try reflexivity.
    + vm_compute. split; [discriminate|reflexivity].
    + vm_compute. split; [discriminate|reflexivity].
    + discriminate.
Defined.

(** C2, amended. In the node-record variant every dispatched Selector node,
    and every leaf child of a dispatched FastOperator that is not a
    constant, is looked up by one call of [ctx.Get] with the node's key and
    its display name, and a value of a kind that is not canonical goes
    through the unifier before it is used: the turn of the loop on a
    FastOperator (with a child count that is not negative) reads its
    children [e.nodes[childIdx + i]] in order with [getNodeValue], a
    constant by its value and without a call, stops at the first error, and
    invokes the operator on the values so read; reading one leaf more
    that is not a constant is one call of [ctx.Get] with the key and the
    name of that leaf, and the unified value is the next parameter.  In the
    flat variant the same holds with the key and the empty name, and the
    value is used as the context returned it. *)
Theorem selector_lookup_by_variant {W} (ctx : Ctx W) :
  (forall (e : Boxed.Expr W) s curtIdx curt name v w',
     Boxed_dispatches e s curtIdx curt ->
     Boxed.getNodeType curt = selector ->
     Boxed.value curt = VString name ->
     Get ctx (Boxed.selKey curt) name (world (Boxed.io s)) = ((v, None), w') ->
     Boxed.step e ctx (Boxed.AtLoop s)
     = Boxed.Next (Boxed.AtShortCircuit
         (Boxed_withIO (Boxed_popped s)
            (logged (Boxed.io s) w' (CallGet (Boxed.selKey curt) name)))
         curt (if canonical v then v else unifyType v)))
  /\ (forall (n : Boxed.node W) io,
        (Boxed.getNodeType n = constant ->
         Boxed.getNodeValue ctx n io = Some ((Boxed.value n, None), io))
        /\ (forall name v w',
              Boxed.getNodeType n <> constant ->
              Boxed.value n = VString name ->
              Get ctx (Boxed.selKey n) name (world io) = ((v, None), w') ->
              Boxed.getNodeValue ctx n io
              = Some ((if canonical v then v else unifyType v, None),
                      logged io w' (CallGet (Boxed.selKey n) name))))
  /\ (forall (e : Boxed.Expr W) s curtIdx curt,
        Boxed_dispatches e s curtIdx curt ->
        Boxed.getNodeType curt = fastOperator ->
        in_signed 16 (Boxed.childIdx curt) ->
        0 <= int16 (Boxed.childCnt curt) ->
        Boxed.step e ctx (Boxed.AtLoop s) =
          match Boxed_readLeaves e ctx
                  (Boxed_leaves (Boxed.childIdx curt) (int16 (Boxed.childCnt curt)))
                  (Boxed.io s) with
          | None => Boxed.Panicked
          | Some (inr err, io1) => Boxed.Done VNil (Some err) io1
          | Some (inl param, io1) =>
              match Boxed.invoke ctx curtIdx curt param io1 with
              | None => Boxed.Panicked
              | Some ((_, Some err), io2) =>
                  Boxed.Done VNil (Some (ErrOperatorExec (Boxed.value curt) err)) io2
              | Some ((res, None), io2) =>
                  Boxed.Next (Boxed.AtShortCircuit
                                (Boxed_withIO (Boxed_popped s) io2) curt res)
              end
          end)
  /\ (forall (e : Boxed.Expr W) childIdx k io iok vs ch name v w',
        0 <= k ->
        Boxed_readLeaves e ctx (Boxed_leaves childIdx k) io = Some (inl vs, iok) ->
        load (Boxed.nodes e) (int16 (childIdx + k)) = Some ch ->
        Boxed.getNodeType ch <> constant ->
        Boxed.value ch = VString name ->
        Get ctx (Boxed.selKey ch) name (world iok) = ((v, None), w') ->
        Boxed_readLeaves e ctx (Boxed_leaves childIdx (k + 1)) io
        = Some (inl (vs ++ [if canonical v then v else unifyType v]),
                logged iok w' (CallGet (Boxed.selKey ch) name)))
  /\ (forall (e : Flat.Expr W) s curt b0 key v w',
        Flat_dispatches e s curt b0 ->
        Z.land b0 nodeTypeMask = selector ->
        load (Flat.bytecode e) (int (int (curt * 4) + 3)) = Some key ->
        Get ctx key "" (world (Flat.io s)) = ((v, None), w') ->
        Flat.step e ctx (Flat.AtLoop s)
        = Flat.Next (Flat.AtShortCircuit
            (Flat_withIO (Flat_popped s) (logged (Flat.io s) w' (CallGet key "")))
            curt (Z.land b0 scMask) v))
  /\ (forall (e : Flat.Expr W) i io b0,
        load (Flat.bytecode e) (int (i * 4)) = Some b0 ->
        (forall k c,
           Z.land b0 nodeTypeMask = constant ->
           load (Flat.bytecode e) (int (int (i * 4) + 2)) = Some k ->
           load (Flat.constants e) k = Some c ->
           Flat.getNodeValue e ctx i io = Some ((c, None), io))
        /\ (forall key v w',
              Z.land b0 nodeTypeMask <> constant ->
              load (Flat.bytecode e) (int (int (i * 4) + 3)) = Some key ->
              Get ctx key "" (world io) = ((v, None), w') ->
              Flat.getNodeValue e ctx i io
              = Some ((v, None), logged io w' (CallGet key ""))))
  /\ (forall (e : Flat.Expr W) s curt b0 childIdx,
        Flat_dispatches e s curt b0 ->
        Z.land b0 nodeTypeMask = fastOperator ->
        load (Flat.bytecode e) (int (int (curt * 4) + 1)) = Some childIdx ->
        in_signed 64 childIdx ->
        0 <= Z.shiftr b0 8 < 2 ^ 63 ->
        Flat.step e ctx (Flat.AtLoop s) =
          match Flat_readLeaves e ctx (Flat_leaves childIdx (Z.shiftr b0 8))
                  (Flat.io s) with
          | None => Flat.Panicked
          | Some (inr err, io1) => Flat.Done VNil (Some err) io1
          | Some (inl param, io1) =>
              match Flat.invoke e ctx curt (int (curt * 4)) param io1 with
              | None => Flat.Panicked
              | Some ((_, Some err), io2) =>
                  Flat.Done VNil (Some (ErrOperatorExec (VInt curt) err)) io2
              | Some ((res, None), io2) =>
                  Flat.Next (Flat.AtShortCircuit (Flat_withIO (Flat_popped s) io2)
                               curt (Z.land b0 scMask) res)
              end
          end)
  /\ (forall (e : Flat.Expr W) childIdx k io iok vs b0 key v w',
        0 <= k ->
        Flat_readLeaves e ctx (Flat_leaves childIdx k) io = Some (inl vs, iok) ->
        load (Flat.bytecode e) (int (int (childIdx + k) * 4)) = Some b0 ->
        Z.land b0 nodeTypeMask <> constant ->
        load (Flat.bytecode e) (int (int (int (childIdx + k) * 4) + 3)) = Some key ->
        Get ctx key "" (world iok) = ((v, None), w') ->
        Flat_readLeaves e ctx (Flat_leaves childIdx (k + 1)) io
        = Some (inl (vs ++ [v]), logged iok w' (CallGet key ""))).
Proof.
  destruct (selector_lookup_paths ctx) as (H1 & H2 & H3 & H4).
  split; [exact H1|].
  split; [|split; [|split; [|split; [exact H3|split; [|split]]]]].
  - intros n io. split.
    + intros Hty. unfold Boxed.getNodeValue. unfold Boxed.getNodeType in Hty.
      rewrite decide_True by exact Hty. reflexivity.
    + intros name v w'. apply H2.
  - intros e s curtIdx curt. apply Boxed_step_fastOperator.
  - intros e childIdx k io iok vs ch name v w'. apply Boxed_readLeaves_next.
  - intros e i io b0 Hb0. split.
    + intros k c Hty Hk Hc. unfold Flat.getNodeValue.
      rewrite Hb0. cbn [mbind option_bind]. rewrite decide_True by exact Hty.
      rewrite Hk. cbn [mbind option_bind]. rewrite Hc. reflexivity.
    + intros key v w' Hty Hkey Hget. exact (H4 e i io b0 key v w' Hb0 Hty Hkey Hget).
  - intros e s curt b0 childIdx. apply Flat_step_fastOperator.
  - intros e childIdx k io iok vs b0 key v w'. apply Flat_readLeaves_next.
Qed.

Lemma selector_lookup_by_variant_witness :
  (Boxed_dispatches exprX (Boxed.init exprX tt) 0
     (Boxed.mkNode selector 0 0 0 1 (VString "x") None)
   /\ Boxed.step exprX (constCtx (VInt32 3, None) false) (Boxed.AtLoop (Boxed.init exprX tt))
      = Boxed.Next (Boxed.AtShortCircuit
          (Boxed_withIO (Boxed_popped (Boxed.init exprX tt)) (mkIO tt [CallGet 1 "x"]))
          (Boxed.mkNode selector 0 0 0 1 (VString "x") None) (VInt64 3)))
  /\ (Boxed_dispatches exprLt (Boxed.init exprLt tt) 0 nodeLt
      /\ Boxed.step exprLt xy32Ctx (Boxed.AtLoop (Boxed.init exprLt tt))
         = Boxed.Next (Boxed.AtShortCircuit
             (Boxed_withIO (Boxed_popped (Boxed.init exprLt tt))
                (mkIO tt [CallGet 1 "x"; CallGet 2 "y"; CallOp 0 [VInt64 3; VInt64 4]]))
             nodeLt (VBool true))).
Proof.
  assert (Hd : Boxed_dispatches (W:=unit) exprX (Boxed.init exprX tt) 0
                 (Boxed.mkNode selector 0 0 0 1 (VString "x") None)).
  { repeat split. discriminate. }
  assert (Hd' : Boxed_dispatches (W:=unit) exprLt (Boxed.init exprLt tt) 0 nodeLt).
  { repeat split. discriminate. }
  split; [split; [exact Hd|]|split; [exact Hd'|]].
  - apply (proj1 (selector_lookup_by_variant (constCtx (VInt32 3, None) false))
             exprX (Boxed.init exprX tt) 0 _ "x" (VInt32 3) tt Hd);
      reflexivity.
  - etransitivity.
    + apply (proj1 (proj2 (proj2 (selector_lookup_by_variant xy32Ctx)))
               exprLt (Boxed.init exprLt tt) 0 nodeLt Hd' eq_refl).
      * vm_compute. split; [discriminate|reflexivity].
      * vm_compute. discriminate.
    + reflexivity.
Defined.

(** * Laziness, the leaves of fast operators included *)

Section LeafOutside.
Variable P : list anode.
Hypothesis HP : tree_shaped P.

End LeafOutside.












